(* ===== verification/_CoqProject ===== *)
-Q . S2P
Prelude.v
Topic.v
Wire.v
Filters.v
Tree.v
Encoder.v
Decoder.v
Codec.v
CodecProofs.v
Session.v
SessionQueue.v
SessionStore.v
SessionProofs.v
Broker.v
Delivery.v
Auth.v
AuthProofs.v
Client.v
Server.v
Handlers.v
Lifecycle.v
Options.v
ServerInv.v
Ownership.v
SystemProofs.v
ServerTheorems.v
HandlerProofs.v
Frames.v
WriterWaits.v
Consumers.v
PublishProofs.v
Triples.v
SecurityProofs.v
Shutdown.v
Start.v
Durable.v
Will.v
Output.v
Pool.v
TreeHeap.v
Snapshots.v
SnapshotTheorems.v
Writers.v
Address.v
Config.v
Main.v
MainProofs.v
Commands.v
