(* ===== verification/Prelude.v ===== *)
(** Verification of OrbMQ, an MQTT 3.1.1 broker in Go.

    * The program

    A connection is read by [serve] (src/internal/server/server.go), which decodes
    packets (src/internal/protocol/) and dispatches them.  PUBLISH goes to the
    broker (src/internal/broker/broker.go), which updates the retained messages and
    asks the routing tree (src/internal/topic/) for the subscriptions that match; the
    server then puts the message on the send queue of a connected client (QoS 0,
    src/internal/client/) or on the delivery queue of its session (QoS 1,
    src/internal/session/), from which the goroutine of the connection takes
    deliveries one at a time.  Who may connect, publish and subscribe is a policy
    (src/internal/auth/).

    * The files

    - [Prelude]: bytes as [list Z], Go's integers as [Z] with explicit wrap-around
      ([u8], [u16], [u64]), errors and the [result] monad with its notations, the
      tactics of the development and lemmas on sums over maps.
    - [Topic] (topic/parse.go) filters and topic names; [Filters] their theorems.
    - [Tree] (topic/tree.go): the trie of subscriptions and its theorems.
    - [Wire] (protocol/packet.go, wire.go), [Encoder] (encoder.go), [Decoder]
      (decoder.go): packets, readers, validation, encoding and decoding.  A reader
      is the bytes to come and the error after them, behind the class [IoReader];
      [Codec] gives the law of readers (class [IoReaderSpec]) and the wire format, with
      what MQTT allows in it and what the decoder accepts, [CodecProofs] the theorems.
    - [Session] (session/queue.go, store.go): the store of sessions; the methods of
      a session are functions of type [method].  [SessionQueue] relates the queue of
      a session to an abstract queue, [SessionStore] is the invariant of the store,
      proved through the class [MethodOk], [SessionProofs] has the theorems.
    - [Broker] (broker/broker.go): subscriptions and retained messages.
    - [Delivery] (the end of server/server.go): the packets and templates made for
      subscribers.
    - [Auth] (auth/local.go, password.go), [AuthProofs]: policies, passwords.
    - [Client] (client/client.go): the send queue of a connection and its writer, as
      a transition system, with its theorems.
    - [Server] (server/server.go, security.go): the memory the goroutines share, a
      monad [action] of state and panics over it (nil pointers, channels closed twice,
      wait groups below zero), accounts of connections, checks of the policy, take-over,
      closing and expiry of sessions.  [Handlers]: delivery and
      the handler of every packet.  [Lifecycle]: [handleConn], [serve] and
      [consumeDeliveries] as a state machine per connection, and the whole server as
      a transition system ([System], [sys_event], [sys_exec], [sys_reachable]).
    - [ServerInv]: the invariant of the shared memory ([server_ok]) and that the
      handlers keep it; [Ownership]: that opening, closing and expiring sessions keep
      it; [SystemProofs]: the invariant of the whole system ([sys_ok]) and that every
      event keeps it.  [ServerTheorems], [PublishProofs], [HandlerProofs] (SUBSCRIBE)
      and [SecurityProofs] (authentication) have the theorems.  [Frames]: the classes
      [ServerFrame] and [SystemFrame] of relations that operations and events keep, so
      that what is never touched is proved once; [WriterWaits]: every running writer
      has a handler that will wait for it; [Consumers]: a stored session is paused only
      while its connection waits in the middle of SUBSCRIBE, and consumers are woken.
      [Shutdown]: accepting connections, and that a cancelled server ends.
    - [Triples]: triples on actions and the interface [Handling], what a proof about
      the packet handlers has to say about the operations they consist of.  [Will],
      when the will is published, and [Output], what a client receives, are proved
      against it.  [Durable]: that no message of QoS 1 is lost.
    - [Options]: [New] with its options and the servers they make.  [Start]: [Start]
      with its listener, all its goroutines and contexts, around the transition system.
    - [Pool] (topic/pool.go and the pools' users): the slices of subscriptions and the
      encode buffers that goroutines share, with their memory.
    - [TreeHeap] (topic/tree.go): the trie as nodes in memory that are changed in place,
      and a predicate [stands_for] that relates a pointer to a tree of [Tree].
      [Snapshots] (broker/broker.go): the broker as goroutines share it, one step per
      statement, with the mutexes, the atomic values, nodes and maps in memory, and
      the simulation ([implements]) by the operations of [Broker];
      [SnapshotTheorems] has the theorems.
    - [Writers] (protocol/encoder.go): the encoders on any [io.Writer], which may fail
      (classes [IoWriter] and [IoWriterSpec]).
    - [Address]: the functions of Go's library on addresses and paths that the
      configuration uses.  [Config] (config/): validation, strict YAML, security.
      [Main] (cmd/, observation/): what the commands compute and the log of
      [observation.Run].  [MainProofs] has their theorems.  [Commands]: both commands as
      processes, with the goroutine of the reports around [Start], signals, input,
      output and exit codes.

    * What the theorems show

    - Topics: filters are validated exactly ([ValidateTopicFilter_spec]), matching is
      MQTT's relation ([MatchFilter_spec]) and [CoversFilter] decides inclusion
      ([CoversFilter_decides]).  The trie refines a flat table
      ([Tree_refines_table]), routes to exactly the matching clients at their best
      QoS ([Match_best]), whatever the order Go ranges over maps ([addAll_order]).
    - Protocol: the decoder accepts exactly the wire format of MQTT 3.1.1 with one
      deviation, a will of QoS 3 ([DecodeWithLimit_exact]), refuses truncated and
      over-long packets, and reads back what the encoders write; the answers of the
      server are a prefix code.
    - Sessions: any sequence of operations keeps the accounts and limits of the store
      ([store_invariant]) and none panics or loops; the delivery queue refines an
      ordered queue with replays ([State_refines_queue], [reconnect_redelivers]); no
      wake-up is lost; sessions stay with their owner; expiry is exact.
    - Broker: accounts and limits of retained messages, exact refusal, exact fan-out.
      The concurrent broker is linearizable ([broker_linearizes]), trees and maps in use
      are never written ([snapshots_do_not_change]), every call returns
      ([broker_calls_return]), and a message to retain reaches a client that
      subscribes at the same time ([retained_message_not_missed]).
    - Encoders: on any writer they write a prefix of the encoding, all of it without an
      error ([encoders_on_writers]).
    - Delivery: patching the shared template equals encoding each packet
      ([template_patch_encodes]); the cache is invisible.
    - Authentication: no escalation through wildcards ([CanSubscribe_safe]), exact
      authentication, well-formed policies, password hashes round trip.

    - Client: the connection is written whole and in order ([writes_in_order]), and
      nobody waits for ever ([client_never_blocks]).
    - Server, for every reachable state: no event panics ([server_never_panics]); the
      routing tree is exactly the subscriptions of the stored sessions
      ([routes_follow_sessions]); a client id has one connection at most, with its
      owner's session ([one_connection_per_client]); a published message reaches
      exactly the sessions it should ([publishMessage_delivers]); no connection and
      no consumer is stuck ([no_connection_is_stuck], [blocked_consumer_wakes]); the
      limits on connections hold ([connection_limits_hold]); nobody gets in without
      permission ([connections_are_authorized], [authenticateConnect_exact]); SUBSCRIBE
      grants what a reference function of policy and limits says, and resumes the
      delivery whatever happened while it waited ([handleSubscribe_grants]).  A message
      of QoS 1 stays in its queue until its PUBACK or the end of the session
      ([no_message_lost]); the bytes on a connection are whole packets with CONNACK
      first ([output_conforms]).  Once the context is
      cancelled each connection makes at most eleven more steps, [wait] can return, and
      when it does no handler and no writer is left ([shutdown_completes]).  A
      will is published exactly when no DISCONNECT came ([will_unless_disconnect]).
    - Pools: sharing slices and buffers is not noticed ([pooled_publish_refines],
      [pooled_encode_refines]).
    - Start: any options that [Start] lets pass are safe ([started_options_are_safe]);
      [Start] closes and waits for all it began ([start_ends_what_it_began]); an
      accepted configuration can be run, in a state the theorems on the
      server are about ([accepted_config_starts]); the listener is on the configured
      address, and without authentication that is a loopback address
      ([unauthenticated_is_loopback]); YAML is
      strict ([loadYAML_strict]); the log adds up ([Run_adds_up]).
    - Commands: the broker command waits for all it began and exits with 0 only after a
      signal ([broker_command_ends]); the password command prints a hash that verifies,
      or fails with an error ([password_main_exact]).

    Findings are stated as theorems on what the code does:
    [decodeConnectFlags_will_qos_3] (the deviation of [DecodeWithLimit_exact]),
    [live_delivery_keeps_retain] (what [publishMessage] gives to the subscribers of the
    moment) and [keepAliveTimeout_short].

    * Bounds and fuel

    [encodeRemainingLength_loop] has fuel 4 and [encodedLengthSize_loop] fuel 10, one
    round per digit to base 128, enough for lengths below 128^4
    ([encodeRemainingLength_loop_varint], [encodedLengthSize_varint]); the loops of
    SUBSCRIBE and UNSUBSCRIBE have one round more than the bytes that arrive
    ([items_takes]); [Match] visits one level per round ([match_fuel]); an IPv6 address
    has at most eight groups, one per round of [parseIPv6_loop]; the search for
    an identifier has one round more than identifiers in use
    ([allocate_packetID_free]); copying and pruning a tree in memory goes no deeper
    than there are nodes ([stands_shallow]).  Go's [int] is [Z]: the quantities are bounded by
    configured limits that the invariants keep, far below 2^63.  [uint16], [uint64]
    and bytes wrap.  The theorems on sessions and on the server assume fewer than 2^64
    operations or events, so that epochs do not wrap.

    * Concurrency

    Operations of [Store] and [State] hold the mutex of the store for their whole body:
    each is one step, and the theorems hold for steps in any order.  Readers of the
    broker take no lock; [Snapshots] has its calls statement by statement, and shows
    that each is as good as one step, or two for [Publish] of a message to retain; the
    server calls it in one step.  In the server a step runs from one point where a
    goroutine waits or gives up a lock to the next.  Where something shared is touched
    after waiting for a write, the wait ends a step ([Lifecycle]): after CONNACK
    ([Welcoming]), in SUBSCRIBE, whose handler waits for its SUBACK while the delivery
    of the session is paused for everybody ([Subscribing]), and after a delivery of the
    consumer ([Sending]).  The other waits for a write come last in what they belong
    to, and their result is an argument.  What a handler does between two waits is one
    step, as if it kept others out of the store and the broker for that long; so is a
    call of [enqueue], whose two halves [Client] separates.  Steps of all goroutines
    interleave in any order, with any result of the network, any clock and any
    cancellation.

    * What is not modelled

    Sockets, TLS, timers, files and the YAML library: what they give is an argument
    ([listenFn], which [WithListener] sets, is an argument of [Start_begin]), and so are
    the value of the flag of the broker command and the signals of the operating system.  Log texts that carry no
    numbers. *)

From stdpp Require Export base gmap list strings numbers fin_maps.
From Stdlib Require Export ZArith Lia.

Local Open Scope Z_scope.

#[global] Arguments Z.eqb : simpl never.
#[global] Arguments Z.ltb : simpl never.
#[global] Arguments Z.leb : simpl never.

(** * Bytes and machine integers *)

(** Go strings and byte slices are byte sequences; a byte is a [Z] that
    [is_byte] keeps at its width. *)
Abbreviation bytes := (list Z).

Definition is_byte (b : Z) : Prop := 0 <= b < 256.

(** Conversions to the unsigned Go types of the source: [byte(x)],
    [uint16(x)] and [uint64(x)] wrap around. *)
Definition u8 (z : Z) : Z := z mod 256.
Definition u16 (z : Z) : Z := z mod 65536.
Definition u64 (z : Z) : Z := z mod 18446744073709551616.

(** [len(s)] of a slice, a string or a map, as the Go [int] it is. *)
Definition len {A} (l : list A) : Z := Z.of_nat (length l).
Definition msize `{Countable K} {A} (m : gmap K A) : Z := Z.of_nat (size m).

(** Byte sequences of string literals. *)
Fixpoint bs (s : string) : bytes :=
  match s with
  | EmptyString => []
  | String a s => Z.of_N (Ascii.N_of_ascii a) :: bs s
  end.

(** * Errors and results *)

(** Error values: [New] is [errors.New] (and an error only reported by its
    text); the other constructors are the sentinels the code compares with
    [errors.Is], of this program and of the standard library. *)
Inductive error :=
| New (msg : string)
| EOF
| ErrUnexpectedEOF
| ErrClosed
| NetError (timeout : bool)
| ErrPacketTooLarge
| ErrUnsupportedPacket
| ErrSessionOwner
| ErrSessionLimit
| ErrSubscriptionLimit
| ErrFilterLimit
| ErrRetainedLimit
| ErrClientQueueFull
| ErrBusy
| ErrCredentials
| errDisconnect.

#[export] Instance error_eq_dec : EqDecision error.
Proof. solve_decision. Defined.

(** The pair [(value, err)] of a fallible Go function: callers return at once
    when [err != nil], so only one of the two is meaningful. *)
Inductive result (A : Type) :=
| Ok (a : A)
| Error (e : error).
Arguments Ok {A} a.
Arguments Error {A} e.

Declare Scope orb_scope.
Delimit Scope orb_scope with orb.

(** [x, err := e; if err != nil { return err }; k]. *)
Notation "'let!' x ':=' e 'in' k" :=
  (match e with Ok x => k | Error err => Error err end)
  (at level 10, x pattern, e at level 200, k at level 200)
  : orb_scope.

(** [if c { return errors.New(msg) }; k]. *)
Notation "'fail_if' c 'with' e 'in' k" :=
  (if c then Error e else k)
  (at level 10, c at level 100, e at level 100, k at level 200)
  : orb_scope.

(** * Tactics and hint databases *)

Create HintDb orb.

(** Split the innermost [match] or [if] of the goal or of a hypothesis. *)
Ltac split_match :=
  match goal with
  | |- context [match ?x with _ => _ end] =>
      lazymatch x with context [match _ with _ => _ end] => fail | _ => destruct x eqn:? end
  | H : context [match ?x with _ => _ end] |- _ =>
      lazymatch x with context [match _ with _ => _ end] => fail | _ => destruct x eqn:? end
  end.

(** Turn boolean tests into the propositions they decide. *)
Ltac bool_to_prop :=
  repeat match goal with
  | H : _ && _ = true |- _ => apply andb_true_iff in H as [? ?]
  | H : _ || _ = false |- _ => apply orb_false_iff in H as [? ?]
  | H : _ || _ = true |- _ => apply orb_true_iff in H
  | H : _ && _ = false |- _ => apply andb_false_iff in H
  | H : negb _ = true |- _ => apply negb_true_iff in H
  | H : negb _ = false |- _ => apply negb_false_iff in H
  | H : (_ =? _)%Z = true |- _ => apply Z.eqb_eq in H
  | H : (_ =? _)%Z = false |- _ => apply Z.eqb_neq in H
  | H : (_ <? _)%Z = true |- _ => apply Z.ltb_lt in H
  | H : (_ <? _)%Z = false |- _ => apply Z.ltb_ge in H
  | H : (_ <=? _)%Z = true |- _ => apply Z.leb_le in H
  | H : (_ <=? _)%Z = false |- _ => apply Z.leb_gt in H
  | H : bool_decide _ = true |- _ => apply bool_decide_eq_true_1 in H
  | H : bool_decide _ = false |- _ => apply bool_decide_eq_false_1 in H
  end.

(** Case analysis on the [decide]s of the goal, closed by propositional
    reasoning. *)
Ltac decide_solver :=
  repeat case_decide; destruct_and?; simplify_eq; try done; try (exfalso; tauto); eauto.

(** * Sums over finite maps *)

Section msum.
Context `{Countable K} {A : Type}.
Implicit Types (f g : A → Z) (m : gmap K A).

Definition msum f m : Z := map_fold (λ _ x acc, f x + acc) 0 m.

Lemma msum_empty f : msum f ∅ = 0.
Proof. unfold msum. by rewrite map_fold_empty. Qed.

Lemma msum_insert_None f m k x :
  m !! k = None → msum f (<[k := x]> m) = f x + msum f m.
Proof. intros. unfold msum. rewrite map_fold_insert_L; [done | lia | done]. Qed.

Lemma msum_delete f m k x :
  m !! k = Some x → msum f (delete k m) = msum f m - f x.
Proof.
  intros Hk. rewrite <- (insert_delete_id m k x) at 2 by done.
  rewrite msum_insert_None by apply lookup_delete_eq. lia.
Qed.

Lemma msum_insert_Some f m k x y :
  m !! k = Some x → msum f (<[k := y]> m) = msum f m - f x + f y.
Proof.
  intros Hk. rewrite <- insert_delete_eq.
  rewrite msum_insert_None by apply lookup_delete_eq.
  rewrite (msum_delete f m k x) by done. lia.
Qed.

Lemma msum_ext f g m :
  (∀ k x, m !! k = Some x → f x = g x) → msum f m = msum g m.
Proof.
  induction m as [|k x m Hk IH] using map_ind; intros Hfg; [done|].
  rewrite !msum_insert_None by done.
  rewrite (Hfg k x) by apply lookup_insert_eq. rewrite IH; [done|].
  intros k' x' Hk'. apply (Hfg k'). rewrite lookup_insert_ne; [done|congruence].
Qed.

Lemma msum_nonneg f m :
  (∀ k x, m !! k = Some x → 0 <= f x) → 0 <= msum f m.
Proof.
  induction m as [|k x m Hk IH] using map_ind; intros Hf; [by rewrite msum_empty|].
  rewrite msum_insert_None by done.
  assert (0 <= f x) by (apply (Hf k); apply lookup_insert_eq).
  enough (0 <= msum f m) by lia. apply IH. intros k' x' Hk'.
  apply (Hf k'). rewrite lookup_insert_ne; [done|congruence].
Qed.

Lemma msum_elem_le f m k x :
  (∀ k x, m !! k = Some x → 0 <= f x) → m !! k = Some x → f x <= msum f m.
Proof.
  intros Hf Hk. pose proof (msum_delete f m k x Hk).
  enough (0 <= msum f (delete k m)) by lia. apply msum_nonneg.
  intros k' x' [_ Hk']%lookup_delete_Some. by apply (Hf k').
Qed.
End msum.

(** * Lists *)

Lemma list_filter_all {A} (P : A → Prop) `{∀ x, Decision (P x)} (l : list A) : Forall P l → filter P l = l.
Proof.
  induction 1 as [|x l HP Hall IH]; [done|]. by rewrite filter_cons_True, IH.
Qed.
