(* ===== verification/Wire.v ===== *)
(** The MQTT packet data types (src/internal/protocol/packet.go), the readers
    the decoder consumes and the length-prefixed fields and topic validators of
    src/internal/protocol/wire.go. *)

From S2P Require Import Prelude Topic.

Local Open Scope Z_scope.
Local Open Scope orb_scope.

(** * Packets (packet.go) *)

Definition PacketTypeConnect : Z := 1.
Definition PacketTypeConnAck : Z := 2.
Definition PacketTypePublish : Z := 3.
Definition PacketTypePubAck : Z := 4.
Definition PacketTypeSubscribe : Z := 8.
Definition PacketTypeSubAck : Z := 9.
Definition PacketTypeUnsubscribe : Z := 10.
Definition PacketTypeUnsubAck : Z := 11.
Definition PacketTypePingReq : Z := 12.
Definition PacketTypePingResp : Z := 13.
Definition PacketTypeDisconnect : Z := 14.

Record WillMessage := mkWill {
  will_Topic : bytes;
  will_Payload : bytes;
  will_QoS : Z;
  will_Retain : bool }.

Record ConnectPacket := mkConnect {
  conn_ProtocolName : bytes;
  conn_ProtocolLevel : Z;
  conn_CleanSession : bool;
  conn_KeepAlive : Z;
  conn_ClientID : bytes;
  conn_Will : option WillMessage;
  conn_Username : option bytes;
  conn_Password : option bytes }.

Record ConnAckPacket := mkConnAck {
  ca_SessionPresent : bool;
  ca_ReturnCode : Z }.

Definition ConnAckAccepted : Z := 0.
Definition ConnAckServerUnavailable : Z := 3.
Definition ConnAckBadCredentials : Z := 4.
Definition ConnAckNotAuthorized : Z := 5.

Record PublishPacket := mkPublish {
  pub_Topic : bytes;
  pub_Payload : bytes;
  pub_Retain : bool;
  pub_DUP : bool;
  pub_QoS : Z;
  pub_PacketID : Z }.

Record WireSubscription := mkWireSub {
  wsub_Topic : bytes;
  wsub_QoS : Z }.

Record SubscribePacket := mkSubscribe {
  sp_PacketID : Z;
  sp_Subscriptions : list WireSubscription }.

Record SubAckPacket := mkSubAck {
  sa_PacketID : Z;
  sa_ReturnCodes : bytes }.

Record UnsubscribePacket := mkUnsubscribe {
  up_PacketID : Z;
  up_Topics : list bytes }.

(** The [Packet] interface with the types that implement it. *)
Inductive Packet :=
| PConnect (p : ConnectPacket)
| PConnAck (p : ConnAckPacket)
| PPublish (p : PublishPacket)
| PPubAck (packetID : Z)
| PSubscribe (p : SubscribePacket)
| PSubAck (p : SubAckPacket)
| PUnsubscribe (p : UnsubscribePacket)
| PUnsubAck (packetID : Z)
| PPingReq
| PPingResp
| PDisconnect.

Definition Type_ (p : Packet) : Z :=
  match p with
  | PConnect _ => PacketTypeConnect
  | PConnAck _ => PacketTypeConnAck
  | PPublish _ => PacketTypePublish
  | PPubAck _ => PacketTypePubAck
  | PSubscribe _ => PacketTypeSubscribe
  | PSubAck _ => PacketTypeSubAck
  | PUnsubscribe _ => PacketTypeUnsubscribe
  | PUnsubAck _ => PacketTypeUnsubAck
  | PPingReq => PacketTypePingReq
  | PPingResp => PacketTypePingResp
  | PDisconnect => PacketTypeDisconnect
  end.

Definition MaxRemainingLength : Z := 268435455.
Definition MaxPacketSize : Z := MaxRemainingLength + 5.

(** * Readers *)

(** What [io.ReadFull] does with a reader [R] and a buffer of [n] bytes: the
    bytes and the reader after them, or the error that stopped the read.  Nothing
    of the source reads on after an error, so the reader is dropped there. *)
Class IoReader (R : Type) := ReadFull : R → Z → result (bytes * R).

(** The buffered reader of a connection: the bytes that still arrive and the
    error the connection reports after them. *)
Record Reader := mkReader {
  rd_data : bytes;
  rd_err : error }.

(** [io.LimitedReader]. *)
Record LimitedReader := mkLimited {
  lr_R : Reader;
  lr_N : Z }.

(** [io.ReadAtLeast] turns [io.EOF] after some bytes into
    [io.ErrUnexpectedEOF]. *)
Definition short_read (got : Z) (e : error) : error :=
  if 0 <? got then match e with EOF => ErrUnexpectedEOF | _ => e end else e.

#[export] Instance Reader_ReadFull : IoReader Reader := λ r n,
  if n <=? len (rd_data r)
  then Ok (take (Z.to_nat n) (rd_data r), mkReader (drop (Z.to_nat n) (rd_data r)) (rd_err r))
  else Error (short_read (len (rd_data r)) (rd_err r)).

(** The limit is reported as [io.EOF] once [N] bytes were read, before the
    connection is asked for more. *)
#[export] Instance LimitedReader_ReadFull : IoReader LimitedReader := λ lr n,
  if n <=? Z.max 0 (lr_N lr) then
    let! (data, r) := ReadFull (lr_R lr) n in
    Ok (data, mkLimited r (lr_N lr - len data))
  else if lr_N lr <=? len (rd_data (lr_R lr)) then Error (short_read (lr_N lr) EOF)
  else Error (short_read (len (rd_data (lr_R lr))) (rd_err (lr_R lr))).

(** [binary.Read] of a big-endian [uint16]. *)
Definition be16 (b : bytes) : Z :=
  match b with [hi; lo] => Z.lor (Z.shiftl hi 8) lo | _ => 0 end.

Definition readUint16 `{IoReader R} (r : R) : result (Z * R) :=
  let! (b, r) := ReadFull r 2 in Ok (be16 b, r).

(** * UTF-8 and topic validation (wire.go) *)

(** [unicode/utf8.ValidString]: the well-formed byte sequences of Unicode's
    table 3-7, which excludes overlong forms, surrogates and code points above
    U+10FFFF. *)
Definition in_range (lo hi b : Z) : bool := (lo <=? b) && (b <=? hi).
Definition is_cont (b : Z) : bool := in_range 128 191 b.

Fixpoint ValidString (s : bytes) : bool :=
  match s with
  | [] => true
  | b0 :: s1 =>
      if in_range 0 127 b0 then ValidString s1
      else match s1 with
      | [] => false
      | b1 :: s2 =>
          if in_range 194 223 b0 then is_cont b1 && ValidString s2
          else match s2 with
          | [] => false
          | b2 :: s3 =>
              if in_range 224 239 b0 then
                in_range (if b0 =? 224 then 160 else 128) (if b0 =? 237 then 159 else 191) b1
                && is_cont b2 && ValidString s3
              else match s3 with
              | [] => false
              | b3 :: s4 =>
                  in_range 240 244 b0
                  && in_range (if b0 =? 240 then 144 else 128) (if b0 =? 244 then 143 else 191) b1
                  && is_cont b2 && is_cont b3 && ValidString s4
              end
          end
      end
  end.

(** [strings.ContainsRune(value, 0)] and [strings.ContainsAny(value, "+#")]:
    both look for ASCII characters, so they test single bytes. *)
Definition contains_byte (c : Z) (s : bytes) : bool := existsb (Z.eqb c) s.
Definition contains_wild (s : bytes) : bool := contains_byte plus s || contains_byte hash s.

Definition validateUTF8String (value : bytes) : option error :=
  if (65535 <? len value) || negb (ValidString value) || contains_byte 0 value
  then Some (New "invalid mqtt utf-8 string")
  else None.

Definition validateTopicName (value : bytes) : option error :=
  match validateUTF8String value with
  | Some err => Some err
  | None =>
      if bool_decide (value = []) || contains_wild value
      then Some (New "invalid topic name")
      else None
  end.

(** The loop of [ValidateTopicFilter]: [prev] is [value[i-1]] when [i > 0]. *)
Fixpoint ValidateTopicFilter_loop (prev : option Z) (value : bytes) : option error :=
  match value with
  | [] => None
  | c :: rest =>
      let bad_left := match prev with Some p => negb (p =? slash) | None => false end in
      if c =? plus then
        if bad_left || match rest with d :: _ => negb (d =? slash) | [] => false end
        then Some (New "invalid topic filter")
        else ValidateTopicFilter_loop (Some c) rest
      else if c =? hash then
        if bad_left || match rest with _ :: _ => true | [] => false end
        then Some (New "invalid topic filter")
        else ValidateTopicFilter_loop (Some c) rest
      else ValidateTopicFilter_loop (Some c) rest
  end.

Definition ValidateTopicFilter (value : bytes) : option error :=
  match validateUTF8String value with
  | Some err => Some err
  | None =>
      if bool_decide (value = []) then Some (New "invalid topic filter")
      else ValidateTopicFilter_loop None value
  end.

(** * Length-prefixed fields (wire.go) *)

Section fields.
Context `{IoReader R}.

Definition readBinaryData (r : R) : result (bytes * R) :=
  let! (length, r) := readUint16 r in
  let! (buf, r) := ReadFull r length in
  Ok (buf, r).

Definition readUTF8String (r : R) : result (bytes * R) :=
  let! (length, r) := readUint16 r in
  let! (buf, r) := ReadFull r length in
  match validateUTF8String buf with
  | Some err => Error err
  | None => Ok (buf, r)
  end.
End fields.
