(* ===== verification/Filters.v ===== *)
(** Valid topic names and filters as lists of levels, and the theorems on
    filter validation, matching and coverage that routing and authorisation
    rely on. *)

From S2P Require Import Prelude Topic Wire.

Local Open Scope Z_scope.
Local Open Scope orb_scope.

(** * Text: UTF-8 without U+0000 *)

(** Content of an MQTT string, its length aside. *)
Definition text_ok (s : bytes) : Prop := ValidString s = true ∧ contains_byte 0 s = false.

Lemma in_range_true lo hi b : in_range lo hi b = true ↔ lo <= b <= hi.
Proof. unfold in_range. rewrite andb_true_iff, !Z.leb_le. done. Qed.

Lemma in_range_false lo hi b : ¬ (lo <= b <= hi) → in_range lo hi b = false.
Proof. intros Hb. apply not_true_is_false. by rewrite in_range_true. Qed.

(** The encodings of one code point that [ValidString] consumes. *)
Inductive utf8_char : bytes → Prop :=
| utf8_1 b0 : in_range 0 127 b0 = true → utf8_char [b0]
| utf8_2 b0 b1 :
    in_range 194 223 b0 = true → is_cont b1 = true → utf8_char [b0; b1]
| utf8_3 b0 b1 b2 :
    in_range 224 239 b0 = true →
    in_range (if b0 =? 224 then 160 else 128) (if b0 =? 237 then 159 else 191) b1 = true →
    is_cont b2 = true → utf8_char [b0; b1; b2]
| utf8_4 b0 b1 b2 b3 :
    in_range 240 244 b0 = true →
    in_range (if b0 =? 240 then 144 else 128) (if b0 =? 244 then 143 else 191) b1 = true →
    is_cont b2 = true → is_cont b3 = true → utf8_char [b0; b1; b2; b3].

Lemma in_range_disjoint lo hi lo' hi' b :
  in_range lo hi b = true → hi < lo' ∨ hi' < lo → in_range lo' hi' b = false.
Proof. rewrite in_range_true. intros ? ?. apply in_range_false. lia. Qed.

Lemma ValidString_char c s : utf8_char c → ValidString (c ++ s) = ValidString s.
Proof.
  destruct 1; simpl;
    rewrite ?(in_range_disjoint _ _ 0 127 b0 ltac:(eassumption) ltac:(lia)),
      ?(in_range_disjoint _ _ 194 223 b0 ltac:(eassumption) ltac:(lia)),
      ?(in_range_disjoint _ _ 224 239 b0 ltac:(eassumption) ltac:(lia));
    repeat match goal with H : _ = true |- _ => rewrite H; clear H end; done.
Qed.

Lemma ValidString_concat s :
  ValidString s = true ↔ ∃ cs, Forall utf8_char cs ∧ s = concat cs.
Proof.
  split.
  - induction s as [s IH] using (induction_ltof1 _ length); unfold ltof in IH.
    assert (Hcons : ∀ c s', s = c ++ s' → utf8_char c → ValidString s' = true →
      ∃ cs, Forall utf8_char cs ∧ s = concat cs).
    { intros c s' -> Hc Hs'. destruct (IH s') as (cs & ? & ->); [|done|].
      - rewrite length_app. destruct Hc; simpl; lia.
      - by exists (c :: cs); split; [constructor|]. }
    destruct s as [|b0 s1]; simpl; [by exists []|].
    destruct (in_range 0 127 b0) eqn:H1; [intros; by apply (Hcons [b0] s1); [|constructor|]|].
    destruct s1 as [|b1 s2]; [done|]. destruct (in_range 194 223 b0) eqn:H2.
    { intros; bool_to_prop. by apply (Hcons [b0; b1] s2); [|constructor|]. }
    destruct s2 as [|b2 s3]; [done|]. destruct (in_range 224 239 b0) eqn:H3.
    { intros; bool_to_prop. by apply (Hcons [b0; b1; b2] s3); [|constructor|]. }
    destruct s3 as [|b3 s4]; [done|].
    intros; bool_to_prop. by apply (Hcons [b0; b1; b2; b3] s4); [|constructor|].
  - intros (cs & Hcs & ->). induction Hcs; simpl; [done|]. by rewrite ValidString_char.
Qed.

Lemma utf8_char_tail c i b : utf8_char c → c !! S i = Some b → 128 <= b.
Proof.
  destruct 1; (destruct i as [|[|[|i]]]; intros Hi; simplify_eq/=);
    unfold is_cont in *;
    repeat match goal with H : in_range _ _ b = true |- _ => apply in_range_true in H end;
    repeat case_match; lia.
Qed.

(** An ASCII byte is a boundary: it is never inside a multi-byte sequence. *)
Lemma ValidString_app_ascii c l1 l2 :
  0 <= c <= 127 →
  ValidString (l1 ++ c :: l2) = true ↔ ValidString l1 = true ∧ ValidString l2 = true.
Proof.
  intros Hc. split.
  - rewrite !ValidString_concat. intros (cs & Hcs & Heq). revert l1 Heq.
    induction Hcs as [|ch cs Hch Hcs IH]; simpl; intros l1 Heq; [by destruct l1|].
    destruct (decide (length ch <= length l1)%nat) as [Hle|Hgt].
    + apply app_eq_inv in Heq as [(k & -> & Hk)|(k & -> & Hk)].
      * destruct (IH k ltac:(done)) as [(cs1 & ? & ->) ?]. split; [|done].
        exists (ch :: cs1). eauto.
      * destruct k; [|rewrite length_app in Hle; simpl in Hle; lia].
        simpl in Hk. destruct (IH [] ltac:(done)) as [_ ?].
        split; [|done]. exists [l1]. simpl. rewrite !app_nil_r in *. eauto.
    + assert (Hin : ch !! length l1 = Some c).
      { rewrite <- (lookup_app_l _ (concat cs)) by lia. rewrite <- Heq. by rewrite list_lookup_middle. }
      destruct l1 as [|b l1]; [|apply (utf8_char_tail _ _ _ Hch) in Hin; lia].
      split; [by exists []|]. destruct Hch; simpl in *; simplify_eq;
        try (match goal with H : in_range _ _ _ = true |- _ => apply in_range_true in H; lia end).
      by exists cs.
  - intros [(cs1 & ? & ->)%ValidString_concat (cs2 & ? & ->)%ValidString_concat].
    apply ValidString_concat. exists (cs1 ++ [c] :: cs2). rewrite concat_app. split; [|done].
    apply Forall_app; split; [done|]. constructor; [|done]. constructor.
    by apply in_range_true.
Qed.

Lemma contains_byte_false c s : contains_byte c s = false ↔ c ∉ s.
Proof.
  unfold contains_byte. rewrite <- not_true_iff_false, existsb_exists, list_elem_of_In.
  setoid_rewrite Z.eqb_eq. naive_solver.
Qed.

Lemma text_ok_app_ascii c l1 l2 :
  1 <= c <= 127 → text_ok (l1 ++ c :: l2) ↔ text_ok l1 ∧ text_ok l2.
Proof.
  intros Hc. unfold text_ok. rewrite ValidString_app_ascii by lia.
  rewrite !contains_byte_false, not_elem_of_app, not_elem_of_cons.
  assert (0 ≠ c) by lia. naive_solver.
Qed.

(** The levels of a text are texts, and texts joined are a text. *)
Lemma text_ok_join ls : text_ok (join ls) ↔ Forall text_ok ls.
Proof.
  induction ls as [|l [|l2 ls] IH].
  - split; [constructor|done].
  - simpl. rewrite Forall_singleton. done.
  - change (join (l :: l2 :: ls)) with (l ++ slash :: join (l2 :: ls)).
    rewrite text_ok_app_ascii by (unfold slash; lia). rewrite IH. by rewrite (Forall_cons _ l).
Qed.

Lemma validateUTF8String_ok s :
  validateUTF8String s = None ↔ len s <= 65535 ∧ text_ok s.
Proof.
  unfold validateUTF8String, text_ok. split.
  - intros Hs. split_match; [done|]. bool_to_prop. auto.
  - intros (Hl & -> & ->). destruct (Z.ltb_spec 65535 (len s)); [lia|done].
Qed.

(** * Filters and names as lists of levels *)

(** A level without wildcard characters. *)
Definition plain (l : bytes) : Prop := (plus ∉ l) ∧ (hash ∉ l).

(** MQTT's rule: [+] and [#] occupy whole levels, and [#] only the last. *)
Inductive levels_ok : list bytes → Prop :=
| levels_last l : plain l ∨ l = lv_plus ∨ l = lv_hash → levels_ok [l]
| levels_cons l ls : plain l ∨ l = lv_plus → levels_ok ls → levels_ok (l :: ls).

Lemma contains_wild_false s : contains_wild s = false ↔ plain s.
Proof. unfold contains_wild, plain. by rewrite orb_false_iff, !contains_byte_false. Qed.

Lemma plain_join ls : plain (join ls) ↔ Forall plain ls.
Proof.
  unfold plain. induction ls as [|l [|l2 ls] IH].
  - split; [constructor|]. intros _. split; apply not_elem_of_nil.
  - simpl. by rewrite Forall_singleton.
  - change (join (l :: l2 :: ls)) with (l ++ slash :: join (l2 :: ls)).
    rewrite (Forall_cons _ l), <- IH, !not_elem_of_app, !not_elem_of_cons.
    unfold plus, hash, slash. split; [tauto|]. intros [? ?]. repeat split; (tauto || lia).
Qed.

Lemma validateTopicName_ok s :
  validateTopicName s = None ↔ len s <= 65535 ∧ text_ok s ∧ s ≠ [] ∧ plain s.
Proof.
  pose proof (validateUTF8String_ok s) as Hu. unfold validateTopicName.
  destruct (validateUTF8String s).
  { split; [done|]. intros (Hl & Ht & _). discriminate (proj2 Hu (conj Hl Ht)). }
  destruct (proj1 Hu eq_refl). rewrite <- contains_wild_false.
  case_bool_decide; destruct (contains_wild s); simpl; intuition congruence.
Qed.

Lemma plain_nil : plain [].
Proof. split; apply not_elem_of_nil. Qed.

Lemma first_wild l :
  plain l ∨ ∃ l1 c l2, l = l1 ++ c :: l2 ∧ plain l1 ∧ (c = plus ∨ c = hash).
Proof.
  induction l as [|c l IH]; [left; apply plain_nil|].
  destruct (decide (c = plus ∨ c = hash)) as [Hc|Hc].
  { right. exists [], c, l. split; [done|]. split; [apply plain_nil|done]. }
  destruct IH as [[? ?]|(l1 & d & l2 & -> & [? ?] & ?)]; [left|right].
  - split; apply not_elem_of_cons; split; auto; intros ->; tauto.
  - exists (c :: l1), d, l2. split; [done|]. split; [|done].
    split; apply not_elem_of_cons; split; auto; intros ->; tauto.
Qed.

(** Bytes of a level that are not wildcards are skipped. *)
Lemma ValidateTopicFilter_loop_plain prev l rest :
  plain l →
  ValidateTopicFilter_loop prev (l ++ rest) =
  ValidateTopicFilter_loop (if last l is Some c then Some c else prev) rest.
Proof.
  revert prev. induction l as [|c l IH]; intros prev [Hp Hh]; simpl; [done|].
  apply not_elem_of_cons in Hp as [Hp ?], Hh as [Hh ?].
  destruct (Z.eqb_spec c plus), (Z.eqb_spec c hash); [congruence..|].
  rewrite IH by done. destruct l as [|d l]; [done|].
  change (last (c :: d :: l)) with (last (d :: l)).
  destruct (last (d :: l)) eqn:Hd; [done|]. by apply last_None in Hd.
Qed.

(** A wildcard is refused unless its level starts with it. *)
Lemma ValidateTopicFilter_loop_wild prev l1 c rest :
  plain l1 → no_slash l1 → l1 ≠ [] → c = plus ∨ c = hash →
  ValidateTopicFilter_loop prev (l1 ++ c :: rest) = Some (New "invalid topic filter").
Proof.
  intros Hp Hs Hne Hc. rewrite ValidateTopicFilter_loop_plain by done.
  destruct (last l1) as [d|] eqn:Hd; [|by apply last_None in Hd].
  apply last_Some_elem_of in Hd. simpl.
  destruct (Z.eqb_spec d slash) as [->|_]; [done|]. simpl.
  by destruct Hc as [-> | ->].
Qed.

Lemma levels_ok_wild l ls :
  ¬ plain l → levels_ok (l :: ls) → (l = lv_plus ∧ (ls = [] ∨ levels_ok ls)) ∨ (l = lv_hash ∧ ls = []).
Proof. intros Hl Hok. inversion Hok; naive_solver. Qed.

Lemma not_plain_wild l1 c l2 : c = plus ∨ c = hash → ¬ plain (l1 ++ c :: l2).
Proof. intros Hc [Hp Hh]. rewrite not_elem_of_app, not_elem_of_cons in Hp, Hh. naive_solver. Qed.

(** The scan of [ValidateTopicFilter] from a level boundary. *)
Lemma ValidateTopicFilter_loop_levels prev ls :
  prev = None ∨ prev = Some slash → ls ≠ [] → Forall no_slash ls →
  ValidateTopicFilter_loop prev (join ls) = None ↔ levels_ok ls.
Proof.
  intros Hprev Hne Hls. revert prev Hprev. induction Hls as [|l ls Hl Hls IH]; [done|].
  intros prev Hprev.
  set (rest := match ls with [] => [] | _ :: _ => slash :: join ls end).
  assert (Hjoin : join (l :: ls) = l ++ rest) by (destruct ls; [by rewrite app_nil_r|done]).
  assert (Hrest : ∀ p, ValidateTopicFilter_loop p rest = None ↔ ls = [] ∨ levels_ok ls).
  { intros p. destruct ls as [|l2 ls]; [naive_solver|]. unfold rest.
    change (ValidateTopicFilter_loop (Some slash) (join (l2 :: ls)) = None
      ↔ l2 :: ls = [] ∨ levels_ok (l2 :: ls)).
    rewrite (IH ltac:(done)) by auto. naive_solver. }
  rewrite Hjoin. destruct (first_wild l) as [Hp|(l1 & c & l2 & -> & Hp & Hc)].
  - rewrite ValidateTopicFilter_loop_plain, Hrest by done. split.
    + intros [->|?]; constructor; auto.
    + inversion 1; auto.
  - rewrite <- app_assoc. simpl.
    assert (Hnp := not_plain_wild l1 c l2 Hc).
    destruct (decide (l1 = [])) as [->|Hl1]; last first.
    { rewrite ValidateTopicFilter_loop_wild; [|done|by unfold no_slash in *; set_solver|done|done].
      split; [done|]. intros Hok%levels_ok_wild; [|done].
      destruct l1 as [|? []]; unfold lv_plus, lv_hash in *; naive_solver. }
    assert (Hleft : match prev with Some p => negb (p =? slash) | None => false end = false)
      by (destruct Hprev as [-> | ->]; done).
    simpl. rewrite Hleft. simpl.
    destruct l2 as [|d l2]; simpl; last first.
    { assert (Hd : (d =? slash) = false) by (apply Z.eqb_neq; unfold no_slash in Hl; set_solver).
      rewrite Hd. split; [destruct Hc as [-> | ->]; done|].
      intros Hok%levels_ok_wild; [|done]. unfold lv_plus, lv_hash in *. naive_solver. }
    destruct Hc as [-> | ->]; simpl.
    + assert (Hr : match rest with d :: _ => negb (d =? slash) | [] => false end = false)
        by (unfold rest; by destruct ls).
      rewrite Hr, Hrest. split.
      * intros [->|?]; constructor; auto.
      * intros [[_ ?]|[? _]]%levels_ok_wild; done.
    + unfold rest. destruct ls as [|l2 ls]; simpl.
      * split; [|done]. constructor. auto.
      * split; [done|]. intros [[? _]|[_ ?]]%levels_ok_wild; done.
Qed.

Lemma ValidateTopicFilter_ok s :
  ValidateTopicFilter s = None ↔
  len s <= 65535 ∧ text_ok s ∧ s ≠ [] ∧ levels_ok (splitFilter s).
Proof.
  pose proof (validateUTF8String_ok s) as Hu. unfold ValidateTopicFilter.
  destruct (validateUTF8String s).
  { split; [done|]. intros (Hl & Ht & _). discriminate (proj2 Hu (conj Hl Ht)). }
  destruct (proj1 Hu eq_refl).
  rewrite <- (ValidateTopicFilter_loop_levels None), join_splitFilter by auto with orb.
  case_bool_decide; intuition congruence.
Qed.

(** * Matching *)

(** MQTT's matching relation between the levels of a filter and of a topic
    name. *)
Inductive level_match : list bytes → list bytes → Prop :=
| lm_end : level_match [] []
| lm_hash ts : level_match [lv_hash] ts
| lm_plus t fs ts : level_match fs ts → level_match (lv_plus :: fs) (t :: ts)
| lm_level l fs ts : plain l → level_match fs ts → level_match (l :: fs) (l :: ts).

Lemma lv_hash_plus : lv_hash ≠ lv_plus.
Proof. done. Qed.

Lemma plain_not_wild l : plain l → l ≠ lv_plus ∧ l ≠ lv_hash.
Proof. intros [Hp Hh]. split; intros ->; [destruct Hp|destruct Hh]; by apply list_elem_of_here. Qed.

(** The tail of well-formed levels, which may be empty. *)
Definition tail_ok (ls : list bytes) : Prop := ls = [] ∨ levels_ok ls.

Lemma levels_ok_cons l ls :
  levels_ok (l :: ls) →
  ((plain l ∨ l = lv_plus) ∧ tail_ok ls) ∨ (l = lv_hash ∧ ls = []).
Proof. unfold tail_ok. inversion 1; naive_solver. Qed.

Lemma MatchFilter_loop_spec fs ts :
  tail_ok fs → MatchFilter_loop fs ts = true ↔ level_match fs ts.
Proof.
  revert ts. induction fs as [|f fs IH]; intros ts Hok; simpl.
  { destruct ts; split; try done; [constructor|inversion 1]. }
  destruct Hok as [|Hok]; [done|].
  destruct (levels_ok_cons _ _ Hok) as [[[Hf| ->] Hfs]|[-> ->]].
  - pose proof (plain_not_wild f Hf) as [? ?].
    rewrite bool_decide_eq_false_2 by done.
    destruct ts as [|t ts]; [split; [done|inversion 1]; simplify_eq|].
    rewrite (bool_decide_eq_false_2 (f = lv_plus)) by done. case_bool_decide as Hft.
    + split; [done|]. inversion 1; simplify_eq.
    + subst t. rewrite (IH ts Hfs).
      split; [by constructor|]. inversion 1; simplify_eq; done.
  - rewrite bool_decide_eq_false_2 by done.
    destruct ts as [|t ts]; [split; [done|inversion 1]; simplify_eq|].
    rewrite bool_decide_eq_true_2, (IH ts Hfs) by done.
    split; [by constructor|]. inversion 1; simplify_eq; [done|].
    match goal with H : plain lv_plus |- _ => apply plain_not_wild in H as [? _]; done end.
  - rewrite bool_decide_eq_true_2 by done. split; [constructor|done].
Qed.

Lemma ValidateTopicFilter_levels f :
  ValidateTopicFilter f = None → levels_ok (splitFilter f).
Proof. by intros (_ & _ & _ & ?)%ValidateTopicFilter_ok. Qed.

Lemma starts_wild_split f l ls :
  levels_ok (l :: ls) → splitFilter f = l :: ls →
  starts_wild f = bool_decide (l = lv_plus ∨ l = lv_hash).
Proof.
  intros Hok Hf. unfold starts_wild.
  rewrite !(starts_with_split _ f l ls) by first [assumption | unfold plus, hash, slash; lia].
  destruct (levels_ok_cons _ _ Hok) as [[[[Hp Hh]| ->] _]|[-> _]]; [|done..].
  pose proof (plain_not_wild l (conj Hp Hh)).
  rewrite bool_decide_eq_false_2 by tauto.
  destruct l as [|c l]; simpl; [done|].
  apply not_elem_of_cons in Hp as [? _], Hh as [? _].
  destruct (Z.eqb_spec c plus), (Z.eqb_spec c hash); simpl; congruence.
Qed.

(** The [$] rule: wildcards in the first level do not match system topics. *)
Definition system_hidden (fs : list bytes) (t : bytes) : Prop :=
  starts_with dollar t = true ∧ (head fs = Some lv_plus ∨ head fs = Some lv_hash).

Lemma MatchFilter_levels f t :
  levels_ok (splitFilter f) →
  MatchFilter f t = true ↔
  level_match (splitFilter f) (splitTopic t) ∧ ¬ system_hidden (splitFilter f) t.
Proof.
  intros Hok. unfold MatchFilter, system_hidden.
  rewrite <- MatchFilter_loop_spec by (by right).
  destruct (splitFilter f) as [|l ls] eqn:Hf; [by apply splitFilter_ne in Hf|].
  rewrite (starts_wild_split f l ls) by done. simpl.
  destruct (starts_with dollar t), (bool_decide_reflect (l = lv_plus ∨ l = lv_hash));
    simpl; naive_solver.
Qed.

(** * Coverage *)

Lemma CoversFilter_loop_sound a r t :
  CoversFilter_loop a r = true → MatchFilter_loop r t = true → MatchFilter_loop a t = true.
Proof.
  revert r t. induction a as [|l a IH]; intros r t Ha Hr; simpl in *.
  { by destruct r. }
  case_bool_decide; [done|]. destruct r as [|ri r]; [done|]. simpl in Hr.
  destruct (bool_decide (ri = lv_hash)) eqn:Hri; [done|]. simpl in Ha.
  destruct t as [|t0 t]; [done|]. bool_to_prop.
  destruct (bool_decide_reflect (l ≠ lv_plus)) as [Hl|Hl]; simpl in Ha.
  - destruct (bool_decide_reflect (l ≠ ri)) as [| ->%dec_stable]; [done|].
    rewrite bool_decide_eq_false_2 in Hr |- * by done.
    destruct (bool_decide (ri ≠ t0)); [done|]. eauto.
  - rewrite (bool_decide_eq_true_2 (l = lv_plus)) by (by apply dec_stable).
    repeat case_bool_decide; eauto; done.
Qed.

(** Levels [t] that instantiate a prefix of the filter levels [r]: literal
    levels are kept and a wildcard becomes ["x"] or ["y"]. *)
Inductive instance_of : list bytes → list bytes → Prop :=
| io_nil r : instance_of r []
| io_plain l r t : plain l → instance_of r t → instance_of (l :: r) (l :: t)
| io_wild w c r t :
    w = lv_plus ∨ w = lv_hash → c = bs "x" ∨ c = bs "y" →
    instance_of r t → instance_of (w :: r) (c :: t).

Lemma instance_exists r :
  tail_ok r → ∃ t, instance_of r t ∧ MatchFilter_loop r t = true ∧ length t = length r.
Proof.
  induction r as [|l r IH]; intros Hok; [by exists []; repeat constructor|].
  destruct Hok as [|Hok]; [done|].
  destruct (levels_ok_cons _ _ Hok) as [[[Hl| ->] Hr]|[-> ->]].
  - destruct (IH Hr) as (t & ? & Ht & ?). exists (l :: t). pose proof (plain_not_wild l Hl) as [? ?].
    split; [by constructor|]. simpl. rewrite !bool_decide_eq_false_2 by (done || tauto). split; [done|congruence].
  - destruct (IH Hr) as (t & ? & Ht & ?). exists (bs "x" :: t).
    split; [constructor; auto|]. simpl. split; [done|congruence].
  - exists [bs "x"]. split; [|done]. apply io_wild; [auto|auto|constructor].
Qed.

Lemma CoversFilter_loop_complete a r :
  tail_ok r → CoversFilter_loop a r = false →
  ∃ t, instance_of r t ∧ MatchFilter_loop r t = true ∧ MatchFilter_loop a t = false.
Proof.
  revert r. induction a as [|l a IH]; intros r Hok Ha; simpl in *.
  { destruct (instance_exists r Hok) as (t & ? & ? & Hlen). exists t.
    destruct r, t; naive_solver. }
  destruct (bool_decide_reflect (l = lv_hash)); [done|].
  destruct r as [|ri r]; [exists []; repeat constructor|].
  destruct (bool_decide_reflect (ri = lv_hash)) as [->|Hri].
  { exists []. repeat constructor. }
  destruct Hok as [|Hok]; [done|].
  destruct (levels_ok_cons _ _ Hok) as [[Hri' Hr]|[-> _]]; [|done]. simpl in Ha.
  destruct (bool_decide_reflect (l ≠ lv_plus)) as [Hl|Hl]; simpl in Ha;
    [destruct (bool_decide_reflect (l ≠ ri)) as [Hlr| ->%dec_stable]|].
  - (* the levels differ: instantiate with one that [l] does not match *)
    destruct (instance_exists r Hr) as (t & Hi & Hm & _).
    destruct Hri' as [Hp| ->].
    + exists (ri :: t). pose proof (plain_not_wild ri Hp) as [? ?].
      repeat split; [by constructor|..]; simpl;
        rewrite ?(bool_decide_eq_false_2 (_ = _)), ?(bool_decide_eq_true_2 (l ≠ ri)) by done; [|done].
      by rewrite bool_decide_eq_false_2 by tauto.
    + assert (∃ c, (c = bs "x" ∨ c = bs "y") ∧ l ≠ c) as (c & Hc & Hlc).
      { destruct (decide (l = bs "x")); [exists (bs "y")|exists (bs "x")]; naive_solver. }
      exists (c :: t). repeat split; [by constructor; auto|done|]. simpl.
      rewrite !bool_decide_eq_false_2, bool_decide_eq_true_2 by done. done.
  - destruct (IH r Hr Ha) as (t & ? & ? & ?). destruct Hri' as [Hp|]; [|done].
    exists (ri :: t). simpl. rewrite !(bool_decide_eq_false_2 (_ = _)) by done.
    rewrite bool_decide_eq_false_2 by tauto. repeat split; [by constructor|done|done].
  - apply dec_stable in Hl as ->. destruct (IH r Hr Ha) as (t & ? & ? & ?).
    destruct Hri' as [Hp| ->].
    + exists (ri :: t). pose proof (plain_not_wild ri Hp) as [? ?]. simpl.
      rewrite !(bool_decide_eq_false_2 (ri = _)), (bool_decide_eq_false_2 (ri ≠ ri)) by tauto.
      repeat split; [by constructor|done|done].
    + exists (bs "x" :: t). repeat split; [by constructor; auto|done|done].
Qed.

Lemma instance_Forall (P : bytes → Prop) r t :
  instance_of r t → P (bs "x") → P (bs "y") → Forall P r → Forall P t.
Proof.
  intros Hi Hx Hy. induction Hi as [| |w c r t _ Hc]; intros Hr; [constructor|..];
    apply Forall_cons in Hr as [? ?]; constructor; auto. by destruct Hc as [-> | ->].
Qed.

Lemma instance_plain r t : instance_of r t → Forall plain t.
Proof.
  induction 1 as [| |w c r t _ Hc]; constructor; auto.
  destruct Hc as [-> | ->]; split; apply not_elem_of_cons; (split; [done|apply not_elem_of_nil]).
Qed.

Lemma join_cons l ls :
  join (l :: ls) = l ++ match ls with [] => [] | _ :: _ => slash :: join ls end.
Proof. destruct ls; [by rewrite app_nil_r|done]. Qed.

Lemma instance_length r t : instance_of r t → len (join t) <= len (join r).
Proof.
  unfold len. induction 1 as [r|l r t _ Hi IH|w c r t Hw Hc Hi IH]; [simpl; lia|..].
  - rewrite !join_cons, !length_app. destruct t, r; simpl in *; [lia..| |lia].
    inversion Hi.
  - rewrite !join_cons, !length_app.
    assert (length c = 1%nat ∧ length w = 1%nat) as [-> ->] by naive_solver.
    destruct t, r; simpl in *; [lia..| |lia]. inversion Hi.
Qed.

(** The topic name made of an instance of the levels of a valid filter. *)
Lemma instance_topic r t :
  len r <= 65535 → text_ok r → instance_of (splitFilter r) t → t ≠ [] → t ≠ [[]] →
  validateTopicName (join t) = None ∧ splitTopic (join t) = t.
Proof.
  intros Hlen Htext Hi Hne Hne'.
  assert (Forall no_slash t) as Hs.
  { eapply instance_Forall; [done|..|auto with orb]; unfold no_slash;
      apply not_elem_of_cons; (split; [done|apply not_elem_of_nil]). }
  rewrite splitTopic_eq, splitFilter_join by done. split; [|done].
  apply validateTopicName_ok. split; [|split; [|split]].
  - apply instance_length in Hi. rewrite join_splitFilter in Hi. lia.
  - apply text_ok_join. eapply instance_Forall; [done|done|done|].
    apply text_ok_join. by rewrite join_splitFilter.
  - intros Hj. destruct t as [|l [|l2 t]]; simpl in Hj; [done|by subst|].
    by destruct l.
  - apply plain_join. by eapply instance_plain.
Qed.

(** Only ["#"] and ["/#"] match a list of levels that is no topic name. *)
Lemma instance_nonempty r t :
  r ≠ [] → r ≠ bs "#" → r ≠ bs "/#" → levels_ok (splitFilter r) →
  instance_of (splitFilter r) t → MatchFilter_loop (splitFilter r) t = true →
  t ≠ [] ∧ t ≠ [[]].
Proof.
  intros Hne Hn1 Hn2 Hok Hi Hm.
  assert (Hsplit : ∀ ls, splitFilter r = splitFilter ls → r = ls) by (intros; by apply splitFilter_inj).
  destruct (splitFilter r) as [|l ls] eqn:Hr; [by apply splitFilter_ne in Hr|].
  split; intros ->.
  - simpl in Hm. case_bool_decide; [subst l|done].
    apply levels_ok_cons in Hok as [[[Hp|] _]|[_ ->]]; [|done|by apply Hn1, Hsplit].
    by apply plain_not_wild in Hp as [_ ?].
  - inversion Hi; simplify_eq; [|naive_solver].
    simpl in Hm. destruct ls as [|l2 ls]; [by apply Hne, Hsplit|].
    simpl in Hm. case_bool_decide; [subst l2|done].
    apply levels_ok_cons in Hok as [[_ [|Hok]]|[? _]]; [done| |done].
    apply levels_ok_cons in Hok as [[[Hp|] _]|[_ ->]]; [|done|by apply Hn2, Hsplit].
    by apply plain_not_wild in Hp as [_ ?].
Qed.

Lemma splitTopic_ne t : splitTopic t ≠ [].
Proof. rewrite splitTopic_eq. apply splitFilter_ne. Qed.

(** Rewriting the requested filter does not change the topic names it matches. *)
Lemma CoversFilter_normalise_match r t :
  validateTopicName t = None → MatchFilter_loop (splitFilter r) (splitTopic t) = true →
  MatchFilter_loop (splitFilter (CoversFilter_normalise r)) (splitTopic t) = true.
Proof.
  intros Ht Hm. pose proof (splitTopic_ne t). unfold CoversFilter_normalise.
  destruct (bool_decide_reflect (r = bs "#")) as [->|_]; [by destruct (splitTopic t)|].
  destruct (bool_decide_reflect (r = bs "/#")) as [->|_]; [|done].
  destruct (splitTopic t) as [|l [|l2 ls]] eqn:Hs; [done| |done].
  assert (l = []) as -> by (simpl in Hm; by case_bool_decide).
  rewrite splitTopic_eq in Hs. apply splitFilter_empty in Hs as ->. done.
Qed.

(** Nor does it add level lists, and the result is a valid filter of which only
    topic names are instances. *)
Lemma CoversFilter_normalise_ok r :
  ValidateTopicFilter r = None →
  let r' := CoversFilter_normalise r in
  ValidateTopicFilter r' = None ∧ starts_with dollar r' = starts_with dollar r
  ∧ r' ≠ bs "#" ∧ r' ≠ bs "/#"
  ∧ (∀ t, MatchFilter_loop (splitFilter r') t = true → MatchFilter_loop (splitFilter r) t = true).
Proof.
  intros Hv. unfold CoversFilter_normalise.
  destruct (bool_decide_reflect (r = bs "#")) as [->|Hn1]; [by repeat split|].
  destruct (bool_decide_reflect (r = bs "/#")) as [->|Hn2]; [|by repeat split].
  repeat split; try done. intros [|l t]; [done|]. simpl. by case_bool_decide.
Qed.

(** [CoversFilter] never panics on valid filters, and it answers [true] only when
    every topic name [r] matches is matched by [a]. *)
Lemma CoversFilter_sound a r t :
  ValidateTopicFilter a = None → ValidateTopicFilter r = None →
  CoversFilter a r = Some true → validateTopicName t = None →
  MatchFilter r t = true → MatchFilter a t = true.
Proof.
  intros Ha Hr Hc Ht Hm.
  apply ValidateTopicFilter_levels in Ha, Hr.
  assert (Hwild : starts_with dollar t && starts_wild a = false).
  { destruct (starts_with dollar t) eqn:Hd; [simpl|done].
    unfold MatchFilter in Hm. rewrite Hd in Hm. simpl in Hm.
    destruct (starts_wild r) eqn:Hw; [done|].
    destruct (splitFilter r) as [|l ls] eqn:Hrs; [by apply splitFilter_ne in Hrs|].
    destruct (splitTopic t) as [|l' ts] eqn:Hts; [by apply splitTopic_ne in Hts|].
    rewrite (starts_wild_split r l ls) in Hw by done. bool_to_prop.
    simpl in Hm. rewrite !(bool_decide_eq_false_2 (_ = _)) in Hm by tauto.
    case_bool_decide; [done|]. subst l'.
    rewrite splitTopic_eq in Hts.
    rewrite (starts_with_split dollar t l ts) in Hd by done.
    rewrite <- (starts_with_split dollar r l ls) in Hd by done.
    unfold CoversFilter in Hc. rewrite Hd in Hc.
    destruct a; [done|]. by destruct (starts_wild _). }
  assert (Hloop : CoversFilter_loop (splitFilter a) (splitFilter (CoversFilter_normalise r)) = true).
  { unfold CoversFilter in Hc. repeat split_match; congruence. }
  unfold MatchFilter in *. rewrite Hwild. destruct (_ && starts_wild r); [done|].
  eapply CoversFilter_loop_sound; [done|]. by apply CoversFilter_normalise_match.
Qed.

Lemma starts_dollar_join t :
  t ≠ [] → starts_with dollar (join t) = match head t with Some l => starts_with dollar l | None => false end.
Proof. destruct t as [|[|c l] [|l2 t]]; done. Qed.

Lemma instance_head_dollar r t :
  instance_of (splitFilter r) t → t ≠ [] →
  starts_with dollar (join t) = starts_with dollar r.
Proof.
  intros Hi Hne. rewrite starts_dollar_join by done.
  inversion Hi as [|l r' t' Hp Hi' Heq|w c r' t' Hw Hc Hi' Heq]; simplify_eq; simpl;
    rewrite (starts_with_split dollar r _ r') by done; [done|].
  by destruct Hw as [-> | ->], Hc as [-> | ->].
Qed.

Lemma starts_dollar_not_wild s : starts_with dollar s && starts_wild s = false.
Proof.
  destruct s as [|c s]; [done|]. unfold starts_wild. simpl.
  destruct (Z.eqb_spec c dollar) as [->|]; done.
Qed.

(** A topic name [requested] matches, from matching levels that instantiate its
    rewritten form. *)
Lemma CoversFilter_topic r t :
  ValidateTopicFilter r = None →
  instance_of (splitFilter (CoversFilter_normalise r)) t →
  MatchFilter_loop (splitFilter (CoversFilter_normalise r)) t = true →
  validateTopicName (join t) = None ∧ splitTopic (join t) = t
  ∧ starts_with dollar (join t) = starts_with dollar r ∧ MatchFilter r (join t) = true.
Proof.
  intros Hr Hi Hm.
  destruct (CoversFilter_normalise_ok r Hr) as (Hr' & Hd & Hn1 & Hn2 & Hback).
  apply ValidateTopicFilter_ok in Hr' as (Hlen & Htext & Hne & Hok).
  destruct (instance_nonempty _ _ Hne Hn1 Hn2 Hok Hi Hm) as [Ht Ht'].
  destruct (instance_topic _ t Hlen Htext Hi Ht Ht') as [Hv Hs].
  pose proof (instance_head_dollar _ t Hi Ht) as Hh. rewrite Hd in Hh.
  repeat split; try done. unfold MatchFilter.
  by rewrite Hs, Hback, Hh, starts_dollar_not_wild.
Qed.

(** When it answers [false], a topic name that [r] matches and [a] does not
    exists. *)
Lemma CoversFilter_complete a r :
  ValidateTopicFilter r = None → CoversFilter a r = Some false →
  ∃ t, validateTopicName t = None ∧ MatchFilter r t = true ∧ MatchFilter a t = false.
Proof.
  intros Hr Hc.
  destruct (CoversFilter_normalise_ok r Hr) as (Hr' & _).
  assert (Hok : tail_ok (splitFilter (CoversFilter_normalise r)))
    by (by right; apply ValidateTopicFilter_levels).
  destruct (starts_with dollar r && starts_wild a) eqn:Hw.
  - apply andb_true_iff in Hw as [Hd Hw].
    destruct (instance_exists _ Hok) as (t & Hi & Hm & _).
    destruct (CoversFilter_topic r t Hr Hi Hm) as (Hv & _ & Hh & Hmr).
    exists (join t). repeat split; [done..|]. unfold MatchFilter. by rewrite Hh, Hd, Hw.
  - assert (Hloop : CoversFilter_loop (splitFilter a) (splitFilter (CoversFilter_normalise r)) = false).
    { unfold CoversFilter in Hc. destruct (starts_with dollar r); [|congruence].
      destruct a; [done|]. simpl in Hw. rewrite Hw in Hc. congruence. }
    destruct (CoversFilter_loop_complete _ _ Hok Hloop) as (t & Hi & Hm & Hma).
    destruct (CoversFilter_topic r t Hr Hi Hm) as (Hv & Hs & Hh & Hmr).
    exists (join t). repeat split; [done..|]. unfold MatchFilter. by rewrite Hh, Hw, Hs.
Qed.

Lemma CoversFilter_total a r : ValidateTopicFilter a = None → ∃ b, CoversFilter a r = Some b.
Proof.
  intros (_ & _ & Hne & _)%ValidateTopicFilter_ok. unfold CoversFilter.
  destruct (starts_with dollar r), a; eauto. done.
Qed.

(** * Properties *)

(** [ValidateTopicFilter] accepts exactly the MQTT topic filters: at most
    65,535 bytes of UTF-8 without U+0000, not empty, in which [+] and [#] occupy
    whole levels and [#] only the last one. *)
Theorem ValidateTopicFilter_spec s :
  ValidateTopicFilter s = None ↔
  len s <= 65535 ∧ text_ok s ∧ s ≠ [] ∧ levels_ok (splitFilter s).
Proof. apply ValidateTopicFilter_ok. Qed.

(** On valid filters [MatchFilter] decides MQTT's matching relation between
    the levels of the filter and of the topic name, with the rule that a
    wildcard in the first level does not match topics that start with [$]. *)
Theorem MatchFilter_spec f t :
  ValidateTopicFilter f = None →
  MatchFilter f t = true ↔
  level_match (splitFilter f) (splitTopic t) ∧ ¬ system_hidden (splitFilter f) t.
Proof. intros Hf. by apply MatchFilter_levels, ValidateTopicFilter_levels. Qed.

Lemma MatchFilter_spec_witness :
  ValidateTopicFilter (bs "foo/#") = None ∧
  level_match (splitFilter (bs "foo/#")) (splitTopic (bs "foo/bar/baz")).
Proof.
  split; [vm_compute; reflexivity|].
  apply (MatchFilter_spec (bs "foo/#") (bs "foo/bar/baz")); vm_compute; reflexivity.
Defined.

(** C9: [CoversFilter] decides what its comment promises: on valid filters it
    never panics, and it returns [true] exactly when every valid topic name
    matched by [requested] is also matched by [allowed]. *)
Theorem CoversFilter_decides allowed requested :
  ValidateTopicFilter allowed = None → ValidateTopicFilter requested = None →
  ∃ b, CoversFilter allowed requested = Some b ∧
    (b = true ↔ ∀ t, validateTopicName t = None →
                     MatchFilter requested t = true → MatchFilter allowed t = true).
Proof.
  intros Ha Hr. destruct (CoversFilter_total allowed requested Ha) as [b Hb].
  exists b. split; [done|]. split.
  - intros ->. intros t. by apply CoversFilter_sound.
  - intros Hall. destruct b; [done|].
    destruct (CoversFilter_complete _ _ Hr Hb) as (t & Ht & Hm & Hna).
    by rewrite (Hall t) in Hna.
Qed.

Lemma CoversFilter_decides_witness :
  ValidateTopicFilter (bs "devices/42/#") = None ∧
  ValidateTopicFilter (bs "devices/42/commands/+") = None ∧
  ∃ b, CoversFilter (bs "devices/42/#") (bs "devices/42/commands/+") = Some b ∧
    (b = true ↔ ∀ t, validateTopicName t = None →
      MatchFilter (bs "devices/42/commands/+") t = true →
      MatchFilter (bs "devices/42/#") t = true).
Proof.
  split; [vm_compute; reflexivity|]. split; [vm_compute; reflexivity|].
  apply (CoversFilter_decides (bs "devices/42/#") (bs "devices/42/commands/+"));
    vm_compute; reflexivity.
Defined.
