(* ===== verification/Tree.v ===== *)
(** The subscription trie (src/internal/topic/tree.go): its operations, the
    shape invariant they keep, the flat table it represents and the theorem that
    [Match] returns the best matching subscription of every client. *)

From S2P Require Import Prelude Topic Wire Filters.

Local Open Scope Z_scope.
Local Open Scope orb_scope.

(** * Definitions *)

(** A [Subscriber] interface value: the identity of the object behind it (Go
    compares interface values by it) and what its method [ID()] answers. *)
Record Subscriber := mkSubscriber {
  sbr_ref : nat;
  ID : bytes }.

Record Subscription := mkSubscription {
  sub_ClientID : bytes;
  sub_Subscriber : Subscriber;
  sub_QoS : Z }.

#[export] Instance Subscriber_eq_dec : EqDecision Subscriber.
Proof. solve_decision. Defined.
#[export] Instance Subscription_eq_dec : EqDecision Subscription.
Proof. solve_decision. Defined.

(** A trie node owns its children: every operation runs on a private deep copy
    ([Clone]), so nodes are values here.  [TreeHeap] has them in memory, and shows that
    changing them there in place is what these functions say. *)
Inductive node :=
| Node (children : gmap bytes node) (subs : gmap bytes Subscription).

Definition children (n : node) : gmap bytes node := let 'Node ch _ := n in ch.
Definition subs (n : node) : gmap bytes Subscription := let 'Node _ sb := n in sb.

Definition empty_node : node := Node ∅ ∅.

Record Tree := mkTree { root : node }.

Definition NewTree : Tree := mkTree empty_node.

(** The loop of [Subscribe]: missing children are created on the way down. *)
Fixpoint subscribe (levels : list bytes) (sub : Subscription) (cur : node) : node :=
  match levels with
  | [] => Node (children cur) (<[sub_ClientID sub := sub]> (subs cur))
  | lvl :: levels =>
      let child := default empty_node (children cur !! lvl) in
      Node (<[lvl := subscribe levels sub child]> (children cur)) (subs cur)
  end.

Definition Subscribe (t : Tree) (filter : bytes) (sub : Subscription) : Tree :=
  mkTree (subscribe (splitFilter filter) sub (root t)).

Fixpoint clone (n : node) : node :=
  let 'Node ch sb := n in Node (clone <$> ch) sb.

Definition Clone (t : Tree) : Tree := mkTree (clone (root t)).

(** [len(child.children) == 0 && len(child.subs) == 0]. *)
Definition is_leafless (n : node) : bool :=
  (msize (children n) =? 0) && (msize (subs n) =? 0).

Fixpoint unsubscribe (levels : list bytes) (clientID : bytes) (n : node) : node :=
  match levels with
  | [] => Node (children n) (delete clientID (subs n))
  | lvl :: levels' =>
      match children n !! lvl with
      | None => n
      | Some child =>
          let child' := unsubscribe levels' clientID child in
          if is_leafless child'
          then Node (delete lvl (children n)) (subs n)
          else Node (<[lvl := child']> (children n)) (subs n)
      end
  end.

Definition Unsubscribe (t : Tree) (filter clientID : bytes) : Tree :=
  mkTree (unsubscribe (splitFilter filter) clientID (root t)).

(** Children left empty are deleted while the map is ranged over. *)
Fixpoint unsubscribeAll (clientID : bytes) (n : node) : node :=
  let 'Node ch sb := n in
  Node (omap (λ child, let child' := unsubscribeAll clientID child in
                       if is_leafless child' then None else Some child') ch)
       (delete clientID sb).

Definition UnsubscribeAll (t : Tree) (clientID : bytes) : Tree :=
  mkTree (unsubscribeAll clientID (root t)).

Definition addMatch (out : gmap bytes Subscription) (sub : Subscription) : gmap bytes Subscription :=
  match out !! sub_ClientID sub with
  | Some existing => if sub_QoS existing <? sub_QoS sub then <[sub_ClientID sub := sub]> out else out
  | None => <[sub_ClientID sub := sub]> out
  end.

(** [for _, sub := range n.subs { t.addMatch(out, sub) }].  Go leaves the order
    of the loop open; [addAll_order] shows that it does not matter. *)
Definition addAll (out : gmap bytes Subscription) (sb : gmap bytes Subscription) : gmap bytes Subscription :=
  foldl addMatch out (map_to_list sb).*2.

(** The [for next < len(topic) && topic[next] != '/'] loop; [rest] is
    [topic[next:]]. *)
Fixpoint level_end (rest : bytes) (next : nat) : nat :=
  match rest with
  | [] => next
  | c :: rest => if c =? slash then next else level_end rest (S next)
  end.

(** [match]; [None] is the nil node.  Every call moves [idx] forward, so
    [2 + len(topic)] calls deep is enough fuel ([match_node_fuel]). *)
Fixpoint match_node (fuel : nat) (n : option node) (topic : bytes) (idx : nat)
    (out : gmap bytes Subscription) : gmap bytes Subscription :=
  match fuel, n with
  | O, _ | _, None => out
  | S fuel, Some n =>
      let add_hash out :=
        match children n !! lv_hash with
        | Some h => addAll out (subs h)
        | None => out
        end in
      if (length topic <? idx)%nat then add_hash (addAll out (subs n))
      else
        let next := level_end (drop idx topic) idx in
        let level := take (next - idx) (drop idx topic) in
        let nextIdx := S next in
        let out := match_node fuel (children n !! level) topic nextIdx out in
        if (idx =? 0)%nat && starts_with dollar topic then out
        else add_hash (match_node fuel (children n !! lv_plus) topic nextIdx out)
  end.

Definition match_fuel (topic : bytes) : nat := 2 + length topic.

(** [Match]; the pooled slice it returns holds the values of [matched]. *)
Definition Match (t : Tree) (topic : bytes) : list Subscription :=
  (map_to_list (match_node (match_fuel topic) (Some (root t)) topic 0 ∅)).*2.

(** * Induction on the trie *)

Fixpoint node_size (n : node) : nat :=
  let 'Node ch _ := n in S (map_fold (λ _ c acc, (node_size c + acc)%nat) 0%nat ch).

Lemma node_size_child n l c : children n !! l = Some c → (node_size c < node_size n)%nat.
Proof.
  destruct n as [ch sb]. simpl. intros Hl.
  rewrite (map_fold_delete_L _ _ l c ch) by (done || intros; lia). lia.
Qed.

Lemma node_induction (P : node → Prop) :
  (∀ n, (∀ l c, children n !! l = Some c → P c) → P n) → ∀ n, P n.
Proof.
  intros HP n. induction n as [n IH] using (induction_ltof1 _ node_size). unfold ltof in IH.
  apply HP. intros l c Hl. apply IH. by eapply node_size_child.
Qed.

Lemma clone_id n : clone n = n.
Proof.
  induction n as [[ch sb] IH] using node_induction. simpl in *. f_equal.
  apply map_eq. intros l. rewrite lookup_fmap.
  destruct (ch !! l) as [c|] eqn:Hl; simpl; [|done]. f_equal. by apply (IH l).
Qed.

(** * The table a trie represents *)

Fixpoint node_at (p : list bytes) (n : node) : option node :=
  match p with
  | [] => Some n
  | l :: p => children n !! l ≫= node_at p
  end.

(** The subscription stored for filter levels [p] and client [c]. *)
Definition find (n : node) (p : list bytes) (c : bytes) : option Subscription :=
  node_at p n ≫= λ m, subs m !! c.

Lemma find_cons n l p c : find n (l :: p) c = children n !! l ≫= λ m, find m p c.
Proof. unfold find. simpl. by destruct (children n !! l). Qed.

Lemma find_nil n c : find n [] c = subs n !! c.
Proof. done. Qed.

Lemma find_empty p c : find empty_node p c = None.
Proof. destruct p; [done|]. by rewrite find_cons. Qed.

Lemma find_default o p c : find (default empty_node o) p c = o ≫= λ m, find m p c.
Proof. destruct o; [done|]. apply find_empty. Qed.

Lemma find_subscribe ls sub n p c :
  find (subscribe ls sub n) p c =
  if decide (p = ls ∧ c = sub_ClientID sub) then Some sub else find n p c.
Proof.
  revert n p. induction ls as [|l ls IH]; intros n p; simpl.
  - destruct p as [|l p]; [|rewrite !find_cons; simpl; decide_solver].
    rewrite !find_nil. simpl. rewrite lookup_insert. decide_solver.
  - destruct p as [|l' p]; [rewrite !find_nil; decide_solver|].
    rewrite !find_cons. simpl. rewrite lookup_insert.
    destruct (decide (l = l')) as [<-|Hl]; simpl; [|decide_solver].
    rewrite IH, find_default. decide_solver.
Qed.

Lemma is_leafless_true n : is_leafless n = true ↔ n = empty_node.
Proof.
  destruct n as [ch sb]. unfold is_leafless, empty_node, msize. simpl.
  rewrite andb_true_iff, !Z.eqb_eq. split.
  - intros [? ?]. f_equal; apply map_size_empty_inv; lia.
  - intros [= -> ->]. by rewrite !map_size_empty.
Qed.

Lemma is_leafless_find n p c s : find n p c = Some s → is_leafless n = false.
Proof.
  intros Hf. apply not_true_is_false. intros ->%is_leafless_true. by rewrite find_empty in Hf.
Qed.

(** Dropping an empty child loses nothing. *)
Lemma find_pruned n p c :
  (if is_leafless n then None else Some n) ≫= (λ m, find m p c) = find n p c.
Proof.
  destruct (is_leafless n) eqn:He; simpl; [|done].
  apply is_leafless_true in He as ->. by rewrite find_empty.
Qed.

Lemma unsubscribe_child l ls cid n child :
  children n !! l = Some child →
  ∀ l', children (unsubscribe (l :: ls) cid n) !! l' =
    if decide (l' = l) then
      let child' := unsubscribe ls cid child in if is_leafless child' then None else Some child'
    else children n !! l'.
Proof.
  intros Hl l'. simpl. rewrite Hl.
  destruct (is_leafless _); simpl; [rewrite lookup_delete|rewrite lookup_insert];
    repeat case_decide; congruence.
Qed.

Lemma unsubscribe_subs l ls cid n : subs (unsubscribe (l :: ls) cid n) = subs n.
Proof. simpl. by repeat case_match. Qed.

Lemma find_unsubscribe ls cid n p c :
  find (unsubscribe ls cid n) p c =
  if decide (p = ls ∧ c = cid) then None else find n p c.
Proof.
  revert n p. induction ls as [|l ls IH]; intros n p.
  - destruct p as [|l p]; [|rewrite !find_cons; simpl; decide_solver].
    rewrite !find_nil. simpl. rewrite lookup_delete. decide_solver.
  - destruct p as [|l' p]; [rewrite !find_nil, unsubscribe_subs; decide_solver|].
    rewrite !find_cons. destruct (children n !! l) as [child|] eqn:Hl.
    + rewrite (unsubscribe_child l ls cid n child Hl).
      destruct (decide (l' = l)) as [->|Hne]; [|decide_solver].
      cbv zeta. rewrite find_pruned, IH, Hl. simpl. decide_solver.
    + simpl. rewrite Hl. destruct (decide _) as [[[= -> _] _]|]; [|done]. by rewrite Hl.
Qed.

Lemma find_unsubscribeAll cid n p c :
  find (unsubscribeAll cid n) p c = if decide (c = cid) then None else find n p c.
Proof.
  revert p. induction n as [[ch sb] IH] using node_induction. intros p. simpl in *.
  destruct p as [|l p].
  - rewrite !find_nil. simpl. rewrite lookup_delete. decide_solver.
  - rewrite !find_cons. simpl. rewrite lookup_omap.
    destruct (ch !! l) as [child|] eqn:Hl; simpl; [|by case_decide].
    by rewrite find_pruned, (IH l child Hl).
Qed.

(** * The shape invariant *)

(** No node but the root is empty: branches without subscriptions are pruned. *)
Inductive pruned : node → Prop :=
| pruned_node n :
    (∀ l c, children n !! l = Some c → is_leafless c = false ∧ pruned c) → pruned n.

(** Subscriptions are stored under their client identifier. *)
Definition keyed (n : node) : Prop :=
  ∀ p c s, find n p c = Some s → sub_ClientID s = c.

Definition node_ok (n : node) : Prop := pruned n ∧ keyed n.

Lemma pruned_children n l c :
  pruned n → children n !! l = Some c → is_leafless c = false ∧ pruned c.
Proof. inversion 1; eauto. Qed.

Lemma pruned_empty : pruned empty_node.
Proof. constructor. done. Qed.

Lemma subscribe_not_leafless ls sub n : is_leafless (subscribe ls sub n) = false.
Proof. apply (is_leafless_find _ ls (sub_ClientID sub) sub). rewrite find_subscribe. decide_solver. Qed.

Lemma pruned_subscribe ls sub n : pruned n → pruned (subscribe ls sub n).
Proof.
  revert n. induction ls as [|l ls IH]; intros n Hn; simpl.
  - constructor. intros. by eapply pruned_children.
  - constructor. simpl. intros l' c. rewrite lookup_insert. case_decide; [intros [= <-]|by apply pruned_children].
    split; [apply subscribe_not_leafless|]. apply IH.
    destruct (children n !! l) eqn:Hl; simpl; [by eapply pruned_children|apply pruned_empty].
Qed.

Lemma pruned_unsubscribe ls cid n : pruned n → pruned (unsubscribe ls cid n).
Proof.
  revert n. induction ls as [|l ls IH]; intros n Hn.
  - constructor. intros. by eapply pruned_children.
  - destruct (children n !! l) as [child|] eqn:Hl; [|simpl; by rewrite Hl].
    constructor. intros l' c. rewrite (unsubscribe_child l ls cid n child Hl).
    case_decide; [|by apply pruned_children]. cbv zeta.
    destruct (is_leafless _) eqn:He; [done|]. intros [= <-]. split; [done|].
    apply IH. by eapply pruned_children.
Qed.

(** [unsubscribeAll] prunes whatever it visits. *)
Lemma pruned_unsubscribeAll cid n : pruned (unsubscribeAll cid n).
Proof.
  induction n as [[ch sb] IH] using node_induction. constructor. simpl in *.
  intros l c. rewrite lookup_omap. destruct (ch !! l) as [child|] eqn:Hl; simpl; [|done].
  destruct (is_leafless _) eqn:He; [done|]. intros [= <-]. split; [done|]. by apply (IH l).
Qed.

Lemma node_ok_empty : node_ok empty_node.
Proof. split; [apply pruned_empty|]. intros p c s. by rewrite find_empty. Qed.

Lemma node_ok_subscribe ls sub n : node_ok n → node_ok (subscribe ls sub n).
Proof.
  intros [Hp Hk]. split; [by apply pruned_subscribe|].
  intros p c s. rewrite find_subscribe. case_decide; [naive_solver|apply Hk].
Qed.

Lemma node_ok_unsubscribe ls cid n : node_ok n → node_ok (unsubscribe ls cid n).
Proof.
  intros [Hp Hk]. split; [by apply pruned_unsubscribe|].
  intros p c s. rewrite find_unsubscribe. case_decide; [done|apply Hk].
Qed.

Lemma node_ok_unsubscribeAll cid n : node_ok n → node_ok (unsubscribeAll cid n).
Proof.
  intros [Hp Hk]. split; [by apply pruned_unsubscribeAll|].
  intros p c s. rewrite find_unsubscribeAll. case_decide; [done|apply Hk].
Qed.

#[export] Hint Resolve node_ok_empty node_ok_subscribe node_ok_unsubscribe
  node_ok_unsubscribeAll : orb.

(** A pruned trie is determined by the table it represents. *)
Lemma pruned_inhabited n : pruned n → is_leafless n = false → ∃ p c s, find n p c = Some s.
Proof.
  induction n as [n IH] using node_induction. intros Hp Hne.
  destruct (decide (subs n = ∅)) as [Hs|[c [s Hs]]%map_choose]; [|by exists [], c, s].
  destruct (decide (children n = ∅)) as [Hc|[l [m Hl]]%map_choose].
  - destruct n as [ch sb]. simpl in *. subst. done.
  - destruct (pruned_children n l m Hp Hl) as [Hm Hpm].
    destruct (IH l m Hl Hpm Hm) as (p & c & s & Hf).
    exists (l :: p), c, s. by rewrite find_cons, Hl.
Qed.

Lemma pruned_ext n1 n2 :
  pruned n1 → pruned n2 → (∀ p c, find n1 p c = find n2 p c) → n1 = n2.
Proof.
  revert n2. induction n1 as [n1 IH] using node_induction. intros n2 Hp1 Hp2 Hf.
  assert (Hl : ∀ l p c, children n1 !! l ≫= (λ m, find m p c) = children n2 !! l ≫= (λ m, find m p c))
    by (intros; rewrite <- !find_cons; apply Hf).
  destruct n1 as [ch1 sb1] eqn:E1, n2 as [ch2 sb2] eqn:E2. simpl in *. f_equal.
  - apply map_eq. intros l. specialize (Hl l).
    destruct (ch1 !! l) as [m1|] eqn:H1, (ch2 !! l) as [m2|] eqn:H2; simpl in Hl; [|..|done].
    + f_equal. apply (IH l m1 H1);
        [apply (pruned_children _ l m1 Hp1 H1)|apply (pruned_children _ l m2 Hp2 H2)|done].
    + destruct (pruned_children _ l m1 Hp1 H1) as [Hne Hpm].
      destruct (pruned_inhabited m1 Hpm Hne) as (p & c & s & Hs). by rewrite Hl in Hs.
    + destruct (pruned_children _ l m2 Hp2 H2) as [Hne Hpm].
      destruct (pruned_inhabited m2 Hpm Hne) as (p & c & s & Hs). by rewrite <- Hl in Hs.
  - apply map_eq. intros c. apply (Hf [] c).
Qed.

(** * Matching by levels *)

Definition add_hash (n : node) (out : gmap bytes Subscription) : gmap bytes Subscription :=
  match children n !! lv_hash with Some h => addAll out (subs h) | None => out end.

(** [match_node] on the list of levels that are left; [sys] is its test for the
    first level of a system topic. *)
Fixpoint match_levels (sys : bool) (n : option node) (ls : list bytes)
    (out : gmap bytes Subscription) : gmap bytes Subscription :=
  match ls, n with
  | _, None => out
  | [], Some n => add_hash n (addAll out (subs n))
  | l :: ls, Some n =>
      let out := match_levels false (children n !! l) ls out in
      if sys then out
      else add_hash n (match_levels false (children n !! lv_plus) ls out)
  end.

Lemma level_end_shift s i : level_end s i = (i + level_end s 0)%nat.
Proof.
  revert i. induction s as [|c s IH]; intros i; simpl; [lia|].
  destruct (c =? slash); [lia|]. rewrite (IH (S i)), (IH 1%nat). lia.
Qed.

Lemma splitFilter_loop_cur cur s :
  splitFilter_loop cur s =
  (cur ++ take (level_end s 0) s) ::
  (if (level_end s 0 <? length s)%nat then splitFilter (drop (S (level_end s 0)) s) else []).
Proof.
  revert cur. induction s as [|c s IH]; intros cur; simpl; [by rewrite app_nil_r|].
  destruct (c =? slash); [by rewrite app_nil_r|].
  rewrite IH, (level_end_shift s 1). simpl. rewrite <- app_assoc. done.
Qed.

(** The levels from index [idx] on; past the end there are none. *)
Definition levels_from (topic : bytes) (idx : nat) : list bytes :=
  if (length topic <? idx)%nat then [] else splitFilter (drop idx topic).

Lemma levels_from_step topic idx :
  (idx <= length topic)%nat →
  let next := level_end (drop idx topic) idx in
  levels_from topic idx = take (next - idx) (drop idx topic) :: levels_from topic (S next)
  ∧ (idx <= next)%nat.
Proof.
  intros Hidx. cbv zeta. rewrite level_end_shift.
  set (k := level_end (drop idx topic) 0). split; [|lia].
  unfold levels_from. destruct (Nat.ltb_spec (length topic) idx); [lia|].
  unfold splitFilter at 1. rewrite splitFilter_loop_cur. fold k.
  replace (idx + k - idx)%nat with k by lia. simpl. f_equal.
  rewrite drop_drop. replace (idx + S k)%nat with (S (idx + k)) by lia.
  rewrite length_drop.
  destruct (Nat.ltb_spec k (length topic - idx)), (Nat.ltb_spec (length topic) (S (idx + k)));
    (done || lia).
Qed.

Lemma level_end_bound topic idx :
  (idx <= length topic)%nat → (level_end (drop idx topic) idx <= length topic)%nat.
Proof.
  intros Hidx. rewrite level_end_shift.
  assert (∀ s, (level_end s 0 <= length s)%nat) as Hb.
  { induction s as [|c s IHs]; simpl; [lia|]. destruct (c =? slash); [lia|].
    rewrite level_end_shift. lia. }
  specialize (Hb (drop idx topic)). rewrite length_drop in Hb. lia.
Qed.

(** With the fuel [Match] gives, the index-based recursion runs to its end. *)
Lemma match_node_levels fuel n topic idx out :
  (idx <= S (length topic))%nat → (length topic + 2 <= fuel + idx)%nat →
  match_node fuel n topic idx out =
  match_levels ((idx =? 0)%nat && starts_with dollar topic) n (levels_from topic idx) out.
Proof.
  revert n idx out. induction fuel as [|fuel IH]; intros n idx out Hidx Hfuel; [lia|].
  destruct n as [n|]; [|by destruct (levels_from topic idx)].
  simpl. destruct (Nat.ltb_spec (length topic) idx) as [Hlt|Hge].
  { unfold levels_from. by destruct (Nat.ltb_spec (length topic) idx); [|lia]. }
  destruct (levels_from_step topic idx Hge) as [Hls Hnext].
  pose proof (level_end_bound topic idx Hge).
  rewrite Hls. simpl. rewrite !IH by lia. simpl. by destruct (_ && _).
Qed.

(** * What a match collects *)

(** [o] is the best of the subscriptions [P] of client [cid]: one of them with
    the highest QoS, or none when there is none. *)
Definition best (P : Subscription → Prop) (cid : bytes) (o : option Subscription) : Prop :=
  match o with
  | None => ∀ s, P s → sub_ClientID s ≠ cid
  | Some s => P s ∧ sub_ClientID s = cid
              ∧ ∀ s', P s' → sub_ClientID s' = cid → sub_QoS s' <= sub_QoS s
  end.

Definition collected (P : Subscription → Prop) (out : gmap bytes Subscription) : Prop :=
  ∀ cid, best P cid (out !! cid).

Lemma collected_iff P Q out : (∀ s, P s ↔ Q s) → collected P out → collected Q out.
Proof.
  intros HPQ Hc cid. specialize (Hc cid). unfold best in *.
  destruct (out !! cid); setoid_rewrite <- HPQ; done.
Qed.

Lemma collected_empty : collected (λ _, False) ∅.
Proof. intros cid. rewrite lookup_empty. by intros s. Qed.

Lemma addMatch_collected P out sub :
  collected P out → collected (λ s, P s ∨ s = sub) (addMatch out sub).
Proof.
  intros Hc cid. specialize (Hc cid). unfold addMatch.
  destruct (decide (cid = sub_ClientID sub)) as [->|Hne].
  - destruct (out !! sub_ClientID sub) as [ex|] eqn:Hex; simpl in *.
    + destruct Hc as (HP & Hid & Hmax).
      destruct (Z.ltb_spec (sub_QoS ex) (sub_QoS sub)).
      * rewrite lookup_insert_eq. simpl. split; [by right|]. split; [done|].
        intros s' [Hs'| ->] Hid'; [|lia]. specialize (Hmax s' Hs' Hid'). lia.
      * rewrite Hex. simpl. split; [by left|]. split; [done|].
        intros s' [Hs'| ->] Hid'; [auto|lia].
    + rewrite lookup_insert_eq. simpl. split; [by right|]. split; [done|].
      intros s' [Hs'| ->] Hid'; [|lia]. destruct (Hc s' Hs' Hid').
  - replace (match out !! sub_ClientID sub with _ => _ end !! cid) with (out !! cid)
      by (repeat case_match; by rewrite ?lookup_insert_ne).
    destruct (out !! cid) as [ex|]; simpl in *.
    + destruct Hc as (HP & Hid & Hmax). split; [by left|]. split; [done|].
      intros s' [Hs'| ->] Hid'; [by auto|congruence].
    + intros s' [Hs'| ->]; [by apply Hc|congruence].
Qed.

Lemma foldl_addMatch_collected P out l :
  collected P out → collected (λ s, P s ∨ s ∈ l) (foldl addMatch out l).
Proof.
  revert P out. induction l as [|sub l IH]; intros P out Hc; simpl.
  - eapply collected_iff; [|done]. intros s. rewrite elem_of_nil. tauto.
  - eapply collected_iff; [|apply IH, addMatch_collected, Hc].
    intros s. rewrite elem_of_cons. tauto.
Qed.

Lemma addAll_collected P out sb :
  collected P out → collected (λ s, P s ∨ ∃ c, sb !! c = Some s) (addAll out sb).
Proof.
  intros Hc. eapply collected_iff; [|apply foldl_addMatch_collected, Hc].
  intros s. simpl. rewrite list_elem_of_fmap. apply or_iff_compat_l. split.
  - intros ([c s'] & -> & Hs). exists c. by apply elem_of_map_to_list.
  - intros [c Hs]. exists (c, s). by rewrite elem_of_map_to_list.
Qed.

Lemma add_hash_collected P out n :
  collected P out →
  collected (λ s, P s ∨ ∃ c, find n [lv_hash] c = Some s) (add_hash n out).
Proof.
  intros Hc. unfold add_hash, find. simpl. destruct (children n !! lv_hash) as [h|]; simpl.
  - by apply addAll_collected.
  - eapply collected_iff; [|done]. naive_solver.
Qed.

(** The paths of a trie that match a topic name of the given levels. *)
Definition path_match (sys : bool) (p ls : list bytes) : Prop :=
  level_match p ls ∧ (sys = true → head p ≠ Some lv_plus ∧ head p ≠ Some lv_hash).

Definition matching (sys : bool) (n : option node) (ls : list bytes) (s : Subscription) : Prop :=
  ∃ m p c, n = Some m ∧ find m p c = Some s ∧ path_match sys p ls.

Lemma level_match_nil p : level_match p [] ↔ p = [] ∨ p = [lv_hash].
Proof. split; [inversion 1; auto|]. intros [-> | ->]; constructor. Qed.

Lemma level_match_cons p l ls :
  plain l →
  level_match p (l :: ls) ↔
  (∃ q, p = l :: q ∧ level_match q ls) ∨ (∃ q, p = lv_plus :: q ∧ level_match q ls)
  ∨ p = [lv_hash].
Proof.
  intros Hl. split; [inversion 1; simplify_eq; eauto|].
  intros [(q & -> & ?)|[(q & -> & ?)| ->]]; by constructor.
Qed.

Lemma matching_false n ls s :
  matching false (Some n) ls s ↔ ∃ p c, find n p c = Some s ∧ level_match p ls.
Proof. unfold matching, path_match. naive_solver. Qed.

Lemma matching_child n l ls s :
  matching false (children n !! l) ls s ↔
  ∃ q c, find n (l :: q) c = Some s ∧ level_match q ls.
Proof.
  setoid_rewrite find_cons. destruct (children n !! l) as [m|]; simpl.
  - apply matching_false.
  - unfold matching. naive_solver.
Qed.

Lemma matching_nil n s :
  matching false (Some n) [] s ↔
  (∃ c, subs n !! c = Some s) ∨ (∃ c, find n [lv_hash] c = Some s).
Proof.
  rewrite matching_false. setoid_rewrite level_match_nil. split.
  - intros (p & c & Hf & [-> | ->]); [left|right]; by exists c.
  - intros [[c Hc]|[c Hc]]; [exists [], c|exists [lv_hash], c]; auto.
Qed.

Lemma matching_cons n l ls s :
  plain l →
  matching false (Some n) (l :: ls) s ↔
  matching false (children n !! l) ls s ∨ matching false (children n !! lv_plus) ls s
  ∨ ∃ c, find n [lv_hash] c = Some s.
Proof.
  intros Hl. rewrite matching_false, !matching_child.
  setoid_rewrite level_match_cons; [|done]. split.
  - intros (p & c & Hf & [(q & -> & ?)|[(q & -> & ?)| ->]]); eauto 6.
  - intros [(q & c & ? & ?)|[(q & c & ? & ?)|[c ?]]]; eauto 10.
Qed.

Lemma matching_cons_sys n l ls s :
  plain l →
  matching true (Some n) (l :: ls) s ↔ matching false (children n !! l) ls s.
Proof.
  intros Hl. rewrite matching_child. pose proof (plain_not_wild l Hl) as [? ?].
  unfold matching, path_match. setoid_rewrite level_match_cons; [|done]. split.
  - intros (m & p & c & [= <-] & Hf & [(q & -> & Hq)|[(q & -> & _)| ->]] & Hsys);
      [eauto|by destruct (Hsys eq_refl)..].
  - intros (q & c & Hf & Hq). exists n, (l :: q), c. simpl. split; [done|]. split; [done|]. split; [by eauto|].
    intros _. split; congruence.
Qed.

Lemma match_levels_collected P sys n ls out :
  Forall plain ls → (sys = true → ls ≠ []) → collected P out →
  collected (λ s, P s ∨ matching sys n ls s) (match_levels sys n ls out).
Proof.
  intros Hls. revert P sys n out.
  induction Hls as [|l ls Hl Hls IH]; intros P sys n out Hsys Hc;
    (destruct n as [n|]; simpl; [|eapply collected_iff; [|done]; unfold matching; naive_solver]).
  - assert (sys = false) as -> by (by destruct sys; [destruct Hsys|]).
    eapply collected_iff; [|apply add_hash_collected, addAll_collected, Hc].
    intros s. simpl. rewrite matching_nil. tauto.
  - destruct sys; (eapply collected_iff; [|repeat first [apply add_hash_collected | apply IH; [done|]]; apply Hc]);
      intros s; simpl; [rewrite matching_cons_sys|rewrite matching_cons]; tauto.
Qed.

Lemma Match_collected t topic :
  validateTopicName topic = None →
  collected (matching (starts_with dollar topic) (Some (root t)) (splitTopic topic))
    (match_node (match_fuel topic) (Some (root t)) topic 0 ∅).
Proof.
  intros (_ & _ & Hne & Hpl)%validateTopicName_ok.
  rewrite match_node_levels by (unfold match_fuel; lia).
  change (levels_from topic 0) with (splitFilter topic). rewrite splitTopic_eq.
  rewrite <- (join_splitFilter topic), plain_join in Hpl.
  eapply collected_iff; [|apply match_levels_collected, collected_empty; [done|intros; apply splitFilter_ne]].
  simpl. tauto.
Qed.

Lemma elem_of_Match t topic s :
  s ∈ Match t topic ↔
  ∃ c, match_node (match_fuel topic) (Some (root t)) topic 0 ∅ !! c = Some s.
Proof.
  unfold Match. rewrite list_elem_of_fmap. split.
  - intros ([c s'] & -> & Hs). exists c. by apply elem_of_map_to_list.
  - intros [c Hs]. exists (c, s). by rewrite elem_of_map_to_list.
Qed.

(** The order in which Go ranges over the subscriptions of a node. *)
Lemma lookup_addMatch out s c :
  addMatch out s !! c =
  if decide (c = sub_ClientID s) then
    Some (match out !! sub_ClientID s with
          | Some existing => if sub_QoS existing <? sub_QoS s then s else existing
          | None => s
          end)
  else out !! c.
Proof.
  unfold addMatch. destruct (decide (c = sub_ClientID s)) as [->|Hne].
  - repeat case_match; rewrite ?lookup_insert_eq; congruence.
  - repeat case_match; by rewrite ?lookup_insert_ne.
Qed.

Lemma addMatch_comm out s1 s2 :
  sub_ClientID s1 ≠ sub_ClientID s2 →
  addMatch (addMatch out s1) s2 = addMatch (addMatch out s2) s1.
Proof.
  intros Hne. apply map_eq. intros c. rewrite !lookup_addMatch.
  rewrite (decide_False (P := sub_ClientID s2 = _)), (decide_False (P := sub_ClientID s1 = _)) by congruence.
  repeat case_decide; congruence.
Qed.

Lemma foldl_addMatch_perm out l1 l2 :
  NoDup (sub_ClientID <$> l1) → l1 ≡ₚ l2 → foldl addMatch out l1 = foldl addMatch out l2.
Proof.
  intros Hnd Hp. revert out Hnd.
  induction Hp as [|x l1 l2 Hp IH|x y l|l1 l2 l3 Hp1 IH1 Hp2 IH2]; intros out Hnd; simpl.
  - done.
  - apply IH. by inversion Hnd.
  - rewrite addMatch_comm; [done|]. intros Heq. inversion Hnd as [|? ? Hx _]. simpl in *.
    apply Hx. rewrite Heq. by left.
  - rewrite IH1 by done. apply IH2. by rewrite <- Hp1.
Qed.

Lemma keyed_values_NoDup (sb : gmap bytes Subscription) :
  (∀ c s, sb !! c = Some s → sub_ClientID s = c) → NoDup (sub_ClientID <$> (map_to_list sb).*2).
Proof.
  intros Hk. replace (sub_ClientID <$> (map_to_list sb).*2) with (map_to_list sb).*1.
  - apply NoDup_fst_map_to_list.
  - rewrite <- list_fmap_compose. apply list_fmap_ext. intros i [c s] Hi. simpl.
    symmetry. apply Hk. apply elem_of_map_to_list. by eapply list_elem_of_lookup_2.
Qed.

Lemma keyed_subs n c s : keyed n → subs n !! c = Some s → sub_ClientID s = c.
Proof. intros Hk Hs. by apply (Hk [] c). Qed.

(** * Properties *)

(** The abstract subscription table: filter levels and client to subscription. *)
Abbreviation table := (gmap (list bytes * bytes) Subscription).

(** [t] represents [m]: well-shaped, with the subscriptions of [m]. *)
Definition represents (t : Tree) (m : table) : Prop :=
  node_ok (root t) ∧ ∀ p c, find (root t) p c = m !! (p, c).

(** C11: the trie refines a flat table from (filter, client) to subscription.
    [NewTree] is the empty table; [Subscribe], [Unsubscribe], [UnsubscribeAll]
    and [Clone] insert one entry, delete one entry, delete the entries of one
    client and change nothing, and keep the shape invariant (no empty branch,
    subscriptions keyed by client); and the representation is canonical: two
    tries for one table are equal, so that removing subscriptions gives back
    every node that was created for them. *)
Theorem Tree_refines_table :
  represents NewTree ∅ ∧
  (∀ t m f s, represents t m →
    represents (Subscribe t f s) (<[(splitFilter f, sub_ClientID s) := s]> m)) ∧
  (∀ t m f c, represents t m →
    represents (Unsubscribe t f c) (delete (splitFilter f, c) m)) ∧
  (∀ t m c, represents t m →
    represents (UnsubscribeAll t c) (filter (λ e, e.1.2 ≠ c) m)) ∧
  (∀ t m, represents t m → represents (Clone t) m) ∧
  (∀ t1 t2 m, represents t1 m → represents t2 m → t1 = t2).
Proof.
  split_and!; unfold represents.
  - split; [auto with orb|]. intros p c. by rewrite find_empty, lookup_empty.
  - intros t m f s [Hok Hf]. split; [simpl; auto with orb|]. intros p c. simpl.
    rewrite find_subscribe, Hf, lookup_insert. repeat case_decide; naive_solver.
  - intros t m f c0 [Hok Hf]. split; [simpl; auto with orb|]. intros p c. simpl.
    rewrite find_unsubscribe, Hf, lookup_delete. repeat case_decide; naive_solver.
  - intros t m c0 [Hok Hf]. split; [simpl; auto with orb|]. intros p c. simpl.
    rewrite find_unsubscribeAll, Hf, map_lookup_filter.
    destruct (m !! (p, c)); simpl; repeat case_decide || case_guard; naive_solver.
  - intros t m [Hok Hf]. simpl. by rewrite clone_id.
  - intros [n1] [n2] m [[Hp1 _] Hf1] [[Hp2 _] Hf2]. f_equal. simpl in *.
    apply pruned_ext; [done..|]. intros p c. by rewrite Hf1, Hf2.
Qed.

(** Every stored filter is a valid MQTT filter, as the decoder guarantees. *)
Definition filters_ok (t : Tree) : Prop :=
  ∀ p c s, find (root t) p c = Some s → ∃ f, p = splitFilter f ∧ ValidateTopicFilter f = None.

Lemma filters_ok_NewTree : filters_ok NewTree.
Proof. intros p c s. by rewrite find_empty. Qed.

Lemma filters_ok_Subscribe t f s :
  ValidateTopicFilter f = None → filters_ok t → filters_ok (Subscribe t f s).
Proof.
  intros Hf Ht p c s'. simpl. rewrite find_subscribe. case_decide as Hd; [|apply Ht].
  destruct Hd as [-> _]. eauto.
Qed.

Lemma filters_ok_Unsubscribe t f c : filters_ok t → filters_ok (Unsubscribe t f c).
Proof. intros Ht p c' s. simpl. rewrite find_unsubscribe. case_decide; [done|apply Ht]. Qed.

Lemma filters_ok_UnsubscribeAll t c : filters_ok t → filters_ok (UnsubscribeAll t c).
Proof. intros Ht p c' s. simpl. rewrite find_unsubscribeAll. case_decide; [done|apply Ht]. Qed.

#[export] Hint Resolve filters_ok_NewTree filters_ok_Subscribe filters_ok_Unsubscribe
  filters_ok_UnsubscribeAll : orb.

(** Some stored filter of subscription [s] matches the topic. *)
Definition routed (t : Tree) (topic : bytes) (s : Subscription) : Prop :=
  ∃ f c, find (root t) (splitFilter f) c = Some s ∧ ValidateTopicFilter f = None
         ∧ MatchFilter f topic = true.

Lemma routed_matching t topic s :
  filters_ok t →
  routed t topic s ↔ matching (starts_with dollar topic) (Some (root t)) (splitTopic topic) s.
Proof.
  intros Hok. unfold routed, matching, path_match. split.
  - intros (f & c & Hf & Hv & Hm). exists (root t), (splitFilter f), c. split; [done|]. split; [done|].
    apply ValidateTopicFilter_levels in Hv. apply MatchFilter_levels in Hm as [Hl Hs]; [|done].
    split; [done|]. unfold system_hidden in Hs. tauto.
  - intros (m & p & c & [= <-] & Hf & Hl & Hs). destruct (Hok p c s Hf) as (f & -> & Hv).
    exists f, c. split; [done|]. split; [done|]. apply MatchFilter_levels; [by apply ValidateTopicFilter_levels|].
    split; [done|]. unfold system_hidden. tauto.
Qed.

(** What [Match] returns, by [MatchFilter]. *)
Lemma Match_routes t topic :
  filters_ok t → validateTopicName topic = None →
  NoDup (sub_ClientID <$> Match t topic) ∧
  (∀ s, s ∈ Match t topic → routed t topic s ∧
    ∀ s', routed t topic s' → sub_ClientID s' = sub_ClientID s → sub_QoS s' <= sub_QoS s) ∧
  (∀ s, routed t topic s → ∃ s', s' ∈ Match t topic ∧ sub_ClientID s' = sub_ClientID s).
Proof.
  intros Hok Ht. pose proof (Match_collected t topic Ht) as Hc.
  eapply collected_iff in Hc; [|intros s; symmetry; by apply routed_matching].
  split_and!.
  - apply keyed_values_NoDup. intros c s Hs. specialize (Hc c). rewrite Hs in Hc. by destruct Hc as (_ & ? & _).
  - intros s [c Hs]%elem_of_Match. specialize (Hc c). rewrite Hs in Hc.
    destruct Hc as (Hr & Hid & Hmax). split; [done|]. intros s' ? ?. apply Hmax; congruence.
  - intros s Hr. specialize (Hc (sub_ClientID s)).
    destruct (match_node _ _ _ _ _ !! _) as [s'|] eqn:Hs'.
    + exists s'. split; [apply elem_of_Match; eauto|]. by destruct Hc as (_ & ? & _).
    + by destruct (Hc s Hr).
Qed.

(** C10: routing is correct with respect to [MatchFilter]: [Match] returns at most
    one subscription per client; each one belongs to a stored filter that
    matches the topic and has the highest QoS of those its client has; and
    every client with a matching filter is in the result. *)
Theorem Match_best t topic :
  filters_ok t → validateTopicName topic = None →
  NoDup (sub_ClientID <$> Match t topic) ∧
  (∀ s, s ∈ Match t topic → routed t topic s ∧
    ∀ s', routed t topic s' → sub_ClientID s' = sub_ClientID s → sub_QoS s' <= sub_QoS s) ∧
  (∀ s, routed t topic s → ∃ s', s' ∈ Match t topic ∧ sub_ClientID s' = sub_ClientID s).
Proof. apply Match_routes. Qed.

(** Go ranges over a map in an unspecified order; on a well-shaped trie the
    subscriptions [addMatch] collects from a node do not depend on it. *)
Lemma addAll_order n out l :
  node_ok n → l ≡ₚ (map_to_list (subs n)).*2 → foldl addMatch out l = addAll out (subs n).
Proof.
  intros [_ Hk] Hl. symmetry. apply foldl_addMatch_perm; [|done].
  apply keyed_values_NoDup. intros c s. by apply keyed_subs.
Qed.

(** [Unsubscribe] undoes [Subscribe]: the trie of before, with no branch left
    over, whenever the client had no subscription for that filter. *)
Lemma Unsubscribe_Subscribe t f s :
  node_ok (root t) → find (root t) (splitFilter f) (sub_ClientID s) = None →
  Unsubscribe (Subscribe t f s) f (sub_ClientID s) = t.
Proof.
  intros [Hp Hk] Hnone. destruct t as [n]. unfold Unsubscribe, Subscribe. simpl in *. f_equal.
  apply pruned_ext; [|done|].
  - by apply pruned_unsubscribe, pruned_subscribe.
  - intros p c. rewrite find_unsubscribe, find_subscribe. repeat case_decide; naive_solver.
Qed.

(** * Witnesses *)

Definition alice : Subscriber := mkSubscriber 1 (bs "alice").
Definition bob : Subscriber := mkSubscriber 2 (bs "bob").
Definition sub_of (u : Subscriber) (qos : Z) : Subscription := mkSubscription (ID u) u qos.

Definition sample_tree : Tree :=
  Subscribe (Subscribe (Subscribe NewTree (bs "sport/+") (sub_of alice 0))
    (bs "sport/#") (sub_of alice 1)) (bs "#") (sub_of bob 1).

Lemma Match_best_witness :
  filters_ok sample_tree ∧ validateTopicName (bs "sport/tennis") = None ∧
  NoDup (sub_ClientID <$> Match sample_tree (bs "sport/tennis")) ∧
  sub_of alice 1 ∈ Match sample_tree (bs "sport/tennis") ∧
  length (Match sample_tree (bs "sport/tennis")) = 2%nat.
Proof.
  assert (Hok : filters_ok sample_tree).
  { repeat (apply filters_ok_Subscribe; [vm_compute; reflexivity|]). apply filters_ok_NewTree. }
  assert (Ht : validateTopicName (bs "sport/tennis") = None) by (vm_compute; reflexivity).
  split; [exact Hok|]. split; [exact Ht|].
  split; [exact (proj1 (Match_best sample_tree (bs "sport/tennis") Hok Ht))|].
  split; [|vm_compute; reflexivity].
  apply elem_of_Match. exists (bs "alice"). vm_compute. reflexivity.
Defined.
