(* ===== verification/Encoder.v ===== *)
(** The packet encoders (src/internal/protocol/encoder.go).  The source writes to
    an [io.Writer]; every caller passes a [bytes.Buffer], whose writes never
    fail, so an encoder is the bytes it appends.  [Writers] has the encoders on any
    writer. *)

From S2P Require Import Prelude Topic Wire.

Local Open Scope Z_scope.
Local Open Scope orb_scope.

(** * Definitions *)

(** The loop of [encodeRemainingLength]; [fuel] bounds its iterations, and
    [encodeRemainingLength_loop_varint] shows that the four it is called with suffice. *)
Fixpoint encodeRemainingLength_loop (fuel : nat) (length : Z) : bytes :=
  match fuel with
  | O => []
  | S fuel =>
      let encodedByte := length mod 128 in
      let length := length / 128 in
      let encodedByte := if 0 <? length then Z.lor encodedByte 128 else encodedByte in
      u8 encodedByte :: (if length =? 0 then [] else encodeRemainingLength_loop fuel length)
  end.

Definition encodeRemainingLength (length : Z) : result bytes :=
  if (length <? 0) || (MaxRemainingLength <? length)
  then Error (New "invalid remaining length")
  else Ok (encodeRemainingLength_loop 4 length).

(** [binary.Write] of a big-endian [uint16]. *)
Definition put_be16 (z : Z) : bytes := [u8 (Z.shiftr (u16 z) 8); u8 z].

Definition EncodePublish (pkt : PublishPacket) : result bytes :=
  fail_if 1 <? pub_QoS pkt with New "unsupported QoS level" in
  fail_if (0 <? pub_QoS pkt) && (pub_PacketID pkt =? 0) with New "invalid packet identifier" in
  fail_if (pub_QoS pkt =? 0) && pub_DUP pkt with New "invalid DUP flag for QoS 0" in
  match validateTopicName (pub_Topic pkt) with
  | Some err => Error err
  | None =>
      let remainingLength := 2 + len (pub_Topic pkt) in
      let remainingLength := if 0 <? pub_QoS pkt then remainingLength + 2 else remainingLength in
      fail_if MaxRemainingLength - remainingLength <? len (pub_Payload pkt)
        with New "invalid remaining length" in
      let remainingLength := remainingLength + len (pub_Payload pkt) in
      let flags := 48 in
      let flags := if pub_DUP pkt then Z.lor flags 8 else flags in
      let flags := Z.lor flags (u8 (Z.shiftl (Z.land (pub_QoS pkt) 3) 1)) in
      let flags := if pub_Retain pkt then Z.lor flags 1 else flags in
      let! length := encodeRemainingLength remainingLength in
      Ok ([flags] ++ length ++ put_be16 (len (pub_Topic pkt)) ++ pub_Topic pkt
          ++ (if 0 <? pub_QoS pkt then put_be16 (pub_PacketID pkt) else [])
          ++ pub_Payload pkt)
  end.

(** The error of the encoder is dropped: the buffer is empty then. *)
Definition EncodeRetained (topic payload : bytes) : bytes :=
  match EncodePublish (mkPublish topic payload true false 0 0) with
  | Ok buf => buf
  | Error _ => []
  end.

Definition encodeConnAck (pkt : ConnAckPacket) : result bytes :=
  let flags := if ca_SessionPresent pkt then 1 else 0 in
  Ok ([32; 2] ++ [flags; u8 (ca_ReturnCode pkt)]).

Definition encodePingResp : result bytes := Ok [208; 0].

Definition encodePubAck (packetID : Z) : result bytes :=
  fail_if packetID =? 0 with New "invalid packet identifier" in
  Ok ([64; 2] ++ put_be16 packetID).

Definition encodeUnsubAck (packetID : Z) : result bytes :=
  Ok ([176; 2] ++ put_be16 packetID).

Definition encodeSubAck (pkt : SubAckPacket) : result bytes :=
  fail_if MaxRemainingLength - 2 <? len (sa_ReturnCodes pkt) with New "invalid remaining length" in
  let remainingLength := 2 + len (sa_ReturnCodes pkt) in
  let! length := encodeRemainingLength remainingLength in
  Ok ([144] ++ length ++ put_be16 (sa_PacketID pkt) ++ sa_ReturnCodes pkt).

Definition Encode (p : Packet) : result bytes :=
  match p with
  | PConnAck pkt => encodeConnAck pkt
  | PPingResp => encodePingResp
  | PPubAck packetID => encodePubAck packetID
  | PSubAck pkt => encodeSubAck pkt
  | PUnsubAck packetID => encodeUnsubAck packetID
  | _ => Error ErrUnsupportedPacket
  end.
