(* ===== verification/Decoder.v ===== *)
(** The packet decoder (src/internal/protocol/decoder.go). *)

From S2P Require Import Prelude Topic Wire.

Local Open Scope Z_scope.
Local Open Scope orb_scope.

(** * Definitions *)

Record connectFlags := mkFlags {
  cleanSession : bool;
  willFlag : bool;
  willQoS : Z;
  willRetain : bool;
  usernameFlag : bool;
  passwordFlag : bool }.

(** [b & mask != 0]. *)
Definition has_bits (b mask : Z) : bool := negb (Z.land b mask =? 0).

Definition decodeConnectFlags (b : Z) : result connectFlags :=
  fail_if has_bits b 1 with New "reserved connect flag must be 0" in
  let f := mkFlags (has_bits b 2) (has_bits b 4) (Z.land (Z.shiftr b 3) 3)
             (has_bits b 32) (has_bits b 128) (has_bits b 64) in
  fail_if negb (willFlag f) && (negb (willQoS f =? 0) || willRetain f)
    with New "will QoS and retain must be 0 when will flag is not set" in
  fail_if passwordFlag f && negb (usernameFlag f)
    with New "password flag requires username flag" in
  Ok f.

(** [io.ReadFull] into a one-byte array. *)
Definition readByte `{IoReader R} (r : R) : result (Z * R) :=
  let! (b, r) := ReadFull r 1 in Ok (default 0 (head b), r).

(** The loop of [decodeRemainingLength]; [i] counts the iterations left to the
    bound 4 and [n] those done. *)
Fixpoint decodeRemainingLength_loop (i : nat) (n multiplier value : Z) (r : Reader)
    : result (Z * Z * Reader) :=
  match i with
  | O => Error ErrUnexpectedEOF
  | S i =>
      let! (digit, r) := readByte r in
      let value := value + Z.land digit 127 * multiplier in
      if Z.land digit 128 =? 0 then Ok (value, n + 1, r)
      else decodeRemainingLength_loop i (n + 1) (multiplier * 128) value r
  end.

Definition decodeRemainingLength (r : Reader) : result (Z * Z * Reader) :=
  decodeRemainingLength_loop 4 0 1 0 r.

Definition decodeWill (r : LimitedReader) (qos : Z) (retain : bool)
    : result (WillMessage * LimitedReader) :=
  let! (topic, r) := readUTF8String r in
  match validateTopicName topic with
  | Some err => Error err
  | None =>
      let! (payload, r) := readBinaryData r in
      Ok (mkWill topic payload qos retain, r)
  end.

(** An optional field of CONNECT: present when its flag is set. *)
Definition read_if {A} (flag : bool) (read : LimitedReader → result (A * LimitedReader))
    (lr : LimitedReader) : result (option A * LimitedReader) :=
  if flag then let! (a, lr) := read lr in Ok (Some a, lr) else Ok (None, lr).

Definition decodeConnect (r : Reader) (remainingLength : Z) : result (ConnectPacket * Reader) :=
  let lr := mkLimited r remainingLength in
  let! (protoName, lr) := readUTF8String lr in
  fail_if bool_decide (protoName ≠ bs "MQTT") with New "invalid protocol name" in
  let! (level, lr) := readByte lr in
  fail_if negb (level =? 4) with New "unsupported protocol level" in
  let! (flagsByte, lr) := readByte lr in
  let! flags := decodeConnectFlags flagsByte in
  let! (keepAlive, lr) := readUint16 lr in
  let! (clientID, lr) := readUTF8String lr in
  fail_if bool_decide (clientID = []) && negb (cleanSession flags)
    with New "clientID must be present if clean session is false" in
  let! (will, lr) :=
    read_if (willFlag flags) (λ lr, decodeWill lr (willQoS flags) (willRetain flags)) lr in
  let! (username, lr) := read_if (usernameFlag flags) readUTF8String lr in
  let! (password, lr) := read_if (passwordFlag flags) readBinaryData lr in
  fail_if negb (lr_N lr =? 0) with New "malformed CONNECT packet: extra bytes" in
  Ok (mkConnect protoName level (cleanSession flags) keepAlive clientID will username password,
      lr_R lr).

(** The loop of [decodeSubscribe].  An iteration reads at least three bytes, so
    one more than the bytes that arrive is enough fuel
    ([items_takes] in CodecProofs.v). *)
Fixpoint decodeSubscribe_loop (fuel : nat) (lr : LimitedReader) (subs : list WireSubscription)
    : result (list WireSubscription * LimitedReader) :=
  match fuel with
  | O => Ok (subs, lr)
  | S fuel =>
      if 0 <? lr_N lr then
        let! (topic, lr) := readUTF8String lr in
        match ValidateTopicFilter topic with
        | Some err => Error err
        | None =>
            let! (qos, lr) := readByte lr in
            fail_if 2 <? qos with New "invalid QoS level" in
            decodeSubscribe_loop fuel lr (subs ++ [mkWireSub topic qos])
        end
      else Ok (subs, lr)
  end.

Definition decodeSubscribe (r : Reader) (remainingLength : Z) : result (SubscribePacket * Reader) :=
  let lr := mkLimited r remainingLength in
  let! (packetID, lr) := readUint16 lr in
  fail_if packetID =? 0 with New "invalid packet identifier" in
  let! (subs, lr) := decodeSubscribe_loop (S (length (rd_data r))) lr [] in
  fail_if bool_decide (subs = []) with New "subscribe must contain at least one topic" in
  Ok (mkSubscribe packetID subs, lr_R lr).

Definition decodePublish (r : Reader) (remainingLength qos : Z) (dup retain : bool)
    : result (PublishPacket * Reader) :=
  let lr := mkLimited r remainingLength in
  let! (topic, lr) := readUTF8String lr in
  match validateTopicName topic with
  | Some err => Error err
  | None =>
      let! (packetID, lr) :=
        (if 0 <? qos then
           let! (packetID, lr) := readUint16 lr in
           fail_if packetID =? 0 with New "invalid packet identifier" in
           Ok (packetID, lr)
         else Ok (0, lr)) in
      let! (payload, lr) := ReadFull lr (lr_N lr) in
      Ok (mkPublish topic payload retain dup qos packetID, lr_R lr)
  end.

Definition decodePubAck (r : Reader) (remainingLength : Z) : result (Z * Reader) :=
  fail_if negb (remainingLength =? 2) with New "invalid PUBACK packet" in
  let! (packetID, r) := readUint16 r in
  fail_if packetID =? 0 with New "invalid packet identifier" in
  Ok (packetID, r).

(** The loop of [decodeUnsubscribe], with fuel as above. *)
Fixpoint decodeUnsubscribe_loop (fuel : nat) (lr : LimitedReader) (topics : list bytes)
    : result (list bytes * LimitedReader) :=
  match fuel with
  | O => Ok (topics, lr)
  | S fuel =>
      if 0 <? lr_N lr then
        let! (topic, lr) := readUTF8String lr in
        match ValidateTopicFilter topic with
        | Some err => Error err
        | None => decodeUnsubscribe_loop fuel lr (topics ++ [topic])
        end
      else Ok (topics, lr)
  end.

Definition decodeUnsubscribe (r : Reader) (remainingLength : Z)
    : result (UnsubscribePacket * Reader) :=
  let lr := mkLimited r remainingLength in
  let! (packetID, lr) := readUint16 lr in
  fail_if packetID =? 0 with New "invalid packet identifier" in
  let! (topics, lr) := decodeUnsubscribe_loop (S (length (rd_data r))) lr [] in
  fail_if bool_decide (topics = []) with New "unsubscribe must contain at least one topic" in
  Ok (mkUnsubscribe packetID topics, lr_R lr).

(** The [switch] on the packet type. *)
Definition decodeBody (r : Reader) (packetType flags remainingLength : Z)
    : result (Packet * Reader) :=
  if packetType =? PacketTypeConnect then
    fail_if negb (flags =? 0) with New "invalid CONNECT flags" in
    let! (p, r) := decodeConnect r remainingLength in Ok (PConnect p, r)
  else if packetType =? PacketTypePingReq then
    fail_if negb (flags =? 0) || negb (remainingLength =? 0) with New "invalid PINGREQ packet" in
    Ok (PPingReq, r)
  else if packetType =? PacketTypePublish then
    let qos := Z.land (Z.shiftr flags 1) 3 in
    fail_if qos =? 3 with New "invalid QoS level" in
    let dup := has_bits flags 8 in
    fail_if (qos =? 0) && dup with New "invalid DUP flag for QoS 0" in
    let retain := has_bits flags 1 in
    let! (p, r) := decodePublish r remainingLength qos dup retain in Ok (PPublish p, r)
  else if packetType =? PacketTypePubAck then
    fail_if negb (flags =? 0) with New "invalid PUBACK flags" in
    let! (p, r) := decodePubAck r remainingLength in Ok (PPubAck p, r)
  else if packetType =? PacketTypeSubscribe then
    fail_if negb (flags =? 2) with New "invalid SUBSCRIBE flags" in
    let! (p, r) := decodeSubscribe r remainingLength in Ok (PSubscribe p, r)
  else if packetType =? PacketTypeUnsubscribe then
    fail_if negb (flags =? 2) with New "invalid UNSUBSCRIBE flags" in
    let! (p, r) := decodeUnsubscribe r remainingLength in Ok (PUnsubscribe p, r)
  else if packetType =? PacketTypeDisconnect then
    fail_if negb (flags =? 0) || negb (remainingLength =? 0) with New "invalid DISCONNECT packet" in
    Ok (PDisconnect, r)
  else Error (New "unsupported packet type").

Definition DecodeWithLimit (r : Reader) (maxPacketSize : Z) : result (Packet * Reader) :=
  fail_if (maxPacketSize <=? 0) || (MaxPacketSize <? maxPacketSize)
    with New "invalid maximum packet size" in
  let! (b1, r) := readByte r in
  let packetType := Z.shiftr b1 4 in
  let flags := Z.land b1 15 in
  let! (remainingLength, lengthBytes, r) := decodeRemainingLength r in
  fail_if maxPacketSize <? 1 + lengthBytes + remainingLength with ErrPacketTooLarge in
  decodeBody r packetType flags remainingLength.

Definition Decode (r : Reader) : result (Packet * Reader) := DecodeWithLimit r MaxPacketSize.
