(* ===== verification/Codec.v ===== *)
(** Correctness of the codec: what each reader consumes, the variable-length
    remaining length, and the wire format of every packet the broker reads, with
    what MQTT allows in it ([will_ok], [connect_ok]) and what the decoder accepts
    ([will_accepted], [connect_accepted]). *)

From S2P Require Import Prelude Topic Wire Filters Encoder Decoder.

Local Open Scope Z_scope.
Local Open Scope orb_scope.

(** * Bits of bytes *)

(** A boolean statement about the integers below a bound, by evaluation. *)
Lemma forallb_below (n : Z) (P : Z → bool) :
  forallb P (seqZ 0 n) = true → ∀ z, 0 <= z < n → P z = true.
Proof.
  intros Hall z Hz. rewrite forallb_forall in Hall. apply Hall.
  apply list_elem_of_In, elem_of_seqZ. lia.
Qed.

Lemma low_bits d : 0 <= d < 256 → Z.land d 127 = d mod 128 ∧ (Z.land d 128 =? 0) = (d <? 128).
Proof.
  intros Hd.
  pose proof (forallb_below 256 (λ d, (Z.land d 127 =? d mod 128)
    && Bool.eqb (Z.land d 128 =? 0) (d <? 128)) ltac:(vm_compute; reflexivity) d Hd) as H.
  apply andb_true_iff in H as [H1 H2]. split; [by apply Z.eqb_eq|by apply eqb_prop].
Qed.

Lemma lor_128 d : 0 <= d < 128 → Z.lor d 128 = d + 128.
Proof.
  intros Hd. apply Z.eqb_eq.
  apply (forallb_below 128 (λ d, Z.lor d 128 =? d + 128) ltac:(vm_compute; reflexivity) d Hd).
Qed.

Lemma nibbles b : 0 <= b < 256 → Z.shiftr b 4 = b / 16 ∧ Z.land b 15 = b mod 16.
Proof.
  intros Hb. split; [by rewrite Z.shiftr_div_pow2|]. apply (Z.land_ones b 4). lia.
Qed.

Lemma lor_shiftl_8 hi lo : 0 <= lo < 256 → Z.lor (Z.shiftl hi 8) lo = hi * 256 + lo.
Proof.
  intros Hlo. rewrite Z.shiftl_mul_pow2 by lia. symmetry. apply Z.add_nocarry_lor.
  apply Z.bits_inj'. intros n Hn. rewrite Z.land_spec, Z.bits_0.
  destruct (Z.lt_ge_cases n 8).
  - by rewrite Z.mul_pow2_bits_low.
  - rewrite <- (Z.mod_small lo (2 ^ 8)) by lia. rewrite Z.mod_pow2_bits_high by lia.
    apply andb_false_r.
Qed.

(** * Big-endian 16-bit integers *)

Lemma put_be16_eq z : 0 <= z < 65536 → put_be16 z = [z / 256; z mod 256].
Proof.
  intros Hz. unfold put_be16, u8, u16. rewrite (Z.mod_small z 65536) by lia.
  rewrite Z.shiftr_div_pow2 by lia. change (2 ^ 8) with 256.
  rewrite (Z.mod_small (z / 256)); [done|]. split; [apply Z.div_pos; lia|].
  apply Z.div_lt_upper_bound; lia.
Qed.

Lemma be16_put_be16 z : 0 <= z < 65536 → be16 (put_be16 z) = z.
Proof.
  intros Hz. rewrite put_be16_eq by done. simpl.
  pose proof (Z.mod_pos_bound z 256). rewrite lor_shiftl_8 by lia.
  pose proof (Z.div_mod z 256). lia.
Qed.

Lemma put_be16_be16 hi lo :
  is_byte hi → is_byte lo → put_be16 (be16 [hi; lo]) = [hi; lo] ∧ 0 <= be16 [hi; lo] < 65536.
Proof.
  unfold is_byte. intros Hhi Hlo. simpl. rewrite lor_shiftl_8 by lia.
  assert (0 <= hi * 256 + lo < 65536) by lia. split; [|done].
  rewrite put_be16_eq by done. f_equal; [|f_equal].
  - rewrite Z.div_add_l, Z.div_small by lia. lia.
  - rewrite Z.add_comm, Z.mod_add by lia. apply Z.mod_small. lia.
Qed.

Lemma put_be16_bytes z : Forall is_byte (put_be16 z).
Proof.
  unfold put_be16, u8. repeat constructor; apply Z.mod_pos_bound; lia.
Qed.

Lemma len_put_be16 z : len (put_be16 z) = 2.
Proof. done. Qed.

(** * Lengths *)

Lemma len_app {A} (l1 l2 : list A) : len (l1 ++ l2) = len l1 + len l2.
Proof. unfold len. rewrite length_app. lia. Qed.

Lemma len_cons {A} (x : A) l : len (x :: l) = 1 + len l.
Proof. unfold len. simpl. lia. Qed.

Lemma len_nonneg {A} (l : list A) : 0 <= len l.
Proof. unfold len. lia. Qed.

(** * What readers consume *)

(** The law of a reader: [takes r d r'] says that reading on from [r] gives the
    bytes [d] and leaves [r'], and [ReadFull] does exactly that. *)
Class IoReaderSpec (R : Type) `{IoReader R} := {
  takes : R → bytes → R → Prop;
  upcoming : R → bytes;
  ReadFull_takes r n d r' : 0 <= n → ReadFull r n = Ok (d, r') ↔ len d = n ∧ takes r d r';
  takes_upcoming r d r' : takes r d r' → upcoming r = d ++ upcoming r';
  takes_nil r r' : takes r [] r' ↔ r' = r;
  takes_app r d1 d2 r' : takes r (d1 ++ d2) r' ↔ ∃ r1, takes r d1 r1 ∧ takes r1 d2 r' }.

#[global] Arguments takes : simpl never.
#[global] Arguments upcoming : simpl never.

Definition Reader_takes (r : Reader) (d : bytes) (r' : Reader) : Prop :=
  rd_data r = d ++ rd_data r' ∧ rd_err r' = rd_err r.

Lemma Reader_ReadFull_takes r n d r' :
  0 <= n → ReadFull r n = Ok (d, r') ↔ len d = n ∧ Reader_takes r d r'.
Proof.
  intros Hn. unfold ReadFull, Reader_ReadFull, Reader_takes, len.
  destruct r as [data e], r' as [data' e']. simpl.
  destruct (Z.leb_spec n (Z.of_nat (length data))); split.
  - intros [= <- <- <-]. rewrite length_take, take_drop. split; [lia|done].
  - intros (<- & -> & ->). rewrite Nat2Z.id, take_app_length, drop_app_length. done.
  - done.
  - intros (<- & -> & _). rewrite length_app in *. lia.
Qed.

Lemma Reader_takes_nil r r' : Reader_takes r [] r' ↔ r' = r.
Proof. destruct r, r'. unfold Reader_takes. simpl. split; [intros [-> ->]|intros [= -> ->]]; done. Qed.

Lemma Reader_takes_app r d1 d2 r' :
  Reader_takes r (d1 ++ d2) r' ↔ ∃ r1, Reader_takes r d1 r1 ∧ Reader_takes r1 d2 r'.
Proof.
  destruct r as [data e], r' as [data' e']. unfold Reader_takes. simpl. split.
  - intros [-> ->]. exists (mkReader (d2 ++ data') e). simpl. by rewrite app_assoc.
  - intros ([data1 e1] & [? ?] & [? ?]). simpl in *. subst. by rewrite app_assoc.
Qed.

#[export, refine] Instance Reader_spec : IoReaderSpec Reader := {
  takes := Reader_takes;
  upcoming := rd_data;
  ReadFull_takes := Reader_ReadFull_takes;
  takes_nil := Reader_takes_nil;
  takes_app := Reader_takes_app }.
Proof. by intros r d r' [? _]. Defined.

Definition LimitedReader_takes (lr : LimitedReader) (d : bytes) (lr' : LimitedReader) : Prop :=
  Reader_takes (lr_R lr) d (lr_R lr') ∧ lr_N lr' = lr_N lr - len d
  ∧ len d <= Z.max 0 (lr_N lr).

Lemma LimitedReader_ReadFull_takes lr n d lr' :
  0 <= n → ReadFull lr n = Ok (d, lr') ↔ len d = n ∧ LimitedReader_takes lr d lr'.
Proof.
  intros Hn. unfold ReadFull at 1, LimitedReader_ReadFull, LimitedReader_takes.
  destruct lr as [r N], lr' as [r' N']. simpl.
  destruct (Z.leb_spec n (Z.max 0 N)); [|split; [by repeat case_match|lia]].
  destruct (ReadFull r n) as [[d' r0]|e] eqn:Hr.
  - apply Reader_ReadFull_takes in Hr as [<- Ht]; [|done]. split.
    + intros [= <- <- <-]. auto.
    + intros (Hl & Ht' & -> & _).
      destruct Ht as [Hd He], Ht' as [Hd' He']. rewrite Hd in Hd'.
      apply app_inj_1 in Hd' as [-> Hd']; [|unfold len in *; lia].
      destruct r0, r'. simpl in *. congruence.
  - split; [done|]. intros (<- & Ht & _).
    by rewrite (proj2 (Reader_ReadFull_takes r (len d) d r' Hn)) in Hr.
Qed.

#[export, refine] Instance LimitedReader_spec : IoReaderSpec LimitedReader := {
  takes := LimitedReader_takes;
  upcoming lr := rd_data (lr_R lr);
  ReadFull_takes := LimitedReader_ReadFull_takes }.
Proof.
  - by intros lr d lr' [[? _] _].
  - intros [r N] [r' N']. unfold LimitedReader_takes. rewrite Reader_takes_nil.
    unfold len. simpl. split; [intros (-> & -> & _); f_equal; lia|].
    intros [= -> ->]. split; [done|lia].
  - intros [r N] d1 d2 [r' N']. unfold LimitedReader_takes. simpl.
    pose proof (len_nonneg d1). pose proof (len_nonneg d2).
    rewrite Reader_takes_app, !len_app. split.
    + intros ((r1 & Ht1 & Ht2) & -> & Hl). exists (mkLimited r1 (N - len d1)). simpl.
      repeat split; (apply Ht1 || apply Ht2 || lia).
    + intros ([r1 N1] & (Ht1 & HN1 & ?) & (Ht2 & -> & ?)). simpl in *. subst N1.
      split; [by exists r1|lia].
Defined.

(** A length-prefixed field on the wire. *)
Definition field (s : bytes) : bytes := put_be16 (len s) ++ s.

Lemma field_app s rest : field s ++ rest = put_be16 (len s) ++ s ++ rest.
Proof. unfold field. by rewrite <- app_assoc. Qed.

Lemma len_field s : len (field s) = 2 + len s.
Proof. unfold field. by rewrite len_app. Qed.

#[global] Arguments field : simpl never.
#[global] Arguments put_be16 : simpl never.

Section readers.
Context `{IoReaderSpec R}.
Implicit Types r : R.

Lemma takes_cons r b d r' : takes r (b :: d) r' ↔ ∃ r1, takes r [b] r1 ∧ takes r1 d r'.
Proof. apply (takes_app r [b] d r'). Qed.

Lemma takes_bytes r d r' :
  takes r d r' → Forall is_byte (upcoming r) → Forall is_byte d ∧ Forall is_byte (upcoming r').
Proof. intros Ht. rewrite (takes_upcoming r d r' Ht). by rewrite Forall_app. Qed.

Lemma readByte_takes r b r' : readByte r = Ok (b, r') ↔ takes r [b] r'.
Proof.
  unfold readByte. destruct (ReadFull r 1) as [[d r0]|e] eqn:Hr.
  - pose proof Hr as [Hd Ht]%ReadFull_takes; [|lia].
    destruct d as [|b0 [|]]; unfold len in Hd; simpl in Hd; [lia| |lia]. simpl. split.
    + by intros [= <- <-].
    + intros Ht'. assert (Hr' : ReadFull r 1 = Ok ([b], r')) by (by apply ReadFull_takes).
      congruence.
  - split; [done|]. intros Ht.
    assert (Hr' : ReadFull r 1 = Ok ([b], r')) by (by apply ReadFull_takes). congruence.
Qed.

Lemma readUint16_takes r z r' :
  Forall is_byte (upcoming r) →
  readUint16 r = Ok (z, r') ↔ 0 <= z < 65536 ∧ takes r (put_be16 z) r'.
Proof.
  intros Hb. unfold readUint16. split.
  - destruct (ReadFull r 2) as [[d r0]|e] eqn:Hr; [|done]. intros [= <- <-].
    apply ReadFull_takes in Hr as [Hd Ht]; [|lia].
    destruct d as [|hi [|lo [|]]]; unfold len in Hd; simpl in Hd; [lia|lia| |lia].
    destruct (takes_bytes _ _ _ Ht Hb) as [Hd2 _].
    apply Forall_cons in Hd2 as [? Hd2]. apply Forall_cons in Hd2 as [? _].
    destruct (put_be16_be16 hi lo) as [-> ?]; done.
  - intros [Hz Ht].
    assert (Hr : ReadFull r 2 = Ok (put_be16 z, r')) by (apply ReadFull_takes; [lia|done]).
    by rewrite Hr, be16_put_be16.
Qed.

Lemma readBinaryData_takes r s r' :
  Forall is_byte (upcoming r) →
  readBinaryData r = Ok (s, r') ↔ len s <= 65535 ∧ takes r (field s) r'.
Proof.
  intros Hb. unfold readBinaryData, field. rewrite takes_app. split.
  - destruct (readUint16 r) as [[n r0]|e] eqn:Hn; [|done].
    apply readUint16_takes in Hn as [Hz Ht]; [|done].
    destruct (ReadFull r0 n) as [[d r1]|e] eqn:Hr; [|done]. intros [= <- <-].
    apply ReadFull_takes in Hr as [<- Ht']; [|lia]. split; [lia|eauto].
  - intros (Hs & r1 & Ht & Ht'). pose proof (len_nonneg s).
    rewrite (proj2 (readUint16_takes r (len s) r1 Hb)) by (split; [lia|done]).
    rewrite (proj2 (ReadFull_takes r1 (len s) s r' ltac:(done))) by done. done.
Qed.

Lemma readUTF8String_takes r s r' :
  Forall is_byte (upcoming r) →
  readUTF8String r = Ok (s, r') ↔ validateUTF8String s = None ∧ takes r (field s) r'.
Proof.
  intros Hb.
  assert (Heq : readUTF8String r = Ok (s, r') ↔
    readBinaryData r = Ok (s, r') ∧ validateUTF8String s = None).
  { unfold readUTF8String, readBinaryData.
    destruct (readUint16 r) as [[n r0]|e]; [|naive_solver].
    destruct (ReadFull r0 n) as [[d r1]|e]; [|naive_solver].
    destruct (validateUTF8String d) eqn:Hv; naive_solver. }
  rewrite Heq, readBinaryData_takes by done. rewrite validateUTF8String_ok. tauto.
Qed.
End readers.

(** * The remaining length *)

(** Bytes that [decodeRemainingLength] reads as [n]: all but the last carry the
    continuation bit, and there are at most four. *)
Inductive varint : bytes → Z → Prop :=
| varint_last d : 0 <= d < 128 → varint [d] d
| varint_more d ds n : 128 <= d < 256 → varint ds n → varint (d :: ds) (d - 128 + 128 * n).

Lemma varint_nonneg ds n : varint ds n → 0 <= n < 128 ^ len ds.
Proof.
  induction 1 as [|d ds n Hd Hv IH]; [by rewrite Z.pow_1_r|].
  rewrite len_cons, Z.pow_add_r, Z.pow_1_r by (pose proof (len_nonneg ds); lia). lia.
Qed.

Lemma varint_len ds n : varint ds n → 1 <= len ds.
Proof. destruct 1; rewrite len_cons; pose proof (@len_nonneg Z); [done|]. specialize (H1 ds). lia. Qed.

Lemma mod_128_high d : 128 <= d < 256 → d mod 128 = d - 128.
Proof. intros Hd. symmetry. apply (Z.mod_unique d 128 1); lia. Qed.

Lemma decodeRemainingLength_loop_takes i c mul v r n k r' :
  Forall is_byte (rd_data r) →
  decodeRemainingLength_loop i c mul v r = Ok (n, k, r') ↔
  ∃ ds m, varint ds m ∧ n = v + m * mul ∧ k = c + len ds ∧ len ds <= Z.of_nat i ∧ takes r ds r'.
Proof.
  revert c mul v r. induction i as [|i IH]; intros c mul v r Hb; simpl.
  { split; [done|]. intros (ds & m & Hv%varint_len & _ & _ & Hl & _). lia. }
  split.
  - destruct (readByte r) as [[d r1]|e] eqn:Hr; [|done]. apply readByte_takes in Hr as Ht.
    destruct (takes_bytes r [d] r1 Ht Hb) as [[Hd _]%Forall_cons Hb1]. unfold is_byte in Hd.
    destruct (low_bits d Hd) as [-> ->]. destruct (Z.ltb_spec d 128).
    + intros [= <- <- <-]. exists [d], d. rewrite Z.mod_small by lia.
      split; [apply varint_last; lia|]. unfold len. simpl. split; [done|]. split; [done|]. split; [lia|done].
    + intros (ds & m & Hv & -> & -> & Hl & Ht')%IH; [|done].
      exists (d :: ds), (d - 128 + 128 * m). rewrite len_cons.
      split; [apply varint_more; [lia|done]|]. rewrite mod_128_high by lia.
      split; [ring|]. split; [lia|]. split; [lia|].
      rewrite takes_cons. by exists r1.
  - intros (ds & m & Hv & -> & -> & Hl & Ht).
    destruct Hv as [d Hd|d ds m Hd Hv].
    + rewrite (proj2 (readByte_takes r d r') Ht). destruct (low_bits d) as [-> ->]; [lia|].
      destruct (Z.ltb_spec d 128); [|lia]. by rewrite Z.mod_small.
    + rewrite takes_cons in Ht. destruct Ht as (r1 & Ht1 & Ht2).
      rewrite (proj2 (readByte_takes r d r1) Ht1). destruct (low_bits d) as [-> ->]; [lia|].
      destruct (Z.ltb_spec d 128); [lia|]. apply IH.
      { by destruct (takes_bytes r [d] r1 Ht1 Hb). }
      rewrite len_cons in *. exists ds, m. split; [done|].
      rewrite mod_128_high by lia.
      split; [ring|]. split; [lia|]. split; [lia|done].
Qed.

Lemma decodeRemainingLength_takes r n k r' :
  Forall is_byte (rd_data r) →
  decodeRemainingLength r = Ok (n, k, r') ↔
  ∃ ds, varint ds n ∧ k = len ds ∧ len ds <= 4 ∧ takes r ds r'.
Proof.
  intros Hb. unfold decodeRemainingLength. rewrite decodeRemainingLength_loop_takes by done.
  split.
  - intros (ds & m & Hv & -> & -> & Hl & Ht). exists ds. rewrite Z.mul_1_r. auto.
  - intros (ds & Hv & -> & Hl & Ht). exists ds, n. rewrite Z.mul_1_r. auto.
Qed.

Lemma encodeRemainingLength_loop_varint fuel n :
  0 <= n < 128 ^ Z.of_nat (S fuel) →
  varint (encodeRemainingLength_loop (S fuel) n) n ∧
  len (encodeRemainingLength_loop (S fuel) n) <= Z.of_nat (S fuel).
Proof.
  revert n. induction fuel as [|fuel IH]; intros n Hn.
  - simpl. rewrite (Z.div_small n 128), Z.mod_small by lia. simpl. unfold u8.
    rewrite Z.mod_small by lia. split; [apply varint_last; lia|done].
  - rewrite Nat2Z.inj_succ, Z.pow_succ_r in Hn by lia.
    assert (Hdiv : 0 <= n / 128 < 128 ^ Z.of_nat (S fuel))
      by (split; [apply Z.div_pos; lia|apply Z.div_lt_upper_bound; lia]).
    pose proof (Z.mod_pos_bound n 128 ltac:(lia)). pose proof (Z.div_mod n 128 ltac:(lia)).
    remember (S fuel) as k. simpl. unfold u8.
    destruct (Z.eqb_spec (n / 128) 0) as [Hz|Hz].
    + rewrite Hz. simpl. rewrite Z.mod_small by lia.
      split; [|unfold len; simpl; lia]. replace (n mod 128) with n by lia. apply varint_last. lia.
    + destruct (Z.ltb_spec 0 (n / 128)); [|lia].
      rewrite lor_128, Z.mod_small by lia. destruct (IH (n / 128) Hdiv) as [Hv Hl].
      rewrite len_cons. split; [|lia].
      replace n with (n mod 128 + 128 - 128 + 128 * (n / 128)) at 3 by lia.
      apply varint_more; [lia|done].
Qed.

Lemma encodeRemainingLength_ok n :
  0 <= n <= MaxRemainingLength →
  ∃ ds, encodeRemainingLength n = Ok ds ∧ varint ds n ∧ len ds <= 4.
Proof.
  intros Hn. unfold encodeRemainingLength, MaxRemainingLength in *.
  destruct (Z.ltb_spec n 0), (Z.ltb_spec 268435455 n); try lia. simpl orb.
  destruct (encodeRemainingLength_loop_varint 3 n) as [Hv Hl]; [simpl; lia|]. eauto.
Qed.

(** * The wire format of client packets *)

(** The flags byte of CONNECT. *)
Definition flag_bit (b : bool) (weight : Z) : Z := if b then weight else 0.

Definition encode_flags (f : connectFlags) : Z :=
  flag_bit (cleanSession f) 2 + flag_bit (willFlag f) 4 + 8 * willQoS f
  + flag_bit (willRetain f) 32 + flag_bit (passwordFlag f) 64 + flag_bit (usernameFlag f) 128.

(** The flags [decodeConnectFlags] accepts. The two bits of the will's QoS are
    not checked: 3, which MQTT 3.1.1 reserves, is among them. *)
Definition flags_accepted (f : connectFlags) : Prop :=
  0 <= willQoS f <= 3 ∧ (willFlag f = false → willQoS f = 0 ∧ willRetain f = false)
  ∧ (passwordFlag f = true → usernameFlag f = true).

Lemma decodeConnectFlags_iff b f :
  is_byte b → decodeConnectFlags b = Ok f ↔ flags_accepted f ∧ b = encode_flags f.
Proof.
  intros Hb. split.
  - pose proof (forallb_below 256 (λ b,
      match decodeConnectFlags b with
      | Ok f => (0 <=? willQoS f) && (willQoS f <=? 3)
                && (willFlag f || ((willQoS f =? 0) && negb (willRetain f)))
                && (negb (passwordFlag f) || usernameFlag f) && (b =? encode_flags f)
      | Error _ => true
      end) ltac:(vm_compute; reflexivity) b Hb) as Hall.
    cbv beta in Hall. intros Hf. rewrite Hf in Hall. bool_to_prop. unfold flags_accepted.
    split; [|done]. split; [done|].
    destruct (willFlag f), (willRetain f), (passwordFlag f), (usernameFlag f); simpl in *;
      repeat split; intros; try done; destruct_or?; bool_to_prop; done.
  - intros [(Hq & Hw & Hp) ->]. destruct f as [c w q wr u p]. simpl in *.
    assert (q = 0 ∨ q = 1 ∨ q = 2 ∨ q = 3) as Hq' by lia.
    destruct w, p, u, c, wr; try (by discriminate (Hp eq_refl));
      try (destruct (Hw eq_refl); done); try (destruct (Hw eq_refl) as [-> _]; by vm_compute);
      destruct_or?; subst; by vm_compute.
Qed.

Definition opt_field (o : option bytes) : bytes :=
  match o with Some s => field s | None => [] end.

Definition will_body (o : option WillMessage) : bytes :=
  match o with Some w => field (will_Topic w) ++ field (will_Payload w) | None => [] end.

Definition connect_flags (p : ConnectPacket) : connectFlags :=
  mkFlags (conn_CleanSession p) (bool_decide (is_Some (conn_Will p)))
    (match conn_Will p with Some w => will_QoS w | None => 0 end)
    (match conn_Will p with Some w => will_Retain w | None => false end)
    (bool_decide (is_Some (conn_Username p))) (bool_decide (is_Some (conn_Password p))).

Definition connect_body (p : ConnectPacket) : bytes :=
  field (conn_ProtocolName p) ++ [conn_ProtocolLevel p] ++ [encode_flags (connect_flags p)]
  ++ put_be16 (conn_KeepAlive p) ++ field (conn_ClientID p)
  ++ will_body (conn_Will p) ++ opt_field (conn_Username p) ++ opt_field (conn_Password p).

(** The will of MQTT 3.1.1, and the will the decoder accepts: the latter may
    have QoS 3 (see [will_qos_3] in CodecProofs.v). *)
Definition will_ok (w : WillMessage) : Prop :=
  validateTopicName (will_Topic w) = None ∧ len (will_Payload w) <= 65535 ∧ 0 <= will_QoS w <= 2.

Definition will_accepted (w : WillMessage) : Prop :=
  validateTopicName (will_Topic w) = None ∧ len (will_Payload w) <= 65535 ∧ 0 <= will_QoS w <= 3.

(** A CONNECT packet of protocol level 4, its will as [good_will] says. *)
Definition connect_with (good_will : WillMessage → Prop) (p : ConnectPacket) : Prop :=
  conn_ProtocolName p = bs "MQTT" ∧ conn_ProtocolLevel p = 4 ∧ 0 <= conn_KeepAlive p < 65536
  ∧ validateUTF8String (conn_ClientID p) = None
  ∧ (conn_ClientID p = [] → conn_CleanSession p = true)
  ∧ (∀ w, conn_Will p = Some w → good_will w)
  ∧ (∀ u, conn_Username p = Some u → validateUTF8String u = None)
  ∧ (∀ s, conn_Password p = Some s → len s <= 65535 ∧ is_Some (conn_Username p)).

Definition connect_ok : ConnectPacket → Prop := connect_with will_ok.

Definition connect_accepted : ConnectPacket → Prop := connect_with will_accepted.

Definition publish_flags (p : PublishPacket) : Z :=
  flag_bit (pub_DUP p) 8 + 2 * pub_QoS p + flag_bit (pub_Retain p) 1.

Definition publish_body (p : PublishPacket) : bytes :=
  field (pub_Topic p) ++ (if 0 <? pub_QoS p then put_be16 (pub_PacketID p) else [])
  ++ pub_Payload p.

Definition publish_ok (p : PublishPacket) : Prop :=
  validateTopicName (pub_Topic p) = None ∧ 0 <= pub_QoS p <= 2
  ∧ (pub_QoS p = 0 → pub_DUP p = false ∧ pub_PacketID p = 0)
  ∧ (0 < pub_QoS p → 0 < pub_PacketID p < 65536).

Definition subscription_body (s : WireSubscription) : bytes := field (wsub_Topic s) ++ [wsub_QoS s].

Definition subscription_ok (s : WireSubscription) : Prop :=
  ValidateTopicFilter (wsub_Topic s) = None ∧ 0 <= wsub_QoS s <= 2.

Definition subscribe_body (p : SubscribePacket) : bytes :=
  put_be16 (sp_PacketID p) ++ concat (subscription_body <$> sp_Subscriptions p).

Definition subscribe_ok (p : SubscribePacket) : Prop :=
  0 < sp_PacketID p < 65536 ∧ sp_Subscriptions p ≠ [] ∧ Forall subscription_ok (sp_Subscriptions p).

Definition unsubscribe_body (p : UnsubscribePacket) : bytes :=
  put_be16 (up_PacketID p) ++ concat (field <$> up_Topics p).

Definition unsubscribe_ok (p : UnsubscribePacket) : Prop :=
  0 < up_PacketID p < 65536 ∧ up_Topics p ≠ [] ∧ Forall (λ f, ValidateTopicFilter f = None) (up_Topics p).
