(* ===== verification/CodecProofs.v ===== *)
(** The decoder accepts exactly the wire format of MQTT 3.1.1 but for the reserved
    QoS 3 of a will ([will_qos_3]), and the encoders produce it: soundness,
    completeness and round trips. *)

From S2P Require Import Prelude Topic Wire Filters Encoder Decoder Codec.

Local Open Scope Z_scope.
Local Open Scope orb_scope.

Local Opaque field put_be16.

(** * Decoding steps *)

(** A reader that only gives bytes. *)
Definition good `{IoReaderSpec R} (r : R) : Prop := Forall is_byte (upcoming r).

Lemma good_takes `{IoReaderSpec R} (r : R) d r' : good r → takes r d r' → good r'.
Proof. intros Hg Ht. by destruct (takes_bytes r d r' Ht Hg). Qed.

Lemma good_byte `{IoReaderSpec R} (r : R) b r' : good r → takes r [b] r' → is_byte b.
Proof. intros Hg Ht. by destruct (takes_bytes r [b] r' Ht Hg) as [[? _]%Forall_cons _]. Qed.

Lemma limited_takes r n d lr' :
  takes (mkLimited r n) d lr' ↔ takes r d (lr_R lr') ∧ lr_N lr' = n - len d ∧ len d <= Z.max 0 n.
Proof. done. Qed.

Lemma validateTopicName_utf8 s : validateTopicName s = None → validateUTF8String s = None.
Proof. intros (? & ? & _)%validateTopicName_ok. by apply validateUTF8String_ok. Qed.

Lemma ValidateTopicFilter_utf8 s : ValidateTopicFilter s = None → validateUTF8String s = None.
Proof. intros (? & ? & _)%ValidateTopicFilter_ok. by apply validateUTF8String_ok. Qed.

(** Read one item off a hypothesis [H] that says a decoder succeeded. *)
Ltac fwd_read H :=
  match type of H with
  | context [readUTF8String ?lr] =>
      let E := fresh "E" in destruct (readUTF8String lr) as [[? ?]|?] eqn:E; [|discriminate H];
      apply readUTF8String_takes in E as [? ?]; [|assumption]
  | context [readBinaryData ?lr] =>
      let E := fresh "E" in destruct (readBinaryData lr) as [[? ?]|?] eqn:E; [|discriminate H];
      apply readBinaryData_takes in E as [? ?]; [|assumption]
  | context [readUint16 ?lr] =>
      let E := fresh "E" in destruct (readUint16 lr) as [[? ?]|?] eqn:E; [|discriminate H];
      apply readUint16_takes in E as [? ?]; [|assumption]
  | context [readByte ?lr] =>
      let E := fresh "E" in destruct (readByte lr) as [[? ?]|?] eqn:E; [|discriminate H];
      apply readByte_takes in E
  end;
  repeat match goal with
  | Hg : good ?r, Ht : takes ?r ?d ?r' |- _ =>
      lazymatch goal with Hg' : good r' |- _ => fail | _ => pose proof (good_takes r d r' Hg Ht) end
  end.

(** Take one test [fail_if c] as passed. *)
Ltac fwd_test H :=
  match type of H with
  | (if ?c then Error _ else _) = _ => destruct c eqn:?; [discriminate H|]
  | match ?c with Some _ => Error _ | None => _ end = _ => destruct c eqn:?; [discriminate H|]
  end.

Ltac good_byte_solver :=
  match goal with Ht : takes _ [?b] _ |- is_byte ?b => eapply good_byte; [|exact Ht]; assumption end.

(** Compose the pieces read into one. *)
Ltac compose_takes :=
  repeat first [eassumption | rewrite takes_app; eexists; split; [eassumption|]
    | rewrite takes_cons; eexists; split; [eassumption|]].

Lemma decodeWill_takes lr q ret w lr' :
  good lr →
  decodeWill lr q ret = Ok (w, lr') ↔
  validateTopicName (will_Topic w) = None ∧ len (will_Payload w) <= 65535
  ∧ will_QoS w = q ∧ will_Retain w = ret ∧ takes lr (will_body (Some w)) lr'.
Proof.
  intros Hg. unfold decodeWill. split.
  - intros H. fwd_read H. fwd_test H. fwd_read H. injection H as <- <-. simpl.
    split_and!; try done. compose_takes.
  - destruct w as [t pl q' ret']. simpl. intros (Ht & Hl & -> & -> & Htk).
    rewrite takes_app in Htk. destruct Htk as (lr1 & Ht1 & Ht2).
    rewrite (proj2 (readUTF8String_takes lr t lr1 Hg)) by (split; [by apply validateTopicName_utf8|done]).
    rewrite Ht. rewrite (proj2 (readBinaryData_takes lr1 pl lr' (good_takes _ _ _ Hg Ht1))) by done.
    done.
Qed.

Lemma read_if_takes {A} (flag : bool) (read : LimitedReader → result (A * LimitedReader))
    (ok : A → Prop) (enc : A → bytes) lr o lr' :
  (∀ a, read lr = Ok (a, lr') ↔ ok a ∧ takes lr (enc a) lr') →
  read_if flag read lr = Ok (o, lr') ↔
  flag = bool_decide (is_Some o) ∧ (∀ a, o = Some a → ok a)
  ∧ takes lr (match o with Some a => enc a | None => [] end) lr'.
Proof.
  intros Hread. unfold read_if. destruct flag.
  - split.
    + destruct (read lr) as [[a lr1]|e]; [|done]. intros [= <- <-].
      destruct (proj1 (Hread a) eq_refl). split; [done|]. split; [by intros ? [= <-]|done].
    + destruct o as [a|]; [|naive_solver]. intros (_ & Ho & Ht).
      by rewrite (proj2 (Hread a)) by auto.
  - split.
    + intros [= <- <-]. split; [done|]. split; [done|]. by apply takes_nil.
    + destruct o as [a|]; [naive_solver|]. intros (_ & _ & ->%takes_nil). done.
Qed.

Lemma read_will_takes flag q ret lr o lr' :
  good lr →
  read_if flag (λ lr, decodeWill lr q ret) lr = Ok (o, lr') ↔
  flag = bool_decide (is_Some o)
  ∧ (∀ w, o = Some w → (validateTopicName (will_Topic w) = None ∧ len (will_Payload w) <= 65535)
       ∧ will_QoS w = q ∧ will_Retain w = ret)
  ∧ takes lr (will_body o) lr'.
Proof.
  intros Hg. rewrite (read_if_takes _ _ (λ w, (validateTopicName (will_Topic w) = None
    ∧ len (will_Payload w) <= 65535) ∧ will_QoS w = q ∧ will_Retain w = ret) (λ w, will_body (Some w))).
  - by destruct o.
  - intros w. rewrite decodeWill_takes by done. tauto.
Qed.

Lemma read_username_takes flag lr o lr' :
  good lr →
  read_if flag readUTF8String lr = Ok (o, lr') ↔
  flag = bool_decide (is_Some o) ∧ (∀ s, o = Some s → validateUTF8String s = None)
  ∧ takes lr (opt_field o) lr'.
Proof. intros Hg. apply read_if_takes. intros s. by apply readUTF8String_takes. Qed.

Lemma read_password_takes flag lr o lr' :
  good lr →
  read_if flag readBinaryData lr = Ok (o, lr') ↔
  flag = bool_decide (is_Some o) ∧ (∀ s, o = Some s → len s <= 65535)
  ∧ takes lr (opt_field o) lr'.
Proof. intros Hg. apply read_if_takes. intros s. by apply readBinaryData_takes. Qed.

Lemma limited_whole r n d r' :
  0 <= n → len d = n ∧ takes r d r' ↔ takes (mkLimited r n) d (mkLimited r' 0).
Proof.
  intros Hn. rewrite limited_takes. simpl. pose proof (len_nonneg d). split.
  - intros [<- ?]. split; [done|lia].
  - intros (? & ? & ?). split; [lia|done].
Qed.

(** The flags byte and the optional fields determine each other. *)
Lemma connect_flags_eq f name level keep id will user pass :
  flags_accepted f → willFlag f = bool_decide (is_Some will) →
  (∀ w, will = Some w → will_QoS w = willQoS f ∧ will_Retain w = willRetain f) →
  usernameFlag f = bool_decide (is_Some user) → passwordFlag f = bool_decide (is_Some pass) →
  connect_flags (mkConnect name level (cleanSession f) keep id will user pass) = f.
Proof.
  intros (_ & Hw & _) Hwf Hwill Hu Hp. destruct f as [c w q wr u pw]. unfold connect_flags. simpl in *.
  rewrite <- Hu, <- Hp, <- Hwf. destruct will as [wm|]; simpl.
  - destruct (Hwill wm eq_refl) as [-> ->]. done.
  - destruct (Hw Hwf) as [-> ->]. done.
Qed.

Lemma connect_flags_ok p : connect_accepted p → flags_accepted (connect_flags p).
Proof.
  intros (_ & _ & _ & _ & _ & Hw & _ & Hp). unfold flags_accepted, connect_flags. simpl.
  destruct (conn_Will p) as [w|] eqn:Ew.
  - destruct (Hw w eq_refl) as (_ & _ & ?). split; [done|]. split; [done|].
    rewrite !bool_decide_eq_true. intros [s Hs]. by destruct (Hp s Hs).
  - split; [lia|]. split; [done|].
    rewrite !bool_decide_eq_true. intros [s Hs]. by destruct (Hp s Hs).
Qed.

Lemma decodeConnect_sound r n p r' :
  good r → 0 <= n → decodeConnect r n = Ok (p, r') →
  connect_accepted p ∧ takes (mkLimited r n) (connect_body p) (mkLimited r' 0).
Proof.
  intros Hg Hn. unfold decodeConnect, connect_body.
  assert (Hgl : good (mkLimited r n)) by exact Hg.
  intros H. fwd_read H. fwd_test H. fwd_read H. fwd_test H. fwd_read H.
  destruct (decodeConnectFlags _) as [f|?] eqn:Hf; [|discriminate H].
  apply decodeConnectFlags_iff in Hf as [Hfok ->]; [|good_byte_solver].
  fwd_read H. fwd_read H. fwd_test H.
  destruct (read_if (willFlag f) _ _) as [[will lr1]|?] eqn:Hw; [|discriminate H].
  apply read_will_takes in Hw as (Hwf & Hwok & Hwt); [|done].
  pose proof (good_takes _ _ _ ltac:(eassumption) Hwt).
  destruct (read_if (usernameFlag f) _ _) as [[user lr2]|?] eqn:Hu; [|discriminate H].
  apply read_username_takes in Hu as (Huf & Huok & Hut); [|done].
  pose proof (good_takes _ _ _ ltac:(eassumption) Hut).
  destruct (read_if (passwordFlag f) _ _) as [[pass [r3 N3]]|?] eqn:Hp; [|discriminate H].
  apply read_password_takes in Hp as (Hpf & Hpok & Hpt); [|done].
  fwd_test H. injection H as <- <-. bool_to_prop. simpl in *. subst N3.
  rewrite connect_flags_eq; [|naive_solver..]. split.
  - split_and!; simpl; try (done || lia).
    + by apply dec_stable.
    + intros ->. destruct_or?; bool_to_prop; done.
    + intros w Hwill. destruct (Hwok w Hwill) as ((? & ?) & Hq & _).
      unfold will_accepted. rewrite Hq. split_and!; try done; apply Hfok.
    + intros s Hs. split; [by apply Hpok|]. destruct Hfok as (_ & _ & Hup).
      rewrite Huf, Hpf, !bool_decide_eq_true in Hup. apply Hup. eauto.
  - compose_takes.
Qed.

Lemma decodeConnect_complete r n p r' :
  good r → 0 <= n → connect_accepted p →
  takes (mkLimited r n) (connect_body p) (mkLimited r' 0) → decodeConnect r n = Ok (p, r').
Proof.
  intros Hg Hn Hok Ht. pose proof (connect_flags_ok p Hok) as Hfok.
  destruct p as [name level clean keep id will user pass]. unfold connect_body in Ht.
  destruct Hok as (Hname & Hlevel & Hkeep & Hid & Hclean & Hwill & Huser & Hpass). simpl in *.
  set (f := connect_flags _) in *.
  assert (Hg0 : good (mkLimited r n)) by exact Hg.
  rewrite !takes_app in Ht. destruct Ht as (lr1 & T1 & Ht).
  rewrite takes_cons in Ht. destruct Ht as (lr2 & T2 & Ht).
  rewrite takes_cons in Ht. destruct Ht as (lr3 & T3 & Ht).
  repeat (setoid_rewrite takes_app in Ht).
  destruct Ht as (lr4 & T4 & lr5 & T5 & lr6 & T6 & lr7 & T7 & T8).
  pose proof (good_takes _ _ _ Hg0 T1) as G1. pose proof (good_takes _ _ _ G1 T2) as G2.
  pose proof (good_takes _ _ _ G2 T3) as G3. pose proof (good_takes _ _ _ G3 T4) as G4.
  pose proof (good_takes _ _ _ G4 T5) as G5. pose proof (good_takes _ _ _ G5 T6) as G6.
  pose proof (good_takes _ _ _ G6 T7) as G7.
  unfold decodeConnect. subst name level.
  rewrite (proj2 (readUTF8String_takes _ (bs "MQTT") lr1 Hg0)) by done.
  rewrite bool_decide_eq_false_2 by tauto.
  rewrite (proj2 (readByte_takes lr1 4 lr2)) by done. simpl.
  rewrite (proj2 (readByte_takes lr2 _ lr3) T3).
  rewrite (proj2 (decodeConnectFlags_iff _ f (good_byte _ _ _ G2 T3))) by done.
  rewrite (proj2 (readUint16_takes lr3 keep lr4 G3)) by done.
  rewrite (proj2 (readUTF8String_takes lr4 id lr5 G4)) by done.
  change (cleanSession f) with clean.
  replace (bool_decide (id = []) && negb clean) with false
    by (case_bool_decide; [by rewrite Hclean|done]).
  rewrite (proj2 (read_will_takes _ _ _ lr5 will lr6 G5)).
  2: { split; [done|]. split; [|done]. intros w ->. by destruct (Hwill w eq_refl) as (? & ? & _). }
  rewrite (proj2 (read_username_takes _ lr6 user lr7 G6)) by done.
  rewrite (proj2 (read_password_takes _ lr7 pass (mkLimited r' 0) G7)).
  2: { split; [done|]. split; [|done]. intros s Hs. by destruct (Hpass s Hs). }
  done.
Qed.

(** * Repeated fields *)

(** The loops of SUBSCRIBE and UNSUBSCRIBE read items until the limit is used
    up. *)
Section items.
Context {A : Type} (item : LimitedReader → result (A * LimitedReader)).
Context (ok : A → Prop) (enc : A → bytes).
Hypothesis item_takes : ∀ lr a lr',
  good lr → item lr = Ok (a, lr') ↔ ok a ∧ takes lr (enc a) lr'.
Hypothesis enc_len : ∀ a, 1 <= len (enc a).

Fixpoint items (fuel : nat) (lr : LimitedReader) (acc : list A) : result (list A * LimitedReader) :=
  match fuel with
  | O => Ok (acc, lr)
  | S fuel =>
      if 0 <? lr_N lr then
        let! (a, lr) := item lr in items fuel lr (acc ++ [a])
      else Ok (acc, lr)
  end.

Lemma takes_shrinks (lr : LimitedReader) a lr' :
  takes lr (enc a) lr' →
  (length (upcoming lr') < length (upcoming lr))%nat ∧ (0 <= lr_N lr → 0 < lr_N lr ∧ 0 <= lr_N lr').
Proof.
  intros Ht. specialize (enc_len a). rewrite (takes_upcoming _ _ _ Ht), length_app.
  destruct lr as [r N]. apply limited_takes in Ht as (_ & HN & Hl). unfold len in *. simpl in *. lia.
Qed.

Lemma items_takes fuel lr acc l lr' :
  good lr → 0 <= lr_N lr → (length (upcoming lr) < fuel)%nat →
  items fuel lr acc = Ok (l, lr') ↔
  ∃ new, l = acc ++ new ∧ Forall ok new ∧ takes lr (concat (enc <$> new)) lr' ∧ lr_N lr' = 0.
Proof.
  revert lr acc. induction fuel as [|fuel IH]; intros lr acc Hg HN Hfuel; [lia|]. simpl. split.
  - destruct (Z.ltb_spec 0 (lr_N lr)) as [Hpos|Hzero].
    + destruct (item lr) as [[a lr1]|e] eqn:Hi; [|done]. intros H.
      apply item_takes in Hi as [Ha Ht]; [|done]. destruct (takes_shrinks _ _ _ Ht) as [? [? ?]%(λ f, f HN)].
      apply IH in H as (new & -> & Hnew & Ht' & ?); [|by eapply good_takes|lia|lia].
      exists (a :: new). rewrite <- app_assoc. split_and!; [done|by constructor| |done].
      simpl. rewrite takes_app. eauto.
    + intros [= <- <-]. exists []. rewrite app_nil_r. simpl.
      split_and!; [done|constructor|by apply takes_nil|lia].
  - intros (new & -> & Hnew & Ht & H0). destruct new as [|a new]; simpl in Ht.
    + apply takes_nil in Ht as ->. rewrite H0, app_nil_r. done.
    + rewrite takes_app in Ht. destruct Ht as (lr1 & Ht1 & Ht2).
      apply Forall_cons in Hnew as [Ha Hnew]. destruct (takes_shrinks _ _ _ Ht1) as [? [? ?]%(λ f, f HN)].
      destruct (Z.ltb_spec 0 (lr_N lr)); [|lia].
      rewrite (proj2 (item_takes lr a lr1 Hg)) by done.
      apply IH; [by eapply good_takes|lia|lia|]. exists new. by rewrite <- app_assoc.
Qed.
End items.

Definition subscription_item (lr : LimitedReader) : result (WireSubscription * LimitedReader) :=
  let! (topic, lr) := readUTF8String lr in
  match ValidateTopicFilter topic with
  | Some err => Error err
  | None =>
      let! (qos, lr) := readByte lr in
      fail_if 2 <? qos with New "invalid QoS level" in
      Ok (mkWireSub topic qos, lr)
  end.

Definition filter_item (lr : LimitedReader) : result (bytes * LimitedReader) :=
  let! (topic, lr) := readUTF8String lr in
  match ValidateTopicFilter topic with
  | Some err => Error err
  | None => Ok (topic, lr)
  end.

Lemma decodeSubscribe_loop_items fuel lr acc :
  decodeSubscribe_loop fuel lr acc = items subscription_item fuel lr acc.
Proof.
  revert lr acc. induction fuel as [|fuel IH]; intros lr acc; simpl; [done|].
  unfold subscription_item. by repeat (case_match; simplify_eq); rewrite ?IH.
Qed.

Lemma decodeUnsubscribe_loop_items fuel lr acc :
  decodeUnsubscribe_loop fuel lr acc = items filter_item fuel lr acc.
Proof.
  revert lr acc. induction fuel as [|fuel IH]; intros lr acc; simpl; [done|].
  unfold filter_item. by repeat (case_match; simplify_eq); rewrite ?IH.
Qed.

Lemma filter_item_takes lr s lr' :
  good lr → filter_item lr = Ok (s, lr') ↔ ValidateTopicFilter s = None ∧ takes lr (field s) lr'.
Proof.
  intros Hg. unfold filter_item. split.
  - intros H. fwd_read H. fwd_test H. by injection H as <- <-.
  - intros [Hv Ht].
    rewrite (proj2 (readUTF8String_takes lr s lr' Hg)) by (split; [by apply ValidateTopicFilter_utf8|done]).
    by rewrite Hv.
Qed.

Lemma subscription_item_takes lr s lr' :
  good lr → subscription_item lr = Ok (s, lr') ↔ subscription_ok s ∧ takes lr (subscription_body s) lr'.
Proof.
  intros Hg. unfold subscription_item, subscription_ok, subscription_body. split.
  - intros H. fwd_read H. fwd_test H. fwd_read H. fwd_test H. injection H as <- <-. simpl.
    assert (is_byte z) as Hz by good_byte_solver. unfold is_byte in Hz. bool_to_prop.
    split; [split; [done|lia]|]. compose_takes.
  - destruct s as [t q]. simpl. intros [[Hv Hq] Ht]. rewrite takes_app in Ht. destruct Ht as (lr1 & T1 & T2).
    rewrite (proj2 (readUTF8String_takes lr t lr1 Hg)) by (split; [by apply ValidateTopicFilter_utf8|done]).
    rewrite Hv, (proj2 (readByte_takes lr1 q lr')) by done.
    by destruct (Z.ltb_spec 2 q); [lia|].
Qed.

(** After the packet identifier, the loop starts with enough fuel. *)
Lemma after_identifier r n z lr :
  good r → 0 <= n → takes (mkLimited r n) (put_be16 z) lr →
  good lr ∧ 0 <= lr_N lr ∧ (length (upcoming lr) < S (length (rd_data r)))%nat.
Proof.
  intros Hg Hn Ht. split; [by eapply (good_takes (mkLimited r n))|].
  pose proof (takes_upcoming _ _ _ Ht) as Hu.
  change (upcoming (mkLimited r n)) with (rd_data r) in Hu. rewrite Hu, length_app.
  apply limited_takes in Ht as (_ & -> & Hl). rewrite len_put_be16 in *. lia.
Qed.

Lemma decodeSubscribe_takes r n p r' :
  good r → 0 <= n →
  decodeSubscribe r n = Ok (p, r') ↔
  subscribe_ok p ∧ takes (mkLimited r n) (subscribe_body p) (mkLimited r' 0).
Proof.
  intros Hg Hn. unfold decodeSubscribe, subscribe_ok, subscribe_body.
  assert (Hgl : good (mkLimited r n)) by exact Hg.
  assert (Hloop := items_takes subscription_item subscription_ok subscription_body
    subscription_item_takes
    ltac:(intros s; unfold subscription_body; rewrite len_app, len_field;
          pose proof (len_nonneg (wsub_Topic s)); unfold len at 2; simpl; lia)).
  split.
  - intros H. fwd_read H. fwd_test H. destruct (after_identifier r n _ _ Hg Hn ltac:(eassumption)) as (? & ? & ?).
    rewrite decodeSubscribe_loop_items in H.
    destruct (items _ _ _ _) as [[subs [r1 N1]]|?] eqn:Hi; [|discriminate H].
    apply Hloop in Hi as (new & -> & Hnew & Ht & HN); [|done..].
    fwd_test H. injection H as <- <-. bool_to_prop. simpl in *. subst N1.
    split; [split_and!; [lia|lia|done|done]|]. compose_takes.
  - destruct p as [z subs]. cbn [sp_PacketID sp_Subscriptions]. intros [(Hz & Hne & Hok) Ht].
    rewrite takes_app in Ht. destruct Ht as (lr1 & T1 & T2).
    destruct (after_identifier r n z lr1 Hg Hn T1) as (? & ? & ?).
    rewrite (proj2 (readUint16_takes _ z lr1 Hgl)) by (split; [lia|done]).
    destruct (Z.eqb_spec z 0); [lia|]. rewrite decodeSubscribe_loop_items.
    rewrite (proj2 (Hloop _ lr1 [] subs (mkLimited r' 0) ltac:(done) ltac:(done) ltac:(eassumption))) by eauto.
    by rewrite bool_decide_eq_false_2.
Qed.

Lemma decodeUnsubscribe_takes r n p r' :
  good r → 0 <= n →
  decodeUnsubscribe r n = Ok (p, r') ↔
  unsubscribe_ok p ∧ takes (mkLimited r n) (unsubscribe_body p) (mkLimited r' 0).
Proof.
  intros Hg Hn. unfold decodeUnsubscribe, unsubscribe_ok, unsubscribe_body.
  assert (Hgl : good (mkLimited r n)) by exact Hg.
  assert (Hloop := items_takes filter_item (λ f, ValidateTopicFilter f = None) field
    filter_item_takes ltac:(intros s; rewrite len_field; pose proof (len_nonneg s); lia)).
  split.
  - intros H. fwd_read H. fwd_test H. destruct (after_identifier r n _ _ Hg Hn ltac:(eassumption)) as (? & ? & ?).
    rewrite decodeUnsubscribe_loop_items in H.
    destruct (items _ _ _ _) as [[ts [r1 N1]]|?] eqn:Hi; [|discriminate H].
    apply Hloop in Hi as (new & -> & Hnew & Ht & HN); [|done..].
    fwd_test H. injection H as <- <-. bool_to_prop. simpl in *. subst N1.
    split; [split_and!; [lia|lia|done|done]|]. compose_takes.
  - destruct p as [z ts]. cbn [up_PacketID up_Topics]. intros [(Hz & Hne & Hok) Ht].
    rewrite takes_app in Ht. destruct Ht as (lr1 & T1 & T2).
    destruct (after_identifier r n z lr1 Hg Hn T1) as (? & ? & ?).
    rewrite (proj2 (readUint16_takes _ z lr1 Hgl)) by (split; [lia|done]).
    destruct (Z.eqb_spec z 0); [lia|]. rewrite decodeUnsubscribe_loop_items.
    rewrite (proj2 (Hloop _ lr1 [] ts (mkLimited r' 0) ltac:(done) ltac:(done) ltac:(eassumption))) by eauto.
    by rewrite bool_decide_eq_false_2.
Qed.

Lemma decodePubAck_takes r n z r' :
  good r → decodePubAck r n = Ok (z, r') ↔ n = 2 ∧ 0 < z < 65536 ∧ takes r (put_be16 z) r'.
Proof.
  intros Hg. unfold decodePubAck. split.
  - intros H. fwd_test H. fwd_read H. fwd_test H. injection H as <- <-. bool_to_prop.
    split; [done|]. split; [lia|done].
  - intros (-> & Hz & Ht). simpl. rewrite (proj2 (readUint16_takes r z r' Hg)) by (split; [lia|done]).
    by destruct (Z.eqb_spec z 0); [lia|].
Qed.

Lemma limited_nonneg (lr : LimitedReader) d lr' : takes lr d lr' → 0 <= lr_N lr → 0 <= lr_N lr'.
Proof. destruct lr. intros (_ & -> & ?)%limited_takes ?. simpl in *. pose proof (len_nonneg d). lia. Qed.

Lemma read_rest (lr : LimitedReader) d lr' :
  0 <= lr_N lr → ReadFull lr (lr_N lr) = Ok (d, lr') ↔ takes lr d lr' ∧ lr_N lr' = 0.
Proof.
  intros HN. rewrite ReadFull_takes by done. destruct lr as [r N]. rewrite limited_takes. simpl in *.
  pose proof (len_nonneg d). split; [intros (? & ? & ? & ?)|intros ((? & ? & ?) & ?)]; (split_and!; (done || lia)).
Qed.

(** The packet identifier of PUBLISH, present with QoS 1 and 2. *)
Definition publish_id (qos : Z) (lr : LimitedReader) : result (Z * LimitedReader) :=
  if 0 <? qos then
    let! (packetID, lr) := readUint16 lr in
    fail_if packetID =? 0 with New "invalid packet identifier" in
    Ok (packetID, lr)
  else Ok (0, lr).

Lemma publish_id_takes qos lr z lr' :
  good lr → 0 <= qos →
  publish_id qos lr = Ok (z, lr') ↔
  ((qos = 0 → z = 0) ∧ (0 < qos → 0 < z < 65536))
  ∧ takes lr (if 0 <? qos then put_be16 z else []) lr'.
Proof.
  intros Hg Hq. unfold publish_id. destruct (Z.ltb_spec 0 qos).
  - split.
    + intros H'. fwd_read H'. fwd_test H'. injection H' as <- <-. bool_to_prop.
      split; [split; intros; lia|done].
    + intros [[_ Hz] Ht]. specialize (Hz ltac:(done)).
      rewrite (proj2 (readUint16_takes lr z lr' Hg)) by (split; [lia|done]).
      by destruct (Z.eqb_spec z 0); [lia|].
  - rewrite takes_nil. split.
    + intros [= <- <-]. split; [split; [done|lia]|done].
    + intros [[Hz _] ->]. by rewrite Hz by lia.
Qed.

Lemma decodePublish_takes r n qos dup retain p r' :
  good r → 0 <= n → 0 <= qos →
  decodePublish r n qos dup retain = Ok (p, r') ↔
  (validateTopicName (pub_Topic p) = None ∧ pub_QoS p = qos ∧ pub_DUP p = dup ∧ pub_Retain p = retain
   ∧ (qos = 0 → pub_PacketID p = 0) ∧ (0 < qos → 0 < pub_PacketID p < 65536))
  ∧ takes (mkLimited r n) (publish_body p) (mkLimited r' 0).
Proof.
  intros Hg Hn Hq. unfold decodePublish, publish_body.
  assert (Hgl : good (mkLimited r n)) by exact Hg. split.
  - intros H. fwd_read H. fwd_test H. fold (publish_id qos l0) in H.
    destruct (publish_id qos l0) as [[z lr1]|?] eqn:Hi; [|discriminate H].
    apply publish_id_takes in Hi as [Hz Hi]; [|done..].
    destruct (ReadFull lr1 _) as [[payload [r3 N3]]|?] eqn:Hr; [|discriminate H].
    apply read_rest in Hr as [Ht HN]; [|eauto using limited_nonneg]. simpl in HN. subst N3.
    injection H as <- <-. simpl. split; [split_and!; try done; apply Hz|]. compose_takes.
  - destruct p as [t pl rt dp q z]. simpl. intros [(Hv & -> & -> & -> & Hz) Ht].
    rewrite !takes_app in Ht. destruct Ht as (lr1 & T1 & Ht). rewrite takes_app in Ht.
    destruct Ht as (lr2 & T2 & T3). pose proof (good_takes _ _ _ Hgl T1) as G1.
    rewrite (proj2 (readUTF8String_takes _ t lr1 Hgl)) by (split; [by apply validateTopicName_utf8|done]).
    rewrite Hv. fold (publish_id qos lr1).
    rewrite (proj2 (publish_id_takes qos lr1 z lr2 G1 Hq)) by done.
    rewrite (proj2 (read_rest lr2 pl (mkLimited r' 0) ltac:(eauto using limited_nonneg))) by done.
    done.
Qed.

(** * Whole packets *)

(** The packets of the kinds the broker reads: CONNECT, PUBLISH, PUBACK,
    SUBSCRIBE, UNSUBSCRIBE, PINGREQ and DISCONNECT, a CONNECT packet as
    [good_connect] says. *)
Definition packet_with (good_connect : ConnectPacket → Prop) (p : Packet) : Prop :=
  match p with
  | PConnect c => good_connect c
  | PPublish q => publish_ok q
  | PPubAck z => 0 < z < 65536
  | PSubscribe s => subscribe_ok s
  | PUnsubscribe u => unsubscribe_ok u
  | PPingReq | PDisconnect => True
  | _ => False
  end.

(** The contents MQTT 3.1.1 allows, and those the decoder accepts. *)
Definition packet_ok : Packet → Prop := packet_with connect_ok.

Definition packet_accepted : Packet → Prop := packet_with connect_accepted.

(** The one deviation: a CONNECT packet whose will has the reserved QoS 3, and
    that MQTT would allow with QoS 2. *)
Definition set_will_QoS (q : Z) (c : ConnectPacket) : ConnectPacket :=
  match conn_Will c with
  | Some w =>
    mkConnect (conn_ProtocolName c) (conn_ProtocolLevel c) (conn_CleanSession c) (conn_KeepAlive c)
      (conn_ClientID c) (Some (mkWill (will_Topic w) (will_Payload w) q (will_Retain w)))
      (conn_Username c) (conn_Password c)
  | None => c
  end.

Definition will_qos_3 (p : Packet) : Prop :=
  ∃ c, p = PConnect c ∧ will_QoS <$> conn_Will c = Some 3 ∧ connect_ok (set_will_QoS 2 c).

(** What [connect_with] asks for beside the will. *)
Lemma connect_with_split good c :
  connect_with good c ↔ connect_with (λ _, True) c ∧ ∀ w, conn_Will c = Some w → good w.
Proof. unfold connect_with. naive_solver. Qed.

Lemma set_will_QoS_rest q c :
  connect_with (λ _, True) (set_will_QoS q c) ↔ connect_with (λ _, True) c.
Proof. unfold set_will_QoS. destruct (conn_Will c); [|done]. unfold connect_with. simpl. naive_solver. Qed.

Lemma connect_accepted_iff c :
  connect_accepted c ↔ connect_ok c ∨ will_QoS <$> conn_Will c = Some 3 ∧ connect_ok (set_will_QoS 2 c).
Proof.
  unfold connect_accepted, connect_ok.
  rewrite (connect_with_split will_accepted), !(connect_with_split will_ok), set_will_QoS_rest.
  unfold set_will_QoS, will_accepted, will_ok.
  destruct (conn_Will c) as [w|] eqn:Hw; simpl; [|rewrite Hw; naive_solver].
  split.
  - intros [Hc Hok]. destruct (Hok w eq_refl) as (Htopic & Hlen & Hq).
    destruct (Z.eq_dec (will_QoS w) 3) as [Hq3|Hq3]; [right|left].
    + split; [by rewrite Hq3|]. split; [done|]. intros ? [= <-]. simpl. repeat split; done || lia.
    + split; [done|]. intros ? [= <-]. repeat split; done || lia.
  - intros [[Hc Hok]|(Hq & Hc & Hok)]; (split; [done|]); intros ? [= <-];
      destruct (Hok _ eq_refl) as (Htopic & Hlen & Hq2); [|injection Hq as Hq]; repeat split; done || lia.
Qed.

Lemma packet_accepted_iff p : packet_accepted p ↔ packet_ok p ∨ will_qos_3 p.
Proof.
  unfold packet_accepted, packet_ok, will_qos_3, packet_with.
  destruct p; try (rewrite connect_accepted_iff); naive_solver.
Qed.

(** The flags of the fixed header and the bytes after it. *)
Definition packet_flags (p : Packet) : Z :=
  match p with
  | PPublish q => publish_flags q
  | PSubscribe _ | PUnsubscribe _ => 2
  | _ => 0
  end.

Definition packet_body (p : Packet) : bytes :=
  match p with
  | PConnect c => connect_body c
  | PPublish q => publish_body q
  | PPubAck z => put_be16 z
  | PSubscribe s => subscribe_body s
  | PUnsubscribe u => unsubscribe_body u
  | _ => []
  end.

(** [data] is an encoding of [p]: the fixed header, the remaining length in any
    of its one to four byte forms, and the body. *)
Definition wire (p : Packet) (data : bytes) : Prop :=
  ∃ ds, varint ds (len (packet_body p)) ∧ len ds <= 4
        ∧ data = (Type_ p * 16 + packet_flags p) :: ds ++ packet_body p.

Lemma publish_flag_bits fl q d t :
  0 <= fl < 16 →
  (Z.land (Z.shiftr fl 1) 3 = q ∧ has_bits fl 8 = d ∧ has_bits fl 1 = t) ↔
  0 <= q <= 3 ∧ fl = flag_bit d 8 + 2 * q + flag_bit t 1.
Proof.
  intros Hfl. split.
  - intros (<- & <- & <-).
    pose proof (forallb_below 16 (λ fl, (0 <=? Z.land (Z.shiftr fl 1) 3) && (Z.land (Z.shiftr fl 1) 3 <=? 3)
      && (fl =? flag_bit (has_bits fl 8) 8 + 2 * Z.land (Z.shiftr fl 1) 3 + flag_bit (has_bits fl 1) 1))
      ltac:(vm_compute; reflexivity) fl Hfl) as Hall.
    cbv beta in Hall. bool_to_prop. auto.
  - intros [Hq ->]. assert (q = 0 ∨ q = 1 ∨ q = 2 ∨ q = 3) as Hq' by lia.
    destruct d, t; destruct_or?; subst; by vm_compute.
Qed.

Lemma takes_empty_body r r' n :
  (n = 0 ∧ r' = r) ↔ len (@nil Z) = n ∧ takes r [] r'.
Proof. rewrite takes_nil. unfold len. simpl. naive_solver. Qed.

Lemma decodePublish_flags r n fl p r' :
  good r → 0 <= n → 0 <= fl < 16 →
  (let qos := Z.land (Z.shiftr fl 1) 3 in
   fail_if qos =? 3 with New "invalid QoS level" in
   let dup := has_bits fl 8 in
   fail_if (qos =? 0) && dup with New "invalid DUP flag for QoS 0" in
   let retain := has_bits fl 1 in
   let! (p, r) := decodePublish r n qos dup retain in Ok (PPublish p, r)) = Ok (p, r') ↔
  ∃ q, p = PPublish q ∧ publish_ok q ∧ fl = publish_flags q
       ∧ len (publish_body q) = n ∧ takes r (publish_body q) r'.
Proof.
  intros Hg Hn Hfl. cbv zeta. unfold publish_ok, publish_flags. split.
  - destruct (proj1 (publish_flag_bits fl _ _ _ Hfl) (conj eq_refl (conj eq_refl eq_refl))) as [Hq Hfl'].
    intros H. fwd_test H. fwd_test H.
    destruct (decodePublish _ _ _ _ _) as [[q r1]|?] eqn:Hd; [|discriminate H]. injection H as <- <-.
    apply decodePublish_takes in Hd as [(Hv & HQ & HD & HR & Hz) Ht]; [|done|done|lia].
    rewrite <- limited_whole in Ht by done. bool_to_prop. exists q. rewrite HQ, HD, HR.
    split; [done|]. split; [|by rewrite <- Hfl']. split_and!; [done|lia|lia| |apply Hz].
    intros H0. split; [|by apply Hz]. rewrite H0 in *. destruct_or?; done.
  - intros (q & -> & (Hv & Hq & H0 & Hz) & -> & Hl & Ht).
    destruct (proj2 (publish_flag_bits _ (pub_QoS q) (pub_DUP q) (pub_Retain q) Hfl)) as (-> & -> & ->);
      [split; [lia|done]|].
    destruct (Z.eqb_spec (pub_QoS q) 3); [lia|].
    replace ((pub_QoS q =? 0) && pub_DUP q) with false
      by (destruct (Z.eqb_spec (pub_QoS q) 0) as [Hq0|]; [by destruct (H0 Hq0) as [-> _]|done]).
    rewrite (proj2 (decodePublish_takes r n (pub_QoS q) (pub_DUP q) (pub_Retain q) q r' Hg Hn (proj1 Hq))); [done|].
    rewrite <- limited_whole by done. split; [|done].
    split_and!; try done; [intros Hq0; by destruct (H0 Hq0)|by apply Hz..].
Qed.

(** [decodeBody] reads exactly the body of the packet it gives. *)
Definition body_of (r : Reader) (ty fl n : Z) (p : Packet) (r' : Reader) : Prop :=
  packet_accepted p ∧ ty = Type_ p ∧ fl = packet_flags p ∧ len (packet_body p) = n
  ∧ takes r (packet_body p) r'.

Lemma decodeBody_sound r ty fl n p r' :
  good r → 0 <= n → 0 <= fl < 16 → decodeBody r ty fl n = Ok (p, r') → body_of r ty fl n p r'.
Proof.
  intros Hg Hn Hfl. unfold decodeBody, body_of.
  repeat match goal with |- (if ?a =? ?b then _ else _) = _ → _ =>
    destruct (Z.eqb_spec a b) as [Hty|]; [rewrite Hty; clear Hty|] end; [..|done];
    intros H; [| |apply decodePublish_flags in H as (q & -> & Hq); [destruct Hq as (? & ? & ? & ?); by split_and!|done..]|..];
    repeat fwd_test H; bool_to_prop.
  - destruct (decodeConnect r n) as [[c r1]|?] eqn:Hd; [|discriminate H]. injection H as <- <-.
    apply decodeConnect_sound in Hd as [? Ht]; [|done..].
    rewrite <- limited_whole in Ht by done. done.
  - injection H as <- <-. subst. simpl. by rewrite takes_nil.
  - destruct (decodePubAck r n) as [[z r1]|?] eqn:Hd; [|discriminate H]. injection H as <- <-.
    by apply decodePubAck_takes in Hd as (-> & ? & ?).
  - destruct (decodeSubscribe r n) as [[c r1]|?] eqn:Hd; [|discriminate H]. injection H as <- <-.
    apply decodeSubscribe_takes in Hd as [? Ht]; [|done..].
    rewrite <- limited_whole in Ht by done. done.
  - destruct (decodeUnsubscribe r n) as [[c r1]|?] eqn:Hd; [|discriminate H]. injection H as <- <-.
    apply decodeUnsubscribe_takes in Hd as [? Ht]; [|done..].
    rewrite <- limited_whole in Ht by done. done.
  - injection H as <- <-. subst. simpl. by rewrite takes_nil.
Qed.

Lemma decodeBody_complete r ty fl n p r' :
  good r → 0 <= n → 0 <= fl < 16 → body_of r ty fl n p r' → decodeBody r ty fl n = Ok (p, r').
Proof.
  intros Hg Hn Hfl (Hok & -> & -> & Hl & Ht).
  destruct p as [c| |q|z|s| |u| | | |]; try done; unfold decodeBody; simpl in *.
  - change (?a =? ?a) with true. by rewrite (decodeConnect_complete r n c r') by (try rewrite <- limited_whole; done).
  - apply decodePublish_flags; [done..|]. eauto 10.
  - by rewrite (proj2 (decodePubAck_takes r n z r' Hg)) by done.
  - by rewrite (proj2 (decodeSubscribe_takes r n s r' Hg Hn)) by (rewrite <- limited_whole; done).
  - by rewrite (proj2 (decodeUnsubscribe_takes r n u r' Hg Hn)) by (rewrite <- limited_whole; done).
  - rewrite takes_nil in Ht. by subst.
  - rewrite takes_nil in Ht. by subst.
Qed.

Lemma packet_flags_range p : packet_accepted p → 0 <= packet_flags p < 16 ∧ 0 <= Type_ p < 16.
Proof.
  destruct p as [c| |q|z|s| |u| | | |]; simpl; try done.
  intros (_ & Hq & H0 & _). unfold publish_flags, flag_bit. split; [|done].
  destruct (pub_DUP q), (pub_Retain q); lia.
Qed.

(** The first byte of a packet holds its type and its flags. *)
Lemma header_byte b ty fl :
  is_byte b → Z.shiftr b 4 = ty ∧ Z.land b 15 = fl ↔ 0 <= fl < 16 ∧ b = ty * 16 + fl.
Proof.
  intros Hb. destruct (nibbles b Hb) as [-> ->]. pose proof (Z.div_mod b 16). split.
  - intros [<- <-]. pose proof (Z.mod_pos_bound b 16). lia.
  - intros [Hfl ->]. split.
    + rewrite Z.div_add_l, Z.div_small by lia. lia.
    + rewrite Z.add_comm, Z.mod_add, Z.mod_small by lia. done.
Qed.

(** The packets [DecodeWithLimit] gives are the ones on the wire. *)
Lemma decode_exact r maxPacketSize p r' :
  good r → 0 < maxPacketSize <= MaxPacketSize →
  DecodeWithLimit r maxPacketSize = Ok (p, r') ↔
  ∃ data, packet_accepted p ∧ wire p data ∧ len data <= maxPacketSize ∧ takes r data r'.
Proof.
  intros Hg Hmax. unfold DecodeWithLimit, wire.
  replace (_ || _) with false
    by (destruct (Z.leb_spec maxPacketSize 0), (Z.ltb_spec MaxPacketSize maxPacketSize); done || lia).
  cbv iota. split.
  - intros H. fwd_read H.
    destruct (decodeRemainingLength _) as [[[n k] r2]|?] eqn:Hl; [|discriminate H].
    apply decodeRemainingLength_takes in Hl as (ds & Hv & -> & Hlen & Ht); [|done].
    pose proof (good_takes _ _ _ ltac:(eassumption) Ht) as Hg2. fwd_test H. bool_to_prop.
    pose proof (good_byte _ _ _ Hg E) as Hb. pose proof (varint_nonneg _ _ Hv) as [Hn _].
    destruct (proj1 (header_byte z _ _ Hb) (conj eq_refl eq_refl)) as [Hfl Hz].
    apply decodeBody_sound in H as (Hok & Hty & Hf & Hbody & Ht'); [|done..].
    eexists. split; [done|]. split; [exists ds; rewrite Hbody; done|].
    rewrite len_cons, len_app, Hbody. split; [lia|]. rewrite <- Hty, <- Hf, <- Hz. compose_takes.
  - intros (data & Hok & (ds & Hv & Hlen & ->) & Hsize & Ht).
    destruct (packet_flags_range p Hok) as [Hfl Hty]. rewrite len_cons, len_app in Hsize.
    rewrite takes_cons in Ht. destruct Ht as (r1 & T1 & Ht). rewrite takes_app in Ht.
    destruct Ht as (r2 & T2 & T3). pose proof (good_takes _ _ _ Hg T1) as G1.
    pose proof (good_takes _ _ _ G1 T2) as G2.
    rewrite (proj2 (readByte_takes r _ r1) T1).
    rewrite (proj2 (decodeRemainingLength_takes r1 (len (packet_body p)) (len ds) r2 G1)) by eauto.
    destruct (Z.ltb_spec maxPacketSize (1 + len ds + len (packet_body p))); [lia|].
    destruct (proj2 (header_byte (Type_ p * 16 + packet_flags p) (Type_ p) (packet_flags p)
      ltac:(unfold is_byte; lia)) ltac:(done)) as [-> ->].
    apply decodeBody_complete; [done|apply len_nonneg|done|]. by split_and!.
Qed.

(** * The encoder of PUBLISH *)

(** What a [PublishPacket] can hold: its fields have their machine types. *)
Definition publish_typed (p : PublishPacket) : Prop :=
  is_byte (pub_QoS p) ∧ 0 <= pub_PacketID p < 65536
  ∧ Forall is_byte (pub_Topic p) ∧ Forall is_byte (pub_Payload p).

(** What [EncodePublish] accepts. *)
Definition publishable (p : PublishPacket) : Prop :=
  validateTopicName (pub_Topic p) = None ∧ 0 <= pub_QoS p <= 1
  ∧ (pub_QoS p = 0 → pub_DUP p = false) ∧ (pub_QoS p = 1 → 0 < pub_PacketID p)
  ∧ len (publish_body p) <= MaxRemainingLength.

Lemma publish_header_bits (q : Z) (d t : bool) :
  0 <= q <= 1 →
  (let flags := 48 in
   let flags := if d then Z.lor flags 8 else flags in
   let flags := Z.lor flags (u8 (Z.shiftl (Z.land q 3) 1)) in
   if t then Z.lor flags 1 else flags)
  = PacketTypePublish * 16 + (flag_bit d 8 + 2 * q + flag_bit t 1).
Proof. intros Hq. assert (q = 0 ∨ q = 1) as [-> | ->] by lia; destruct d, t; reflexivity. Qed.

Lemma len_publish_body p :
  len (publish_body p)
  = (if 0 <? pub_QoS p then 2 + len (pub_Topic p) + 2 else 2 + len (pub_Topic p)) + len (pub_Payload p).
Proof.
  unfold publish_body. rewrite !len_app, len_field. destruct (0 <? pub_QoS p).
  - rewrite len_put_be16. lia.
  - unfold len at 2. simpl. lia.
Qed.

Lemma EncodePublish_eq p data :
  publish_typed p →
  EncodePublish p = Ok data ↔
  publishable p ∧ ∃ ds, encodeRemainingLength (len (publish_body p)) = Ok ds
    ∧ data = (PacketTypePublish * 16 + publish_flags p) :: ds ++ publish_body p.
Proof.
  intros (Hq & Hid & _). unfold EncodePublish, publishable, is_byte in *.
  pose proof (len_nonneg (pub_Topic p)). pose proof (len_nonneg (pub_Payload p)). split.
  - intros H1. repeat fwd_test H1. bool_to_prop. rewrite publish_header_bits in H1 by lia.
    rewrite <- len_publish_body in H1.
    destruct (encodeRemainingLength _) as [ds|?] eqn:Hl; [|discriminate H1]. injection H1 as <-.
    split; [|exists ds; unfold publish_flags, publish_body; by rewrite field_app].
    rewrite len_publish_body. destruct (0 <? pub_QoS p) eqn:Hp; bool_to_prop;
      split_and!; try done; try lia; intros Hq1; destruct_or?; bool_to_prop; (congruence || lia).
  - intros ((Hv & Hq1 & Hd & Hi & Hl) & ds & Hds & ->). rewrite publish_header_bits by lia.
    rewrite <- len_publish_body, Hds, Hv. rewrite len_publish_body in Hl.
    repeat match goal with |- (if ?b then Error _ else _) = _ => replace b with false end.
    + unfold publish_flags, publish_body. by rewrite field_app.
    + symmetry. apply Z.ltb_ge. destruct (0 <? pub_QoS p); lia.
    + symmetry. destruct (Z.eqb_spec (pub_QoS p) 0) as [E0|]; [by rewrite Hd|done].
    + symmetry. destruct (Z.ltb_spec 0 (pub_QoS p)), (Z.eqb_spec (pub_PacketID p) 0); try done.
      specialize (Hi ltac:(lia)). lia.
    + symmetry. apply Z.ltb_ge. lia.
Qed.

Lemma publishable_ok p :
  publishable p → (pub_QoS p = 0 → pub_PacketID p = 0) → 0 <= pub_PacketID p < 65536 → publish_ok p.
Proof.
  intros (Hv & Hq & Hd & Hi & _) H0 Hid. unfold publish_ok. split_and!; [done|lia|lia|auto|].
  intros Hp. specialize (Hi ltac:(lia)). lia.
Qed.

Lemma varint_bytes ds n : varint ds n → Forall is_byte ds.
Proof. induction 1; constructor; try done; unfold is_byte; lia. Qed.

Lemma publish_wire p ds :
  encodeRemainingLength (len (publish_body p)) = Ok ds → len (publish_body p) <= MaxRemainingLength →
  publish_typed p → 0 <= pub_QoS p <= 1 →
  let data := (PacketTypePublish * 16 + publish_flags p) :: ds ++ publish_body p in
  wire (PPublish p) data ∧ len data <= MaxPacketSize ∧ Forall is_byte data.
Proof.
  intros Hds Hl (_ & _ & Hbt & Hbp) Hq. pose proof (len_nonneg (publish_body p)) as Hn.
  destruct (encodeRemainingLength_ok (len (publish_body p))) as (ds' & Hds' & Hv & Hlen); [lia|].
  rewrite Hds in Hds'. injection Hds' as <-. simpl. split; [by exists ds|].
  rewrite len_cons, len_app. unfold MaxPacketSize. split; [lia|].
  constructor; [unfold publish_flags, flag_bit, is_byte, PacketTypePublish; destruct (pub_DUP p), (pub_Retain p); lia|].
  apply Forall_app. split; [by eapply varint_bytes|]. unfold publish_body. rewrite field_app.
  repeat (apply Forall_app; split); try done; [apply put_be16_bytes|].
  destruct (0 <? pub_QoS p); [apply put_be16_bytes|done].
Qed.

Lemma decode_wire p data rest e maxPacketSize :
  packet_accepted p → wire p data → len data <= maxPacketSize → 0 < maxPacketSize <= MaxPacketSize →
  Forall is_byte (data ++ rest) →
  DecodeWithLimit (mkReader (data ++ rest) e) maxPacketSize = Ok (p, mkReader rest e).
Proof. intros ? ? ? ? ?. apply decode_exact; [done..|]. exists data. by split_and!. Qed.

Lemma EncodePublish_accepts p : publish_typed p → publishable p ↔ ∃ data, EncodePublish p = Ok data.
Proof.
  intros Ht. split.
  - intros Hp. destruct (encodeRemainingLength_ok (len (publish_body p))) as (ds & Hds & _);
      [split; [apply len_nonneg|apply Hp]|]. eexists. apply EncodePublish_eq; eauto.
  - intros [data Hd]. by apply EncodePublish_eq in Hd as [? _].
Qed.

Lemma EncodePublish_decodes p data rest e :
  publish_typed p → EncodePublish p = Ok data → (pub_QoS p = 0 → pub_PacketID p = 0) → Forall is_byte rest →
  Decode (mkReader (data ++ rest) e) = Ok (PPublish p, mkReader rest e).
Proof.
  intros Ht Hd H0 Hrest. apply EncodePublish_eq in Hd as (Hp & ds & Hds & ->); [|done].
  pose proof Hp as (_ & Hq & _ & _ & Hl).
  destruct (publish_wire p ds) as (Hw & Hsize & Hb); [done..|].
  apply decode_wire; [|done..|by apply Forall_app]. apply publishable_ok; [done..|apply Ht].
Qed.

(** * The encoders of the server's answers *)

(** What the packets of [Encode] can hold: their fields have their machine types. *)
Definition answer_typed (p : Packet) : Prop :=
  match p with
  | PConnAck a => is_byte (ca_ReturnCode a)
  | PPubAck z | PUnsubAck z => 0 <= z < 65536
  | PSubAck a => 0 <= sa_PacketID a < 65536
  | _ => True
  end.

Lemma put_be16_inj z1 z2 x y :
  0 <= z1 < 65536 → 0 <= z2 < 65536 → put_be16 z1 ++ x = put_be16 z2 ++ y → z1 = z2 ∧ x = y.
Proof.
  intros Hz1 Hz2 Heq. apply app_inj_1 in Heq as [Heq ->]; [|done]. split; [|done].
  rewrite <- (be16_put_be16 z1), <- (be16_put_be16 z2) by done. by rewrite Heq.
Qed.

Lemma ack_inj h z1 z2 x y :
  0 <= z1 < 65536 → 0 <= z2 < 65536 →
  ([h; 2] ++ put_be16 z1) ++ x = ([h; 2] ++ put_be16 z2) ++ y → z1 = z2 ∧ x = y.
Proof.
  rewrite <- !app_assoc. intros Hz1 Hz2 Heq. apply app_inv_head in Heq. by apply put_be16_inj.
Qed.

Lemma varint_inj ds1 n1 ds2 n2 x y :
  varint ds1 n1 → varint ds2 n2 → ds1 ++ x = ds2 ++ y → n1 = n2 ∧ x = y.
Proof.
  intros Hv1. revert ds2 n2. induction Hv1 as [d1 Hd1|d1 ds1 n1 Hd1 Hv1 IH]; intros ds2 n2 Hv2;
    destruct Hv2 as [d2 Hd2|d2 ds2 n2 Hd2 Hv2]; simpl; intros [= -> Heq]; try lia; [done|].
  destruct (IH _ _ Hv2 Heq) as [-> ->]. done.
Qed.

Lemma subAck_inj a1 a2 d1 d2 x y :
  answer_typed (PSubAck a1) → answer_typed (PSubAck a2) →
  encodeSubAck a1 = Ok d1 → encodeSubAck a2 = Ok d2 → d1 ++ x = d2 ++ y → a1 = a2 ∧ x = y.
Proof.
  destruct a1 as [z1 c1], a2 as [z2 c2]. simpl. intros Hz1 Hz2 H1 H2 Heq. unfold encodeSubAck in H1, H2.
  fwd_test H1. fwd_test H2. bool_to_prop. simpl in *.
  pose proof (len_nonneg c1). pose proof (len_nonneg c2).
  destruct (encodeRemainingLength_ok (2 + len c1)) as (ds1 & E1 & V1 & _); [lia|].
  destruct (encodeRemainingLength_ok (2 + len c2)) as (ds2 & E2 & V2 & _); [lia|].
  rewrite E1 in H1. rewrite E2 in H2. injection H1 as <-. injection H2 as <-.
  simpl in Heq. injection Heq as Heq. rewrite <- !app_assoc in Heq.
  destruct (varint_inj _ _ _ _ _ _ V1 V2 Heq) as [Hlen Heq2].
  apply put_be16_inj in Heq2 as [-> Heq2]; [|done..].
  apply app_inj_1 in Heq2 as [-> ->]; [done|]. unfold len in Hlen. lia.
Qed.

(** * Theorems *)

(** C17: [DecodeWithLimit] accepts exactly the MQTT 3.1.1 wire format of the
    packets the broker reads, with one deviation. On a stream of bytes it gives
    packet [p] iff the stream starts with an encoding of [p] (its type and flags,
    a remaining length of one to four bytes that is the length of the body, the
    body) of at most [maxPacketSize] bytes, where [p] has the contents MQTT
    allows, or is a CONNECT packet whose will has the reserved QoS 3 and that
    would be allowed with QoS 2; and it consumes exactly these bytes. A packet
    MQTT allows is never of the second form. *)
Theorem DecodeWithLimit_exact r maxPacketSize p r' :
  Forall is_byte (rd_data r) → 0 < maxPacketSize <= MaxPacketSize →
  (DecodeWithLimit r maxPacketSize = Ok (p, r') ↔
   ∃ data, (packet_ok p ∨ will_qos_3 p) ∧ wire p data ∧ len data <= maxPacketSize
           ∧ rd_data r = data ++ rd_data r' ∧ rd_err r' = rd_err r)
  ∧ ¬ (packet_ok p ∧ will_qos_3 p).
Proof.
  intros Hg Hmax. split.
  - setoid_rewrite <- packet_accepted_iff. by apply decode_exact.
  - intros [Hok (c & -> & Hq & _)]. destruct Hok as (_ & _ & _ & _ & _ & Hw & _).
    destruct (conn_Will c) as [w|]; [|done]. destruct (Hw w eq_refl) as (_ & _ & ?).
    injection Hq as Hq. lia.
Qed.

Definition subscribe_example : bytes := [130; 8; 0; 9; 0; 3; 97; 47; 35; 1].

Lemma DecodeWithLimit_exact_witness :
  ∃ data, wire (PSubscribe (mkSubscribe 9 [mkWireSub (bs "a/#") 1])) data ∧ data ++ [192; 0] = subscribe_example ++ [192; 0].
Proof.
  destruct (proj1 (proj1 (DecodeWithLimit_exact (mkReader (subscribe_example ++ [192; 0]) EOF) 100
    (PSubscribe (mkSubscribe 9 [mkWireSub (bs "a/#") 1])) (mkReader [192; 0] EOF)
    ltac:(repeat constructor; lia) ltac:(unfold MaxPacketSize, MaxRemainingLength; lia))) eq_refl)
    as (data & _ & Hw & _ & Hd & _).
  exists data. split; [exact Hw|]. symmetry. exact Hd.
Defined.

(** C18: a PUBLISH that [EncodePublish] accepts is decoded back to the same packet
    with nothing of what follows on the stream consumed, and [EncodePublish]
    refuses exactly the packets with an invalid topic, QoS above 1, QoS 1
    without a packet identifier, DUP at QoS 0 or an over-long body. *)
Theorem EncodePublish_roundtrip p :
  publish_typed p →
  (publishable p ↔ ∃ data, EncodePublish p = Ok data)
  ∧ (∀ data rest e, EncodePublish p = Ok data → (pub_QoS p = 0 → pub_PacketID p = 0) →
     Forall is_byte rest → Decode (mkReader (data ++ rest) e) = Ok (PPublish p, mkReader rest e)).
Proof.
  intros Ht. split; [by apply EncodePublish_accepts|]. intros data rest e. by apply EncodePublish_decodes.
Qed.

Lemma EncodePublish_roundtrip_witness :
  ∃ data, EncodePublish (mkPublish (bs "a/b") (bs "hi") true true 1 7) = Ok data
  ∧ Decode (mkReader (data ++ [192; 0]) EOF)
    = Ok (PPublish (mkPublish (bs "a/b") (bs "hi") true true 1 7), mkReader [192; 0] EOF).
Proof.
  exists [59; 9; 0; 3; 97; 47; 98; 0; 7; 104; 105]. split; [reflexivity|].
  apply (EncodePublish_roundtrip (mkPublish (bs "a/b") (bs "hi") true true 1 7));
    [|reflexivity|intros H; discriminate H|repeat constructor; lia].
  split; [split; reflexivity || (simpl; lia)|].
  split; [simpl; lia|]. split; simpl; repeat constructor; lia.
Defined.

(** A packet that is cut short is never accepted: on a proper prefix of an
    encoding [DecodeWithLimit] gives an error, whatever the limit. *)
Lemma DecodeWithLimit_truncated p data d1 d2 e maxPacketSize :
  packet_accepted p → wire p data → Forall is_byte data → data = d1 ++ d2 → d2 ≠ [] →
  0 < maxPacketSize <= MaxPacketSize →
  ∃ err, DecodeWithLimit (mkReader d1 e) maxPacketSize = Error err.
Proof.
  intros Hok Hw Hb Hd Hne Hmax.
  destruct (DecodeWithLimit (mkReader d1 e) maxPacketSize) as [[p' [rest e']]|err] eqn:Hdec; [|eauto].
  exfalso. assert (Hd1 : Forall is_byte d1) by (by subst data; apply Forall_app in Hb as [? _]).
  apply decode_exact in Hdec as (data' & Hok' & Hw' & Hl' & [Hd' He']); [|done..]. simpl in *.
  assert (Hsame : DecodeWithLimit (mkReader (data' ++ (rest ++ d2)) e) MaxPacketSize
    = Ok (p', mkReader (rest ++ d2) e)).
  { apply decode_wire; [done..|lia| |].
    - unfold MaxPacketSize, MaxRemainingLength. lia.
    - by rewrite app_assoc, <- Hd', <- Hd. }
  rewrite app_assoc, <- Hd', <- Hd in Hsame.
  assert (Hall : DecodeWithLimit (mkReader (data ++ []) e) MaxPacketSize = Ok (p, mkReader [] e)).
  { apply decode_wire; [done..| | |by rewrite app_nil_r].
    - destruct Hw as (ds & Hv & Hds & ->). rewrite len_cons, len_app.
      apply varint_nonneg in Hv as [_ Hv]. pose proof (Z.pow_le_mono_r 128 (len ds) 4 ltac:(lia) Hds) as Hpow.
      change (128 ^ 4) with 268435456 in Hpow. unfold MaxPacketSize, MaxRemainingLength. lia.
    - unfold MaxPacketSize, MaxRemainingLength. lia. }
  rewrite app_nil_r, Hsame in Hall. injection Hall as _ Hnil.
  by apply app_eq_nil in Hnil as [_ ?].
Qed.

(** The size limit is enforced from the fixed header alone: when the announced size
    exceeds the limit, the result is [ErrPacketTooLarge] whatever follows the header,
    even nothing. *)
Theorem DecodeWithLimit_too_large b1 ds n rest e maxPacketSize :
  0 < maxPacketSize <= MaxPacketSize → is_byte b1 → Forall is_byte rest →
  varint ds n → len ds <= 4 → maxPacketSize < 1 + len ds + n →
  DecodeWithLimit (mkReader (b1 :: ds ++ rest) e) maxPacketSize = Error ErrPacketTooLarge.
Proof.
  intros Hmax Hb Hrest Hv Hds Hn. unfold DecodeWithLimit.
  replace (_ || _) with false
    by (destruct (Z.leb_spec maxPacketSize 0), (Z.ltb_spec MaxPacketSize maxPacketSize); done || lia).
  cbv iota. rewrite (proj2 (readByte_takes (mkReader (b1 :: ds ++ rest) e) b1 (mkReader (ds ++ rest) e))) by done.
  rewrite (proj2 (decodeRemainingLength_takes (mkReader (ds ++ rest) e) n (len ds) (mkReader rest e)
    ltac:(apply Forall_app; eauto using varint_bytes))) by (by exists ds).
  by destruct (Z.ltb_spec maxPacketSize (1 + len ds + n)); [|lia].
Qed.

Lemma DecodeWithLimit_too_large_witness :
  DecodeWithLimit (mkReader [48; 200; 1] ErrUnexpectedEOF) 128 = Error ErrPacketTooLarge.
Proof.
  apply (DecodeWithLimit_too_large 48 [200; 1] 200 []).
  - unfold MaxPacketSize, MaxRemainingLength. lia.
  - unfold is_byte. lia.
  - constructor.
  - apply (varint_more 200 [1] 1); [lia|apply varint_last; lia].
  - vm_compute. discriminate.
  - vm_compute. reflexivity.
Defined.

(** The remaining length round-trips: [encodeRemainingLength] refuses exactly
    the lengths outside [0, 268435455], and [decodeRemainingLength] reads what it
    wrote back, with the number of bytes, leaving the rest of the stream. *)
Lemma RemainingLength_roundtrip n :
  (¬ 0 <= n <= MaxRemainingLength → ∃ err, encodeRemainingLength n = Error err)
  ∧ (0 <= n <= MaxRemainingLength → ∃ ds, encodeRemainingLength n = Ok ds ∧ 1 <= len ds <= 4
     ∧ ∀ rest e, Forall is_byte rest →
       decodeRemainingLength (mkReader (ds ++ rest) e) = Ok (n, len ds, mkReader rest e)).
Proof.
  split.
  - intros Hn. unfold encodeRemainingLength, MaxRemainingLength in *.
    destruct (Z.ltb_spec n 0), (Z.ltb_spec 268435455 n); simpl; eauto; lia.
  - intros Hn. destruct (encodeRemainingLength_ok n Hn) as (ds & Hds & Hv & Hl). exists ds.
    pose proof (varint_len ds n Hv). split; [done|]. split; [lia|]. intros rest e Hrest.
    apply decodeRemainingLength_takes; [apply Forall_app; eauto using varint_bytes|]. by exists ds.
Qed.

(** The answers the server sends are unambiguous: two streams that start with
    encodings by [Encode] and are equal start with the same packet and go on
    equally, so a client can tell where each answer ends. *)
Lemma Encode_unambiguous p1 p2 d1 d2 x y :
  answer_typed p1 → answer_typed p2 → Encode p1 = Ok d1 → Encode p2 = Ok d2 →
  d1 ++ x = d2 ++ y → p1 = p2 ∧ x = y.
Proof.
  destruct p1 as [|[s1 r1]| |z1| |a1| |z1| | |], p2 as [|[s2 r2]| |z2| |a2| |z2| | |]; simpl;
    intros Ht1 Ht2 H1 H2 Heq; try done;
    try (destruct (subAck_inj _ _ _ _ _ _ Ht1 Ht2 H1 H2 Heq) as [-> ->]; done);
    unfold encodeConnAck, encodePubAck, encodeUnsubAck, encodeSubAck, encodePingResp in *;
    repeat (fwd_test H1); repeat (fwd_test H2);
    try (injection H1 as <-; injection H2 as <-;
         destruct (ack_inj _ _ _ _ _ Ht1 Ht2 Heq) as [-> ->]; done);
    try (destruct (encodeRemainingLength _); [|discriminate]);
    simplify_eq; simpl in *; simplify_eq; try done.
  unfold u8, is_byte in *. rewrite !Z.mod_small in * by done. subst. by destruct s1, s2.
Qed.

(** C39: [decodeConnectFlags] accepts a will QoS of 3 (here flags 0x1E: clean
    session, will flag, will QoS 3), a value MQTT 3.1.1 reserves; the reserved
    bit, a will QoS or will retain without the will flag, and a password without
    a user name are refused. *)
Theorem decodeConnectFlags_will_qos_3 :
  decodeConnectFlags 30 = Ok (mkFlags true true 3 false false false)
  ∧ (∀ b, is_byte b → (∃ f, decodeConnectFlags b = Ok f) ↔ ∃ f, flags_accepted f ∧ b = encode_flags f).
Proof.
  split; [reflexivity|]. intros b Hb.
  split; intros [f Hf]; exists f; by apply decodeConnectFlags_iff.
Qed.
