(* ===== verification/Session.v ===== *)
(** Sessions and their delivery queues (src/internal/session/queue.go and
    store.go).

    A [Store] holds the sessions of the process.  Every exported operation locks
    the mutex of the store for its whole body, so each is one atomic step here.
    Go pointers to [State]s are [stateptr]s into [states], which keeps removed
    sessions too, because connections go on holding pointers to them.  Queue
    entries are shared between the slice [entries] and the map [inflight], so a
    session has a heap of them and both hold references.

    A method of [State] works on that session and on the limits and totals of its
    store; its result is [None] where the Go code would panic (or, in [Next],
    never end).  Times are nanoseconds since the zero [time.Time]; operations that
    read the clock take the time as an argument. *)

From stdpp Require Import sorting.
From S2P Require Import Prelude Wire.

Local Open Scope Z_scope.
Local Open Scope orb_scope.

(** * Limits *)

Record Limits := mkLimits {
  MaxSessions : Z;
  MaxSubscriptionsPerSession : Z;
  MaxSubscriptionsGlobal : Z;
  MaxFilterBytes : Z;
  MaxFilterLevels : Z;
  OfflineTTL : Z;
  CleanupInterval : Z;
  MaxPendingMessagesPerSession : Z;
  MaxPendingBytesPerSession : Z;
  MaxPendingMessagesGlobal : Z;
  MaxPendingBytesGlobal : Z;
  MaxInflightMessagesPerSession : Z }.

Definition DefaultLimits : Limits :=
  {| MaxSessions := 10000;
     MaxSubscriptionsPerSession := 1000;
     MaxSubscriptionsGlobal := 100000;
     MaxFilterBytes := 4096;
     MaxFilterLevels := 64;
     OfflineTTL := 0;
     CleanupInterval := 60000000000;
     MaxPendingMessagesPerSession := 1000;
     MaxPendingBytesPerSession := Z.shiftl 16 20;
     MaxPendingMessagesGlobal := 100000;
     MaxPendingBytesGlobal := Z.shiftl 256 20;
     MaxInflightMessagesPerSession := 20 |}.

(** [Limits.Validate]; [None] is the nil error. *)
Definition Limits_Validate (l : Limits) : option error :=
  if (MaxSessions l <=? 0) || (MaxSubscriptionsPerSession l <=? 0) || (MaxSubscriptionsGlobal l <=? 0)
     || (MaxFilterBytes l <=? 0) || (MaxFilterLevels l <=? 0)
  then Some (New "resource limits must be positive")
  else if (MaxSubscriptionsGlobal l <? MaxSubscriptionsPerSession l) || (65535 <? MaxFilterBytes l)
     || (OfflineTTL l <? 0) || (CleanupInterval l <=? 0)
  then Some (New "invalid session resource limits")
  else if (MaxPendingMessagesPerSession l <=? 0) || (MaxPendingBytesPerSession l <=? 0)
     || (MaxPendingMessagesGlobal l <=? 0) || (MaxPendingBytesGlobal l <=? 0)
     || (MaxInflightMessagesPerSession l <=? 0)
  then Some (New "session limits must be positive")
  else if (MaxPendingMessagesGlobal l <? MaxPendingMessagesPerSession l)
     || (MaxPendingBytesGlobal l <? MaxPendingBytesPerSession l)
  then Some (New "session limits exceed global limits")
  else if (65535 <? MaxInflightMessagesPerSession l)
     || (MaxPendingMessagesPerSession l <? MaxInflightMessagesPerSession l)
  then Some (New "invalid inflight limit")
  else None.

(** * Data *)

(** [DropReason]: a string with two named values; the empty one, "not dropped",
    is [None] of an [option]. *)
Inductive DropReason := SessionLimit | GlobalLimit.

#[export] Instance DropReason_eq_dec : EqDecision DropReason.
Proof. solve_decision. Defined.

Record Snapshot := mkSnapshot {
  SessionCount : Z;
  SubscriptionCount : Z;
  SessionRejections : Z;
  SubscriptionRejections : Z;
  FilterRejections : Z;
  ExpiredSessions : Z;
  PendingMessages : Z;
  PendingBytes : Z;
  InflightMessages : Z;
  SessionLimitDrops : Z;
  GlobalLimitDrops : Z;
  OldestPendingAge : Z }.

Definition zero_snapshot : Snapshot := mkSnapshot 0 0 0 0 0 0 0 0 0 0 0 0.

Record entry := mkEntry {
  e_data : bytes;
  packetIDOffset : Z;
  e_packetID : Z;
  lastEpoch : Z;
  accepted : Z }.

Record Delivery := mkDelivery {
  Data : bytes;
  PacketID : Z }.

(** The channel [changed] has room for one token: [true] when it holds it. *)
Record State := mkState {
  st_id : bytes;
  st_owner : bytes;
  deleted : bool;
  subscriptions : gmap bytes Z;
  heap : list entry;
  entries : list nat;
  inflight : gmap Z nat;
  nextPacketID : Z;
  epoch : Z;
  activeInflight : Z;
  paused : bool;
  changed : bool;
  stats : Snapshot;
  connected : bool;
  offlineSince : Z }.

(** A [sessSubscription] is the source's [session.Subscription]. *)
Record sessSubscription := mkSessSub {
  ss_Filter : bytes;
  ss_QoS : Z }.

Abbreviation stateptr := nat.

Record Store := mkStore {
  st_data : gmap bytes stateptr;
  states : gmap stateptr State;
  limits : Limits;
  totals : Snapshot }.

(** ** Assignments to fields *)

Definition count_pending (sn : Snapshot) (messages bytes : Z) : Snapshot :=
  mkSnapshot (SessionCount sn) (SubscriptionCount sn) (SessionRejections sn)
    (SubscriptionRejections sn) (FilterRejections sn) (ExpiredSessions sn)
    (PendingMessages sn + messages) (PendingBytes sn + bytes) (InflightMessages sn)
    (SessionLimitDrops sn) (GlobalLimitDrops sn) (OldestPendingAge sn).

Definition count_inflight (sn : Snapshot) (n : Z) : Snapshot :=
  mkSnapshot (SessionCount sn) (SubscriptionCount sn) (SessionRejections sn)
    (SubscriptionRejections sn) (FilterRejections sn) (ExpiredSessions sn) (PendingMessages sn)
    (PendingBytes sn) (InflightMessages sn + n) (SessionLimitDrops sn) (GlobalLimitDrops sn)
    (OldestPendingAge sn).

Definition count_subscriptions (sn : Snapshot) (n : Z) : Snapshot :=
  mkSnapshot (SessionCount sn) (SubscriptionCount sn + n) (SessionRejections sn)
    (SubscriptionRejections sn) (FilterRejections sn) (ExpiredSessions sn) (PendingMessages sn)
    (PendingBytes sn) (InflightMessages sn) (SessionLimitDrops sn) (GlobalLimitDrops sn)
    (OldestPendingAge sn).

Definition count_drop (reason : DropReason) (sn : Snapshot) : Snapshot :=
  mkSnapshot (SessionCount sn) (SubscriptionCount sn) (SessionRejections sn)
    (SubscriptionRejections sn) (FilterRejections sn) (ExpiredSessions sn) (PendingMessages sn)
    (PendingBytes sn) (InflightMessages sn)
    (if decide (reason = SessionLimit) then u64 (SessionLimitDrops sn + 1) else SessionLimitDrops sn)
    (if decide (reason = GlobalLimit) then u64 (GlobalLimitDrops sn + 1) else GlobalLimitDrops sn)
    (OldestPendingAge sn).

Definition count_rejections (sn : Snapshot) (sessions subs filters expired : Z) : Snapshot :=
  mkSnapshot (SessionCount sn) (SubscriptionCount sn) (u64 (SessionRejections sn + sessions))
    (u64 (SubscriptionRejections sn + subs)) (u64 (FilterRejections sn + filters))
    (u64 (ExpiredSessions sn + expired)) (PendingMessages sn) (PendingBytes sn)
    (InflightMessages sn) (SessionLimitDrops sn) (GlobalLimitDrops sn) (OldestPendingAge sn).

Definition set_stats (f : Snapshot → Snapshot) (s : State) : State :=
  mkState (st_id s) (st_owner s) (deleted s) (subscriptions s) (heap s) (entries s) (inflight s)
    (nextPacketID s) (epoch s) (activeInflight s) (paused s) (changed s) (f (stats s)) (connected s)
    (offlineSince s).

Definition set_queue (s : State) (h : list entry) (es : list nat) (infl : gmap Z nat) (next active : Z)
    : State :=
  mkState (st_id s) (st_owner s) (deleted s) (subscriptions s) h es infl
    next (epoch s) active (paused s) (changed s) (stats s) (connected s) (offlineSince s).

Definition set_subscriptions (s : State) (subs : gmap bytes Z) : State :=
  mkState (st_id s) (st_owner s) (deleted s) subs (heap s) (entries s) (inflight s)
    (nextPacketID s) (epoch s) (activeInflight s) (paused s) (changed s) (stats s) (connected s)
    (offlineSince s).

Definition set_epoch (s : State) (ep active : Z) : State :=
  mkState (st_id s) (st_owner s) (deleted s) (subscriptions s) (heap s) (entries s) (inflight s)
    (nextPacketID s) ep active (paused s) (changed s) (stats s) (connected s) (offlineSince s).

Definition set_flow (s : State) (pause change : bool) : State :=
  mkState (st_id s) (st_owner s) (deleted s) (subscriptions s) (heap s) (entries s) (inflight s)
    (nextPacketID s) (epoch s) (activeInflight s) pause change (stats s) (connected s)
    (offlineSince s).

Definition set_link (s : State) (conn : bool) (since : Z) : State :=
  mkState (st_id s) (st_owner s) (deleted s) (subscriptions s) (heap s) (entries s) (inflight s)
    (nextPacketID s) (epoch s) (activeInflight s) (paused s) (changed s) (stats s) conn since.

(** * Methods of a session *)

(** What a method of [State] does to its session and to the totals of the store. *)
Definition method (A : Type) : Type := Limits → Snapshot → State → option (A * Snapshot * State).

(** [select { case s.changed <- struct{}{}: default: }] *)
Definition notifyLocked (s : State) : State := set_flow s (paused s) true.

(** A receive from [Changed()] that does not block. *)
Definition receive_changed : method bool := λ l t s,
  Some (changed s, t, set_flow s (paused s) false).

(** Writing to a slice by index. *)
Definition set_byte (data : bytes) (i b : Z) : option bytes :=
  if (0 <=? i) && (i <? len data) then Some (<[Z.to_nat i := b]> data) else None.

Definition get_byte (data : bytes) (i : Z) : option Z :=
  if (0 <=? i) && (i <? len data) then data !! Z.to_nat i else None.

(** The test on the arguments of [Admit]. *)
Definition invalid_queued_publish (data : bytes) (offset : Z) : bool :=
  match data with
  | b0 :: _ =>
      (len data <? 2) || negb (Z.shiftr b0 4 =? 3) || negb (Z.land (Z.shiftr b0 1) 3 =? 1)
      || (offset <? 2) || (len data - 2 <? offset)
  | [] => true
  end.

(** [Ok None] is the empty [DropReason] and the nil error. *)
Definition Admit (data : bytes) (offset : Z) (now : Z) : method (result (option DropReason)) := λ l t s,
  if invalid_queued_publish data offset then Some (Error (New "invalid queued publish"), t, s)
  else if deleted s then Some (Error (New "session removed"), t, s)
  else
    let reason :=
      if (MaxPendingMessagesPerSession l <=? PendingMessages (stats s))
         || (MaxPendingBytesPerSession l - PendingBytes (stats s) <? len data)
      then Some SessionLimit
      else if (MaxPendingMessagesGlobal l <=? PendingMessages t)
         || (MaxPendingBytesGlobal l - PendingBytes t <? len data)
      then Some GlobalLimit
      else None in
    match reason with
    | Some r => Some (Ok reason, count_drop r t, set_stats (count_drop r) s)
    | None =>
        let s := set_queue s (heap s ++ [mkEntry data offset 0 0 now]) (entries s ++ [length (heap s)])
                   (inflight s) (nextPacketID s) (activeInflight s) in
        let s := set_stats (λ sn, count_pending sn 1 (len data)) s in
        Some (Ok None, count_pending t 1 (len data), notifyLocked s)
    end.

Definition BeginDelivery : method Z := λ l t s,
  let s := set_epoch s (u64 (epoch s + 1)) 0 in
  Some (epoch s, t, notifyLocked s).

Definition PauseDelivery : method unit := λ l t s,
  Some (tt, t, set_flow s true (changed s)).

Definition ResumeDelivery : method unit := λ l t s,
  Some (tt, t, notifyLocked (set_flow s false (changed s))).

(** The loop of [Next] up to the first entry not sent in this epoch; the outer
    [None] is a nil entry. *)
Fixpoint next_unsent (h : list entry) (ep : Z) (es : list nat) : option (option (nat * entry)) :=
  match es with
  | [] => Some None
  | r :: es =>
      match h !! r with
      | None => None
      | Some message =>
          if lastEpoch message =? ep then next_unsent h ep es else Some (Some (r, message))
      end
  end.

Definition increment_packetID (id : Z) : Z :=
  let id := u16 (id + 1) in
  if id =? 0 then u16 (id + 1) else id.

(** The loop that looks for a free identifier.  It ends within one more step than
    there are identifiers in use, unless all 65535 are ([allocate_packetID_free]),
    so [None] is a loop that does not end. *)
Fixpoint allocate_packetID_loop (fuel : nat) (infl : gmap Z nat) (id : Z) : option Z :=
  match fuel with
  | O => None
  | S fuel =>
      let id := increment_packetID id in
      match infl !! id with
      | None => Some id
      | Some _ => allocate_packetID_loop fuel infl id
      end
  end.

Definition allocate_packetID (infl : gmap Z nat) (id : Z) : option Z :=
  allocate_packetID_loop (S (size infl)) infl id.

(** The private copy of the message with its DUP flag and identifier set. *)
Definition patch (data : bytes) (offset id : Z) (replay : bool) : option bytes :=
  b0 ← get_byte data 0;
  data ← set_byte data 0 (if replay then Z.lor b0 8 else Z.ldiff b0 8);
  data ← set_byte data offset (u8 (Z.shiftr id 8));
  set_byte data (offset + 1) (u8 id).

Definition Next (ep : Z) : method (option Delivery) := λ l t s,
  if deleted s || paused s || negb (ep =? epoch s)
     || (MaxInflightMessagesPerSession l <=? activeInflight s)
  then Some (None, t, s)
  else
    next ← next_unsent (heap s) ep (entries s);
    match next with
    | None => Some (None, t, s)
    | Some (r, message) =>
        let replay := negb (e_packetID message =? 0) in
        '(id, next, infl, t) ←
          (if replay then Some (e_packetID message, nextPacketID s, inflight s, t)
           else id ← allocate_packetID (inflight s) (nextPacketID s);
                Some (id, id, <[id := r]> (inflight s), count_inflight t 1));
        let message := mkEntry (e_data message) (packetIDOffset message) id ep (accepted message) in
        let s := set_queue s (<[r := message]> (heap s)) (entries s) infl next (activeInflight s + 1) in
        data ← patch (e_data message) (packetIDOffset message) id replay;
        Some (Some (mkDelivery data id), t, s)
    end.

(** The first occurrence of [r] is removed. *)
Fixpoint remove_entry (r : nat) (es : list nat) : list nat :=
  match es with
  | [] => []
  | candidate :: es => if decide (candidate = r) then es else candidate :: remove_entry r es
  end.

Definition Ack (id : Z) : method unit := λ l t s,
  match inflight s !! id with
  | None => Some (tt, t, s)
  | Some r =>
      if deleted s then Some (tt, t, s)
      else
        message ← heap s !! r;
        let active := if lastEpoch message =? epoch s then activeInflight s - 1 else activeInflight s in
        let size := len (e_data message) in
        let s := set_queue s (heap s) (remove_entry r (entries s)) (delete id (inflight s))
                   (nextPacketID s) active in
        let s := set_stats (λ sn, count_pending sn (-1) (- size)) s in
        let t := count_inflight (count_pending t (-1) (- size)) (-1) in
        Some (tt, t, notifyLocked s)
  end.

Definition SetSubscription (filter : bytes) (qos : Z) : method (option error) := λ l t s,
  if deleted s then Some (Some (New "session removed"), t, s)
  else if (MaxFilterBytes l <? len filter)
       || (MaxFilterLevels l <=? Z.of_nat (length (base.filter (λ c, c = 47) filter)))
  then Some (Some ErrFilterLimit, count_rejections t 0 0 1 0, s)
  else
    match subscriptions s !! filter with
    | Some _ => Some (None, t, set_subscriptions s (<[filter := qos]> (subscriptions s)))
    | None =>
        if (MaxSubscriptionsPerSession l <=? msize (subscriptions s))
           || (MaxSubscriptionsGlobal l <=? SubscriptionCount t)
        then Some (Some ErrSubscriptionLimit, count_rejections t 0 1 0 0, s)
        else Some (None, count_subscriptions t 1, set_subscriptions s (<[filter := qos]> (subscriptions s)))
    end.

Definition DeleteSubscription (filter : bytes) : method unit := λ l t s,
  match subscriptions s !! filter with
  | Some _ => Some (tt, count_subscriptions t (-1), set_subscriptions s (delete filter (subscriptions s)))
  | None => Some (tt, t, s)
  end.

Definition MarkConnected : method unit := λ l t s,
  if negb (deleted s) then Some (tt, t, set_link s true 0) else Some (tt, t, s).

Definition MarkDisconnectedAt (at_ : Z) : method unit := λ l t s,
  if negb (deleted s) && connected s then Some (tt, t, set_link s false at_) else Some (tt, t, s).

Definition MarkDisconnected (now : Z) : method unit := MarkDisconnectedAt now.

(** [Time.Sub] saturates at the range of [time.Duration]. *)
Definition time_sub (a b : Z) : Z := Z.max (- 2 ^ 63) (Z.min (2 ^ 63 - 1) (a - b)).

Definition snapshotLocked (now : Z) (s : State) : option Snapshot :=
  let sn := stats s in
  age ← (match entries s with
         | [] => Some (OldestPendingAge sn)
         | r :: _ => message ← heap s !! r; Some (time_sub now (accepted message))
         end);
  Some (
    mkSnapshot (SessionCount sn) (msize (subscriptions s)) (SessionRejections sn)
    (SubscriptionRejections sn) (FilterRejections sn) (ExpiredSessions sn) (PendingMessages sn)
    (PendingBytes sn) (msize (inflight s)) (SessionLimitDrops sn) (GlobalLimitDrops sn) age).

Definition State_Snapshot (now : Z) : method Snapshot := λ l t s,
  sn ← snapshotLocked now s; Some (sn, t, s).

(** Go compares strings by their bytes. *)
Fixpoint bytes_le (a b : bytes) : bool :=
  match a, b with
  | [], _ => true
  | _ :: _, [] => false
  | x :: a, y :: b => (x <? y) || ((x =? y) && bytes_le a b)
  end.

Definition filter_le (a b : sessSubscription) : Prop := bytes_le (ss_Filter a) (ss_Filter b) = true.

#[export] Instance filter_le_dec a b : Decision (filter_le a b).
Proof. unfold filter_le. apply _. Defined.

Definition SnapshotSubscriptions : method (list sessSubscription) := λ l t s,
  let subs := (λ fq, mkSessSub fq.1 fq.2) <$> map_to_list (subscriptions s) in
  Some (merge_sort filter_le subs, t, s).

(** * Operations of the store *)

Definition NewWithLimits (l : Limits) : result Store :=
  match Limits_Validate l with
  | Some err => Error err
  | None => Ok (mkStore ∅ ∅ l zero_snapshot)
  end.

(** A call of a method on a pointer; [None] when it panics. *)
Definition call {A} (f : method A) (p : stateptr) (st : Store) : option (A * Store) :=
  s ← states st !! p;
  '(a, t, s') ← f (limits st) (totals st) s;
  Some (a, mkStore (st_data st) (<[p := s']> (states st)) (limits st) t).

Definition Get (id : bytes) (st : Store) : option stateptr := st_data st !! id.

Definition new_state (id owner : bytes) (now : Z) : State :=
  mkState id owner false ∅ [] [] ∅ 0 0 0 false false zero_snapshot false now.

(** The address of the session that is allocated. *)
Definition new_ptr (st : Store) : stateptr := fresh (dom (states st)).

Definition GetOrCreateOwned (id owner : bytes) (now : Z) (st : Store)
    : option (result (stateptr * bool) * Store) :=
  match st_data st !! id with
  | Some p =>
      s ← states st !! p;
      if bool_decide (st_owner s ≠ owner) then Some (Error ErrSessionOwner, st)
      else Some (Ok (p, true), st)
  | None =>
      if MaxSessions (limits st) <=? msize (st_data st)
      then Some (Error ErrSessionLimit,
                 mkStore (st_data st) (states st) (limits st) (count_rejections (totals st) 1 0 0 0))
      else
        let p := new_ptr st in
        Some (Ok (p, false),
              mkStore (<[id := p]> (st_data st)) (<[p := new_state id owner now]> (states st))
                (limits st) (totals st))
  end.

Definition GetOrCreate (id : bytes) (now : Z) (st : Store) : option (result (stateptr * bool) * Store) :=
  GetOrCreateOwned id [] now st.

(** [New] of the package, and [NewState], a session of a store of its own; none stands
    for nil. *)
Definition Store_New : option Store :=
  match NewWithLimits DefaultLimits with Ok st => Some st | Error _ => None end.

Definition NewState (now : Z) : option (stateptr * Store) :=
  st ← Store_New;
  '(r, st) ← GetOrCreate [] now st;
  match r with Ok (p, _) => Some (p, st) | Error _ => None end.

(** What [deleteLocked] makes of the session. *)
Definition removed (s : State) : State :=
  let sn := stats s in
  mkState (st_id s) (st_owner s) true ∅ (heap s) [] ∅ (nextPacketID s) (epoch s) (activeInflight s)
    (paused s) true
    (mkSnapshot (SessionCount sn) (SubscriptionCount sn) (SessionRejections sn)
    (SubscriptionRejections sn) (FilterRejections sn) (ExpiredSessions sn) 0 0 (InflightMessages sn)
    (SessionLimitDrops sn) (GlobalLimitDrops sn) (OldestPendingAge sn))
    (connected s) (offlineSince s).

Definition deleteLocked (id : bytes) (st : Store) : option Store :=
  match st_data st !! id with
  | None => Some st
  | Some p =>
      s ← states st !! p;
      let t := count_pending (totals st) (- PendingMessages (stats s)) (- PendingBytes (stats s)) in
      let t := count_inflight t (- msize (inflight s)) in
      let t := count_subscriptions t (- msize (subscriptions s)) in
      Some (mkStore (delete id (st_data st)) (<[p := removed s]> (states st)) (limits st) t)
  end.

Definition Delete (id : bytes) (st : Store) : option Store := deleteLocked id st.

(** [expireLocked]; [p] is the pointer argument, [None] when nil. *)
Definition expireLocked (p : option stateptr) (now : Z) (st : Store) : option (bool * Store) :=
  match p with
  | None => Some (false, st)
  | Some p =>
      if OfflineTTL (limits st) =? 0 then Some (false, st)
      else
        s ← states st !! p;
        if connected s || (offlineSince s =? 0)
           || (time_sub now (offlineSince s) <? OfflineTTL (limits st))
        then Some (false, st)
        else
          st ← deleteLocked (st_id s) st;
          Some (true, mkStore (st_data st) (states st) (limits st) (count_rejections (totals st) 0 0 0 1))
  end.

(** The loop of [Expire] over the sessions in the order [todo] of the map. *)
Fixpoint Expire_loop (todo : list (bytes * stateptr)) (now : Z) (expired : list bytes) (st : Store)
    : option (list bytes * Store) :=
  match todo with
  | [] => Some (expired, st)
  | (id, p) :: todo =>
      '(gone, st) ← expireLocked (Some p) now st;
      Expire_loop todo now (if gone : bool then expired ++ [id] else expired) st
  end.

Definition Expire (now : Z) (st : Store) : option (list bytes * Store) :=
  if OfflineTTL (limits st) =? 0 then Some ([], st)
  else Expire_loop (map_to_list (st_data st)) now [] st.

Definition ExpireSession (id : bytes) (now : Z) (st : Store) : option (bool * Store) :=
  expireLocked (st_data st !! id) now st.

(** The loop of [Store.Snapshot] that looks for the oldest message. *)
Fixpoint oldest_age (todo : list (bytes * stateptr)) (now : Z) (st : Store) (age : Z) : option Z :=
  match todo with
  | [] => Some age
  | (_, p) :: todo =>
      s ← states st !! p;
      sn ← snapshotLocked now s;
      oldest_age todo now st
        (if age <? OldestPendingAge sn then OldestPendingAge sn else age)
  end.

Definition Store_Snapshot (now : Z) (st : Store) : option Snapshot :=
  let sn := totals st in
  age ← oldest_age (map_to_list (st_data st)) now st (OldestPendingAge sn);
  Some (
    mkSnapshot (msize (st_data st)) (SubscriptionCount sn) (SessionRejections sn)
    (SubscriptionRejections sn) (FilterRejections sn) (ExpiredSessions sn) (PendingMessages sn)
    (PendingBytes sn) (InflightMessages sn) (SessionLimitDrops sn) (GlobalLimitDrops sn) age).
