(* ===== verification/SessionQueue.v ===== *)
(** The delivery queue of a session: the allocation of packet identifiers, an
    abstract queue of messages, and the methods of [State] that change the queue
    as operations on it. *)

From S2P Require Import Prelude Wire Session.

Local Open Scope Z_scope.
Local Open Scope orb_scope.

(** * Packet identifiers *)

Lemma increment_packetID_eq z : 0 <= z < 65536 → increment_packetID z = z mod 65535 + 1.
Proof.
  intros Hz. unfold increment_packetID, u16. destruct (decide (z = 65535)) as [->|Hne]; [done|].
  rewrite (Z.mod_small (z + 1) 65536) by lia. rewrite (Z.mod_small z 65535) by lia.
  destruct (Z.eqb_spec (z + 1) 0); lia.
Qed.

(** The [k]-th identifier the loop tries after [z]. *)
Definition nth_packetID (z k : Z) : Z := (z + k) mod 65535 + 1.

Lemma nth_packetID_range z k : 0 < nth_packetID z k < 65536.
Proof. unfold nth_packetID. pose proof (Z.mod_pos_bound (z + k) 65535). lia. Qed.

Lemma nth_packetID_inj z k1 k2 :
  0 <= k1 < 65535 → 0 <= k2 < 65535 → nth_packetID z k1 = nth_packetID z k2 → k1 = k2.
Proof.
  unfold nth_packetID. intros H1 H2 Heq.
  assert (Hd : (k1 - k2) mod 65535 = 0).
  { replace (k1 - k2) with ((z + k1) - (z + k2)) by lia. rewrite Zminus_mod.
    replace ((z + k1) mod 65535) with ((z + k2) mod 65535) by lia. by rewrite Z.sub_diag. }
  apply Z.mod_divide in Hd as [c Hc]; lia.
Qed.

Lemma nth_packetID_step z k : nth_packetID (z mod 65535 + 1) k = nth_packetID z (k + 1).
Proof.
  unfold nth_packetID. replace (z mod 65535 + 1 + k) with (z mod 65535 + (1 + k)) by lia.
  rewrite Zplus_mod_idemp_l. do 2 f_equal. lia.
Qed.

Lemma allocate_loop_spec fuel infl z :
  0 <= z < 65536 →
  match allocate_packetID_loop fuel infl z with
  | Some id => ∃ k, 0 <= k ∧ id = nth_packetID z k ∧ infl !! id = None
                    ∧ ∀ j, 0 <= j < k → is_Some (infl !! nth_packetID z j)
  | None => ∀ j, 0 <= j < Z.of_nat fuel → is_Some (infl !! nth_packetID z j)
  end.
Proof.
  revert z. induction fuel as [|fuel IH]; intros z Hz; simpl; [lia|].
  rewrite increment_packetID_eq by done.
  assert (H0 : nth_packetID z 0 = z mod 65535 + 1) by (unfold nth_packetID; by rewrite Z.add_0_r).
  destruct (infl !! (z mod 65535 + 1)) as [r|] eqn:Hl.
  - pose proof (Z.mod_pos_bound z 65535) as Hm. specialize (IH (z mod 65535 + 1) ltac:(lia)).
    assert (Hfirst : ∀ (P : Z → Prop), P (nth_packetID z 0) → ∀ n,
      (∀ j, 0 <= j < n → P (nth_packetID (z mod 65535 + 1) j)) → ∀ j, 0 <= j < n + 1 → P (nth_packetID z j)).
    { intros P HP n Hrest j Hj. destruct (decide (j = 0)) as [->|]; [done|].
      replace j with (j - 1 + 1) by lia. rewrite <- nth_packetID_step. apply Hrest. lia. }
    assert (Hs : is_Some (infl !! nth_packetID z 0)) by (rewrite H0, Hl; done).
    destruct (allocate_packetID_loop _ _ _) as [id|].
    + destruct IH as (k & Hk & -> & Hnone & Hused). exists (k + 1). rewrite nth_packetID_step.
      split_and!; [lia|done|by rewrite <- nth_packetID_step|].
      apply (Hfirst (λ i, is_Some (infl !! i))); done.
    + intros j Hj. apply (Hfirst (λ i, is_Some (infl !! i)) Hs (Z.of_nat fuel)); [done|lia].
  - exists 0. rewrite H0. split_and!; [lia|done|done|lia].
Qed.

(** The allocator gives the first identifier after the last one that is not in
    use; it ends whenever one is free. *)
Lemma allocate_packetID_free infl z :
  0 <= z < 65536 → msize infl < 65535 →
  ∃ k, 0 <= k ∧ allocate_packetID infl z = Some (nth_packetID z k) ∧ infl !! nth_packetID z k = None
       ∧ ∀ j, 0 <= j < k → is_Some (infl !! nth_packetID z j).
Proof.
  intros Hz Hsize. pose proof (allocate_loop_spec (S (size infl)) infl z Hz) as Hloop.
  unfold allocate_packetID. destruct (allocate_packetID_loop _ _ _) as [id|].
  { destruct Hloop as (k & ? & -> & ? & ?). exists k. done. }
  exfalso. set (ids := nth_packetID z <$> seqZ 0 (Z.of_nat (S (size infl)))).
  unfold msize in Hsize.
  assert (Hnd : NoDup ids).
  { apply NoDup_fmap_2_strong; [|apply NoDup_seqZ]. intros k1 k2 H1 H2.
    apply elem_of_seqZ in H1, H2. apply nth_packetID_inj; lia. }
  assert (Hsub : list_to_set ids ⊆ dom infl).
  { intros id Hid. apply elem_of_list_to_set, list_elem_of_fmap in Hid as (k & -> & Hk).
    apply elem_of_seqZ in Hk. apply elem_of_dom, Hloop. lia. }
  apply subseteq_size in Hsub. rewrite size_list_to_set, size_dom in Hsub by done.
  unfold ids in Hsub. rewrite length_fmap, length_seqZ in Hsub. lia.
Qed.

(** * The abstract queue *)

(** A message the session accepted, and the queue as a client of the session sees
    it: what was sent on the current connection and not acknowledged, what was
    sent on earlier ones only, and what was never sent, each in order. *)
Record msg := mkMsg {
  m_data : bytes;
  m_offset : Z;
  m_accepted : Z }.

Record aqueue := mkQ {
  q_sent : list (Z * msg);
  q_resend : list (Z * msg);
  q_fresh : list msg }.

Definition q_attempted (q : aqueue) : list (Z * msg) := q_sent q ++ q_resend q.

Definition q_messages (q : aqueue) : list msg := (q_attempted q).*2 ++ q_fresh q.

Definition q_admit (m : msg) (q : aqueue) : aqueue := mkQ (q_sent q) (q_resend q) (q_fresh q ++ [m]).

Definition q_begin (q : aqueue) : aqueue := mkQ [] (q_attempted q) (q_fresh q).

Definition q_ack (id : Z) (q : aqueue) : aqueue :=
  mkQ (filter (λ x, x.1 ≠ id) (q_sent q)) (filter (λ x, x.1 ≠ id) (q_resend q)) (q_fresh q).

(** Sending the next message gives [(id, m)], a replay or not, and the queue after. *)
Inductive q_next : aqueue → Z → msg → bool → aqueue → Prop :=
| q_next_replay sent id m resend fresh :
    q_next (mkQ sent ((id, m) :: resend) fresh) id m true (mkQ (sent ++ [(id, m)]) resend fresh)
| q_next_fresh sent id m fresh :
    0 < id < 65536 → id ∉ sent.*1 →
    q_next (mkQ sent [] (m :: fresh)) id m false (mkQ (sent ++ [(id, m)]) [] fresh).

Definition q_ids_ok (q : aqueue) : Prop :=
  NoDup (q_attempted q).*1 ∧ Forall (λ x, 0 < x.1 < 65536) (q_attempted q).

Definition list_sum (l : list Z) : Z := foldr Z.add 0 l.

Lemma list_sum_app l1 l2 : list_sum (l1 ++ l2) = list_sum l1 + list_sum l2.
Proof. induction l1 as [|x l1 IH]; simpl; [done|]. unfold list_sum in *. lia. Qed.

Definition q_count (q : aqueue) : Z := len (q_messages q).
Definition q_bytes (q : aqueue) : Z := list_sum (len ∘ m_data <$> q_messages q).

(** * The representation of the queue *)

(** Messages with the references of their entries. *)
Abbreviation tagged A := (list (nat * A)).

Definition holds (h : list entry) (r : nat) (id ep : Z) (m : msg) : Prop :=
  h !! r = Some (mkEntry (m_data m) (m_offset m) id ep (m_accepted m)).

Record queue_rep (s : State) (sent resend : tagged (Z * msg)) (fresh : tagged msg) : Prop := {
  rep_entries : entries s = (sent ++ resend).*1 ++ fresh.*1;
  rep_nodup : NoDup (entries s);
  rep_sent : Forall (λ x, holds (heap s) x.1 x.2.1 (epoch s) x.2.2) sent;
  rep_resend : Forall (λ x, ∃ ep, ep < epoch s ∧ holds (heap s) x.1 x.2.1 ep x.2.2) resend;
  rep_fresh : Forall (λ x, holds (heap s) x.1 0 0 x.2) fresh;
  rep_inflight id r : inflight s !! id = Some r ↔ ∃ m, (r, (id, m)) ∈ sent ++ resend;
  rep_ids : q_ids_ok (mkQ sent.*2 resend.*2 fresh.*2);
  rep_active : activeInflight s = len sent;
  rep_epoch : 0 <= epoch s < 2 ^ 64;
  rep_next : 0 <= nextPacketID s < 65536 }.

(** The queue [q] is the one a session that is not removed holds. *)
Definition represents_queue (s : State) (q : aqueue) : Prop :=
  ∃ sent resend fresh, queue_rep s sent resend fresh ∧ q = mkQ sent.*2 resend.*2 fresh.*2.

(** ** Lists *)

Lemma remove_entry_mid r l1 l2 : r ∉ l1 → remove_entry r (l1 ++ r :: l2) = l1 ++ l2.
Proof.
  induction l1 as [|x l1 IH]; simpl.
  - by rewrite decide_True.
  - rewrite not_elem_of_cons. intros [? ?]. rewrite decide_False by congruence. by rewrite IH.
Qed.

Lemma NoDup_app_remove_mid {A} (l l1 l2 : list A) : NoDup (l1 ++ l ++ l2) → NoDup (l1 ++ l2).
Proof. intros Hnd. eapply sublist_NoDup; [exact Hnd|]. apply sublist_app; [done|]. by apply sublist_inserts_l. Qed.

(** Removing the pair with key [id] by position and by filtering. *)
Lemma filter_ne_mid {A} (id : Z) (x : A) (l1 l2 : list (Z * A)) :
  NoDup (l1 ++ (id, x) :: l2).*1 → filter (λ y, y.1 ≠ id) (l1 ++ (id, x) :: l2) = l1 ++ l2.
Proof.
  rewrite fmap_app, fmap_cons. simpl. intros (_ & H1 & H2)%NoDup_app.
  apply NoDup_cons in H2 as [H2 _].
  rewrite filter_app, filter_cons_False by (simpl; tauto).
  rewrite !list_filter_all; [done|..].
  - apply Forall_forall. intros [i y] Hy. simpl. intros ->. apply H2. apply list_elem_of_fmap. by exists (id, y).
  - apply Forall_forall. intros [i y] Hy. simpl. intros ->. apply (H1 id); [|left].
    apply list_elem_of_fmap. by exists (id, y).
Qed.

Lemma filter_ne_all {A} (id : Z) (l : list (Z * A)) : id ∉ l.*1 → filter (λ y, y.1 ≠ id) l = l.
Proof.
  intros Hid. apply list_filter_all, Forall_forall. intros [i y] Hy. simpl. intros ->. apply Hid.
  apply list_elem_of_fmap. by exists (id, y).
Qed.

(** ** Entries in the heap *)

Definition m_ok (m : msg) : Prop := invalid_queued_publish (m_data m) (m_offset m) = false.

Lemma set_byte_ok data i b : 0 <= i < len data → ∃ data', set_byte data i b = Some data' ∧ len data' = len data.
Proof.
  intros Hi. unfold set_byte. destruct (Z.leb_spec 0 i), (Z.ltb_spec i (len data)); try lia. simpl.
  eexists. split; [done|]. unfold len. by rewrite length_insert.
Qed.

Lemma valid_offset m : m_ok m → 2 <= m_offset m ∧ m_offset m + 2 <= len (m_data m).
Proof.
  unfold m_ok, invalid_queued_publish. destruct (m_data m) as [|b0 d]; [done|].
  intros H. bool_to_prop. lia.
Qed.

Lemma patch_ok m id replay :
  m_ok m → ∃ data, patch (m_data m) (m_offset m) id replay = Some data ∧ len data = len (m_data m).
Proof.
  intros Hm. pose proof (valid_offset m Hm) as Ho. unfold patch, get_byte.
  destruct (m_data m) as [|b0 d] eqn:Hd; [unfold len in Ho; simpl in Ho; lia|].
  destruct (Z.ltb_spec 0 (len (b0 :: d))); [|lia].
  change (if (0 <=? 0) && true then _ else None) with (Some b0). cbn [mbind option_bind].
  destruct (set_byte_ok (b0 :: d) 0 (if replay then Z.lor b0 8 else Z.ldiff b0 8)) as (d1 & -> & H1); [lia|]. cbn [mbind option_bind].
  destruct (set_byte_ok d1 (m_offset m) (u8 (Z.shiftr id 8))) as (d2 & -> & H2); [lia|]. cbn [mbind option_bind].
  destruct (set_byte_ok d2 (m_offset m + 1) (u8 id)) as (d3 & -> & H3); [lia|].
  exists d3. split; [done|lia].
Qed.

Section rep.
Context (s : State) (sent resend : tagged (Z * msg)) (fresh : tagged msg).
Hypothesis Hrep : queue_rep s sent resend fresh.

Lemma rep_fresh_ref : length (heap s) ∉ entries s.
Proof.
  rewrite (rep_entries _ _ _ _ Hrep), fmap_app, !not_elem_of_app.
  pose proof (rep_sent _ _ _ _ Hrep) as Hs. pose proof (rep_resend _ _ _ _ Hrep) as Hr.
  pose proof (rep_fresh _ _ _ _ Hrep) as Hf. rewrite !Forall_forall in *. unfold holds in *.
  assert (Hnone : heap s !! length (heap s) = None) by (by apply lookup_ge_None).
  split; [split|]; intros (x & Hx & Hin)%list_elem_of_fmap; rewrite Hx in Hnone.
  - specialize (Hs x Hin). congruence.
  - destruct (Hr x Hin) as (ep & _ & Hl). congruence.
  - specialize (Hf x Hin). congruence.
Qed.

Lemma next_unsent_skip ep es1 es2 :
  Forall (λ r, ∃ e, heap s !! r = Some e ∧ lastEpoch e = ep) es1 →
  next_unsent (heap s) ep (es1 ++ es2) = next_unsent (heap s) ep es2.
Proof.
  induction 1 as [|r es1 (e & Hl & He) _ IH]; [done|]. simpl. rewrite Hl, He, Z.eqb_refl. done.
Qed.

Lemma next_unsent_sent es :
  next_unsent (heap s) (epoch s) (sent.*1 ++ es) = next_unsent (heap s) (epoch s) es.
Proof.
  apply next_unsent_skip, Forall_fmap. eapply Forall_impl; [apply (rep_sent _ _ _ _ Hrep)|].
  intros x Hx. eexists. split; [exact Hx|done].
Qed.

Lemma rep_admit m now' off :
  m = mkMsg (m_data m) off now' → m_ok m →
  queue_rep (set_queue s (heap s ++ [mkEntry (m_data m) off 0 0 now']) (entries s ++ [length (heap s)])
    (inflight s) (nextPacketID s) (activeInflight s)) sent resend (fresh ++ [(length (heap s), m)]).
Proof.
  intros Hm Hok. pose proof rep_fresh_ref as Href. destruct Hrep as [He Hnd Hs Hr Hf Hi Hids Ha Hep Hn].
  assert (Hmono : ∀ r id ep m', holds (heap s) r id ep m' →
    holds (heap s ++ [mkEntry (m_data m) off 0 0 now']) r id ep m').
  { intros r id ep m' Hl. by apply lookup_app_l_Some. }
  split; simpl; try done.
  - by rewrite He, (fmap_app fst fresh), app_assoc.
  - apply NoDup_app. split_and!; [done| |apply NoDup_singleton].
    intros r Hin ->%list_elem_of_singleton. done.
  - eapply Forall_impl; [exact Hs|]. auto.
  - eapply Forall_impl; [exact Hr|]. intros x (ep & ? & ?). eauto.
  - apply Forall_app. split; [eapply Forall_impl; [exact Hf|]; auto|].
    constructor; [|done]. simpl. unfold holds. rewrite Hm. simpl.
    rewrite lookup_app_r, Nat.sub_diag; done.
Qed.

Lemma rep_begin :
  epoch s + 1 < 2 ^ 64 →
  queue_rep (set_epoch s (u64 (epoch s + 1)) 0) [] (sent ++ resend) fresh.
Proof.
  intros Hroom. destruct Hrep as [He Hnd Hs Hr Hf Hi Hids Ha Hep Hn].
  assert (Hu : u64 (epoch s + 1) = epoch s + 1) by (unfold u64; apply Z.mod_small; lia).
  split; simpl; rewrite ?Hu; try done; [| |lia].
  - apply Forall_app. split.
    + eapply Forall_impl; [exact Hs|]. intros x Hx. exists (epoch s). split; [lia|done].
    + eapply Forall_impl; [exact Hr|]. intros x (ep & ? & ?). exists ep. split; [lia|done].
  - unfold q_ids_ok, q_attempted in *. simpl in *. by rewrite fmap_app.
Qed.
End rep.

Lemma holds_insert_ne h r e r' id ep m :
  r' ≠ r → holds h r' id ep m → holds (<[r := e]> h) r' id ep m.
Proof. intros Hne Hl. unfold holds. by rewrite list_lookup_insert_ne. Qed.

Lemma holds_insert_eq h r id0 ep0 id ep m :
  holds h r id0 ep0 m →
  holds (<[r := mkEntry (m_data m) (m_offset m) id ep (m_accepted m)]> h) r id ep m.
Proof. intros Hl. unfold holds. apply list_lookup_insert_eq. by eapply lookup_lt_Some. Qed.

Lemma Forall_ne {A} (P Q : nat * A → Prop) r l :
  r ∉ l.*1 → (∀ x, x.1 ≠ r → P x → Q x) → Forall P l → Forall Q l.
Proof.
  intros Hr HPQ. rewrite !Forall_forall. intros HP x Hx. apply HPQ; [|auto].
  intros <-. apply Hr, list_elem_of_fmap. by exists x.
Qed.

Lemma NoDup_refs (sent rest : tagged (Z * msg)) x (fresh : tagged msg) :
  NoDup ((sent ++ x :: rest).*1 ++ fresh.*1) →
  (x.1 ∉ sent.*1) ∧ (x.1 ∉ rest.*1) ∧ (x.1 ∉ fresh.*1).
Proof.
  rewrite fmap_app, fmap_cons. intros (H1 & Hd & _)%NoDup_app.
  apply NoDup_app in H1 as (_ & H1 & H2). apply NoDup_cons in H2 as [H2 _].
  split_and!; try done.
  - intros Hin. apply (H1 _ Hin). left.
  - apply Hd. apply elem_of_app. right. left.
Qed.

Lemma rep_next_replay s sent r id m resend fresh :
  queue_rep s sent ((r, (id, m)) :: resend) fresh →
  queue_rep (set_queue s (<[r := mkEntry (m_data m) (m_offset m) id (epoch s) (m_accepted m)]> (heap s))
    (entries s) (inflight s) (nextPacketID s) (activeInflight s + 1)) (sent ++ [(r, (id, m))]) resend fresh.
Proof.
  intros [He Hnd Hs Hr Hf Hi Hids Ha Hep Hn]. apply Forall_cons in Hr as [(ep & Hlt & Hr0) Hr].
  pose proof Hnd as Hnd'. rewrite He in Hnd'. destruct (NoDup_refs _ _ _ _ Hnd') as (N1 & N2 & N3).
  simpl in *. split; simpl; try done.
  - by rewrite <- app_assoc.
  - apply Forall_app. split; [|constructor; [by eapply holds_insert_eq|done]].
    eapply Forall_ne; [exact N1| |exact Hs]. intros x Hx. by apply holds_insert_ne.
  - eapply Forall_ne; [exact N2| |exact Hr].
    intros x Hx (ep' & ? & ?). exists ep'. split; [done|]. by apply holds_insert_ne.
  - eapply Forall_ne; [exact N3| |exact Hf]. intros x Hx. by apply holds_insert_ne.
  - intros id' r'. by rewrite <- app_assoc.
  - unfold q_ids_ok, q_attempted in *. simpl in *. by rewrite (fmap_app snd), <- app_assoc.
  - rewrite Ha. unfold len. rewrite length_app. simpl. lia.
Qed.

Lemma rep_next_fresh s sent r id m fresh :
  queue_rep s sent [] ((r, m) :: fresh) → 0 < id < 65536 → inflight s !! id = None →
  queue_rep (set_queue s (<[r := mkEntry (m_data m) (m_offset m) id (epoch s) (m_accepted m)]> (heap s))
    (entries s) (<[id := r]> (inflight s)) id (activeInflight s + 1)) (sent ++ [(r, (id, m))]) [] fresh.
Proof.
  intros [He Hnd Hs Hr Hf Hi Hids Ha Hep Hn] Hid Hfree. apply Forall_cons in Hf as [Hf0 Hf].
  rewrite app_nil_r in He, Hi. simpl in *.
  assert (Hnd' : NoDup ((sent ++ [(r, (id, m))]).*1 ++ fresh.*1)).
  { rewrite fmap_app, <- app_assoc. rewrite He in Hnd. exact Hnd. }
  destruct (NoDup_refs _ _ _ _ Hnd') as (N1 & N2 & N3). simpl in *.
  assert (Hnew : id ∉ sent.*2.*1).
  { intros ([id' m'] & -> & Hin)%list_elem_of_fmap. apply list_elem_of_fmap in Hin as ([r' [id'' m'']] & E & Hin).
    simpl in *. injection E as <- <-. rewrite (proj2 (Hi id' r')) in Hfree by eauto. done. }
  split; simpl; rewrite ?app_nil_r; try done; try lia.
  - by rewrite fmap_app, <- app_assoc.
  - apply Forall_app. split; [|constructor; [by eapply holds_insert_eq|done]].
    eapply Forall_ne; [exact N1| |exact Hs]. intros x Hx. by apply holds_insert_ne.
  - eapply Forall_ne; [exact N3| |exact Hf]. intros x Hx. by apply holds_insert_ne.
  - intros id' r'. destruct (decide (id' = id)) as [->|Hne].
    + rewrite lookup_insert_eq. split.
      * intros [= <-]. exists m. apply elem_of_app. right. left.
      * intros (m' & [Hin|[= <- <-]%list_elem_of_singleton]%elem_of_app); [|done].
        rewrite (proj2 (Hi id r')) in Hfree by eauto. done.
    + rewrite lookup_insert_ne by done. rewrite Hi. split; intros [m' Hin]; exists m'.
      * apply elem_of_app. by left.
      * apply elem_of_app in Hin as [?|[= -> -> ->]%list_elem_of_singleton]; done.
  - destruct Hids as [I1 I2]. unfold q_ids_ok, q_attempted in *. simpl in *.
    rewrite app_nil_r in *. rewrite fmap_app. split.
    + rewrite fmap_app. apply NoDup_app. split_and!; [done| |apply NoDup_singleton].
      intros y Hy ->%list_elem_of_singleton. done.
    + apply Forall_app. by split; [|constructor].
  - rewrite Ha. unfold len. rewrite length_app. simpl. lia.
Qed.

Lemma rep_remove s sent resend fresh a1 x a2 sent' resend' :
  queue_rep s sent resend fresh → sent ++ resend = a1 ++ x :: a2 → sent' ++ resend' = a1 ++ a2 →
  sent' ⊆ sent → resend' ⊆ resend →
  queue_rep (set_queue s (heap s) (remove_entry x.1 (entries s)) (delete x.2.1 (inflight s))
    (nextPacketID s) (len sent')) sent' resend' fresh.
Proof.
  intros [He Hnd Hs Hr Hf Hi Hids Ha Hep Hn] E E' Hsub1 Hsub2.
  rewrite E in He. rewrite He in Hnd. destruct (NoDup_refs _ _ _ _ Hnd) as (N1 & N2 & N3).
  assert (Hrm : remove_entry x.1 (entries s) = (a1 ++ a2).*1 ++ fresh.*1).
  { rewrite He, fmap_app, fmap_cons, <- app_assoc. simpl. rewrite remove_entry_mid by done.
    by rewrite fmap_app, <- app_assoc. }
  destruct Hids as [I1 I2]. unfold q_ids_ok, q_attempted in *. simpl in I1, I2.
  rewrite <- fmap_app, E in I1, I2. rewrite E in Hi.
  split; simpl; rewrite ?Hrm, ?E'; try done.
  - rewrite fmap_app, fmap_cons, <- app_assoc in Hnd. simpl in Hnd.
    rewrite fmap_app, <- app_assoc. by apply (NoDup_app_remove_mid [x.1]) in Hnd.
  - rewrite Forall_forall in Hs |- *. auto.
  - rewrite Forall_forall in Hr |- *. auto.
  - intros id r. destruct x as [r0 [id0 m0]]. simpl in *. rewrite !fmap_app, !fmap_cons in I1. simpl in I1.
    apply NoDup_app in I1 as (_ & I1 & I3). apply NoDup_cons in I3 as [I3 _].
    rewrite lookup_delete_Some, Hi. split.
    + intros [Hne (m & Hin)]. exists m. rewrite elem_of_app, elem_of_cons in *. naive_solver.
    + intros [m Hin]. split; [|exists m; rewrite elem_of_app, elem_of_cons in *; tauto].
      intros ->. assert (Hk : ∀ l : tagged (Z * msg), (r, (id, m)) ∈ l → id ∈ l.*2.*1).
      { intros l Hl. apply list_elem_of_fmap. exists (id, m). split; [done|].
        apply list_elem_of_fmap. by exists (r, (id, m)). }
      apply elem_of_app in Hin as [Hin|Hin]; [|by apply I3, Hk].
      apply (I1 id); [by apply Hk|left].
  - unfold q_ids_ok, q_attempted. simpl. rewrite <- fmap_app, E'. rewrite !fmap_app, fmap_cons in *. split.
    + by apply (NoDup_app_remove_mid [x.2.1]) in I1.
    + apply Forall_app in I2 as [? I2]. apply Forall_cons in I2 as [_ ?]. by apply Forall_app.
Qed.

(** * The methods on the abstract queue *)

(** A queue that holds only messages [Admit] accepts. *)
Definition q_ok (q : aqueue) : Prop := Forall m_ok (q_messages q).

Lemma inflight_count s q : represents_queue s q → msize (inflight s) = len (q_attempted q).
Proof.
  intros (sent & resend & fresh & Hrep & ->). unfold msize, len, q_attempted. simpl.
  destruct (rep_ids _ _ _ _ Hrep) as [I1 _]. unfold q_attempted in I1. simpl in I1.
  rewrite <- fmap_app in *. f_equal.
  transitivity (length (sent ++ resend).*2.*1); [|by rewrite !length_fmap].
  rewrite <- (size_list_to_set (C := gset Z)) by done. rewrite <- size_dom. f_equal.
  apply set_eq. intros id. rewrite elem_of_dom, elem_of_list_to_set. split.
  - intros [r Hr]. apply (rep_inflight _ _ _ _ Hrep) in Hr as [m Hin].
    apply list_elem_of_fmap. exists (id, m). split; [done|]. apply list_elem_of_fmap. by exists (r, (id, m)).
  - intros ([id' m] & -> & Hin)%list_elem_of_fmap. apply list_elem_of_fmap in Hin as ([r [id'' m']] & [= -> ->] & Hin).
    exists r. apply (rep_inflight _ _ _ _ Hrep). eauto.
Qed.

Lemma inflight_ids s q id : represents_queue s q → inflight s !! id = None ↔ id ∉ (q_attempted q).*1.
Proof.
  intros (sent & resend & fresh & Hrep & ->). unfold q_attempted. simpl. rewrite <- fmap_app.
  rewrite eq_None_not_Some. apply not_iff_compat. split.
  - intros [r Hr]. apply (rep_inflight _ _ _ _ Hrep) in Hr as [m Hin].
    apply list_elem_of_fmap. exists (id, m). split; [done|]. apply list_elem_of_fmap. by exists (r, (id, m)).
  - intros ([id' m] & -> & Hin)%list_elem_of_fmap. apply list_elem_of_fmap in Hin as ([r [id'' m']] & [= -> ->] & Hin).
    exists r. apply (rep_inflight _ _ _ _ Hrep). eauto.
Qed.

(** What lets [Next] look for a message. *)
Definition may_send (l : Limits) (s : State) (ep : Z) : Prop :=
  deleted s = false ∧ paused s = false ∧ ep = epoch s ∧ activeInflight s < MaxInflightMessagesPerSession l.

#[export] Instance may_send_dec l s ep : Decision (may_send l s ep).
Proof. unfold may_send. apply _. Defined.

(** There is a message to send on the current connection.  No connection has
    epoch 0, and a message never sent has [lastEpoch] 0. *)
Definition has_next (s : State) (q : aqueue) : Prop :=
  q_resend q ≠ [] ∨ (q_fresh q ≠ [] ∧ epoch s ≠ 0).

#[export] Instance has_next_dec s q : Decision (has_next s q).
Proof.
  unfold has_next. destruct (q_resend q), (q_fresh q), (decide (epoch s = 0));
    first [left; naive_solver | right; naive_solver].
Defined.

Lemma Next_blocked l t s ep : ¬ may_send l s ep → Next ep l t s = Some (None, t, s).
Proof.
  unfold may_send, Next. intros Hno.
  destruct (deleted s), (paused s), (Z.eqb_spec ep (epoch s)), (Z.leb_spec (MaxInflightMessagesPerSession l) (activeInflight s));
    simpl; try done. destruct Hno. split_and!; done || lia.
Qed.

Lemma Next_open l s ep :
  may_send l s ep →
  (deleted s || paused s || negb (ep =? epoch s) || (MaxInflightMessagesPerSession l <=? activeInflight s)) = false.
Proof.
  intros (-> & -> & -> & Ha). rewrite Z.eqb_refl. simpl. by apply Z.leb_gt.
Qed.

Lemma Next_empty l t s q ep :
  represents_queue s q → ¬ has_next s q → Next ep l t s = Some (None, t, s).
Proof.
  intros (sent & resend & fresh & Hrep & ->) Hno.
  destruct (decide (may_send l s ep)) as [Hm|]; [|by apply Next_blocked].
  unfold Next. rewrite Next_open by done. destruct Hm as (_ & _ & -> & _).
  unfold has_next in Hno. simpl in Hno. destruct resend as [|x resend]; [|by destruct Hno; left].
  rewrite (rep_entries _ _ _ _ Hrep), app_nil_r, (next_unsent_sent _ _ _ _ Hrep).
  rewrite <- (app_nil_r fresh.*1), next_unsent_skip; [done|].
  pose proof (rep_fresh _ _ _ _ Hrep) as Hf. destruct fresh as [|x fresh]; [constructor|].
  destruct (decide (epoch s = 0)) as [->|Hne]; [|exfalso; apply Hno; by right].
  apply Forall_fmap. eapply Forall_impl; [exact Hf|]. intros y Hy. eexists. split; [exact Hy|done].
Qed.

(** [Next] sends the next message of the queue with its identifier and DUP flag;
    it does not panic and its search for an identifier ends. *)
Lemma Next_sends l t s q :
  represents_queue s q → q_ok q → MaxInflightMessagesPerSession l <= 65535 →
  may_send l s (epoch s) → has_next s q →
  ∃ id m replay q' data h infl next,
    q_next q id m replay q' ∧ patch (m_data m) (m_offset m) id replay = Some data
    ∧ let s' := set_queue s h (entries s) infl next (activeInflight s + 1) in
      Next (epoch s) l t s
      = Some (Some (mkDelivery data id), if replay then t else count_inflight t 1, s')
      ∧ represents_queue s' q'.
Proof.
  intros Hq Hok Hmax Hmay Hnext. pose proof (inflight_count s q Hq) as Hcount.
  destruct Hq as (sent & resend & fresh & Hrep & ->). unfold Next. rewrite Next_open by done.
  replace (next_unsent (heap s) (epoch s) (entries s))
    with (next_unsent (heap s) (epoch s) (resend.*1 ++ fresh.*1))
    by by rewrite (rep_entries _ _ _ _ Hrep), fmap_app, <- app_assoc, (next_unsent_sent _ _ _ _ Hrep).
  destruct Hmay as (_ & _ & _ & Hact). rewrite (rep_active _ _ _ _ Hrep) in Hact.
  unfold q_ok, q_messages, q_attempted in Hok. simpl in Hok.
  rewrite Forall_app, Forall_fmap, Forall_app in Hok. destruct Hok as [[_ Hok1] Hok2].
  destruct resend as [|[r [id m]] resend].
  - destruct fresh as [|[r m] fresh]; [by destruct Hnext as [?|[? _]]|].
    destruct Hnext as [?|[_ Hep]]; [done|]. simpl in Hok2. apply Forall_cons in Hok2 as [Hm _].
    pose proof (rep_fresh _ _ _ _ Hrep) as [Hh _]%Forall_cons. unfold holds in Hh. simpl in Hh.
    simpl. rewrite Hh. simpl. destruct (Z.eqb_spec 0 (epoch s)); [done|]. simpl.
    destruct (allocate_packetID_free (inflight s) (nextPacketID s)) as (k & _ & Hal & Hfree & _).
    { apply Hrep. }
    { rewrite Hcount. unfold q_attempted. simpl. rewrite app_nil_r. unfold len in *.
      rewrite length_fmap. lia. }
    set (id := nth_packetID (nextPacketID s) k) in *. rewrite Hal. simpl.
    destruct (patch_ok m id false Hm) as (data & Hpatch & _). rewrite Hpatch. simpl.
    exists id, m, false, (mkQ (sent.*2 ++ [(id, m)]) [] fresh.*2), data. do 3 eexists.
    split; [|split; [done|split; [reflexivity|]]].
    + apply q_next_fresh; [apply nth_packetID_range|].
      assert (Hs : represents_queue s (mkQ sent.*2 [] (m :: fresh.*2))) by (by exists sent, [], ((r, m) :: fresh)).
      apply (inflight_ids s _ id Hs) in Hfree. unfold q_attempted in Hfree. simpl in Hfree.
      by rewrite app_nil_r in Hfree.
    + exists (sent ++ [(r, (id, m))]), [], fresh. split; [|by rewrite fmap_app].
      apply (rep_next_fresh s sent r id m fresh); [done|apply nth_packetID_range|done].
  - simpl in Hok1. apply Forall_cons in Hok1 as [Hm _].
    pose proof (rep_resend _ _ _ _ Hrep) as [(ep & Hlt & Hh) _]%Forall_cons. unfold holds in Hh. simpl in Hh.
    destruct (rep_ids _ _ _ _ Hrep) as [_ Hids]. unfold q_attempted in Hids. simpl in Hids.
    apply Forall_app in Hids as [_ Hids]. apply Forall_cons in Hids as [Hid _]. simpl in Hid.
    simpl. rewrite Hh. simpl. destruct (Z.eqb_spec ep (epoch s)); [lia|]. simpl.
    destruct (Z.eqb_spec id 0); [lia|]. simpl.
    destruct (patch_ok m id true Hm) as (data & Hpatch & _). rewrite Hpatch. simpl.
    exists id, m, true, (mkQ (sent.*2 ++ [(id, m)]) resend.*2 fresh.*2), data. do 3 eexists.
    split; [apply q_next_replay|split; [done|split; [reflexivity|]]].
    exists (sent ++ [(r, (id, m))]), resend, fresh. split; [|by rewrite fmap_app].
    by apply rep_next_replay.
Qed.

(** The queue is in these fields only. *)
Definition same_queue (s s' : State) : Prop :=
  entries s' = entries s ∧ heap s' = heap s ∧ inflight s' = inflight s ∧ epoch s' = epoch s
  ∧ activeInflight s' = activeInflight s ∧ nextPacketID s' = nextPacketID s.

Lemma represents_same s s' q : same_queue s s' → represents_queue s q → represents_queue s' q.
Proof.
  intros (E1 & E2 & E3 & E4 & E5 & E6) (sent & resend & fresh & [] & ->).
  exists sent, resend, fresh. split; [|done]. split; rewrite ?E1, ?E2, ?E3, ?E4, ?E5, ?E6; done.
Qed.

Lemma Admit_queues data off now s q :
  represents_queue s q → invalid_queued_publish data off = false →
  let s' := set_queue s (heap s ++ [mkEntry data off 0 0 now]) (entries s ++ [length (heap s)])
              (inflight s) (nextPacketID s) (activeInflight s) in
  represents_queue s' (q_admit (mkMsg data off now) q).
Proof.
  intros (sent & resend & fresh & Hrep & ->) Hok.
  exists sent, resend, (fresh ++ [(length (heap s), mkMsg data off now)]).
  split; [|unfold q_admit; simpl; by rewrite fmap_app].
  by apply (rep_admit s sent resend fresh Hrep (mkMsg data off now)).
Qed.

Lemma BeginDelivery_queues s q :
  represents_queue s q → epoch s + 1 < 2 ^ 64 →
  represents_queue (set_epoch s (u64 (epoch s + 1)) 0) (q_begin q).
Proof.
  intros (sent & resend & fresh & Hrep & ->) Hroom. exists [], (sent ++ resend), fresh.
  split; [by apply rep_begin|]. unfold q_begin, q_attempted. simpl. by rewrite fmap_app.
Qed.

Lemma Ack_unknown id l t s q :
  represents_queue s q → id ∉ (q_attempted q).*1 → Ack id l t s = Some (tt, t, s).
Proof. intros Hq Hid. apply (inflight_ids s q id Hq) in Hid. unfold Ack. by rewrite Hid. Qed.

Lemma Ack_acks id m l t s q :
  represents_queue s q → deleted s = false → (id, m) ∈ q_attempted q →
  ∃ es infl act,
    let size := len (m_data m) in
    let s' := notifyLocked (set_stats (λ sn, count_pending sn (-1) (- size))
                (set_queue s (heap s) es infl (nextPacketID s) act)) in
    Ack id l t s = Some (tt, count_inflight (count_pending t (-1) (- size)) (-1), s')
    ∧ represents_queue s' (q_ack id q).
Proof.
  intros (sent & resend & fresh & Hrep & ->) Hdel Hin. unfold Ack. rewrite Hdel.
  unfold q_attempted in Hin. simpl in Hin. rewrite <- fmap_app in Hin.
  apply list_elem_of_fmap in Hin as ([r [id' m']] & [= <- <-] & Hin).
  rewrite (proj2 (rep_inflight _ _ _ _ Hrep id r)) by eauto.
  destruct (rep_ids _ _ _ _ Hrep) as [I1 _]. unfold q_attempted in I1. simpl in I1.
  rewrite fmap_app in I1. pose proof I1 as (_ & I2 & _)%NoDup_app.
  apply elem_of_app in Hin as [Hin|Hin]; apply list_elem_of_split in Hin as (a1 & a2 & ->).
  - pose proof (rep_sent _ _ _ _ Hrep) as [_ [Hh _]%Forall_cons]%Forall_app. simpl in Hh.
    unfold holds in Hh. rewrite Hh. simpl. rewrite Z.eqb_refl. do 3 eexists. split; [reflexivity|].
    eapply represents_same; [|exists (a1 ++ a2), resend, fresh; split;
      [eapply (rep_remove s _ _ _ a1 (r, (id, m)) (a2 ++ resend) (a1 ++ a2) resend); [exact Hrep|..]|]].
    + split_and!; try done. simpl. rewrite (rep_active _ _ _ _ Hrep). unfold len. rewrite !length_app. simpl. lia.
    + by rewrite <- app_assoc.
    + by rewrite <- app_assoc.
    + set_solver.
    + set_solver.
    + unfold q_ack. simpl. f_equal.
      * rewrite fmap_app, fmap_cons. cbn [snd]. rewrite filter_ne_mid; [by rewrite fmap_app|].
        apply NoDup_app in I1 as [I1 _]. by rewrite fmap_app, fmap_cons in I1.
      * apply filter_ne_all. apply I2. rewrite !fmap_app, !fmap_cons. apply elem_of_app. right. left.
  - pose proof (rep_resend _ _ _ _ Hrep) as [_ [(ep & Hlt & Hh) _]%Forall_cons]%Forall_app. simpl in Hh.
    unfold holds in Hh. rewrite Hh. simpl. destruct (Z.eqb_spec ep (epoch s)); [lia|].
    do 3 eexists. split; [reflexivity|].
    eapply represents_same; [|exists sent, (a1 ++ a2), fresh; split;
      [eapply (rep_remove s _ _ _ (sent ++ a1) (r, (id, m)) a2 sent (a1 ++ a2)); [exact Hrep|..]|]].
    + split_and!; try done. simpl. by rewrite (rep_active _ _ _ _ Hrep).
    + by rewrite <- app_assoc.
    + by rewrite <- app_assoc.
    + set_solver.
    + set_solver.
    + unfold q_ack. simpl. f_equal.
      * apply filter_ne_all. intros Hin. apply (I2 _ Hin). rewrite !fmap_app, !fmap_cons. apply elem_of_app. right. left.
      * rewrite fmap_app, fmap_cons. cbn [snd]. rewrite filter_ne_mid; [by rewrite fmap_app|].
        apply NoDup_app in I1 as (_ & _ & I1). by rewrite fmap_app, fmap_cons in I1.
Qed.
