(* ===== verification/SessionStore.v ===== *)
(** The store of sessions keeps its accounts: the invariant of sessions and of the
    store, and its preservation by every operation of queue.go and store.go. *)

From S2P Require Import Prelude Wire Session SessionQueue.

Local Open Scope Z_scope.
Local Open Scope orb_scope.

(** * Counting messages of a queue *)

Lemma q_messages_admit m q : q_messages (q_admit m q) = q_messages q ++ [m].
Proof. unfold q_messages, q_admit, q_attempted. simpl. by rewrite app_assoc. Qed.

Lemma q_messages_begin q : q_messages (q_begin q) = q_messages q.
Proof. done. Qed.

Lemma q_messages_next q id m replay q' : q_next q id m replay q' → q_messages q' = q_messages q.
Proof.
  destruct 1; unfold q_messages, q_attempted; simpl; rewrite !fmap_app, <- !app_assoc; done.
Qed.

Lemma q_attempted_ack id q : q_attempted (q_ack id q) = filter (λ x, x.1 ≠ id) (q_attempted q).
Proof. unfold q_attempted, q_ack. simpl. by rewrite filter_app. Qed.

Lemma q_messages_ack id m q :
  q_ids_ok q → (id, m) ∈ q_attempted q → q_messages q ≡ₚ m :: q_messages (q_ack id q).
Proof.
  intros [Hnd _] Hin. unfold q_messages. rewrite q_attempted_ack.
  apply list_elem_of_split in Hin as (a1 & a2 & E). rewrite E in *. rewrite filter_ne_mid by done.
  change (q_fresh (q_ack id q)) with (q_fresh q). rewrite !fmap_app, fmap_cons. simpl.
  by rewrite <- Permutation_middle.
Qed.

Lemma list_sum_perm l l' : l ≡ₚ l' → list_sum l = list_sum l'.
Proof. induction 1; simpl; unfold list_sum in *; simpl; lia. Qed.

Lemma list_sum_nonneg l : Forall (Z.le 0) l → 0 <= list_sum l.
Proof. induction 1; unfold list_sum in *; simpl; lia. Qed.

(** Number and size of the messages of a queue as one pair of equations. *)
Definition counts (ms : list msg) (n b : Z) : Prop := len ms = n ∧ list_sum (len ∘ m_data <$> ms) = b.

Lemma counts_nonneg ms n b : counts ms n b → 0 <= n ∧ 0 <= b.
Proof.
  intros [<- <-]. split; [unfold len; lia|]. apply list_sum_nonneg, Forall_fmap, Forall_true.
  intros m. simpl. unfold len. lia.
Qed.

Lemma counts_snoc ms n b m : counts ms n b → counts (ms ++ [m]) (n + 1) (b + len (m_data m)).
Proof.
  intros [<- <-]. unfold counts. rewrite fmap_app, list_sum_app. unfold len. rewrite length_app. simpl.
  unfold len. lia.
Qed.

Lemma counts_remove ms ms' n b m :
  ms ≡ₚ m :: ms' → counts ms n b → counts ms' (n + -1) (b + - len (m_data m)).
Proof.
  intros Hp [<- <-]. unfold counts. rewrite (list_sum_perm _ _ (fmap_Permutation _ _ _ Hp)).
  rewrite fmap_cons. unfold len at 1 2. rewrite (Permutation_length Hp). split; [simpl; lia|].
  unfold list_sum. cbn [foldr]. unfold compose. lia.
Qed.

(** * The invariant of a session *)

Definition empty_queue : aqueue := mkQ [] [] [].

(** The queue of a session; a removed one has none. *)
Definition session_queue (s : State) (q : aqueue) : Prop :=
  if deleted s then q = empty_queue ∧ entries s = [] ∧ inflight s = ∅ else represents_queue s q.

Definition slashes (f : bytes) : Z := Z.of_nat (length (filter (λ c, c = 47) f)).

Record sess_ok (l : Limits) (s : State) : Prop := {
  so_queue : ∃ q, session_queue s q ∧ q_ok q
    ∧ counts (q_messages q) (PendingMessages (stats s)) (PendingBytes (stats s));
  so_removed : deleted s = true → subscriptions s = ∅;
  so_messages : PendingMessages (stats s) <= MaxPendingMessagesPerSession l;
  so_bytes : PendingBytes (stats s) <= MaxPendingBytesPerSession l;
  so_active : deleted s = false → activeInflight s <= MaxInflightMessagesPerSession l;
  so_subscriptions : msize (subscriptions s) <= MaxSubscriptionsPerSession l;
  so_filters f q : subscriptions s !! f = Some q → len f <= MaxFilterBytes l ∧ slashes f < MaxFilterLevels l }.

(** What a session counts for in the totals of the store. *)
Definition weight (s : State) : Z * Z * Z * Z :=
  (PendingMessages (stats s), PendingBytes (stats s), msize (inflight s), msize (subscriptions s)).

Definition account (t : Snapshot) : Z * Z * Z * Z :=
  (PendingMessages t, PendingBytes t, InflightMessages t, SubscriptionCount t).

Definition plus4 (a b : Z * Z * Z * Z) : Z * Z * Z * Z :=
  let '(a1, a2, a3, a4) := a in let '(b1, b2, b3, b4) := b in (a1 + b1, a2 + b2, a3 + b3, a4 + b4).

Definition totals_bounded (l : Limits) (t : Snapshot) : Prop :=
  PendingMessages t <= MaxPendingMessagesGlobal l ∧ PendingBytes t <= MaxPendingBytesGlobal l
  ∧ SubscriptionCount t <= MaxSubscriptionsGlobal l.

(** ** What a method owes the store *)

(** [f], called on a session where [pre] holds, returns, keeps the session well
    formed and itself (its name, its owner and whether it is removed), and changes
    the totals of the store by exactly what it changes of the session, within the
    limits; the epoch moves by one at most. *)
Class MethodOk {A} (pre : State → Prop) (f : method A) : Prop :=
  method_ok l t s :
    Limits_Validate l = None → sess_ok l s → totals_bounded l t → pre s →
    ∃ a t' s', f l t s = Some (a, t', s')
      ∧ sess_ok l s' ∧ totals_bounded l t'
      ∧ st_id s' = st_id s ∧ st_owner s' = st_owner s ∧ deleted s' = deleted s
      ∧ plus4 (account t') (weight s) = plus4 (account t) (weight s')
      ∧ (epoch s' = epoch s ∨ epoch s' = u64 (epoch s + 1)).

Abbreviation always := (λ _ : State, True).

(** ** Sessions that differ in nothing the invariant reads *)

Lemma sess_ok_same l s s' :
  same_queue s s' → deleted s' = deleted s → subscriptions s' = subscriptions s →
  PendingMessages (stats s') = PendingMessages (stats s) → PendingBytes (stats s') = PendingBytes (stats s) →
  sess_ok l s → sess_ok l s'.
Proof.
  intros Hsame Hd Hsub Hm Hb [(q & Hq & Hok & Hc) Hr Hsm Hsb Ha Hs Hf].
  pose proof Hsame as (E1 & E2 & E3 & E4 & E5 & E6).
  split; rewrite ?Hd, ?Hsub, ?Hm, ?Hb, ?E5; try done.
  exists q. split; [|done]. unfold session_queue in *. rewrite Hd. destruct (deleted s).
  - by rewrite E1, E3.
  - by eapply represents_same.
Qed.

(** Close the parts of [MethodOk] that are equations between fields. *)
Ltac method_fields :=
  repeat match goal with |- _ ∧ _ => split end;
  try (unfold totals_bounded, account, weight, plus4 in *; simpl; first [done | lia | by left | by right | repeat match goal with |- (_, _) = (_, _) => apply f_equal2 end; lia]).

Ltac method_same :=
  intros l t s Hl Hs Ht _; do 3 eexists; split; [reflexivity|];
  split; [eapply sess_ok_same; [..|exact Hs]; done|]; method_fields.

#[export] Instance PauseDelivery_ok : MethodOk always PauseDelivery.
Proof. method_same. Qed.

#[export] Instance ResumeDelivery_ok : MethodOk always ResumeDelivery.
Proof. method_same. Qed.

#[export] Instance receive_changed_ok : MethodOk always receive_changed.
Proof. method_same. Qed.

#[export] Instance MarkConnected_ok : MethodOk always MarkConnected.
Proof.
  intros l t s Hl Hs Ht _. unfold MarkConnected. destruct (negb (deleted s)); do 3 eexists; (split; [reflexivity|]);
  (split; [eapply sess_ok_same; [..|exact Hs]; done|]); method_fields.
Qed.

#[export] Instance MarkDisconnectedAt_ok at_ : MethodOk always (MarkDisconnectedAt at_).
Proof.
  intros l t s Hl Hs Ht _. unfold MarkDisconnectedAt.
  destruct (negb (deleted s) && connected s); do 3 eexists; (split; [reflexivity|]);
  (split; [eapply sess_ok_same; [..|exact Hs]; done|]); method_fields.
Qed.

#[export] Instance SnapshotSubscriptions_ok : MethodOk always SnapshotSubscriptions.
Proof. method_same. Qed.

Lemma snapshotLocked_total l s now : sess_ok l s → ∃ sn, snapshotLocked now s = Some sn.
Proof.
  intros [(q & Hq & _) _ _ _ _ _ _]. unfold snapshotLocked. unfold session_queue in Hq.
  destruct (entries s) as [|r es] eqn:He; simpl; [eauto|].
  destruct (deleted s); [by destruct Hq as (_ & ? & _)|].
  assert (Hin : is_Some (heap s !! r)).
  { destruct Hq as (sent & resend & fresh & Hrep & _). pose proof (rep_entries _ _ _ _ Hrep) as E.
    rewrite He in E. destruct sent as [|x sent]; simpl in E.
    - destruct resend as [|x resend]; simpl in E.
      + destruct fresh as [|x fresh]; [done|]. injection E as -> _.
        pose proof (rep_fresh _ _ _ _ Hrep) as [Hh _]%Forall_cons. rewrite Hh. done.
      + injection E as -> _. pose proof (rep_resend _ _ _ _ Hrep) as [(ep & _ & Hh) _]%Forall_cons. rewrite Hh. done.
    - injection E as -> _. pose proof (rep_sent _ _ _ _ Hrep) as [Hh _]%Forall_cons. rewrite Hh. done. }
  destruct Hin as [e ->]. simpl. eauto.
Qed.

#[export] Instance State_Snapshot_ok now : MethodOk always (State_Snapshot now).
Proof.
  intros l t s Hl Hs Ht _. destruct (snapshotLocked_total l s now Hs) as [sn Hsn].
  unfold State_Snapshot. rewrite Hsn. do 3 eexists. split; [reflexivity|]. split; [done|]. method_fields.
Qed.

(** Fewer than 2^64 connections of the session began so far. *)
Definition epoch_room (s : State) : Prop := epoch s + 1 < 2 ^ 64.

Lemma valid_limits l :
  Limits_Validate l = None →
  0 < MaxSessions l ∧ 0 < MaxFilterLevels l ∧ 0 <= OfflineTTL l
  ∧ 0 < MaxSubscriptionsPerSession l <= MaxSubscriptionsGlobal l ∧ 0 < MaxFilterBytes l <= 65535
  ∧ 0 < MaxPendingMessagesPerSession l <= MaxPendingMessagesGlobal l
  ∧ 0 < MaxPendingBytesPerSession l <= MaxPendingBytesGlobal l
  ∧ 0 < MaxInflightMessagesPerSession l <= 65535
  ∧ MaxInflightMessagesPerSession l <= MaxPendingMessagesPerSession l ∧ 0 < CleanupInterval l.
Proof.
  unfold Limits_Validate. intros H.
  repeat match type of H with (if ?b then _ else _) = _ => destruct b eqn:?; [discriminate H|] end.
  bool_to_prop. lia.
Qed.

#[export] Instance BeginDelivery_ok : MethodOk epoch_room BeginDelivery.
Proof.
  intros l t s Hl Hs Ht Hroom. do 3 eexists. split; [reflexivity|]. split; [|method_fields].
  apply valid_limits in Hl. destruct Hs as [(q & Hq & Hok & Hc) Hr Hsm Hsb Ha Hsub Hf].
  split; simpl; try done; [|lia].
  unfold session_queue in *. simpl. destruct (deleted s).
  - exists q. done.
  - exists (q_begin q). split; [|done]. eapply represents_same; [|by apply BeginDelivery_queues].
    by split_and!.
Qed.

#[export] Instance Admit_ok data off now : MethodOk always (Admit data off now).
Proof.
  intros l t s Hl Hs Ht _. unfold Admit.
  destruct (invalid_queued_publish data off) eqn:Hv; [do 3 eexists; split; [reflexivity|]; split; [done|method_fields]|].
  destruct (deleted s) eqn:Hd; [do 3 eexists; split; [reflexivity|]; split; [done|method_fields]|].
  destruct ((MaxPendingMessagesPerSession l <=? _) || (_ <? _)) eqn:H1;
    [|destruct ((MaxPendingMessagesGlobal l <=? _) || (_ <? _)) eqn:H2].
  1,2: do 3 eexists; (split; [reflexivity|]); (split; [eapply sess_ok_same; [..|exact Hs]; done|]); method_fields.
  bool_to_prop. do 3 eexists. split; [reflexivity|]. split; [|method_fields].
  destruct Hs as [(q & Hq & Hok & Hc) Hr Hsm Hsb Ha Hsub Hf]. split; simpl; try done; try lia.
  unfold session_queue in *. simpl. rewrite Hd in *. exists (q_admit (mkMsg data off now) q). split_and!.
  - pose proof (Admit_queues data off now s q Hq Hv) as Hq'. cbv zeta in Hq'.
    eapply represents_same; [|exact Hq']. by split_and!.
  - unfold q_ok. rewrite q_messages_admit. apply Forall_app. split; [done|]. by constructor.
  - rewrite q_messages_admit. apply (counts_snoc _ _ _ (mkMsg data off now) Hc).
Qed.

#[export] Instance Ack_ok id : MethodOk always (Ack id).
Proof.
  intros l t s Hl Hs Ht _. pose proof Hs as [(q & Hq & Hok & Hc) Hr Hsm Hsb Ha Hsub Hf].
  unfold session_queue in Hq. destruct (deleted s) eqn:Hd.
  { destruct Hq as (_ & _ & Hi). unfold Ack. rewrite Hi, lookup_empty.
    do 3 eexists. split; [reflexivity|]. split; [done|method_fields]. }
  destruct (decide (id ∈ (q_attempted q).*1)) as [Hin|Hin].
  2: { rewrite (Ack_unknown id l t s q) by done. do 3 eexists. split; [reflexivity|]. split; [done|method_fields]. }
  apply list_elem_of_fmap in Hin as ([id' m] & -> & Hin). simpl.
  assert (Hids : q_ids_ok q) by (destruct Hq as (? & ? & ? & Hrep & ->); apply Hrep).
  pose proof (q_messages_ack id' m q Hids Hin) as Hperm.
  destruct (Ack_acks id' m l t s q Hq Hd Hin) as (es & infl & act & Hack & Hq'). rewrite Hack.
  pose proof (inflight_count _ _ Hq) as Hi. pose proof (inflight_count _ _ Hq') as Hi'. simpl in Hi'.
  assert (Hlen : len (q_attempted q) = 1 + len (q_attempted (q_ack id' q))).
  { rewrite q_attempted_ack. apply list_elem_of_split in Hin as (a1 & a2 & E).
    rewrite E, filter_ne_mid by (rewrite <- E; apply Hids). unfold len. rewrite !length_app. simpl. lia. }
  pose proof (counts_remove _ _ _ _ _ Hperm Hc) as Hc'. pose proof (counts_nonneg _ _ _ Hc') as Hnn.
  assert (Hact : act <= activeInflight s).
  { destruct Hq as (sent & resend & fresh & Hrep & ->), Hq' as (sent' & resend' & fresh' & Hrep' & E).
    pose proof (rep_active _ _ _ _ Hrep) as ->. pose proof (rep_active _ _ _ _ Hrep') as Hact. simpl in Hact. rewrite Hact.
    apply (f_equal q_sent) in E. simpl in E. apply (f_equal length) in E. rewrite length_fmap in E.
    unfold len. rewrite <- E. pose proof (length_filter (λ x : Z * msg, x.1 ≠ id') sent.*2) as Hfl.
    rewrite length_fmap in Hfl. lia. }
  do 3 eexists. split; [reflexivity|]. assert (0 <= len (m_data m)) by (unfold len; lia). split; [|method_fields].
  split; simpl; try done; try lia; [|by rewrite Hd].
  unfold session_queue. simpl. rewrite Hd. exists (q_ack id' q). split; [done|]. split; [|done].
  unfold q_ok in *. rewrite Hperm in Hok. by apply Forall_cons in Hok as [_ ?].
Qed.

#[export] Instance Next_ok ep : MethodOk always (Next ep).
Proof.
  intros l t s Hl Hs Ht _. pose proof Hs as [(q & Hq & Hok & Hc) Hr Hsm Hsb Ha Hsub Hf].
  apply valid_limits in Hl as Hv.
  destruct (decide (may_send l s ep)) as [Hm|Hm].
  2: { rewrite Next_blocked by done. do 3 eexists. split; [reflexivity|]. split; [done|method_fields]. }
  pose proof Hm as (Hd & _ & -> & Hact). unfold session_queue in Hq. rewrite Hd in Hq.
  destruct (decide (has_next s q)) as [Hn|Hn].
  2: { rewrite (Next_empty l t s q) by done. do 3 eexists. split; [reflexivity|]. split; [done|method_fields]. }
  destruct (Next_sends l t s q Hq Hok ltac:(lia) Hm Hn)
    as (id & m & replay & q' & data & h & infl & next & Hstep & _ & HN & Hq').
  rewrite HN. pose proof (inflight_count _ _ Hq) as Hi. pose proof (inflight_count _ _ Hq') as Hi'.
  simpl in Hi'. pose proof (q_messages_next _ _ _ _ _ Hstep) as Hmsg.
  assert (Hlen : len (q_attempted q') = len (q_attempted q) + if replay then 0 else 1).
  { destruct Hstep; unfold q_attempted, len; simpl; rewrite !length_app; simpl; lia. }
  do 3 eexists. split; [reflexivity|]. split.
  - split; simpl; try done; [|lia]. exists q'. unfold session_queue, q_ok in *. simpl.
    by rewrite Hd, Hmsg.
  - destruct replay; method_fields.
Qed.

#[export] Instance SetSubscription_ok f qos : MethodOk always (SetSubscription f qos).
Proof.
  intros l t s Hl Hs Ht _. unfold SetSubscription.
  assert (Hins : deleted s = false → len f <= MaxFilterBytes l → slashes f < MaxFilterLevels l →
    msize (<[f := qos]> (subscriptions s)) <= MaxSubscriptionsPerSession l →
    sess_ok l (set_subscriptions s (<[f := qos]> (subscriptions s)))).
  { intros Hd H1 H2 H3. destruct Hs as [Hq Hr Hsm Hsb Ha Hsub Hf]. split; simpl; try done.
    - destruct Hq as (q & Hq & ?). exists q. split; [|done]. unfold session_queue in *. simpl.
      rewrite Hd in *. eapply represents_same; [|exact Hq]. by split_and!.
    - intros E. congruence.
    - intros f' q' [[<- _]|[_ Hl']]%lookup_insert_Some; eauto. }
  destruct (deleted s) eqn:Hd; [do 3 eexists; split; [reflexivity|]; split; [done|method_fields]|].
  destruct (_ || _) eqn:H1; [do 3 eexists; split; [reflexivity|]; split; [done|method_fields]|].
  bool_to_prop. pose proof (so_subscriptions _ _ Hs) as Hsub.
  destruct (subscriptions s !! f) as [q0|] eqn:Hl0.
  - assert (Hsize : msize (<[f := qos]> (subscriptions s)) = msize (subscriptions s)).
    { unfold msize. by rewrite map_size_insert_Some by eauto. }
    do 3 eexists. split; [reflexivity|]. split; [apply Hins; try done; lia|].
    method_fields.
  - assert (Hsize : msize (<[f := qos]> (subscriptions s)) = msize (subscriptions s) + 1).
    { unfold msize. rewrite map_size_insert_None by done. lia. }
    destruct (_ || _) eqn:H2; [do 3 eexists; split; [reflexivity|]; split; [done|method_fields]|].
    bool_to_prop. do 3 eexists. split; [reflexivity|]. split; [apply Hins; try done; lia|]. method_fields.
Qed.

#[export] Instance DeleteSubscription_ok f : MethodOk always (DeleteSubscription f).
Proof.
  intros l t s Hl Hs Ht _. unfold DeleteSubscription.
  destruct (subscriptions s !! f) as [q0|] eqn:Hl0;
    [|do 3 eexists; split; [reflexivity|]; split; [done|method_fields]].
  assert (Hsize : msize (delete f (subscriptions s)) = msize (subscriptions s) - 1).
  { unfold msize. rewrite map_size_delete_Some by eauto.
    pose proof (proj2 (map_size_ne_0_lookup _) (ex_intro _ f (ex_intro _ _ Hl0))). lia. }
  do 3 eexists. split; [reflexivity|]. split; [|method_fields].
  destruct Hs as [Hq Hr Hsm Hsb Ha Hsub Hf]. split; simpl; try done; try lia.
  - destruct Hq as (q & Hq & ?). exists q. split; [|done]. unfold session_queue in *. simpl.
    destruct (deleted s); [done|]. eapply represents_same; [|exact Hq]. by split_and!.
  - intros Hd. rewrite (Hr Hd) in Hl0. by rewrite lookup_empty in Hl0.
  - intros f' q' [_ Hl']%lookup_delete_Some. eauto.
Qed.

(** * The invariant of the store *)

Record store_ok (st : Store) : Prop := {
  sto_limits : Limits_Validate (limits st) = None;
  sto_data id p : st_data st !! id = Some p ↔
    ∃ s, states st !! p = Some s ∧ st_id s = id ∧ deleted s = false;
  sto_sessions p s : states st !! p = Some s → sess_ok (limits st) s;
  sto_count : msize (st_data st) <= MaxSessions (limits st);
  sto_bounded : totals_bounded (limits st) (totals st);
  sto_messages : PendingMessages (totals st) = msum (PendingMessages ∘ stats) (states st);
  sto_bytes : PendingBytes (totals st) = msum (PendingBytes ∘ stats) (states st);
  sto_inflight : InflightMessages (totals st) = msum (msize ∘ inflight) (states st);
  sto_subscriptions : SubscriptionCount (totals st) = msum (msize ∘ subscriptions) (states st) }.

Lemma totals_split st s t' s' p :
  store_ok st → states st !! p = Some s →
  plus4 (account t') (weight s) = plus4 (account (totals st)) (weight s') →
  PendingMessages t' = msum (PendingMessages ∘ stats) (<[p := s']> (states st))
  ∧ PendingBytes t' = msum (PendingBytes ∘ stats) (<[p := s']> (states st))
  ∧ InflightMessages t' = msum (msize ∘ inflight) (<[p := s']> (states st))
  ∧ SubscriptionCount t' = msum (msize ∘ subscriptions) (<[p := s']> (states st)).
Proof.
  intros Hst Hp [= E1 E2 E3 E4].
  rewrite !(msum_insert_Some _ _ _ _ _ Hp).
  rewrite <- (sto_messages _ Hst), <- (sto_bytes _ Hst), <- (sto_inflight _ Hst), <- (sto_subscriptions _ Hst).
  simpl. lia.
Qed.

(** Every method that meets its obligation keeps the store well formed. *)
Lemma call_ok {A} pre (f : method A) `{MethodOk A pre f} p s st :
  store_ok st → states st !! p = Some s → pre s →
  ∃ a s' t', f (limits st) (totals st) s = Some (a, t', s')
    ∧ call f p st = Some (a, mkStore (st_data st) (<[p := s']> (states st)) (limits st) t')
    ∧ store_ok (mkStore (st_data st) (<[p := s']> (states st)) (limits st) t')
    ∧ st_id s' = st_id s ∧ st_owner s' = st_owner s ∧ deleted s' = deleted s
    ∧ (epoch s' = epoch s ∨ epoch s' = u64 (epoch s + 1)).
Proof.
  intros Hst Hp Hpre.
  destruct (method_ok (limits st) (totals st) s (sto_limits _ Hst) (sto_sessions _ Hst p s Hp)
    (sto_bounded _ Hst) Hpre) as (a & t' & s' & Hf & Hs' & Hb & Hid & Hown & Hdel & Hbal & Hep).
  exists a, s', t'. split; [done|]. split; [unfold call; rewrite Hp; simpl; by rewrite Hf|].
  destruct (totals_split st s t' s' p Hst Hp Hbal) as (? & ? & ? & ?). split; [|done].
  split; simpl; try done; try apply Hst.
  - intros id p'. rewrite (sto_data _ Hst). destruct (decide (p' = p)) as [->|Hne].
    + rewrite lookup_insert_eq, Hp. split; intros (s0 & [= <-] & ? & ?); eexists; (split; [done|]); split; congruence.
    + by rewrite lookup_insert_ne by done.
  - intros p' s0 [[-> <-]|[_ Hl]]%lookup_insert_Some; [done|]. by apply (sto_sessions _ Hst p').
Qed.

Lemma NewWithLimits_ok l st : NewWithLimits l = Ok st → store_ok st.
Proof.
  unfold NewWithLimits. destruct (Limits_Validate l) eqn:Hl; [done|]. intros [= <-].
  apply valid_limits in Hl as Hv. split; simpl; try done.
  - intros id p. rewrite !lookup_empty. split; [done|]. by intros (s & ? & _).
  - unfold msize. rewrite map_size_empty. lia.
  - unfold totals_bounded. simpl. lia.
Qed.

Lemma new_state_queue id owner now : represents_queue (new_state id owner now) empty_queue.
Proof.
  exists [], [], []. split; [|done].
  split; simpl; try done; try lia; [constructor| |split; constructor].
  intros id' r. split; [done|]. by intros [m ?%elem_of_nil].
Qed.

Lemma new_state_ok l id owner now : Limits_Validate l = None → sess_ok l (new_state id owner now).
Proof.
  intros Hv%valid_limits. split; simpl; try done; try lia; [|unfold msize; rewrite map_size_empty; lia].
  exists empty_queue. split_and!; [apply new_state_queue|constructor|done].
Qed.

(** The owner of the session [id] of the store, if there is such a session. *)
Definition owner_of (st : Store) (id : bytes) : option bytes :=
  p ← st_data st !! id; st_owner <$> states st !! p.

Lemma data_state st id p :
  store_ok st → st_data st !! id = Some p →
  ∃ s, states st !! p = Some s ∧ st_id s = id ∧ deleted s = false.
Proof. intros Hst. apply (sto_data _ Hst). Qed.

Lemma GetOrCreateOwned_ok id owner now st :
  store_ok st → ∃ r st', GetOrCreateOwned id owner now st = Some (r, st') ∧ store_ok st'.
Proof.
  intros Hst. unfold GetOrCreateOwned. destruct (st_data st !! id) as [p|] eqn:Hp.
  { destruct (data_state st id p Hst Hp) as (s & -> & _ & _). simpl. destruct (bool_decide _); eauto. }
  destruct (Z.leb_spec (MaxSessions (limits st)) (msize (st_data st))).
  { do 2 eexists. split; [done|]. destruct Hst. by split. }
  do 2 eexists. split; [done|].
  assert (Hnew : states st !! new_ptr st = None) by (unfold new_ptr; apply not_elem_of_dom, is_fresh).
  destruct Hst as [Hl Hd Hs Hc Hb Hm Hby Hi Hsu]. split; simpl; try done.
  - intros id' p'. split.
    + intros [[<- <-]|[Hne Hl']]%lookup_insert_Some.
      * eexists. rewrite lookup_insert_eq. by split_and!.
      * apply Hd in Hl' as (s & Hs' & ? & ?). exists s. rewrite lookup_insert_ne by congruence. done.
    + intros (s & [[<- <-]|[Hne Hl']]%lookup_insert_Some & <- & Hdel); [apply lookup_insert_eq|].
      destruct (decide (st_id s = id)) as [<-|Hne'].
      * assert (st_data st !! st_id s = Some p') by (apply Hd; eauto). congruence.
      * rewrite lookup_insert_ne by done. apply Hd. eauto.
  - intros p' s [[<- <-]|[_ Hl']]%lookup_insert_Some; [by apply new_state_ok|eauto].
  - unfold msize in *. rewrite map_size_insert_None by done. lia.
  - rewrite msum_insert_None by done. simpl. lia.
  - rewrite msum_insert_None by done. simpl. lia.
  - rewrite msum_insert_None by done. simpl. unfold msize at 1. rewrite map_size_empty. lia.
  - rewrite msum_insert_None by done. simpl. unfold msize at 1. rewrite map_size_empty. lia.
Qed.

(** ** Removal *)

Lemma removed_ok l s : Limits_Validate l = None → sess_ok l (removed s).
Proof.
  intros Hv%valid_limits. split; simpl; try done; try lia; [|unfold msize; rewrite map_size_empty; lia].
  exists empty_queue. unfold session_queue. simpl. split_and!; try done. constructor.
Qed.

Lemma sess_nonneg l s : sess_ok l s → 0 <= PendingMessages (stats s) ∧ 0 <= PendingBytes (stats s).
Proof. intros [(q & _ & _ & Hc) _ _ _ _ _ _]. by eapply counts_nonneg. Qed.

Lemma deleteLocked_absent id st : st_data st !! id = None → deleteLocked id st = Some st.
Proof. intros Hid. unfold deleteLocked. by rewrite Hid. Qed.

(** Removing a session takes its name, and its share of the totals, and marks it. *)
Lemma deleteLocked_ok id p s st :
  store_ok st → st_data st !! id = Some p → states st !! p = Some s →
  ∃ t, let st' := mkStore (delete id (st_data st)) (<[p := removed s]> (states st)) (limits st) t in
    deleteLocked id st = Some st' ∧ store_ok st'.
Proof.
  intros Hst Hid Hp. unfold deleteLocked. rewrite Hid, Hp. simpl. eexists. split; [reflexivity|].
  set (t := count_subscriptions _ _).
  destruct (totals_split st s t (removed s) p Hst Hp) as (? & ? & ? & ?).
  { unfold plus4, account, weight, t. simpl. unfold msize. rewrite !map_size_empty.
    repeat match goal with |- (_, _) = (_, _) => apply f_equal2 end; lia. }
  pose proof (sess_nonneg _ _ (sto_sessions _ Hst p s Hp)).
  destruct (proj1 (sto_data _ Hst id p) Hid) as (s0 & Hs0 & Hid0 & Hdel).
  assert (s0 = s) as -> by congruence.
  destruct Hst as [Hl Hd Hs Hc Hb Hm Hby Hi Hsu]. split; simpl; try done.
  - intros id' p'. rewrite lookup_delete_Some, Hd. split.
    + intros [Hne (s1 & Hs1 & <- & Hd1)]. exists s1. rewrite lookup_insert_ne; [done|].
      intros <-. congruence.
    + intros (s1 & [[<- <-]|[Hne Hl1]]%lookup_insert_Some & <- & Hd1); [done|].
      split; [|eauto]. intros E.
      assert (st_data st !! st_id s1 = Some p') by (apply Hd; eauto). congruence.
  - intros p' s1 [[<- <-]|[_ Hl1]]%lookup_insert_Some; [by apply removed_ok|eauto].
  - unfold msize in *. rewrite map_size_delete_Some by eauto. lia.
  - unfold totals_bounded, t in *. simpl. unfold msize. lia.
Qed.

(** When [expireLocked] removes a session. *)
Definition expired (st : Store) (now : Z) (s : State) : Prop :=
  OfflineTTL (limits st) ≠ 0 ∧ connected s = false ∧ offlineSince s ≠ 0
  ∧ OfflineTTL (limits st) <= time_sub now (offlineSince s).

#[export] Instance expired_dec st now s : Decision (expired st now s).
Proof. unfold expired. apply _. Defined.

Lemma expireLocked_spec id p s now st :
  store_ok st → st_data st !! id = Some p → states st !! p = Some s →
  if decide (expired st now s) then
    ∃ t, let st' := mkStore (delete id (st_data st)) (<[p := removed s]> (states st)) (limits st) t in
      expireLocked (Some p) now st = Some (true, st') ∧ store_ok st'
  else expireLocked (Some p) now st = Some (false, st).
Proof.
  intros Hst Hid Hp. unfold expireLocked. rewrite Hp. simpl.
  destruct (proj1 (sto_data _ Hst id p) Hid) as (s0 & Hs0 & Hid0 & Hdel).
  assert (s0 = s) as -> by congruence.
  destruct (decide (expired st now s)) as [(H1 & H2 & H3 & H4)|Hno].
  - rewrite H2. destruct (Z.eqb_spec (OfflineTTL (limits st)) 0); [done|].
    destruct (Z.eqb_spec (offlineSince s) 0); [done|].
    destruct (Z.ltb_spec (time_sub now (offlineSince s)) (OfflineTTL (limits st))); [lia|]. simpl.
    rewrite Hid0. destruct (deleteLocked_ok id p s st Hst Hid Hp) as (t & -> & Hok). simpl.
    eexists. split; [reflexivity|]. destruct Hok. by split.
  - destruct (Z.eqb_spec (OfflineTTL (limits st)) 0); [done|].
    destruct (connected s) eqn:?, (Z.eqb_spec (offlineSince s) 0),
      (Z.ltb_spec (time_sub now (offlineSince s)) (OfflineTTL (limits st))); simpl; try done.
    destruct Hno. unfold expired. split_and!; done || lia.
Qed.

Lemma data_inj st id id' p :
  store_ok st → st_data st !! id = Some p → st_data st !! id' = Some p → id = id'.
Proof.
  intros Hst (s & Hs & <- & _)%(sto_data _ Hst) (s' & Hs' & <- & _)%(sto_data _ Hst). congruence.
Qed.

(** What [Expire] leaves of the store when it removes the sessions [gone]. *)
Record expiry (st : Store) (now : Z) (todo : list (bytes * stateptr)) (gone : list bytes) (st' : Store)
    : Prop := {
  ex_ok : store_ok st';
  ex_limits : limits st' = limits st;
  ex_gone id : id ∈ gone ↔ ∃ p s, (id, p) ∈ todo ∧ states st !! p = Some s ∧ expired st now s;
  ex_nodup : NoDup gone;
  ex_data id : st_data st' !! id = if decide (id ∈ gone) then None else st_data st !! id;
  ex_states p : states st' !! p
    = (λ s, if decide (st_id s ∈ gone ∧ deleted s = false) then removed s else s) <$> states st !! p }.

(** The first session is removed, then those that [gone] has. *)
Lemma expiry_cons st now id p s todo t gone st' :
  store_ok st → st_data st !! id = Some p → states st !! p = Some s → st_id s = id → deleted s = false → expired st now s →
  (∀ id' p', (id', p') ∈ todo → id' ≠ id ∧ p ≠ p') →
  expiry (mkStore (delete id (st_data st)) (<[p := removed s]> (states st)) (limits st) t) now todo gone st' →
  expiry st now ((id, p) :: todo) (id :: gone) st'.
Proof.
  intros Hst Hid Hp Hsid Hdel Hyes Hne [Ok Li Go Nd Da Sta].
  assert (Hnot : id ∉ gone) by (intros (p' & ? & ? & _)%Go; by destruct (Hne id p')).
  split; try done.
  - intros id'. rewrite elem_of_cons, Go. split.
    + intros [->|(p' & s' & Hi' & Hs' & He)]; [exists p, s; split; [left|done]|].
      exists p', s'. split; [by right|]. split; [|done]. simpl in Hs'.
      rewrite lookup_insert_ne in Hs' by (by apply (Hne id')). done.
    + intros (p' & s' & [[= -> ->]|Hi']%elem_of_cons & Hs' & He); [by left|right].
      exists p', s'. split; [done|]. split; [|done]. simpl. rewrite lookup_insert_ne by (by apply (Hne id')). done.
  - by constructor.
  - intros id'. rewrite Da. simpl. destruct (decide (id' = id)) as [->|Hn].
    + rewrite decide_False by done. rewrite lookup_delete_eq, decide_True; [done|left].
    + rewrite lookup_delete_ne by done. destruct (decide (id' ∈ gone)).
      * by rewrite decide_True by (by right).
      * rewrite decide_False; [done|]. by intros [?|?]%elem_of_cons.
  - intros p'. rewrite Sta. simpl. destruct (decide (p' = p)) as [->|Hn].
    + rewrite lookup_insert_eq, Hp. simpl. rewrite decide_False by (by intros [_ ?]).
      rewrite decide_True; [done|]. rewrite Hsid. split; [left|done].
    + rewrite lookup_insert_ne by done. destruct (states st !! p') as [s'|] eqn:Hs'; [|done]. simpl. f_equal.
      destruct (decide (st_id s' ∈ gone ∧ deleted s' = false)) as [[? ?]|Hn'].
      * rewrite decide_True; [done|]. split; [by right|done].
      * rewrite decide_False; [done|]. intros [[E|?]%elem_of_cons Hd']; [|tauto]. apply Hn.
        assert (Hl : st_data st !! id = Some p') by (apply (sto_data _ Hst); eauto). congruence.
Qed.

Lemma Expire_loop_spec todo now acc st :
  store_ok st → NoDup todo.*1 → (∀ id p, (id, p) ∈ todo → st_data st !! id = Some p) →
  ∃ gone st', Expire_loop todo now acc st = Some (acc ++ gone, st') ∧ expiry st now todo gone st'.
Proof.
  revert acc st. induction todo as [|[id p] todo IH]; intros acc st Hst Hnd Hin.
  { exists [], st. simpl. rewrite app_nil_r. split; [done|]. split; try done.
    - intros id. split; [by intros ?%elem_of_nil|]. by intros (p & s & ?%elem_of_nil & _).
    - intros p. by destruct (states st !! p). }
  simpl in Hnd. apply NoDup_cons in Hnd as [Hni Hnd].
  assert (Hid : st_data st !! id = Some p) by (apply Hin; left).
  destruct (proj1 (sto_data _ Hst id p) Hid) as (s & Hp & Hsid & Hdel).
  assert (Hne : ∀ id' p', (id', p') ∈ todo → id' ≠ id ∧ p ≠ p').
  { intros id' p' Hin'. assert (id' ≠ id) as Hd by (intros ->; apply Hni, list_elem_of_fmap; by exists (id, p')).
    split; [exact Hd|]. intros <-. apply Hd. eapply data_inj; [exact Hst|apply Hin; by right|exact Hid]. }
  pose proof (expireLocked_spec id p s now st Hst Hid Hp) as Hexp. cbn [Expire_loop].
  destruct (decide (expired st now s)) as [Hyes|Hno].
  - destruct Hexp as (t & -> & Hst1). cbn [mbind option_bind].
    destruct (IH (acc ++ [id]) _ Hst1 Hnd) as (gone & st' & -> & Hgone).
    { intros id' p' Hin'. simpl. rewrite lookup_delete_ne by (symmetry; by eapply Hne). apply Hin. by right. }
    exists (id :: gone), st'. rewrite <- app_assoc. split; [done|]. by eapply expiry_cons.
  - rewrite Hexp. cbn [mbind option_bind]. destruct (IH acc st Hst Hnd) as (gone & st' & -> & [Ok Li Go Nd Da Sta]).
    { intros id' p' Hin'. apply Hin. by right. }
    exists gone, st'. split; [done|]. split; try done. intros id'. rewrite Go. split.
    + intros (p' & s' & ? & ?). exists p', s'. split; [by right|done].
    + intros (p' & s' & [[= -> ->]|Hi']%elem_of_cons & Hs' & He); [congruence|]. exists p', s'. done.
Qed.

Lemma Expire_expiry now st :
  store_ok st → ∃ gone st', Expire now st = Some (gone, st') ∧ expiry st now (map_to_list (st_data st)) gone st'.
Proof.
  intros Hst. unfold Expire. destruct (Z.eqb_spec (OfflineTTL (limits st)) 0) as [Hz|Hz].
  - exists [], st. split; [done|]. split; try done.
    + intros id. split; [by intros ?%elem_of_nil|]. by intros (p & s & _ & _ & ? & _).
    + constructor.
    + intros p. by destruct (states st !! p).
  - apply (Expire_loop_spec _ now []); [done|apply NoDup_fst_map_to_list|].
    intros id p. by rewrite elem_of_map_to_list.
Qed.
