(* ===== verification/SessionProofs.v ===== *)
(** Theorems on sessions: the store as a transition system and its invariant, the
    queue of a session as a refinement of the abstract queue, delivery after a
    reconnect, wake-ups, ownership, admission and expiry. *)

From stdpp Require Import sorting.
From S2P Require Import Prelude Wire Session SessionQueue SessionStore.

Local Open Scope Z_scope.
Local Open Scope orb_scope.

(** * The store as a transition system *)

(** The operations the rest of the program calls, each one critical section of the
    mutex of the store. *)
Inductive op :=
| OAdmit (p : stateptr) (data : bytes) (offset now : Z)
| OBeginDelivery (p : stateptr)
| OPauseDelivery (p : stateptr)
| OResumeDelivery (p : stateptr)
| ONext (p : stateptr) (ep : Z)
| OAck (p : stateptr) (id : Z)
| OReceive (p : stateptr)
| OSetSubscription (p : stateptr) (filter : bytes) (qos : Z)
| ODeleteSubscription (p : stateptr) (filter : bytes)
| OMarkConnected (p : stateptr)
| OMarkDisconnectedAt (p : stateptr) (at_ : Z)
| OGetOrCreateOwned (id owner : bytes) (now : Z)
| ODelete (id : bytes)
| OExpire (now : Z)
| OExpireSession (id : bytes) (now : Z).

(** The session whose method is called. *)
Definition receiver (o : op) : option stateptr :=
  match o with
  | OAdmit p _ _ _ | OBeginDelivery p | OPauseDelivery p | OResumeDelivery p | ONext p _ | OAck p _
  | OReceive p | OSetSubscription p _ _ | ODeleteSubscription p _ | OMarkConnected p
  | OMarkDisconnectedAt p _ => Some p
  | _ => None
  end.

Definition step (o : op) (st : Store) : option Store :=
  match o with
  | OAdmit p data offset now => snd <$> call (Admit data offset now) p st
  | OBeginDelivery p => snd <$> call BeginDelivery p st
  | OPauseDelivery p => snd <$> call PauseDelivery p st
  | OResumeDelivery p => snd <$> call ResumeDelivery p st
  | ONext p ep => snd <$> call (Next ep) p st
  | OAck p id => snd <$> call (Ack id) p st
  | OReceive p => snd <$> call receive_changed p st
  | OSetSubscription p filter qos => snd <$> call (SetSubscription filter qos) p st
  | ODeleteSubscription p filter => snd <$> call (DeleteSubscription filter) p st
  | OMarkConnected p => snd <$> call MarkConnected p st
  | OMarkDisconnectedAt p at_ => snd <$> call (MarkDisconnectedAt at_) p st
  | OGetOrCreateOwned id owner now => snd <$> GetOrCreateOwned id owner now st
  | ODelete id => Delete id st
  | OExpire now => snd <$> Expire now st
  | OExpireSession id now => snd <$> ExpireSession id now st
  end.

(** A call on a session the store handed out. *)
Definition enabled (o : op) (st : Store) : Prop :=
  ∀ p, receiver o = Some p → is_Some (states st !! p).

(** The stores after [n] operations, in any order. *)
Inductive reachable (l : Limits) : nat → Store → Prop :=
| reachable_new st : NewWithLimits l = Ok st → reachable l 0 st
| reachable_step n o st st' :
    reachable l n st → enabled o st → step o st = Some st' → reachable l (S n) st'.

Definition epochs_below (n : Z) (st : Store) : Prop :=
  ∀ p s, states st !! p = Some s → 0 <= epoch s <= n.

Lemma u64_succ n z : 0 <= z <= n → 0 <= u64 (z + 1) <= n + 1.
Proof.
  intros Hz. unfold u64. pose proof (Z.mod_pos_bound (z + 1) 18446744073709551616).
  pose proof (Z.mod_le (z + 1) 18446744073709551616). lia.
Qed.

(** What an operation guarantees; [n] bounds the epochs. *)
Definition good_step (n : Z) (st : Store) (o : op) : Prop :=
  ∃ st', step o st = Some st' ∧ store_ok st' ∧ epochs_below (n + 1) st'.

Lemma epochs_insert n st p s s' data lim t :
  epochs_below n st → states st !! p = Some s → epoch s' = epoch s ∨ epoch s' = u64 (epoch s + 1) →
  epochs_below (n + 1) (mkStore data (<[p := s']> (states st)) lim t).
Proof.
  intros Hn Hp He p' s0. cbn [states]. intros [[<- <-]|[_ Hl]]%lookup_insert_Some.
  - specialize (Hn p s Hp). destruct He as [-> | ->]; [lia|by apply u64_succ].
  - specialize (Hn p' s0 Hl). lia.
Qed.

Lemma epochs_weaken n st st' :
  epochs_below n st → states st' = states st → epochs_below (n + 1) st'.
Proof. intros Hn E p s. rewrite E. intros Hl. specialize (Hn p s Hl). lia. Qed.

Lemma method_step {A} pre (f : method A) `{MethodOk A pre f} n p s st :
  store_ok st → epochs_below n st → states st !! p = Some s → pre s →
  ∃ st', snd <$> call f p st = Some st' ∧ store_ok st' ∧ epochs_below (n + 1) st'.
Proof.
  intros Hst Hn Hp Hpre. destruct (call_ok pre f p s st Hst Hp Hpre) as (a & s' & t' & _ & -> & Hok & _ & _ & _ & He).
  eexists. split; [reflexivity|]. split; [done|]. by eapply epochs_insert.
Qed.

Lemma deleteLocked_step n id st :
  store_ok st → epochs_below n st →
  ∃ st', deleteLocked id st = Some st' ∧ store_ok st' ∧ epochs_below (n + 1) st'.
Proof.
  intros Hst Hn. destruct (st_data st !! id) as [p|] eqn:Hid.
  - destruct (data_state st id p Hst Hid) as (s & Hp & _ & _).
    destruct (deleteLocked_ok id p s st Hst Hid Hp) as (t & Hd & Hok). eexists. split; [exact Hd|].
    split; [done|]. eapply epochs_insert; [done|exact Hp|by left].
  - rewrite deleteLocked_absent by done. exists st. split; [done|]. split; [done|]. by eapply epochs_weaken.
Qed.

Lemma expireLocked_step n id now st :
  store_ok st → epochs_below n st →
  ∃ b st', expireLocked (st_data st !! id) now st = Some (b, st') ∧ store_ok st' ∧ epochs_below (n + 1) st'.
Proof.
  intros Hst Hn. destruct (st_data st !! id) as [p|] eqn:Hid.
  - destruct (data_state st id p Hst Hid) as (s & Hp & _ & _).
    pose proof (expireLocked_spec id p s now st Hst Hid Hp) as Hexp. destruct (decide _).
    + destruct Hexp as (t & -> & Hok). do 2 eexists. split; [reflexivity|].
      split; [done|]. eapply epochs_insert; [done|exact Hp|by left].
    + rewrite Hexp. do 2 eexists. split; [reflexivity|]. split; [done|]. by eapply epochs_weaken.
  - exists false, st. split; [done|]. split; [done|]. by eapply epochs_weaken.
Qed.

Lemma GetOrCreateOwned_epochs n id owner now st r st' :
  0 <= n → epochs_below n st → GetOrCreateOwned id owner now st = Some (r, st') → epochs_below (n + 1) st'.
Proof.
  intros H0 Hn Hg. unfold GetOrCreateOwned in Hg. destruct (st_data st !! id) as [p|].
  - destruct (states st !! p); [|done]. simpl in Hg. destruct (bool_decide _); simplify_eq; by eapply epochs_weaken.
  - destruct (_ <=? _); simplify_eq/=; [by eapply epochs_weaken|].
    intros p s. cbn [states]. intros [[<- <-]|[_ Hl]]%lookup_insert_Some; simpl; [lia|].
    specialize (Hn p s Hl). lia.
Qed.

Lemma expiry_epochs n st now todo gone st' :
  epochs_below n st → expiry st now todo gone st' → epochs_below (n + 1) st'.
Proof.
  intros Hn Hex p s'. rewrite (ex_states _ _ _ _ _ Hex). intros (s & Hs & ->)%fmap_Some_1.
  specialize (Hn p s Hs). destruct (decide _); simpl; lia.
Qed.

(** Every operation on a well-formed store returns and keeps it well formed. *)
Lemma step_good n o st :
  store_ok st → 0 <= n → epochs_below n st → n + 1 < 2 ^ 64 → enabled o st → good_step n st o.
Proof.
  intros Hst H0 Hn Hlt Hen. unfold good_step.
  destruct (receiver o) as [p|] eqn:Hr.
  { destruct (Hen p Hr) as [s Hp].
    assert (Hroom : epoch_room s) by (specialize (Hn p s Hp); unfold epoch_room; lia).
    destruct o; simplify_eq/=;
      first [by apply (method_step always _ n p s st) | by apply (method_step epoch_room _ n p s st)]. }
  destruct o; simplify_eq/=.
  - destruct (GetOrCreateOwned_ok id owner now st Hst) as (r & st' & Hg & Hok). rewrite Hg.
    eexists. split; [reflexivity|]. split; [done|]. by eapply GetOrCreateOwned_epochs.
  - by apply deleteLocked_step.
  - destruct (Expire_expiry now st Hst) as (gone & st' & -> & Hex). eexists. split; [reflexivity|].
    split; [apply Hex|]. by eapply expiry_epochs.
  - destruct (expireLocked_step n id now st Hst Hn) as (b & st' & Hx & ?). unfold ExpireSession. rewrite Hx.
    eexists. split; [reflexivity|done].
Qed.

Lemma reachable_ok l n st :
  reachable l n st → Z.of_nat n < 2 ^ 64 → store_ok st ∧ epochs_below (Z.of_nat n) st.
Proof.
  induction 1 as [st Hnew|n o st st' Hr IH Hen Hstep]; intros Hlt.
  - split; [by eapply NewWithLimits_ok|]. unfold NewWithLimits in Hnew.
    destruct (Limits_Validate l); simplify_eq. intros p s. cbn [states]. by intros ?%lookup_empty_Some.
  - destruct IH as [Hok Hep]; [lia|].
    destruct (step_good (Z.of_nat n) o st Hok ltac:(lia) Hep ltac:(lia) Hen) as (st1 & Hs1 & Hok1 & Hep1).
    rewrite Hstep in Hs1. injection Hs1 as <-. split; [done|].
    by replace (Z.of_nat (S n)) with (Z.of_nat n + 1) by lia.
Qed.

(** Operations one after the other. *)
Fixpoint run (ops : list op) (st : Store) : option Store :=
  match ops with
  | [] => Some st
  | o :: ops => st ← step o st; run ops st
  end.

Lemma step_enabled o st st' : step o st = Some st' → enabled o st.
Proof.
  intros Hstep p Hp. destruct o; simplify_eq/=; unfold call in Hstep;
    destruct (states st !! p); try done; by destruct Hstep.
Qed.

Lemma run_ok ops n st st' :
  store_ok st → 0 <= n → epochs_below n st → n + Z.of_nat (length ops) < 2 ^ 64 →
  run ops st = Some st' → store_ok st'.
Proof.
  revert n st. induction ops as [|o ops IH]; intros n st Hst H0 Hn Hlt Hrun; simpl in Hrun; [by simplify_eq|].
  destruct (step o st) as [st1|] eqn:Hstep; [|done]. simpl in Hrun, Hlt.
  destruct (step_good n o st Hst H0 Hn ltac:(lia) (step_enabled o st st1 Hstep)) as (st2 & E & Hok & Hep).
  rewrite Hstep in E. injection E as <-. by apply (IH (n + 1) st1 Hok ltac:(lia) Hep ltac:(lia)).
Qed.

Definition example_store : Store := mkStore ∅ ∅ DefaultLimits zero_snapshot.

Lemma example_run_ok ops st :
  Z.of_nat (length ops) < 2 ^ 64 → run ops example_store = Some st → store_ok st.
Proof.
  intros Hlt. apply (run_ok ops 0); [by apply (NewWithLimits_ok DefaultLimits)|done| |done].
  intros p s. cbn [states example_store]. by intros ?%lookup_empty_Some.
Qed.

Lemma call_limits {A} (f : method A) p st st' :
  snd <$> call f p st = Some st' → limits st' = limits st.
Proof.
  unfold call. destruct (states st !! p) as [s|]; simpl; [|done].
  destruct (f _ _ s) as [[[a t] s']|]; simpl; [|done]. by intros [= <-].
Qed.

Lemma step_limits o st st' : store_ok st → step o st = Some st' → limits st' = limits st.
Proof.
  intros Hst. destruct o; cbn [step]; try apply call_limits;
    unfold GetOrCreateOwned, Delete, deleteLocked, ExpireSession.
  - destruct (st_data st !! id) as [p|]; [destruct (states st !! p)|]; simpl; repeat case_match; intros; by simplify_eq/=.
  - destruct (st_data st !! id) as [p|]; [destruct (states st !! p)|]; simpl; intros; by simplify_eq/=.
  - destruct (Expire_expiry now st Hst) as (gone & st1 & -> & Hex). intros [= <-]. apply Hex.
  - destruct (st_data st !! id) as [p|] eqn:Hid; [|intros; by simplify_eq/=].
    destruct (data_state st id p Hst Hid) as (s & Hp & _ & _).
    pose proof (expireLocked_spec id p s now st Hst Hid Hp) as Hx.
    destruct (decide _); [destruct Hx as (t & -> & _)|rewrite Hx]; by intros [= <-].
Qed.

Lemma reachable_limits l n st : reachable l n st → Z.of_nat n < 2 ^ 64 → limits st = l.
Proof.
  induction 1 as [st Hnew|n o st st' Hr IH Hen Hstep]; intros Hlt.
  - unfold NewWithLimits in Hnew. by destruct (Limits_Validate l); simplify_eq.
  - destruct (reachable_ok l n st Hr ltac:(lia)) as [Hok _].
    rewrite (step_limits o st st' Hok Hstep). apply IH. lia.
Qed.

(** * Identity of sessions *)

(** [s'] is [s] later: the same session, which is not revived once removed. *)
Definition same_session (s s' : State) : Prop :=
  st_id s' = st_id s ∧ st_owner s' = st_owner s ∧ (deleted s = true → deleted s' = true).

Lemma same_session_refl s : same_session s s.
Proof. done. Qed.

Lemma call_same {A} pre (f : method A) `{MethodOk A pre f} p0 s0 st st' p s :
  store_ok st → states st !! p0 = Some s0 → pre s0 → snd <$> call f p0 st = Some st' →
  states st !! p = Some s → ∃ s', states st' !! p = Some s' ∧ same_session s s'.
Proof.
  intros Hst Hp0 Hpre Hcall Hp.
  destruct (call_ok pre f p0 s0 st Hst Hp0 Hpre) as (a & s1 & t' & _ & E & _ & Hid & Hown & Hdel & _).
  rewrite E in Hcall. injection Hcall as <-. simpl. destruct (decide (p = p0)) as [->|Hne].
  - rewrite Hp0 in Hp. injection Hp as ->. exists s1. rewrite lookup_insert_eq. split; [done|].
    split_and!; [done..|]. by rewrite Hdel.
  - exists s. by rewrite lookup_insert_ne.
Qed.

Lemma insert_removed_same data st p0 s0 lim t p s :
  states st !! p0 = Some s0 → states st !! p = Some s →
  ∃ s', states (mkStore data (<[p0 := removed s0]> (states st)) lim t) !! p = Some s' ∧ same_session s s'.
Proof.
  intros Hp0 Hp. cbn [states]. destruct (decide (p = p0)) as [->|Hne].
  - rewrite Hp0 in Hp. injection Hp as ->. exists (removed s). by rewrite lookup_insert_eq.
  - exists s. by rewrite lookup_insert_ne.
Qed.

Lemma step_same n o st st' p s :
  store_ok st → epochs_below n st → n + 1 < 2 ^ 64 → step o st = Some st' → states st !! p = Some s →
  ∃ s', states st' !! p = Some s' ∧ same_session s s'.
Proof.
  intros Hst Hn Hlt Hstep Hp. destruct (receiver o) as [p0|] eqn:Hr.
  { destruct (step_enabled o st st' Hstep p0 Hr) as [s0 Hp0].
    assert (Hroom : epoch_room s0) by (specialize (Hn p0 s0 Hp0); unfold epoch_room; lia).
    destruct o; simplify_eq/=;
      first [exact (call_same always _ _ _ _ _ _ _ Hst Hp0 I Hstep Hp)
            |exact (call_same epoch_room _ _ _ _ _ _ _ Hst Hp0 Hroom Hstep Hp)]. }
  destruct o; simplify_eq/=.
  - exists s. split; [|done]. unfold GetOrCreateOwned in Hstep.
    assert (Hnew : states st !! new_ptr st = None) by (unfold new_ptr; apply not_elem_of_dom, is_fresh).
    destruct (st_data st !! id) as [p0|].
    + destruct (states st !! p0); simpl in Hstep; [|done]. destruct (bool_decide _); by simplify_eq/=.
    + destruct (_ <=? _); simplify_eq/=; [done|]. rewrite lookup_insert_ne by congruence. done.
  - unfold Delete in Hstep. destruct (st_data st !! id) as [p0|] eqn:Hid.
    2: { rewrite deleteLocked_absent in Hstep by done. simplify_eq. by exists s. }
    destruct (data_state st id p0 Hst Hid) as (s0 & Hp0 & _ & _).
    destruct (deleteLocked_ok id p0 s0 st Hst Hid Hp0) as (t & Hd & _). rewrite Hd in Hstep.
    injection Hstep as <-. by apply insert_removed_same.
  - destruct (Expire_expiry now st Hst) as (gone & st1 & Hx & Hex). rewrite Hx in Hstep. simplify_eq/=.
    rewrite (ex_states _ _ _ _ _ Hex), Hp. simpl. eexists. split; [reflexivity|]. by destruct (decide _).
  - unfold ExpireSession in Hstep. destruct (st_data st !! id) as [p0|] eqn:Hid; [|simplify_eq/=; by exists s].
    destruct (data_state st id p0 Hst Hid) as (s0 & Hp0 & _ & _).
    pose proof (expireLocked_spec id p0 s0 now st Hst Hid Hp0) as Hx. destruct (decide _).
    + destruct Hx as (t & Hx & _). rewrite Hx in Hstep. injection Hstep as <-. by apply insert_removed_same.
    + rewrite Hx in Hstep. simplify_eq/=. by exists s.
Qed.

(** * Wake-ups *)

(** A call of [Next] by the current connection would send a message. *)
Definition can_send (l : Limits) (s : State) : bool :=
  match Next (epoch s) l zero_snapshot s with
  | Some (Some _, _, _) => true
  | _ => false
  end.

(** Whether a message is sent does not depend on the totals. *)
Lemma Next_can_send l t s d t' s' :
  Next (epoch s) l t s = Some (Some d, t', s') → can_send l s = true.
Proof.
  unfold can_send, Next. destruct (_ || _); [done|].
  destruct (next_unsent _ _ _) as [[[r message]|]|]; simpl; try done.
  destruct (negb _); simpl.
  - by destruct (patch _ _ _ _).
  - destruct (allocate_packetID _ _); simpl; [|done]. by destruct (patch _ _ _ _).
Qed.

Lemma can_send_blocked l s : (deleted s || paused s) = true → can_send l s = false.
Proof. intros Hb. unfold can_send, Next. by rewrite Hb. Qed.

(** [can_send] reads the queue and three more fields. *)
Lemma can_send_same l s s' :
  same_queue s s' → deleted s' = deleted s → paused s' = paused s → can_send l s' = can_send l s.
Proof.
  intros (E1 & E2 & E3 & E4 & E5 & E6) Hd Hp. unfold can_send, Next. rewrite E1, E2, E3, E4, E5, E6, Hd, Hp.
  destruct (_ || _); [done|].
  destruct (next_unsent _ _ _) as [[[r message]|]|]; simpl; try done.
  destruct (negb _); simpl.
  - by destruct (patch _ _ _ _).
  - destruct (allocate_packetID _ _); simpl; [|done]. by destruct (patch _ _ _ _).
Qed.

(** A method that enables sending leaves a token in the channel. *)
Class MethodWakes {A} (f : method A) : Prop :=
  method_wakes l t s a t' s' :
    f l t s = Some (a, t', s') → changed s' = true ∨ (can_send l s' = true → can_send l s = true).

Ltac wakes_same := intros; simplify_eq/=; right; by erewrite can_send_same.

#[export] Instance Admit_wakes data off now : MethodWakes (Admit data off now).
Proof.
  intros l t s a t' s'. unfold Admit. repeat case_match; intros; simplify_eq/=; auto; wakes_same.
Qed.

#[export] Instance BeginDelivery_wakes : MethodWakes BeginDelivery.
Proof. intros l t s a t' s' [= <- <- <-]. by left. Qed.

#[export] Instance PauseDelivery_wakes : MethodWakes PauseDelivery.
Proof.
  intros l t s a t' s' [= <- <- <-]. right. rewrite can_send_blocked; [done|]. simpl. apply orb_true_r.
Qed.

#[export] Instance ResumeDelivery_wakes : MethodWakes ResumeDelivery.
Proof. intros l t s a t' s' [= <- <- <-]. by left. Qed.

#[export] Instance receive_changed_wakes : MethodWakes receive_changed.
Proof. intros l t s a t' s' [= <- <- <-]. wakes_same. Qed.

#[export] Instance Next_wakes ep : MethodWakes (Next ep).
Proof.
  intros l t s [d|] t' s' HN; right.
  - intros _. assert (ep = epoch s) as ->.
    { unfold Next in HN. destruct (_ || _) eqn:Hb; [done|]. bool_to_prop. done. }
    by eapply Next_can_send.
  - assert (s' = s) as ->; [|done]. unfold Next in HN. destruct (_ || _); [by simplify_eq|].
    destruct (next_unsent _ _ _) as [[[r message]|]|]; simpl in HN; simplify_eq; [|done].
    destruct (if negb _ then _ else _) as [[[[? ?] ?] ?]|]; simpl in HN; [|done].
    by destruct (patch _ _ _ _).
Qed.

#[export] Instance Ack_wakes id : MethodWakes (Ack id).
Proof.
  intros l t s a t' s'. unfold Ack. destruct (inflight s !! id) as [r|]; [|intros; simplify_eq; auto].
  destruct (deleted s); [intros; simplify_eq; auto|].
  destruct (heap s !! r); simpl; intros; simplify_eq; auto.
Qed.

#[export] Instance SetSubscription_wakes f q : MethodWakes (SetSubscription f q).
Proof. intros l t s a t' s'. unfold SetSubscription. repeat case_match; wakes_same. Qed.

#[export] Instance DeleteSubscription_wakes f : MethodWakes (DeleteSubscription f).
Proof. intros l t s a t' s'. unfold DeleteSubscription. repeat case_match; wakes_same. Qed.

#[export] Instance MarkConnected_wakes : MethodWakes MarkConnected.
Proof. intros l t s a t' s'. unfold MarkConnected. repeat case_match; wakes_same. Qed.

#[export] Instance MarkDisconnectedAt_wakes at_ : MethodWakes (MarkDisconnectedAt at_).
Proof. intros l t s a t' s'. unfold MarkDisconnectedAt. repeat case_match; wakes_same. Qed.

(** [s'] is [s] as the wake-up protocol needs it. *)
Definition wakes (l : Limits) (s s' : State) : Prop :=
  changed s' = true ∨ (can_send l s' = true → can_send l s = true).

Lemma call_wakes {A} (f : method A) `{MethodWakes A f} p0 st st' p s s' :
  snd <$> call f p0 st = Some st' → states st !! p = Some s → states st' !! p = Some s' →
  wakes (limits st) s s'.
Proof.
  unfold call. destruct (states st !! p0) as [s0|] eqn:Hp0; simpl; [|done].
  destruct (f (limits st) (totals st) s0) as [[[a t1] s1]|] eqn:Hf; simpl; [|done].
  intros [= <-] Hp. simpl. intros [[-> <-]|[Hne Hl]]%lookup_insert_Some.
  - rewrite Hp0 in Hp. injection Hp as ->. by eapply method_wakes.
  - rewrite Hp in Hl. injection Hl as ->. by right.
Qed.

Lemma step_wakes o st st' p s s' :
  store_ok st → step o st = Some st' → states st !! p = Some s → states st' !! p = Some s' →
  wakes (limits st) s s'.
Proof.
  intros Hst Hstep Hp Hp'. destruct o; simpl in Hstep; try (exact (call_wakes _ _ _ _ _ _ _ Hstep Hp Hp')).
  all: assert (Hrem : wakes (limits st) s (removed s)) by (by left).
  all: assert (Hrefl : wakes (limits st) s s) by (by right).
  - unfold GetOrCreateOwned in Hstep. assert (s' = s) as ->; [|done].
    assert (Hnew : states st !! new_ptr st = None) by (unfold new_ptr; apply not_elem_of_dom, is_fresh).
    destruct (st_data st !! id) as [p0|].
    + destruct (states st !! p0); simpl in Hstep; [|done]. destruct (bool_decide _); simplify_eq/=; congruence.
    + destruct (_ <=? _); simplify_eq/=; [congruence|].
      rewrite lookup_insert_ne in Hp' by congruence. congruence.
  - unfold Delete in Hstep. destruct (st_data st !! id) as [p0|] eqn:Hid.
    2: { rewrite deleteLocked_absent in Hstep by done. simplify_eq. done. }
    destruct (data_state st id p0 Hst Hid) as (s0 & Hp0 & _ & _).
    destruct (deleteLocked_ok id p0 s0 st Hst Hid Hp0) as (t & Hd & _). rewrite Hd in Hstep.
    simplify_eq/=. apply lookup_insert_Some in Hp' as [[-> <-]|[_ Hl]]; simplify_eq; done.
  - destruct (Expire_expiry now st Hst) as (gone & st1 & Hx & Hex). rewrite Hx in Hstep. simplify_eq/=.
    rewrite (ex_states _ _ _ _ _ Hex), Hp in Hp'. simplify_eq/=. by destruct (decide _).
  - unfold ExpireSession in Hstep. destruct (st_data st !! id) as [p0|] eqn:Hid; [|by simplify_eq/=].
    destruct (data_state st id p0 Hst Hid) as (s0 & Hp0 & _ & _).
    pose proof (expireLocked_spec id p0 s0 now st Hst Hid Hp0) as Hx. destruct (decide _).
    + destruct Hx as (t & Hx & _). rewrite Hx in Hstep. simplify_eq/=.
      apply lookup_insert_Some in Hp' as [[-> <-]|[_ Hl]]; simplify_eq; done.
    + rewrite Hx in Hstep. by simplify_eq/=.
Qed.

(** * A connection that sends *)

(** [k] calls of [Next] in a row, as the goroutine that forwards a session makes
    them; it stops when there is nothing to send. *)
Fixpoint drain (k : nat) (ep : Z) : method (list Delivery) := λ l t s,
  match k with
  | O => Some ([], t, s)
  | S k =>
      '(d, t, s) ← Next ep l t s;
      match d with
      | None => Some ([], t, s)
      | Some d => '(ds, t, s) ← drain k ep l t s; Some (d :: ds, t, s)
      end
  end.

(** The messages of a queue in the order they are sent after a reconnect, with
    the identifier of those sent before. *)
Definition schedule (resend : list (Z * msg)) (fresh : list msg) : list (option Z * msg) :=
  ((λ x, (Some x.1, x.2)) <$> resend) ++ (pair None <$> fresh).

(** [d] is message [m]: a replay, with its old identifier and DUP, or a first
    attempt, with a valid identifier and without DUP. *)
Definition delivers (d : Delivery) (x : option Z * msg) : Prop :=
  let m := x.2 in
  match x.1 with
  | Some id => PacketID d = id ∧ patch (m_data m) (m_offset m) id true = Some (Data d)
  | None => 0 < PacketID d < 65536 ∧ patch (m_data m) (m_offset m) (PacketID d) false = Some (Data d)
  end.

Lemma next_schedule q id m replay q' :
  q_next q id m replay q' →
  ∃ x, schedule (q_resend q) (q_fresh q) = x :: schedule (q_resend q') (q_fresh q')
    ∧ q_sent q' = q_sent q ++ [(id, m)]
    ∧ ∀ data, patch (m_data m) (m_offset m) id replay = Some data → delivers (mkDelivery data id) x.
Proof. destruct 1; eexists; (split; [reflexivity|]); (split; [reflexivity|]); intros data Hp; by split. Qed.

Lemma next_ids q id m replay q' : q_next q id m replay q' → q_ids_ok q → 0 < id < 65536.
Proof.
  destruct 1 as [sent id m resend fresh|]; [|done]. intros [_ Hall].
  unfold q_attempted in Hall. simpl in Hall. by apply Forall_app in Hall as [_ [? _]%Forall_cons].
Qed.

Lemma represents_ids s q : represents_queue s q → q_ids_ok q.
Proof. intros (sent & resend & fresh & Hrep & ->). apply Hrep. Qed.

Lemma represents_active s q : represents_queue s q → activeInflight s = len (q_sent q).
Proof.
  intros (sent & resend & fresh & Hrep & ->). rewrite (rep_active _ _ _ _ Hrep). unfold len. simpl.
  by rewrite length_fmap.
Qed.

Lemma drain_sends l k t s q :
  represents_queue s q → q_ok q → MaxInflightMessagesPerSession l <= 65535 →
  deleted s = false → paused s = false → epoch s ≠ 0 →
  len (q_sent q) + Z.of_nat k <= MaxInflightMessagesPerSession l →
  (k <= length (schedule (q_resend q) (q_fresh q)))%nat →
  ∃ ds t' s' q', drain k (epoch s) l t s = Some (ds, t', s')
    ∧ represents_queue s' q' ∧ (q_sent q').*1 = (q_sent q).*1 ++ (PacketID <$> ds)
    ∧ Forall2 delivers ds (take k (schedule (q_resend q) (q_fresh q))).
Proof.
  revert t s q. induction k as [|k IH]; intros t s q Hq Hok Hmax Hd Hp Hep Hk Hl.
  { exists [], t, s, q. simpl. rewrite app_nil_r. split_and!; try done. }
  assert (Hmay : may_send l s (epoch s)).
  { split_and!; try done. rewrite (represents_active s q Hq). lia. }
  assert (Hnext : has_next s q).
  { unfold has_next. destruct (q_resend q); [|by left]. destruct (q_fresh q); [simpl in Hl; lia|by right]. }
  destruct (Next_sends l t s q Hq Hok Hmax Hmay Hnext)
    as (id & m & replay & q1 & data & h & infl & next & Hstep & Hpatch & HN & Hq1).
  set (s1 := set_queue _ _ _ _ _ _) in *.
  destruct (next_schedule _ _ _ _ _ Hstep) as (x & Hsch & Hsent & Hdel). rewrite Hsch in *. simpl in Hl.
  destruct (IH (if replay then t else count_inflight t 1) s1 q1 Hq1) as (ds & t' & s' & q' & Hdr & Hq' & Hids & Hall);
    try done; [| |lia|].
  { unfold q_ok in *. by rewrite (q_messages_next _ _ _ _ _ Hstep). }
  { rewrite Hsent. unfold len in *. rewrite length_app. simpl. lia. }
  exists (mkDelivery data id :: ds), t', s', q'. cbn [drain]. rewrite HN. cbn [mbind option_bind].
  change (epoch s1) with (epoch s) in Hdr. rewrite Hdr. split; [done|]. split; [done|]. split.
  - rewrite Hids, Hsent, fmap_app, <- app_assoc. done.
  - simpl. constructor; [by apply Hdel|done].
Qed.

Lemma State_queue_begin l t s q :
  represents_queue s q → epoch_room s →
  ∃ s', BeginDelivery l t s = Some (epoch s + 1, t, s') ∧ represents_queue s' (q_begin q)
    ∧ epoch s' = epoch s + 1 ∧ deleted s' = deleted s ∧ paused s' = paused s.
Proof.
  intros Hq Hroom. assert (Hu : u64 (epoch s + 1) = epoch s + 1).
  { unfold u64. apply Z.mod_small. destruct Hq as (? & ? & ? & Hrep & _).
    pose proof (rep_epoch _ _ _ _ Hrep). unfold epoch_room in Hroom. lia. }
  eexists. split; [unfold BeginDelivery; simpl; by rewrite Hu|]. split; [|done].
  eapply represents_same; [|by apply BeginDelivery_queues]. by rewrite Hu.
Qed.

(** * The order of filters *)

Lemma bytes_le_refl a : bytes_le a a = true.
Proof. induction a as [|x a IH]; simpl; [done|]. by rewrite Z.ltb_irrefl, Z.eqb_refl. Qed.

Lemma bytes_le_total a b : bytes_le a b = true ∨ bytes_le b a = true.
Proof.
  revert b. induction a as [|x a IH]; intros [|y b]; simpl; auto.
  destruct (Z.ltb_spec x y); simpl; [by left|]. destruct (Z.ltb_spec y x); simpl; [by right|].
  assert (x = y) as -> by lia. rewrite Z.eqb_refl. simpl. apply IH.
Qed.

Lemma bytes_le_trans a b c : bytes_le a b = true → bytes_le b c = true → bytes_le a c = true.
Proof.
  revert b c. induction a as [|x a IH]; intros [|y b] [|z c]; simpl; try done.
  destruct (Z.ltb_spec x y), (Z.eqb_spec x y), (Z.ltb_spec y z), (Z.eqb_spec y z), (Z.ltb_spec x z),
    (Z.eqb_spec x z); simpl; try done; try lia. apply IH.
Qed.

#[local] Instance filter_le_total : Total filter_le.
Proof. intros a b. apply bytes_le_total. Qed.

#[local] Instance filter_le_trans : Transitive filter_le.
Proof. intros a b c. apply bytes_le_trans. Qed.

(** * Theorems *)

(** C14: whatever operations run, in whatever order, the store stays well formed
    and no operation panics or runs forever (fewer than 2^64 - 1 operations): the
    names in [data] are exactly the sessions not removed, the totals are the sums
    over the sessions of their pending messages and bytes, identifiers in flight
    and subscriptions, every per-session and global limit is respected, every
    session's queue is a well-formed one, and every further call on a session
    returns. *)
Theorem store_invariant l n st :
  reachable l n st → Z.of_nat n + 1 < 2 ^ 64 →
  store_ok st ∧ ∀ o, enabled o st → ∃ st', step o st = Some st'.
Proof.
  intros Hr Hlt. destruct (reachable_ok l n st Hr ltac:(lia)) as [Hok Hep]. split; [done|].
  intros o Hen. destruct (step_good (Z.of_nat n) o st Hok ltac:(lia) Hep ltac:(lia) Hen) as (st' & ? & _). eauto.
Qed.

Lemma store_invariant_witness :
  ∃ st, store_ok st ∧ msize (st_data st) = 1
  ∧ ∃ st', step (OBeginDelivery (new_ptr example_store)) st = Some st'.
Proof.
  destruct (step (OGetOrCreateOwned (bs "a") (bs "u") 5) example_store) as [st|] eqn:Hstep; [|discriminate Hstep].
  exists st. destruct (store_invariant DefaultLimits 1 st) as [Hok Hprog].
  - eapply reachable_step; [apply (reachable_new _ example_store); reflexivity| |exact Hstep].
    intros p Hp. discriminate Hp.
  - reflexivity.
  - split; [exact Hok|]. injection Hstep as <-. split; [reflexivity|]. apply Hprog.
    intros p [= <-]. eexists. apply lookup_insert_eq.
Defined.

(** No wake-up is lost: when an operation turns a session in which the current
    connection has nothing to send into one where [Next] would send a message,
    the channel [changed] holds a token, so a goroutine that found nothing and
    then waits on the channel goes on. *)
Theorem no_lost_wakeup o st st' p s s' :
  store_ok st → step o st = Some st' → states st !! p = Some s → states st' !! p = Some s' →
  can_send (limits st) s = false → can_send (limits st) s' = true → changed s' = true.
Proof.
  intros Hst Hstep Hp Hp' Hno Hyes. destruct (step_wakes o st st' p s s' Hst Hstep Hp Hp') as [?|Hc]; [done|].
  rewrite (Hc Hyes) in Hno. done.
Qed.

(** A session of the connection with epoch 1 that found nothing to send. *)
Definition example_ptr : stateptr := new_ptr example_store.
Definition example_message : bytes := [50; 6; 0; 1; 97; 0; 1; 120].
Definition example_ops : list op :=
  [OGetOrCreateOwned (bs "a") (bs "u") 5; OBeginDelivery example_ptr; OReceive example_ptr].

Lemma no_lost_wakeup_witness :
  ∃ st st' s s', run example_ops example_store = Some st
    ∧ step (OAdmit example_ptr example_message 5 9) st = Some st'
    ∧ states st !! example_ptr = Some s ∧ changed s = false
    ∧ states st' !! example_ptr = Some s' ∧ changed s' = true.
Proof.
  destruct (run example_ops example_store) as [st|] eqn:Hrun; [|vm_compute in Hrun; discriminate Hrun].
  assert (Hst : store_ok st) by (eapply example_run_ok; [|exact Hrun]; reflexivity).
  vm_compute in Hrun. injection Hrun as <-.
  do 4 eexists. split; [reflexivity|]. split; [vm_compute; reflexivity|]. split; [vm_compute; reflexivity|].
  split; [reflexivity|]. split; [vm_compute; reflexivity|].
  eapply (no_lost_wakeup (OAdmit example_ptr example_message 5 9) _ _ example_ptr);
    [exact Hst|vm_compute; reflexivity..].
Defined.

(** C15: the delivery queue refines the abstract one, an ordered queue of messages
    sent on this connection, sent on earlier ones and not sent yet: [Admit]
    appends, [BeginDelivery] turns everything sent into replays, [Next] sends the
    oldest message not sent on this connection (a replay keeps its identifier, a
    new message gets a free one), [Ack] removes the message with the identifier
    and nothing else; and every message keeps its bytes. *)
Theorem State_refines_queue l t s q :
  Limits_Validate l = None → sess_ok l s → deleted s = false → represents_queue s q → q_ok q →
  (∀ data off now, invalid_queued_publish data off = false →
     ∃ r t' s', Admit data off now l t s = Some (Ok r, t', s')
       ∧ represents_queue s' (if r is None then q_admit (mkMsg data off now) q else q))
  ∧ (epoch_room s → ∃ t' s', BeginDelivery l t s = Some (epoch s + 1, t', s')
       ∧ represents_queue s' (q_begin q))
  ∧ (∀ ep, ∃ d t' s', Next ep l t s = Some (d, t', s')
       ∧ match d with
         | None => s' = s ∧ t' = t ∧ ¬ (may_send l s ep ∧ has_next s q)
         | Some d => ∃ m replay q', q_next q (PacketID d) m replay q' ∧ represents_queue s' q'
             ∧ patch (m_data m) (m_offset m) (PacketID d) replay = Some (Data d) ∧ may_send l s ep
         end)
  ∧ (∀ id, ∃ t' s', Ack id l t s = Some (tt, t', s') ∧ represents_queue s' (q_ack id q)).
Proof.
  intros Hl Hs Hd Hq Hok. apply valid_limits in Hl as Hv. split_and!.
  - intros data off now Hinv. unfold Admit. rewrite Hinv, Hd. repeat case_match; simplify_eq;
      do 3 eexists; (split; [reflexivity|]);
      try (eapply represents_same; [|exact Hq]; by split_and!).
    eapply represents_same; [|exact (Admit_queues data off now s q Hq Hinv)]. by split_and!.
  - intros Hroom. destruct (State_queue_begin l t s q Hq Hroom) as (s' & ? & ? & _). eauto.
  - intros ep. destruct (decide (may_send l s ep)) as [Hm|Hm].
    2: { exists None, t, s. rewrite Next_blocked by done. split_and!; try done. tauto. }
    destruct (decide (has_next s q)) as [Hn|Hn].
    2: { exists None, t, s. rewrite (Next_empty l t s q) by done. split_and!; try done. tauto. }
    pose proof Hm as (_ & _ & -> & _).
    destruct (Next_sends l t s q Hq Hok ltac:(lia) Hm Hn)
      as (id & m & replay & q' & data & h & infl & next & Hstep & Hp & HN & Hq').
    do 3 eexists. split; [exact HN|]. exists m, replay, q'. done.
  - intros id. destruct (decide (id ∈ (q_attempted q).*1)) as [Hin|Hin].
    + apply list_elem_of_fmap in Hin as ([id' m] & -> & Hin).
      destruct (Ack_acks id' m l t s q Hq Hd Hin) as (es & infl & act & Hack & Hq'). eauto.
    + exists t, s. split; [by eapply Ack_unknown|].
      unfold q_attempted in Hin. rewrite fmap_app, not_elem_of_app in Hin. destruct Hin.
      unfold q_ack. rewrite !filter_ne_all by done. by destruct q.
Qed.

Lemma State_refines_queue_witness :
  ∃ r t' s', Admit example_message 5 9 DefaultLimits zero_snapshot (new_state (bs "a") (bs "u") 5)
    = Some (Ok r, t', s')
  ∧ represents_queue s' (if r is None then q_admit (mkMsg example_message 5 9) empty_queue else empty_queue).
Proof.
  apply (State_refines_queue DefaultLimits zero_snapshot (new_state (bs "a") (bs "u") 5) empty_queue eq_refl
    (new_state_ok DefaultLimits (bs "a") (bs "u") 5 eq_refl) eq_refl
    (new_state_queue (bs "a") (bs "u") 5) ltac:(constructor)).
  reflexivity.
Defined.

(** C16: at-least-once delivery in order: a connection that begins on a session with
    queue [q] and calls [Next] [k] times, within the in-flight limit, sends the
    [k] oldest messages of the queue in the order they were accepted; those sent
    on an earlier connection carry their old identifier and DUP, the others no
    DUP, and all identifiers in flight are distinct. *)
Theorem reconnect_redelivers l t s q k :
  Limits_Validate l = None → sess_ok l s → deleted s = false → paused s = false → epoch_room s →
  represents_queue s q → q_ok q →
  Z.of_nat k <= MaxInflightMessagesPerSession l → (k <= length (q_messages q))%nat →
  ∃ ep t1 s1 ds t2 s2,
    BeginDelivery l t s = Some (ep, t1, s1) ∧ drain k ep l t1 s1 = Some (ds, t2, s2)
    ∧ Forall2 delivers ds (take k (schedule (q_attempted q) (q_fresh q)))
    ∧ NoDup (PacketID <$> ds) ∧ activeInflight s2 = Z.of_nat k.
Proof.
  intros Hl Hs Hd Hp Hroom Hq Hok Hk Hlen. apply valid_limits in Hl as Hv.
  destruct (State_queue_begin l t s q Hq Hroom) as (s1 & Hbegin & Hq1 & Hep1 & Hd1 & Hp1).
  destruct (drain_sends l k t s1 (q_begin q)) as (ds & t2 & s2 & q2 & Hdr & Hq2 & Hids & Hall);
    try done; try lia; [congruence|congruence| | |].
  { destruct Hq as (? & ? & ? & Hrep & _). pose proof (rep_epoch _ _ _ _ Hrep). lia. }
  { unfold q_messages in Hlen. rewrite length_app in Hlen. unfold schedule. simpl.
    rewrite length_app, !length_fmap in *. done. }
  do 6 eexists. split; [exact Hbegin|]. rewrite <- Hep1. split; [exact Hdr|]. split; [done|].
  pose proof (represents_ids _ _ Hq2) as [Hnd _]. unfold q_attempted in Hnd. rewrite fmap_app, Hids in Hnd.
  simpl in Hnd. apply NoDup_app in Hnd as [Hnd _]. split; [done|].
  rewrite (represents_active _ _ Hq2). apply Forall2_length in Hall. rewrite length_take in Hall.
  apply (f_equal length) in Hids. simpl in Hids. rewrite !length_fmap in Hids. unfold len. rewrite Hids, Hall.
  unfold q_messages in Hlen. unfold schedule. simpl in *. rewrite !length_app, !length_fmap in *. lia.
Qed.

(** The session of the example, with one message. *)
Definition example_session : option (Limits * State) :=
  st ← run (example_ops ++ [OAdmit example_ptr example_message 5 9]) example_store;
  s ← states st !! example_ptr; Some (limits st, s).

Lemma reconnect_redelivers_witness :
  ∃ s, example_session = Some (DefaultLimits, s)
    ∧ ∃ ep t1 s1 ds t2 s2, BeginDelivery DefaultLimits zero_snapshot s = Some (ep, t1, s1)
      ∧ drain 1 ep DefaultLimits t1 s1 = Some (ds, t2, s2) ∧ length ds = 1%nat.
Proof.
  destruct example_session as [[l s]|] eqn:Hex; [|vm_compute in Hex; discriminate Hex].
  assert (Hs : sess_ok l s).
  { unfold example_session in Hex. destruct (run _ _) as [st|] eqn:Hrun; [|discriminate Hex]. simpl in Hex.
    destruct (states st !! example_ptr) as [s0|] eqn:Hp; [|discriminate Hex]. injection Hex as <- <-.
    assert (Hst : store_ok st) by (eapply example_run_ok; [|exact Hrun]; reflexivity).
    exact (sto_sessions _ Hst _ _ Hp). }
  assert (Hf : (deleted s, paused s, epoch s, PendingMessages (stats s)) = (false, false, 1, 1)).
  { vm_compute in Hex. injection Hex as _ <-. reflexivity. }
  injection Hf as Hd Hpa He Hm.
  assert (l = DefaultLimits) as -> by (vm_compute in Hex; injection Hex as <- _; reflexivity).
  destruct (so_queue _ _ Hs) as (q & Hq & Hok & Hc & _). unfold session_queue in Hq. rewrite Hd in Hq.
  rewrite Hm in Hc. exists s. split; [reflexivity|].
  destruct (reconnect_redelivers DefaultLimits zero_snapshot s q 1 eq_refl Hs Hd Hpa
    ltac:(unfold epoch_room; rewrite He; reflexivity) Hq Hok ltac:(vm_compute; discriminate))
    as (ep & t1 & s1 & ds & t2 & s2 & HB & HD & Hall & _); [unfold len in Hc; lia|].
  exists ep, t1, s1, ds, t2, s2. split; [exact HB|]. split; [exact HD|].
  apply Forall2_length in Hall. rewrite Hall, length_take. unfold schedule.
  unfold q_messages, len in Hc. rewrite length_app, !length_fmap in *. lia.
Defined.

(** A session belongs to the identity it was created for: asking for an
    existing session gives it to its owner and refuses anyone else with
    [ErrSessionOwner], and in both cases nothing at all changes; a new session is
    a new object, refused with [ErrSessionLimit] when the store is full; and no
    operation changes the name or owner of a session or revives a removed one. *)
Theorem session_ownership l n st :
  reachable l n st → Z.of_nat n + 1 < 2 ^ 64 →
  (∀ id owner now, match st_data st !! id with
    | Some p => ∃ s, states st !! p = Some s ∧ st_id s = id
        ∧ GetOrCreateOwned id owner now st
          = Some (if decide (st_owner s = owner) then Ok (p, true) else Error ErrSessionOwner, st)
    | None => ∃ r st', GetOrCreateOwned id owner now st = Some (r, st') ∧
        match r with
        | Ok (p, existed) => existed = false ∧ states st !! p = None ∧ msize (st_data st) < MaxSessions l
            ∧ st_data st' = <[id := p]> (st_data st) ∧ owner_of st' id = Some owner
        | Error e => e = ErrSessionLimit ∧ MaxSessions l <= msize (st_data st)
            ∧ st_data st' = st_data st ∧ states st' = states st
        end
    end)
  ∧ (∀ o st' p s, step o st = Some st' → states st !! p = Some s →
     ∃ s', states st' !! p = Some s' ∧ same_session s s').
Proof.
  intros Hr Hlt. destruct (reachable_ok l n st Hr ltac:(lia)) as [Hok Hep].
  assert (Hlim : limits st = l) by (eapply reachable_limits; [done|lia]). split.
  2: { intros o st' p s. apply (step_same (Z.of_nat n)); (done || lia). }
  intros id owner now. unfold GetOrCreateOwned. destruct (st_data st !! id) as [p|] eqn:Hid.
  - destruct (data_state st id p Hok Hid) as (s & Hp & Hsid & _). exists s. rewrite Hp. simpl.
    split; [done|]. split; [done|]. destruct (decide (st_owner s = owner)).
    + by rewrite bool_decide_eq_false_2 by tauto.
    + by rewrite bool_decide_eq_true_2.
  - rewrite Hlim. destruct (Z.leb_spec (MaxSessions l) (msize (st_data st))); do 2 eexists;
      (split; [reflexivity|]); [done|].
    split_and!; try done; [unfold new_ptr; apply not_elem_of_dom, is_fresh|].
    unfold owner_of. simpl. rewrite lookup_insert_eq. simpl. by rewrite lookup_insert_eq.
Qed.

Lemma session_ownership_witness :
  ∃ st, step (OGetOrCreateOwned (bs "a") (bs "u") 5) example_store = Some st
    ∧ GetOrCreateOwned (bs "a") (bs "v") 6 st = Some (Error ErrSessionOwner, st).
Proof.
  destruct (step (OGetOrCreateOwned (bs "a") (bs "u") 5) example_store) as [st|] eqn:Hstep; [|discriminate Hstep].
  exists st. split; [reflexivity|].
  destruct (session_ownership DefaultLimits 1 st) as [Hget _];
    [eapply reachable_step; [apply (reachable_new _ example_store); reflexivity|by eapply step_enabled|exact Hstep]
    |reflexivity|].
  specialize (Hget (bs "a") (bs "v") 6).
  assert (Hl : st_data st !! bs "a" = Some (new_ptr example_store)
    ∧ (st_owner <$> states st !! new_ptr example_store) = Some (bs "u"))
    by (vm_compute in Hstep; injection Hstep as <-; split; reflexivity).
  destruct Hl as [Hl Ho]. rewrite Hl in Hget. destruct Hget as (s & Hs & _ & ->).
  rewrite Hs in Ho. injection Ho as ->. reflexivity.
Defined.

(** C34: [Expire] removes exactly the sessions that are offline for at least
    [OfflineTTL] (none when it is 0), each named once, and nothing else: every
    other session, connected or not, is untouched and keeps its name. *)
Theorem Expire_exact now st :
  store_ok st →
  ∃ gone st', Expire now st = Some (gone, st') ∧ store_ok st' ∧ NoDup gone
  ∧ (∀ id, id ∈ gone ↔ ∃ p s, st_data st !! id = Some p ∧ states st !! p = Some s ∧ expired st now s)
  ∧ (∀ id, st_data st' !! id = if decide (id ∈ gone) then None else st_data st !! id)
  ∧ (∀ p s, states st !! p = Some s →
     states st' !! p = Some (if decide (st_id s ∈ gone ∧ deleted s = false) then removed s else s)).
Proof.
  intros Hst. destruct (Expire_expiry now st Hst) as (gone & st' & Hx & [Ok Li Go Nd Da Sta]).
  exists gone, st'. split_and!; try done.
  - intros id. rewrite Go. by setoid_rewrite elem_of_map_to_list.
  - intros p s Hs. by rewrite Sta, Hs.
Qed.

Definition example_ttl : Limits :=
  mkLimits 10 10 10 100 10 50 1 10 1000 10 1000 5.

Lemma Expire_exact_witness :
  ∃ st gone st', run [OGetOrCreateOwned (bs "a") (bs "u") 5] (mkStore ∅ ∅ example_ttl zero_snapshot) = Some st
    ∧ Expire 60 st = Some (gone, st') ∧ bs "a" ∈ gone.
Proof.
  destruct (GetOrCreateOwned_ok (bs "a") (bs "u") 5 (mkStore ∅ ∅ example_ttl zero_snapshot)
    (NewWithLimits_ok example_ttl _ eq_refl)) as (r & st & Hg & Hst).
  destruct (Expire_exact 60 st Hst) as (gone & st' & Hx & _ & _ & Hgone & _).
  exists st, gone, st'. cbn [run step]. rewrite Hg. split; [reflexivity|]. split; [exact Hx|].
  vm_compute in Hg. injection Hg as _ <-. apply Hgone.
  do 2 eexists. split; [reflexivity|]. split; [reflexivity|]. vm_compute. repeat split; discriminate.
Defined.

(** The search of [Next] for a packet identifier ends whenever one of the 65535
    is free, and gives the first free one after the last one given (so an
    identifier is reused as late as possible), never 0. *)
Theorem allocate_packetID_first_free infl last :
  0 <= last < 65536 → msize infl < 65535 →
  ∃ k id, allocate_packetID infl last = Some id ∧ 0 <= k ∧ id = (last + k) mod 65535 + 1
    ∧ 0 < id < 65536 ∧ infl !! id = None
    ∧ ∀ j, 0 <= j < k → is_Some (infl !! ((last + j) mod 65535 + 1)).
Proof.
  intros Hl Hs. destruct (allocate_packetID_free infl last Hl Hs) as (k & Hk & Hal & Hfree & Hused).
  exists k, (nth_packetID last k). split_and!; try done; apply nth_packetID_range.
Qed.

Definition example_inflight : gmap Z nat := {[1 := 0%nat; 65535 := 1%nat]}.

Lemma allocate_packetID_first_free_witness :
  ∃ id, allocate_packetID example_inflight 65534 = Some id ∧ 0 < id < 65536.
Proof.
  destruct (allocate_packetID_first_free example_inflight 65534 ltac:(lia) ltac:(vm_compute; reflexivity))
    as (k & id & Hal & _ & _ & Hid & _).
  exists id. split; [exact Hal|exact Hid].
Defined.

(** [SnapshotSubscriptions] gives every subscription of the session exactly
    once, in the order of the filters, and changes nothing. *)
Lemma SnapshotSubscriptions_sorted l t s :
  ∃ subs, SnapshotSubscriptions l t s = Some (subs, t, s)
  ∧ Sorted filter_le subs ∧ NoDup (ss_Filter <$> subs)
  ∧ ∀ f q, mkSessSub f q ∈ subs ↔ subscriptions s !! f = Some q.
Proof.
  eexists. split; [reflexivity|]. split; [apply (Sorted_merge_sort _)|].
  set (subs := (λ fq, mkSessSub fq.1 fq.2) <$> map_to_list (subscriptions s)).
  pose proof (merge_sort_Permutation filter_le subs) as Hp. split.
  - rewrite Hp. unfold subs. rewrite <- list_fmap_compose. apply NoDup_fst_map_to_list.
  - intros f q. rewrite Hp. unfold subs. rewrite list_elem_of_fmap. split.
    + intros ([f' q'] & [= -> ->] & Hin). by apply elem_of_map_to_list in Hin.
    + intros Hl. exists (f, q). by rewrite elem_of_map_to_list.
Qed.

(** The constructors without arguments make well-formed values. *)
Lemma NewState_ok now : ∃ p st, NewState now = Some (p, st) ∧ store_ok st ∧ is_Some (states st !! p).
Proof.
  destruct (GetOrCreateOwned_ok [] [] now (mkStore ∅ ∅ DefaultLimits zero_snapshot) (NewWithLimits_ok DefaultLimits _ eq_refl))
    as (r & st & Hg & Hst).
  assert (Hr : ∃ p b, r = Ok (p, b) ∧ is_Some (states st !! p)).
  { unfold GetOrCreateOwned in Hg. simpl in Hg. injection Hg as <- <-. do 2 eexists. split; [reflexivity|]. by eexists. }
  destruct Hr as (p & b & -> & Hp). exists p, st. split; [|done].
  assert (E : NewWithLimits DefaultLimits = Ok (mkStore ∅ ∅ DefaultLimits zero_snapshot)) by reflexivity.
  unfold NewState, Store_New, GetOrCreate. rewrite E. cbn [mbind option_bind]. by rewrite Hg.
Qed.
