(* ===== verification/Broker.v ===== *)
(** The broker (src/internal/broker/broker.go): the routing tree and the retained
    messages.

    Both are copy-on-write: an update runs under a mutex, copies the value it
    loaded and stores the copy, and readers use the value they loaded.  A model
    operation is one such update, on immutable values; [Snapshots] shows that the
    interleaved statements of concurrent calls amount to that. *)

From S2P Require Import Prelude Topic Wire Filters Tree.

Local Open Scope Z_scope.
Local Open Scope orb_scope.

(** * Definitions *)

Record RetainedLimits := mkRetainedLimits {
  MaxMessages : Z;
  MaxBytes : Z }.

Definition DefaultRetainedLimits : RetainedLimits := mkRetainedLimits 10000 (Z.shiftl 64 20).

Definition RetainedLimits_Validate (l : RetainedLimits) : option error :=
  if (MaxMessages l <=? 0) || (MaxBytes l <=? 0)
  then Some (New "retained limits must be positive") else None.

(** The source's [broker.Snapshot]. *)
Record RetainedStats := mkRetainedStats {
  RetainedMessages : Z;
  RetainedBytes : Z;
  RetainedRejections : Z }.

Record Broker := mkBroker {
  topics : Tree;
  retained : gmap bytes PublishPacket;
  b_limits : RetainedLimits;
  b_stats : RetainedStats }.

Definition Broker_NewWithLimits (l : RetainedLimits) : result Broker :=
  match RetainedLimits_Validate l with
  | Some err => Error err
  | None => Ok (mkBroker NewTree ∅ l (mkRetainedStats 0 0 0))
  end.

(** [New] of the package; none stands for nil. *)
Definition Broker_New : option Broker :=
  match Broker_NewWithLimits DefaultRetainedLimits with Ok b => Some b | Error _ => None end.

Definition Broker_Snapshot (b : Broker) : RetainedStats := b_stats b.

Definition set_topics (b : Broker) (t : Tree) : Broker := mkBroker t (retained b) (b_limits b) (b_stats b).

Definition Broker_Subscribe (b : Broker) (filter : bytes) (qos : Z) (sub : Subscriber) : Broker :=
  set_topics b (Tree.Subscribe (Clone (topics b)) filter (mkSubscription (ID sub) sub qos)).

Definition Broker_Unsubscribe (b : Broker) (filter clientID : bytes) : Broker :=
  set_topics b (Tree.Unsubscribe (Clone (topics b)) filter clientID).

Definition Broker_UnsubscribeAll (b : Broker) (clientID : bytes) : Broker :=
  set_topics b (Tree.UnsubscribeAll (Clone (topics b)) clientID).

(** [len(m.Topic) + len(m.Payload)]. *)
Definition retained_size (p : PublishPacket) : Z := len (pub_Topic p) + len (pub_Payload p).

(** The copy of the message that is kept. *)
Definition retained_copy (p : PublishPacket) : PublishPacket :=
  mkPublish (pub_Topic p) (pub_Payload p) true false (pub_QoS p) (pub_PacketID p).

(** The error is [ErrRetainedLimit] or nil. *)
Definition updateRetained (b : Broker) (pub : PublishPacket) : option error * Broker :=
  let oldMap := retained b in
  let st := b_stats b in
  let oldBytes := match oldMap !! pub_Topic pub with Some old => retained_size old | None => 0 end in
  let newBytes := if 0 <? len (pub_Payload pub) then retained_size pub else 0 in
  if (0 <? len (pub_Payload pub))
     && ((match oldMap !! pub_Topic pub with Some _ => false | None => true end
          && (MaxMessages (b_limits b) <=? msize oldMap))
         || (MaxBytes (b_limits b) - (RetainedBytes st - oldBytes) <? newBytes))
  then (Some ErrRetainedLimit,
        mkBroker (topics b) oldMap (b_limits b)
          (mkRetainedStats (RetainedMessages st) (RetainedBytes st) (u64 (RetainedRejections st + 1))))
  else
    let newMap := if len (pub_Payload pub) =? 0 then delete (pub_Topic pub) oldMap
                  else <[pub_Topic pub := retained_copy pub]> oldMap in
    (None, mkBroker (topics b) newMap (b_limits b)
             (mkRetainedStats (msize newMap) (RetainedBytes st + (newBytes - oldBytes)) (RetainedRejections st))).

(** [deliver] threads the state of the server; its error is ignored here. *)
Definition Publish {S} (b : Broker) (pub : PublishPacket)
    (deliver : Subscription → S → option error * S) (st : S) : option error * Broker * S :=
  let '(err, b) := if pub_Retain pub then updateRetained b pub else (None, b) in
  match err with
  | Some err => (Some err, b, st)
  | None => (None, b, foldl (λ st sub, (deliver sub st).2) st (Match (topics b) (pub_Topic pub)))
  end.

Definition RetainedMatching (b : Broker) (filter : bytes) : list PublishPacket :=
  (base.filter (λ kv, MatchFilter filter kv.1 = true) (map_to_list (retained b))).*2.

(** * The invariant *)

(** What the broker keeps for a topic. *)
Definition retained_ok (t : bytes) (p : PublishPacket) : Prop :=
  pub_Topic p = t ∧ 0 < len (pub_Payload p) ∧ pub_Retain p = true ∧ pub_DUP p = false.

Record broker_ok (b : Broker) : Prop := {
  bo_limits : RetainedLimits_Validate (b_limits b) = None;
  bo_retained t p : retained b !! t = Some p → retained_ok t p;
  bo_messages : RetainedMessages (b_stats b) = msize (retained b);
  bo_bytes : RetainedBytes (b_stats b) = msum retained_size (retained b);
  bo_max_messages : msize (retained b) <= MaxMessages (b_limits b);
  bo_max_bytes : msum retained_size (retained b) <= MaxBytes (b_limits b);
  bo_tree : node_ok (root (topics b));
  bo_filters : filters_ok (topics b) }.

Lemma retained_size_nonneg p : 0 <= retained_size p.
Proof. unfold retained_size, len. lia. Qed.

Lemma retained_size_copy p : retained_size (retained_copy p) = retained_size p.
Proof. done. Qed.

(** The retained messages after [pub] is stored or, when its payload is empty, removed. *)
Definition retained_after (b : Broker) (pub : PublishPacket) : gmap bytes PublishPacket :=
  if len (pub_Payload pub) =? 0 then delete (pub_Topic pub) (retained b)
  else <[pub_Topic pub := retained_copy pub]> (retained b).

Definition within_limits (l : RetainedLimits) (m : gmap bytes PublishPacket) : Prop :=
  msize m <= MaxMessages l ∧ msum retained_size m <= MaxBytes l.

#[export] Instance within_limits_dec l m : Decision (within_limits l m).
Proof. unfold within_limits. apply _. Defined.

Lemma msum_delete_le (m : gmap bytes PublishPacket) t :
  msum retained_size (delete t m)
  = msum retained_size m - match m !! t with Some old => retained_size old | None => 0 end.
Proof.
  destruct (m !! t) as [old|] eqn:Hl; [by apply msum_delete|]. rewrite delete_id by done. lia.
Qed.

Lemma msum_insert (m : gmap bytes PublishPacket) t p :
  msum retained_size (<[t := p]> m)
  = msum retained_size m - match m !! t with Some old => retained_size old | None => 0 end + retained_size p.
Proof.
  destruct (m !! t) as [old|] eqn:Hl; [by apply msum_insert_Some|]. rewrite msum_insert_None by done. lia.
Qed.

Lemma msize_insert (m : gmap bytes PublishPacket) t p :
  msize (<[t := p]> m) = msize m + match m !! t with Some _ => 0 | None => 1 end.
Proof.
  unfold msize. destruct (m !! t) eqn:Hl; [rewrite map_size_insert_Some by eauto|rewrite map_size_insert_None by done]; lia.
Qed.

Lemma msize_delete_le (m : gmap bytes PublishPacket) t : msize (delete t m) <= msize m.
Proof.
  unfold msize. destruct (m !! t) eqn:Hl; [rewrite map_size_delete_Some by eauto; lia|by rewrite delete_id].
Qed.

Lemma msum_after b pub :
  msum retained_size (retained_after b pub)
  = msum retained_size (retained b)
    - match retained b !! pub_Topic pub with Some old => retained_size old | None => 0 end
    + if len (pub_Payload pub) =? 0 then 0 else retained_size pub.
Proof.
  unfold retained_after. destruct (_ =? 0); [rewrite msum_delete_le; lia|]. by rewrite msum_insert.
Qed.

(** Storing adds a message at most; removing adds none. *)
Lemma msize_after b pub :
  if len (pub_Payload pub) =? 0 then msize (retained_after b pub) <= msize (retained b)
  else msize (retained_after b pub)
       = msize (retained b) + match retained b !! pub_Topic pub with Some _ => 0 | None => 1 end.
Proof.
  unfold retained_after. destruct (_ =? 0); [apply msize_delete_le|apply msize_insert].
Qed.

(** [updateRetained] refuses exactly what would exceed a limit. *)
Lemma updateRetained_cases b pub :
  broker_ok b →
  updateRetained b pub =
  if decide (within_limits (b_limits b) (retained_after b pub))
  then (None, mkBroker (topics b) (retained_after b pub) (b_limits b)
                (mkRetainedStats (msize (retained_after b pub)) (msum retained_size (retained_after b pub))
                   (RetainedRejections (b_stats b))))
  else (Some ErrRetainedLimit, mkBroker (topics b) (retained b) (b_limits b)
          (mkRetainedStats (RetainedMessages (b_stats b)) (RetainedBytes (b_stats b))
             (u64 (RetainedRejections (b_stats b) + 1)))).
Proof.
  intros Hb. unfold updateRetained. rewrite (bo_bytes _ Hb).
  pose proof (bo_max_messages _ Hb). pose proof (bo_max_bytes _ Hb).
  assert (Hlen : 0 <= len (pub_Payload pub)) by (unfold len; lia).
  pose proof (msum_after b pub) as Hsum. pose proof (msize_after b pub) as Hsize.
  unfold retained_after in *. destruct (Z.eqb_spec (len (pub_Payload pub)) 0) as [Hz|Hz].
  - destruct (Z.ltb_spec 0 (len (pub_Payload pub))); [lia|]. simpl andb. cbv iota.
    assert (Hold : 0 <= match retained b !! pub_Topic pub with Some old => retained_size old | None => 0 end)
      by (destruct (retained b !! pub_Topic pub); [apply retained_size_nonneg|done]).
    rewrite decide_True by (unfold within_limits; lia). do 3 f_equal. lia.
  - destruct (Z.ltb_spec 0 (len (pub_Payload pub))); [|lia]. simpl andb. cbv iota.
    destruct (decide (within_limits _ _)) as [[Hm By]|Hno].
    + replace (_ || _) with false; [do 3 f_equal; lia|]. symmetry. apply orb_false_iff.
      split; [|apply Z.ltb_ge; lia].
      destruct (retained b !! pub_Topic pub); simpl; [done|]. apply Z.leb_gt. lia.
    + replace (_ || _) with true; [done|]. symmetry. apply orb_true_iff.
      destruct (decide (msize (<[pub_Topic pub:=retained_copy pub]> (retained b)) <= MaxMessages (b_limits b)));
        [right; apply Z.ltb_lt; unfold within_limits in Hno; lia|left].
      destruct (retained b !! pub_Topic pub); simpl; [lia|]. apply Z.leb_le. lia.
Qed.

Lemma retained_after_ok b pub t p :
  broker_ok b → retained_after b pub !! t = Some p → retained_ok t p.
Proof.
  intros Hb. unfold retained_after. destruct (Z.eqb_spec (len (pub_Payload pub)) 0).
  - intros [_ Hl]%lookup_delete_Some. by apply (bo_retained _ Hb).
  - intros [[<- <-]|[_ Hl]]%lookup_insert_Some; [|by apply (bo_retained _ Hb)].
    split_and!; try done. simpl. unfold len in *. lia.
Qed.

Lemma updateRetained_ok b pub : broker_ok b → broker_ok (updateRetained b pub).2.
Proof.
  intros Hb. rewrite updateRetained_cases by done. destruct (decide _) as [[? ?]|Hno].
  - pose proof Hb as []. split; simpl; try done. intros t p. by apply retained_after_ok.
  - destruct Hb. by split.
Qed.

Lemma set_topics_ok b t : broker_ok b → node_ok (root t) → filters_ok t → broker_ok (set_topics b t).
Proof. intros [] ? ?. by split. Qed.

Lemma Broker_Subscribe_ok b f q sub :
  ValidateTopicFilter f = None → broker_ok b → broker_ok (Broker_Subscribe b f q sub).
Proof.
  intros Hf Hb. pose proof (bo_tree _ Hb). pose proof (bo_filters _ Hb).
  apply set_topics_ok; [done|..]; unfold Clone; rewrite clone_id; destruct (topics b); simpl; auto with orb.
Qed.

Lemma Broker_Unsubscribe_ok b f c : broker_ok b → broker_ok (Broker_Unsubscribe b f c).
Proof.
  intros Hb. pose proof (bo_tree _ Hb). pose proof (bo_filters _ Hb).
  apply set_topics_ok; [done|..]; unfold Clone; rewrite clone_id; destruct (topics b); simpl; auto with orb.
Qed.

Lemma Broker_UnsubscribeAll_ok b c : broker_ok b → broker_ok (Broker_UnsubscribeAll b c).
Proof.
  intros Hb. pose proof (bo_tree _ Hb). pose proof (bo_filters _ Hb).
  apply set_topics_ok; [done|..]; unfold Clone; rewrite clone_id; destruct (topics b); simpl; auto with orb.
Qed.

#[export] Hint Resolve Broker_Subscribe_ok Broker_Unsubscribe_ok Broker_UnsubscribeAll_ok updateRetained_ok : orb.

Lemma Publish_ok {S} b pub (deliver : Subscription → S → option error * S) st :
  broker_ok b → broker_ok (Publish b pub deliver st).1.2.
Proof.
  intros Hb. unfold Publish. destruct (pub_Retain pub); [|done].
  pose proof (updateRetained_ok b pub Hb). by destruct (updateRetained b pub) as [[err|] b'].
Qed.

Lemma Broker_NewWithLimits_ok l b : Broker_NewWithLimits l = Ok b → broker_ok b.
Proof.
  unfold Broker_NewWithLimits. destruct (RetainedLimits_Validate l) eqn:Hl; [done|].
  intros [= <-]. unfold RetainedLimits_Validate in Hl.
  destruct (_ || _) eqn:Hv; [discriminate Hl|]. bool_to_prop.
  split; simpl; try done; try (rewrite msum_empty); try (unfold msize; rewrite map_size_empty); try lia;
    auto with orb.
  unfold RetainedLimits_Validate. destruct (Z.leb_spec (MaxMessages l) 0), (Z.leb_spec (MaxBytes l) 0); simpl; lia || done.
Qed.

(** * Theorems *)

(** C32: the broker keeps its accounts and its limits: from [NewWithLimits] on, every
    operation keeps the routing tree well shaped with valid filters, the retained
    messages stored under their topic, non-empty, with RETAIN set and DUP clear,
    the statistics equal to the number and the bytes of the retained messages,
    and both within the limits. *)
Theorem broker_invariant :
  (∀ l b, Broker_NewWithLimits l = Ok b → broker_ok b)
  ∧ (∀ b f q sub, broker_ok b → ValidateTopicFilter f = None → broker_ok (Broker_Subscribe b f q sub))
  ∧ (∀ b f c, broker_ok b → broker_ok (Broker_Unsubscribe b f c))
  ∧ (∀ b c, broker_ok b → broker_ok (Broker_UnsubscribeAll b c))
  ∧ (∀ S b pub (deliver : Subscription → S → option error * S) st,
       broker_ok b → broker_ok (Publish b pub deliver st).1.2).
Proof.
  split_and!; [apply Broker_NewWithLimits_ok|auto with orb..|intros; by apply Publish_ok].
Qed.

(** C33: a retained update is refused exactly when the map it would produce exceeds
    a limit (so removing is never refused); then nothing changes but the counter
    and nobody is delivered to.  Otherwise the map is the one of before with the
    topic set to the message (RETAIN set, DUP clear), or removed when the payload
    is empty, and the message goes to the subscribers. *)
Theorem updateRetained_exact {S} b pub (deliver : Subscription → S → option error * S) (st : S) :
  broker_ok b → pub_Retain pub = true →
  let '(err, b', st') := Publish b pub deliver st in
  if decide (within_limits (b_limits b) (retained_after b pub))
  then err = None ∧ retained b' = retained_after b pub ∧ topics b' = topics b
       ∧ RetainedRejections (b_stats b') = RetainedRejections (b_stats b)
       ∧ st' = foldl (λ st sub, (deliver sub st).2) st (Match (topics b) (pub_Topic pub))
  else err = Some ErrRetainedLimit ∧ 0 < len (pub_Payload pub) ∧ st' = st
       ∧ retained b' = retained b ∧ topics b' = topics b
       ∧ RetainedMessages (b_stats b') = RetainedMessages (b_stats b)
       ∧ RetainedBytes (b_stats b') = RetainedBytes (b_stats b)
       ∧ RetainedRejections (b_stats b') = u64 (RetainedRejections (b_stats b) + 1).
Proof.
  intros Hb Hr. unfold Publish. rewrite Hr, updateRetained_cases by done.
  destruct (decide _) as [Hw|Hno]; simpl; [done|]. split_and!; try done.
  unfold len. destruct (pub_Payload pub) as [|c payload] eqn:Hp; [|simpl; lia].
  exfalso. apply Hno. pose proof (msum_after b pub) as Hsum. pose proof (msize_after b pub) as Hsize.
  rewrite Hp in Hsum, Hsize. change (len [] =? 0) with true in *. cbv iota in *.
  pose proof (bo_max_messages _ Hb). pose proof (bo_max_bytes _ Hb).
  assert (Hold : 0 <= match retained b !! pub_Topic pub with Some old => retained_size old | None => 0 end)
    by (destruct (retained b !! pub_Topic pub); [apply retained_size_nonneg|done]).
  unfold within_limits. lia.
Qed.

Definition example_broker : Broker :=
  mkBroker NewTree ∅ (mkRetainedLimits 1 8) (mkRetainedStats 0 0 0).

Lemma example_broker_ok : broker_ok example_broker.
Proof.
  split; simpl; try done; try (rewrite msum_empty); try (unfold msize; rewrite map_size_empty); try lia; auto with orb.
Qed.

Lemma updateRetained_exact_witness :
  let pub := mkPublish (bs "a") (bs "too long") true false 0 0 in
  ¬ within_limits (b_limits example_broker) (retained_after example_broker pub)
  ∧ (Publish example_broker pub (λ _ n, (None, S n)) 0%nat).1.1 = Some ErrRetainedLimit.
Proof.
  intros pub.
  pose proof (updateRetained_exact example_broker pub (λ _ n, (None, S n)) 0%nat example_broker_ok eq_refl) as Hx.
  assert (Hno : ¬ within_limits (b_limits example_broker) (retained_after example_broker pub))
    by (intros [_ Hw]; vm_compute in Hw; by apply Hw).
  split; [exact Hno|]. destruct (Publish _ _ _ _) as [[err b'] st'].
  destruct (decide _) as [Hw|]; [destruct (Hno Hw)|]. destruct Hx as [-> _]. reflexivity.
Defined.

(** [RetainedMatching] gives exactly the retained messages whose topic matches
    the filter, each once, with RETAIN set and DUP clear. *)
Theorem RetainedMatching_exact b filter :
  broker_ok b →
  NoDup (pub_Topic <$> RetainedMatching b filter)
  ∧ ∀ p, p ∈ RetainedMatching b filter ↔
      retained b !! pub_Topic p = Some p ∧ MatchFilter filter (pub_Topic p) = true.
Proof.
  intros Hb. unfold RetainedMatching.
  set (l := base.filter _ _). assert (Hl : ∀ t p, (t, p) ∈ l ↔ retained b !! t = Some p ∧ MatchFilter filter t = true).
  { intros t p. unfold l. rewrite list_elem_of_filter, elem_of_map_to_list. simpl. tauto. }
  assert (Hkey : ∀ t p, (t, p) ∈ l → pub_Topic p = t) by (intros t p [Hr _]%Hl; by apply (bo_retained _ Hb)).
  split.
  - replace (pub_Topic <$> l.*2) with l.*1.
    + apply NoDup_fmap_fst; [|apply NoDup_filter, NoDup_map_to_list].
      intros t p1 p2 [H1 _]%Hl [H2 _]%Hl. congruence.
    + rewrite <- list_fmap_compose. apply list_fmap_ext. intros i [t p] Hi. simpl. symmetry.
      apply Hkey. by eapply list_elem_of_lookup_2.
  - intros p. rewrite list_elem_of_fmap. split.
    + intros ([t p'] & -> & Hin). simpl. rewrite (Hkey _ _ Hin). by apply Hl.
    + intros Hp. exists (pub_Topic p, p). split; [done|]. by apply Hl.
Qed.

Lemma RetainedMatching_exact_witness :
  let b := (Publish example_broker (mkPublish (bs "a/b") (bs "x") true true 1 7) (λ _ st, (None, st)) tt).1.2 in
  mkPublish (bs "a/b") (bs "x") true false 1 7 ∈ RetainedMatching b (bs "a/#").
Proof.
  intros b. apply (RetainedMatching_exact b (bs "a/#")).
  - apply Publish_ok, example_broker_ok.
  - split; vm_compute; reflexivity.
Defined.
