(* ===== verification/Delivery.v ===== *)
(** How the server prepares a message for its subscribers (the end of
    src/internal/server/server.go): the QoS of a delivery, the packet sent, the
    template of QoS 1 deliveries with the offset of its identifier, and the cache
    shared by the subscribers of one message.

    [encodeFn] is the server's [encodePublishFn] field; [encodePublishPacket] is
    its default. *)

From S2P Require Import Prelude Wire Encoder Decoder Codec CodecProofs Session SessionQueue.

Local Open Scope Z_scope.
Local Open Scope orb_scope.

(** * Definitions *)

Definition deliveryQoS (publishQoS subscriptionQoS : Z) : Z :=
  if subscriptionQoS <? publishQoS then subscriptionQoS else publishQoS.

Definition newOutboundPublish (pub : PublishPacket) (qos : Z) : PublishPacket :=
  mkPublish (pub_Topic pub) (pub_Payload pub) (pub_Retain pub) false qos 0.

Definition encodePublishPacket (pub : PublishPacket) : result bytes := EncodePublish pub.

Record publishTemplate := mkTemplate {
  raw : bytes;
  t_packetIDOffset : Z }.

(** The loop of [encodedLengthSize]; four rounds are enough for a length below
    [128 ^ 4] ([encodedLengthSize_varint]). *)
Fixpoint encodedLengthSize_loop (fuel : nat) (size length : Z) : Z :=
  match fuel with
  | O => size
  | S fuel =>
      let size := size + 1 in
      let length := length / 128 in
      if length =? 0 then size else encodedLengthSize_loop fuel size length
  end.

(** A Go [int] has at most ten digits to base 128. *)
Definition encodedLengthSize (length : Z) : Z := encodedLengthSize_loop 10 0 length.

Definition publishPacketIDOffset (topic : bytes) (payloadLen : Z) : Z :=
  let remainingLength := 2 + len topic + 2 + payloadLen in
  1 + encodedLengthSize remainingLength + 2 + len topic.

Definition newPublishTemplate (encodeFn : PublishPacket → result bytes) (pub : PublishPacket)
    : result publishTemplate :=
  fail_if negb (pub_QoS pub =? 1) with New "publish template requires QoS 1" in
  let! raw := encodeFn (mkPublish (pub_Topic pub) (pub_Payload pub) (pub_Retain pub) false (pub_QoS pub) 1) in
  Ok (mkTemplate raw (publishPacketIDOffset (pub_Topic pub) (len (pub_Payload pub)))).

(** A nil slice and a nil pointer are [None]. *)
Record publishDeliveryCache := mkCache {
  qos0 : option bytes;
  qos1 : option publishTemplate }.

Definition empty_cache : publishDeliveryCache := mkCache None None.

Definition qos0Payload (c : publishDeliveryCache) (encodeFn : PublishPacket → result bytes)
    (pub : PublishPacket) : result bytes * publishDeliveryCache :=
  match qos0 c with
  | Some raw => (Ok raw, c)
  | None =>
      match encodeFn pub with
      | Error err => (Error err, c)
      | Ok raw => (Ok raw, mkCache (Some raw) (qos1 c))
      end
  end.

Definition qos1Template (c : publishDeliveryCache) (encodeFn : PublishPacket → result bytes)
    (pub : PublishPacket) : result publishTemplate * publishDeliveryCache :=
  match qos1 c with
  | Some template => (Ok template, c)
  | None =>
      match newPublishTemplate encodeFn pub with
      | Error err => (Error err, c)
      | Ok template => (Ok template, mkCache (qos0 c) (Some template))
      end
  end.

(** * The offset of the identifier *)

Lemma encodedLengthSize_varint fuel fuel' size n :
  0 <= n < 128 ^ Z.of_nat (S fuel) → (fuel <= fuel')%nat →
  encodedLengthSize_loop (S fuel') size n = size + len (encodeRemainingLength_loop (S fuel) n).
Proof.
  revert fuel' size n. induction fuel as [|fuel IH]; intros fuel' size n Hn Hf.
  - simpl. rewrite (Z.div_small n 128) by lia. simpl. unfold len. simpl. lia.
  - destruct fuel' as [|fuel']; [lia|]. rewrite Nat2Z.inj_succ, Z.pow_succ_r in Hn by lia.
    remember (S fuel) as k. remember (S fuel') as k'. simpl. rewrite len_cons. subst k k'.
    destruct (Z.eqb_spec (n / 128) 0); [unfold len; simpl; lia|].
    rewrite IH; [lia| |lia]. split; [apply Z.div_pos; lia|apply Z.div_lt_upper_bound; lia].
Qed.

Lemma encodedLengthSize_ok n ds :
  encodeRemainingLength n = Ok ds → encodedLengthSize n = len ds.
Proof.
  unfold encodeRemainingLength. destruct (_ || _) eqn:Hn; [done|]. intros [= <-]. bool_to_prop.
  unfold encodedLengthSize. rewrite (encodedLengthSize_varint 3 9 0 n); [done| |lia].
  change (128 ^ Z.of_nat 4) with 268435456. unfold MaxRemainingLength in *. lia.
Qed.

(** * Patching a template *)

(** Writing at a position inside a list that is split there. *)
Lemma set_byte_app d1 x d2 i b : i = len d1 → set_byte (d1 ++ x :: d2) i b = Some (d1 ++ b :: d2).
Proof.
  intros ->. unfold set_byte. rewrite len_app, len_cons.
  pose proof (len_nonneg d1). pose proof (len_nonneg d2).
  destruct (Z.leb_spec 0 (len d1)), (Z.ltb_spec (len d1) (len d1 + (1 + len d2))); try lia. simpl.
  f_equal. unfold len at 1. rewrite Nat2Z.id. rewrite insert_app_r_alt by lia. by rewrite Nat.sub_diag.
Qed.

(** The PUBLISH of QoS 1 that [EncodePublish] writes, in three pieces. *)
Definition qos1_packet (pub : PublishPacket) (dup : bool) (id : Z) : PublishPacket :=
  mkPublish (pub_Topic pub) (pub_Payload pub) (pub_Retain pub) dup 1 id.

Definition qos1_head (pub : PublishPacket) (ds : bytes) : bytes := ds ++ field (pub_Topic pub).

Lemma publish_flags_dup (pub : PublishPacket) (dup : bool) (id : Z) :
  publish_flags (qos1_packet pub dup id) = flag_bit dup 8 + 2 + flag_bit (pub_Retain pub) 1.
Proof. reflexivity. Qed.

Lemma qos1_body pub dup id :
  publish_body (qos1_packet pub dup id) = field (pub_Topic pub) ++ put_be16 id ++ pub_Payload pub.
Proof. reflexivity. Qed.

Lemma EncodePublish_qos1 pub dup id data :
  publish_typed pub → 0 < id < 65536 →
  EncodePublish (qos1_packet pub dup id) = Ok data ↔
  publishable (qos1_packet pub dup id) ∧ ∃ ds,
    encodeRemainingLength (2 + len (pub_Topic pub) + 2 + len (pub_Payload pub)) = Ok ds
    ∧ data = (50 + flag_bit dup 8 + flag_bit (pub_Retain pub) 1)
             :: qos1_head pub ds ++ put_be16 id ++ pub_Payload pub.
Proof.
  intros (_ & _ & Ht & Hp) Hid.
  assert (Hty : publish_typed (qos1_packet pub dup id)) by (split_and!; simpl; unfold is_byte; done || lia).
  rewrite (EncodePublish_eq _ _ Hty), len_publish_body, qos1_body, publish_flags_dup. unfold qos1_head.
  change (if 0 <? pub_QoS (qos1_packet pub dup id) then ?a else ?b) with a. simpl pub_Topic. simpl pub_Payload.
  change (PacketTypePublish * 16) with 48.
  split; intros (Hok & ds & Hds & ->); (split; [done|]); exists ds; (split; [done|]);
    rewrite <- app_assoc; f_equal; lia.
Qed.

Lemma qos1_publishable pub dup dup' id id' :
  0 < id' → publishable (qos1_packet pub dup id) → publishable (qos1_packet pub dup' id').
Proof.
  intros Hid (Hv & Hq & _ & _ & Hl). rewrite len_publish_body in Hl.
  split_and!; try done; try (simpl in *; lia). by rewrite len_publish_body.
Qed.

Lemma flip_dup (dup : bool) (replay t : bool) :
  (if replay then Z.lor (50 + flag_bit dup 8 + flag_bit t 1) 8 else Z.ldiff (50 + flag_bit dup 8 + flag_bit t 1) 8)
  = 50 + flag_bit replay 8 + flag_bit t 1.
Proof. by destruct dup, replay, t. Qed.

(** [patch] turns the encoding for one identifier and DUP flag into another's. *)
Lemma patch_qos1 pub ds id id' replay rest :
  0 <= id' < 65536 →
  patch ((50 + flag_bit false 8 + flag_bit (pub_Retain pub) 1) :: qos1_head pub ds ++ put_be16 id ++ rest)
    (1 + len (qos1_head pub ds)) id' replay
  = Some ((50 + flag_bit replay 8 + flag_bit (pub_Retain pub) 1) :: qos1_head pub ds ++ put_be16 id' ++ rest).
Proof.
  intros Hid. set (h := qos1_head pub ds). set (b0 := 50 + flag_bit false 8 + flag_bit (pub_Retain pub) 1).
  unfold patch.
  assert (Hget : get_byte (b0 :: h ++ put_be16 id ++ rest) 0 = Some b0).
  { unfold get_byte. rewrite len_cons. pose proof (len_nonneg (h ++ put_be16 id ++ rest)).
    by destruct (Z.ltb_spec 0 (1 + len (h ++ put_be16 id ++ rest))); [|lia]. }
  rewrite Hget. cbn [mbind option_bind].
  rewrite (set_byte_app [] b0 (h ++ put_be16 id ++ rest) 0) by done. cbn [mbind option_bind app].
  unfold b0. rewrite flip_dup. set (b1 := 50 + flag_bit replay 8 + flag_bit (pub_Retain pub) 1).
  unfold put_be16 at 1. cbn [app]. rewrite (app_comm_cons h).
  rewrite (set_byte_app (b1 :: h) _ _ (1 + len h)) by (by rewrite len_cons). cbn [mbind option_bind].
  change ((b1 :: h) ++ u8 (Z.shiftr id' 8) :: u8 id :: rest)
    with (b1 :: h ++ [u8 (Z.shiftr id' 8)] ++ u8 id :: rest).
  rewrite app_comm_cons, app_assoc.
  rewrite (set_byte_app ((b1 :: h) ++ [u8 (Z.shiftr id' 8)]))
    by (rewrite len_app, len_cons; unfold len; simpl; lia).
  f_equal. rewrite <- app_assoc. unfold put_be16, u16. simpl. do 3 f_equal. by rewrite (Z.mod_small id').
Qed.

(** The header byte of a template passes the test of [Admit]. *)
Lemma qos1_header_valid (t : bool) :
  let b0 := 50 + flag_bit false 8 + flag_bit t 1 in
  (Z.shiftr b0 4 =? 3) = true ∧ (Z.land (Z.shiftr b0 1) 3 =? 1) = true.
Proof. by destruct t. Qed.

Lemma newPublishTemplate_eq pub tmpl :
  publish_typed pub → newPublishTemplate encodePublishPacket (newOutboundPublish pub 1) = Ok tmpl →
  publishable (qos1_packet pub false 1) ∧ ∃ ds,
    encodeRemainingLength (2 + len (pub_Topic pub) + 2 + len (pub_Payload pub)) = Ok ds
    ∧ tmpl = mkTemplate ((50 + flag_bit false 8 + flag_bit (pub_Retain pub) 1)
                         :: qos1_head pub ds ++ put_be16 1 ++ pub_Payload pub)
               (1 + len (qos1_head pub ds)).
Proof.
  intros Hty. unfold newPublishTemplate. simpl. unfold encodePublishPacket.
  destruct (EncodePublish _) as [data|?] eqn:He; [|done]. intros [= <-].
  apply (EncodePublish_qos1 pub false 1) in He as (Hok & ds & Hds & ->); [|done|lia].
  split; [done|]. exists ds. split; [done|]. f_equal. unfold publishPacketIDOffset, qos1_head.
  rewrite (encodedLengthSize_ok _ ds Hds), len_app, len_field. lia.
Qed.

(** A cache that holds only what encoding again would give. *)
Definition cache_ok (encodeFn : PublishPacket → result bytes) (pub : PublishPacket)
    (c : publishDeliveryCache) : Prop :=
  (∀ raw, qos0 c = Some raw → encodeFn (newOutboundPublish pub 0) = Ok raw)
  ∧ (∀ t, qos1 c = Some t → newPublishTemplate encodeFn (newOutboundPublish pub 1) = Ok t).

Lemma template_patches pub tmpl id replay :
  publish_typed pub → newPublishTemplate encodePublishPacket (newOutboundPublish pub 1) = Ok tmpl →
  0 < id < 65536 →
  invalid_queued_publish (raw tmpl) (t_packetIDOffset tmpl) = false
  ∧ ∃ data, patch (raw tmpl) (t_packetIDOffset tmpl) id replay = Some data
    ∧ EncodePublish (qos1_packet pub replay id) = Ok data
    ∧ ∀ rest e, Forall is_byte rest →
      Decode (mkReader (data ++ rest) e) = Ok (PPublish (qos1_packet pub replay id), mkReader rest e).
Proof.
  intros Hty Ht Hid. apply newPublishTemplate_eq in Ht as (Hok & ds & Hds & ->); [|done].
  cbn [raw t_packetIDOffset].
  pose proof (len_nonneg (qos1_head pub ds)). pose proof (len_nonneg (pub_Payload pub)).
  assert (Hhead : 2 <= 1 + len (qos1_head pub ds)).
  { unfold qos1_head. rewrite len_app, len_field. pose proof (len_nonneg ds). pose proof (len_nonneg (pub_Topic pub)). lia. }
  pose proof (qos1_publishable pub false replay 1 id ltac:(lia) Hok) as Hok'.
  assert (Henc : EncodePublish (qos1_packet pub replay id)
    = Ok ((50 + flag_bit replay 8 + flag_bit (pub_Retain pub) 1) :: qos1_head pub ds ++ put_be16 id ++ pub_Payload pub)).
  { apply EncodePublish_qos1; [done..|]. split; [done|]. by exists ds. }
  split.
  - unfold invalid_queued_publish. destruct (qos1_header_valid (pub_Retain pub)) as [E1 E2].
    cbv zeta in E1, E2. rewrite E1, E2.
    rewrite len_cons, !len_app, len_put_be16. simpl negb.
    repeat (apply orb_false_iff; split); try done; apply Z.ltb_ge; lia.
  - eexists. split; [apply patch_qos1; lia|]. split; [exact Henc|]. intros rest e Hrest.
    assert (Hty' : publish_typed (qos1_packet pub replay id)).
    { destruct Hty as (_ & _ & ? & ?). split_and!; simpl; unfold is_byte; done || lia. }
    apply EncodePublish_eq in Henc as (_ & ds' & Hds' & ->); [|done].
    destruct (publish_wire (qos1_packet pub replay id) ds' Hds') as (Hw & Hsize & Hb); [apply Hok'|done|simpl; lia|].
    apply decode_wire; [|done..|by apply Forall_app]. apply publishable_ok; [done|done|simpl; lia].
Qed.

(** * Theorems *)

(** C30: the template of a QoS 1 message is right for every delivery: [Admit] takes
    it, and what [Next] makes of it for an identifier and a DUP flag is byte for
    byte what [EncodePublish] writes for that packet, which a client decodes back
    to the message with that identifier and flag, consuming nothing more. *)
Theorem template_patch_encodes pub tmpl id replay :
  publish_typed pub → newPublishTemplate encodePublishPacket (newOutboundPublish pub 1) = Ok tmpl →
  0 < id < 65536 →
  invalid_queued_publish (raw tmpl) (t_packetIDOffset tmpl) = false
  ∧ ∃ data, patch (raw tmpl) (t_packetIDOffset tmpl) id replay = Some data
    ∧ EncodePublish (qos1_packet pub replay id) = Ok data
    ∧ ∀ rest e, Forall is_byte rest →
      Decode (mkReader (data ++ rest) e) = Ok (PPublish (qos1_packet pub replay id), mkReader rest e).
Proof. apply template_patches. Qed.

Lemma template_patch_encodes_witness :
  ∃ tmpl data, newPublishTemplate encodePublishPacket
      (newOutboundPublish (mkPublish (bs "a/b") (bs "hi") false true 1 7) 1) = Ok tmpl
    ∧ patch (raw tmpl) (t_packetIDOffset tmpl) 513 true = Some data
    ∧ EncodePublish (mkPublish (bs "a/b") (bs "hi") false true 1 513) = Ok data.
Proof.
  destruct (newPublishTemplate encodePublishPacket
      (newOutboundPublish (mkPublish (bs "a/b") (bs "hi") false true 1 7) 1)) as [tmpl|] eqn:Ht;
    [|vm_compute in Ht; discriminate Ht].
  destruct (template_patch_encodes (mkPublish (bs "a/b") (bs "hi") false true 1 7) tmpl 513 true) as (_ & data & Hp & He & _).
  - split; [split; reflexivity || (simpl; lia)|]. split; [simpl; lia|]. split; simpl; repeat constructor; lia.
  - exact Ht.
  - lia.
  - exists tmpl, data. split; [reflexivity|]. split; [exact Hp|exact He].
Defined.

(** The cache that the subscribers of one message share is invisible: every look-up
    gives what encoding that message for that QoS would give, errors included,
    whatever was looked up before. *)
Lemma cache_qos0 encodeFn pub c :
  cache_ok encodeFn pub c → (qos0Payload c encodeFn (newOutboundPublish pub 0)).1 = encodeFn (newOutboundPublish pub 0)
  ∧ cache_ok encodeFn pub (qos0Payload c encodeFn (newOutboundPublish pub 0)).2.
Proof.
  intros Hc. pose proof Hc as [H0 H1]. unfold qos0Payload. destruct (qos0 c) as [d|] eqn:Hq.
  - split; [symmetry; by apply H0|done].
  - destruct (encodeFn _) as [d|err] eqn:He; (split; [done|]); [|done]. split; simpl; [by intros ? [= <-]|done].
Qed.

Lemma cache_qos1 encodeFn pub c :
  cache_ok encodeFn pub c →
  (qos1Template c encodeFn (newOutboundPublish pub 1)).1 = newPublishTemplate encodeFn (newOutboundPublish pub 1)
  ∧ cache_ok encodeFn pub (qos1Template c encodeFn (newOutboundPublish pub 1)).2.
Proof.
  intros Hc. pose proof Hc as [H0 H1]. unfold qos1Template. destruct (qos1 c) as [t|] eqn:Hq.
  - split; [symmetry; by apply H1|done].
  - destruct (newPublishTemplate _ _) as [t|err] eqn:He; (split; [done|]); [|done]. split; simpl; [done|by intros ? [= <-]].
Qed.
