(* ===== verification/Auth.v ===== *)
(** The local authentication policy (src/internal/auth/local.go and password.go).

    The key derivation PBKDF2-HMAC-SHA256 of Go's crypto library is a variable of
    the section: a function of the password, the salt, the number of iterations
    and the length of the key, that may fail.  Random salts are arguments.  The
    channel [slots] is the number of slots in use and its capacity; a context is
    what [ctx.Err()] gives each time it is asked. *)

From S2P Require Import Prelude Topic Wire Filters.

Local Open Scope Z_scope.
Local Open Scope orb_scope.

(** * Base64 (encoding/base64, StdEncoding) *)

(** The characters for 0 to 63: A-Z, a-z, 0-9, + and /. *)
Definition b64_char (v : Z) : Z :=
  if v <? 26 then 65 + v
  else if v <? 52 then 97 + (v - 26)
  else if v <? 62 then 48 + (v - 52)
  else if v =? 62 then 43 else 47.

Definition b64_value (c : Z) : option Z :=
  if (65 <=? c) && (c <=? 90) then Some (c - 65)
  else if (97 <=? c) && (c <=? 122) then Some (c - 97 + 26)
  else if (48 <=? c) && (c <=? 57) then Some (c - 48 + 52)
  else if c =? 43 then Some 62
  else if c =? 47 then Some 63
  else None.

Definition b64_pad : Z := 61.

Fixpoint EncodeToString (src : bytes) : bytes :=
  match src with
  | [] => []
  | [a] => [b64_char (a / 4); b64_char (a mod 4 * 16); b64_pad; b64_pad]
  | [a; b] => [b64_char (a / 4); b64_char (a mod 4 * 16 + b / 16); b64_char (b mod 16 * 4); b64_pad]
  | a :: b :: c :: src =>
      b64_char (a / 4) :: b64_char (a mod 4 * 16 + b / 16) :: b64_char (b mod 16 * 4 + c / 64)
      :: b64_char (c mod 64) :: EncodeToString src
  end.

(** Groups of four characters; the last one may be padded, and in strict mode the
    bits that padding drops must be zero. *)
Fixpoint decode_groups (src : bytes) : option bytes :=
  match src with
  | [] => Some []
  | c0 :: c1 :: c2 :: c3 :: src =>
      v0 ← b64_value c0;
      v1 ← b64_value c1;
      if c2 =? b64_pad then
        if (c3 =? b64_pad) && bool_decide (src = []) && (v1 mod 16 =? 0)
        then Some [v0 * 4 + v1 / 16] else None
      else
        v2 ← b64_value c2;
        if c3 =? b64_pad then
          if bool_decide (src = []) && (v2 mod 4 =? 0)
          then Some [v0 * 4 + v1 / 16; v1 mod 16 * 16 + v2 / 4] else None
        else
          v3 ← b64_value c3;
          rest ← decode_groups src;
          Some (v0 * 4 + v1 / 16 :: v1 mod 16 * 16 + v2 / 4 :: v2 mod 4 * 64 + v3 :: rest)
  | _ => None
  end.

(** [Strict().DecodeString]; the decoder skips line ends wherever they are. *)
Definition DecodeString (src : bytes) : option bytes :=
  decode_groups (filter (λ c, c ≠ 10 ∧ c ≠ 13) src).

(** * Passwords (password.go) *)

Definition passwordIterations : Z := 600000.

Record passwordHash := mkPasswordHash {
  salt : bytes;
  key : bytes }.

(** [strings.Split(encoded, "$")]. *)
Fixpoint split_dollar (s : bytes) : list bytes :=
  match s with
  | [] => [[]]
  | c :: s =>
      if c =? dollar then [] :: split_dollar s
      else match split_dollar s with
           | part :: parts => (c :: part) :: parts
           | [] => [[c]]
           end
  end.

Definition parsePasswordHash (encoded : bytes) : result passwordHash :=
  match split_dollar encoded with
  | [name; iterations; s; k] =>
      if bool_decide (name = bs "pbkdf2-sha256") && bool_decide (iterations = bs "600000") then
        match DecodeString s, DecodeString k with
        | Some salt, Some key =>
            if (len salt =? 16) && (len key =? 32) then Ok (mkPasswordHash salt key)
            else Error (New "invalid password hash")
        | _, _ => Error (New "invalid password hash")
        end
      else Error (New "invalid password hash")
  | _ => Error (New "invalid password hash")
  end.

Section kdf.
Context (pbkdf2_Key : bytes → bytes → Z → Z → result bytes).

(** [HashPassword] with the salt [rand.Read] gave. *)
Definition HashPassword (salt password : bytes) : result bytes :=
  let! key := pbkdf2_Key password salt passwordIterations 32 in
  Ok (bs "pbkdf2-sha256$600000$" ++ EncodeToString salt ++ [dollar] ++ EncodeToString key).

(** [ConstantTimeCompare] is 1 iff the two are equal. *)
Definition verify (h : passwordHash) (password : bytes) : option error :=
  match pbkdf2_Key password (salt h) passwordIterations 32 with
  | Error _ => Some ErrCredentials
  | Ok key' => if bool_decide (key' = key h) then None else Some ErrCredentials
  end.

Definition VerifyPassword (encoded password : bytes) : option error :=
  match parsePasswordHash encoded with
  | Error err => Some err
  | Ok hash => verify hash password
  end.

(** * The policy (local.go) *)

Record User := mkUser {
  Username : bytes;
  PasswordHash : bytes;
  ClientIDs : list bytes;
  PublishFilters : list bytes;
  SubscribeFilters : list bytes }.

Record user := mkuser {
  u_ClientIDs : list bytes;
  u_Publish : list bytes;
  u_Subscribe : list bytes;
  u_hash : passwordHash }.

(** [slots] holds [l_used] of [l_capacity] tokens. *)
Record Local := mkLocal {
  l_users : gmap bytes user;
  l_used : Z;
  l_capacity : Z;
  l_dummy : passwordHash }.

Definition validName (value : bytes) : bool :=
  negb (bool_decide (value = [])) && (len value <=? 65535) && ValidString value && negb (contains_byte 0 value).

(** The loop over the client identifiers of one user; [ids] is the map of those
    seen. *)
Fixpoint add_ids (ids : gset bytes) (l : list bytes) : result (gset bytes) :=
  match l with
  | [] => Ok ids
  | id :: l =>
      if negb (validName id) || contains_wild id || bool_decide (id ∈ ids)
      then Error (New "invalid or duplicate client id")
      else add_ids ({[id]} ∪ ids) l
  end.

(** The loop of [New]. *)
Fixpoint add_users (users : gmap bytes user) (ids : gset bytes) (l : list User) : result (gmap bytes user) :=
  match l with
  | [] => Ok users
  | e :: l =>
      if negb (validName (Username e)) || bool_decide (ClientIDs e = [])
      then Error (New "invalid identity configuration")
      else match users !! Username e with
      | Some _ => Error (New "duplicate username")
      | None =>
          let! hash := parsePasswordHash (PasswordHash e) in
          let! ids := add_ids ids (ClientIDs e) in
          if forallb (λ f, bool_decide (ValidateTopicFilter f = None)) (PublishFilters e ++ SubscribeFilters e)
          then add_users (<[Username e := mkuser (ClientIDs e) (PublishFilters e) (SubscribeFilters e) hash]> users) ids l
          else Error (New "invalid permission filter")
      end
  end.

(** [auth.New]; [procs] is [runtime.GOMAXPROCS(0)]. *)
Definition NewLocal (procs : Z) (users : list User) : result Local :=
  if bool_decide (users = []) then Error (New "credentials require at least one user")
  else
    let! m := add_users ∅ ∅ users in
    Ok (mkLocal m 0 procs (mkPasswordHash (replicate 16 0) (replicate 32 0))).

(** [Authenticate], from taking a slot to giving it back: [before] and [after] are
    what [ctx.Err()] gives at the two places it is asked. *)
Definition acquire_slot (l : Local) : option Local :=
  if l_used l <? l_capacity l then Some (mkLocal (l_users l) (l_used l + 1) (l_capacity l) (l_dummy l)) else None.

Definition release_slot (l : Local) : Local :=
  mkLocal (l_users l) (l_used l - 1) (l_capacity l) (l_dummy l).

Definition check_credentials (l : Local) (username password : bytes) (after : option error) : result bytes :=
  let entry := l_users l !! username in
  let hash := match entry with Some e => u_hash e | None => l_dummy l end in
  let err := verify hash password in
  match after with
  | Some e => Error e
  | None =>
      match entry, err with
      | Some _, None => Ok username
      | _, _ => Error ErrCredentials
      end
  end.

Definition Authenticate (l : Local) (before after : option error) (username password : bytes)
    : result bytes * Local :=
  match before with
  | Some e => (Error e, l)
  | None =>
      match acquire_slot l with
      | None => (Error ErrBusy, l)
      | Some l => (check_credentials l username password after, release_slot l)
      end
  end.
End kdf.

(** A user that does not exist has no permissions. *)
Definition no_user : user := mkuser [] [] [] (mkPasswordHash [] []).

Definition user_of (l : Local) (identity : bytes) : user := default no_user (l_users l !! identity).

Definition CanUseClientID (l : Local) (identity id : bytes) : bool :=
  existsb (λ allowed, bool_decide (allowed = id)) (u_ClientIDs (user_of l identity)).

Definition CanPublish (l : Local) (identity name : bytes) : bool :=
  if negb (validName name) || contains_wild name then false
  else existsb (λ allowed, MatchFilter allowed name) (u_Publish (user_of l identity)).

(** The loop of [CanSubscribe]; [None] is a panic of [CoversFilter]. *)
Fixpoint covered (allowed : list bytes) (filter : bytes) : option bool :=
  match allowed with
  | [] => Some false
  | a :: allowed =>
      covers ← CoversFilter a filter;
      if covers : bool then Some true else covered allowed filter
  end.

Definition CanSubscribe (l : Local) (identity filter : bytes) : option bool :=
  match ValidateTopicFilter filter with
  | Some _ => Some false
  | None => covered (u_Subscribe (user_of l identity)) filter
  end.
