(* ===== verification/AuthProofs.v ===== *)
(** Theorems on authentication and authorization: Base64 and password hashes round
    trip, the policies [NewLocal] accepts are well formed, and permissions are
    safe with respect to topic matching. *)

From S2P Require Import Prelude Topic Wire Filters Codec Auth.

Local Open Scope Z_scope.
Local Open Scope orb_scope.

(** * Base64 *)

Lemma b64_value_char v : 0 <= v < 64 → b64_value (b64_char v) = Some v.
Proof.
  intros Hv.
  pose proof (forallb_below 64 (λ v, match b64_value (b64_char v) with Some w => w =? v | None => false end)
    ltac:(vm_compute; reflexivity) v Hv) as H.
  cbv beta in H. destruct (b64_value (b64_char v)); [|done]. bool_to_prop. by subst.
Qed.

(** Characters of the alphabet are not padding, line ends or dollars. *)
Lemma b64_char_plain v : 0 <= v < 64 →
  b64_char v ≠ b64_pad ∧ b64_char v ≠ 10 ∧ b64_char v ≠ 13 ∧ b64_char v ≠ dollar.
Proof.
  intros Hv.
  pose proof (forallb_below 64 (λ v, negb (b64_char v =? b64_pad) && negb (b64_char v =? 10)
    && negb (b64_char v =? 13) && negb (b64_char v =? dollar)) ltac:(vm_compute; reflexivity) v Hv) as H.
  cbv beta in H. bool_to_prop. done.
Qed.

Lemma b64_char_not_pad v : 0 <= v < 64 → (b64_char v =? b64_pad) = false.
Proof. intros Hv. apply Z.eqb_neq, b64_char_plain, Hv. Qed.

(** The ranges of the values of a group of three bytes. *)
Lemma group_ranges a b c :
  is_byte a → is_byte b → is_byte c →
  0 <= a / 4 < 64 ∧ 0 <= a mod 4 * 16 < 64 ∧ 0 <= a mod 4 * 16 + b / 16 < 64
  ∧ 0 <= b mod 16 * 4 < 64 ∧ 0 <= b mod 16 * 4 + c / 64 < 64 ∧ 0 <= c mod 64 < 64.
Proof.
  unfold is_byte. intros Ha Hb Hc.
  pose proof (Z.mod_pos_bound a 4 ltac:(lia)). pose proof (Z.div_mod a 4 ltac:(lia)).
  pose proof (Z.mod_pos_bound b 16 ltac:(lia)). pose proof (Z.div_mod b 16 ltac:(lia)).
  pose proof (Z.mod_pos_bound c 64 ltac:(lia)). pose proof (Z.div_mod c 64 ltac:(lia)). lia.
Qed.

(** The values of a group give its bytes back. *)
Lemma group_values a b c :
  is_byte a → is_byte b → is_byte c →
  a / 4 * 4 + (a mod 4 * 16 + b / 16) / 16 = a
  ∧ a / 4 * 4 + a mod 4 * 16 / 16 = a
  ∧ (a mod 4 * 16) mod 16 = 0
  ∧ (a mod 4 * 16 + b / 16) mod 16 * 16 + (b mod 16 * 4 + c / 64) / 4 = b
  ∧ (a mod 4 * 16 + b / 16) mod 16 * 16 + b mod 16 * 4 / 4 = b
  ∧ (b mod 16 * 4) mod 4 = 0
  ∧ (b mod 16 * 4 + c / 64) mod 4 * 64 + c mod 64 = c.
Proof.
  unfold is_byte. intros Ha Hb Hc.
  pose proof (Z.mod_pos_bound a 4 ltac:(lia)). pose proof (Z.div_mod a 4 ltac:(lia)).
  pose proof (Z.mod_pos_bound b 16 ltac:(lia)). pose proof (Z.div_mod b 16 ltac:(lia)).
  pose proof (Z.mod_pos_bound c 64 ltac:(lia)). pose proof (Z.div_mod c 64 ltac:(lia)).
  assert (0 <= b / 16 < 16) by lia. assert (0 <= c / 64 < 4) by lia.
  rewrite !Z.div_add_l, !(Z.add_comm (_ * _) (_ / _)), !Z.mod_add, !Z.mod_mul, !Z.div_mul by lia.
  rewrite (Z.div_small (b / 16) 16), (Z.mod_small (b / 16) 16), (Z.div_small (c / 64) 4), (Z.mod_small (c / 64) 4) by lia.
  lia.
Qed.

(** Induction three bytes at a time. *)
Lemma three_ind (P : bytes → Prop) :
  P [] → (∀ a, P [a]) → (∀ a b, P [a; b]) → (∀ a b c l, P l → P (a :: b :: c :: l)) → ∀ l, P l.
Proof.
  intros H0 H1 H2 H3. fix IH 1. intros [|a [|b [|c l]]]; [apply H0|apply H1|apply H2|apply H3, IH].
Qed.

Lemma EncodeToString_nil src : EncodeToString src = [] ↔ src = [].
Proof. destruct src as [|a [|b [|c src]]]; done. Qed.

Lemma decode_groups_encode src : Forall is_byte src → decode_groups (EncodeToString src) = Some src.
Proof.
  induction src as [|a|a b|a b c src IH] using three_ind; intros Hb; [done|..].
  - apply Forall_cons in Hb as [Ha _]. destruct (group_ranges a 0 0 Ha ltac:(done) ltac:(done)) as (R1 & R2 & _).
    destruct (group_values a 0 0 Ha ltac:(done) ltac:(done)) as (_ & E1 & E2 & _).
    simpl. rewrite !b64_value_char by done. simpl. by rewrite E1, E2.
  - apply Forall_cons in Hb as [Ha [Hb _]%Forall_cons].
    destruct (group_ranges a b 0 Ha Hb ltac:(done)) as (R1 & _ & R2 & R3 & _).
    destruct (group_values a b 0 Ha Hb ltac:(done)) as (E1 & _ & _ & _ & E2 & E3 & _).
    cbn [EncodeToString decode_groups]. rewrite !b64_value_char, b64_char_not_pad by done. cbn [mbind option_bind].
    rewrite ?b64_value_char by done. cbn [mbind option_bind]. by rewrite E1, E2, E3.
  - apply Forall_cons in Hb as [Ha Hb]. apply Forall_cons in Hb as [Hb Hc]. apply Forall_cons in Hc as [Hc Hr].
    destruct (group_ranges a b c Ha Hb Hc) as (R1 & _ & R2 & _ & R3 & R4).
    destruct (group_values a b c Ha Hb Hc) as (E1 & _ & _ & E2 & _ & _ & E3).
    cbn [EncodeToString decode_groups].
    rewrite !b64_value_char, !b64_char_not_pad by done. cbn [mbind option_bind].
    rewrite ?b64_value_char by done. cbn [mbind option_bind]. rewrite IH by done. cbn [mbind option_bind].
    by rewrite E1, E2, E3.
Qed.

(** The encoding has no line ends and no dollar. *)
Lemma EncodeToString_plain src :
  Forall is_byte src → Forall (λ c, c ≠ 10 ∧ c ≠ 13 ∧ c ≠ dollar) (EncodeToString src).
Proof.
  assert (Hpad : b64_pad ≠ 10 ∧ b64_pad ≠ 13 ∧ b64_pad ≠ dollar) by done.
  assert (Hch : ∀ v, 0 <= v < 64 → b64_char v ≠ 10 ∧ b64_char v ≠ 13 ∧ b64_char v ≠ dollar)
    by (intros v Hv; by apply b64_char_plain in Hv as (_ & ? & ? & ?)).
  induction src as [|a|a b|a b c src IH] using three_ind; intros Hb; [constructor|..].
  - apply Forall_cons in Hb as [Ha _]. destruct (group_ranges a 0 0 Ha ltac:(done) ltac:(done)) as (? & ? & _).
    repeat (constructor; [by auto|]); by auto.
  - apply Forall_cons in Hb as [Ha [Hb _]%Forall_cons].
    destruct (group_ranges a b 0 Ha Hb ltac:(done)) as (? & _ & ? & ? & _).
    repeat (constructor; [by auto|]); by auto.
  - apply Forall_cons in Hb as [Ha Hb]. apply Forall_cons in Hb as [Hb Hc]. apply Forall_cons in Hc as [Hc Hr].
    destruct (group_ranges a b c Ha Hb Hc) as (? & _ & ? & _ & ? & ?).
    repeat (constructor; [by auto|]); by auto.
Qed.

Lemma DecodeString_EncodeToString src : Forall is_byte src → DecodeString (EncodeToString src) = Some src.
Proof.
  intros Hb. unfold DecodeString. rewrite (list_filter_all _ (EncodeToString src)); [by apply decode_groups_encode|].
  eapply Forall_impl; [by apply EncodeToString_plain|]. simpl. tauto.
Qed.

(** * Password hashes *)

Lemma split_dollar_part a rest :
  Forall (λ c, c ≠ dollar) a → split_dollar (a ++ dollar :: rest) = a :: split_dollar rest.
Proof.
  induction 1 as [|c a Hc _ IH]; simpl; [done|].
  destruct (Z.eqb_spec c dollar); [done|]. by rewrite IH.
Qed.

Lemma split_dollar_last a : Forall (λ c, c ≠ dollar) a → split_dollar a = [a].
Proof.
  induction 1 as [|c a Hc _ IH]; simpl; [done|]. destruct (Z.eqb_spec c dollar); [done|]. by rewrite IH.
Qed.

Lemma encoded_no_dollar src : Forall is_byte src → Forall (λ c, c ≠ dollar) (EncodeToString src).
Proof. intros Hb. eapply Forall_impl; [by apply EncodeToString_plain|]. simpl. tauto. Qed.

Lemma parsePasswordHash_encode s k :
  Forall is_byte s → Forall is_byte k → len s = 16 → len k = 32 →
  parsePasswordHash (bs "pbkdf2-sha256$600000$" ++ EncodeToString s ++ [dollar] ++ EncodeToString k)
  = Ok (mkPasswordHash s k).
Proof.
  intros Hs Hk Hls Hlk. unfold parsePasswordHash.
  change ([dollar] ++ EncodeToString k) with (dollar :: EncodeToString k).
  change (bs "pbkdf2-sha256$600000$" ++ ?x) with (bs "pbkdf2-sha256" ++ dollar :: bs "600000" ++ dollar :: x).
  rewrite (split_dollar_part (bs "pbkdf2-sha256")) by (repeat constructor; done).
  rewrite (split_dollar_part (bs "600000")) by (repeat constructor; done).
  rewrite (split_dollar_part (EncodeToString s)) by (by apply encoded_no_dollar).
  rewrite split_dollar_last by (by apply encoded_no_dollar).
  rewrite !bool_decide_eq_true_2 by done. simpl.
  rewrite !DecodeString_EncodeToString by done. by rewrite Hls, Hlk.
Qed.

(** * Policies *)

(** A policy: permission filters are valid and a client identifier is one user's. *)
Record policy_ok (users : gmap bytes user) : Prop := {
  po_filters n u f : users !! n = Some u → f ∈ u_Publish u ++ u_Subscribe u → ValidateTopicFilter f = None;
  po_ids n1 n2 u1 u2 id : users !! n1 = Some u1 → users !! n2 = Some u2 →
    id ∈ u_ClientIDs u1 → id ∈ u_ClientIDs u2 → n1 = n2;
  po_names n u id : users !! n = Some u → id ∈ u_ClientIDs u → validName id = true ∧ contains_wild id = false }.

Lemma add_ids_ok ids l ids' :
  add_ids ids l = Ok ids' →
  (∀ id, id ∈ l → validName id = true ∧ contains_wild id = false ∧ id ∉ ids)
  ∧ NoDup l ∧ ∀ id, id ∈ ids' ↔ id ∈ ids ∨ id ∈ l.
Proof.
  revert ids. induction l as [|x l IH]; intros ids; simpl.
  - intros [= <-]. split; [by intros id ?%elem_of_nil|]. split; [constructor|].
    intros id. rewrite elem_of_nil. tauto.
  - destruct (_ || _) eqn:Hx; [done|]. intros (H1 & H2 & H3)%IH. bool_to_prop.
    split; [|split].
    + intros id [->|Hin]%elem_of_cons; [done|]. destruct (H1 id Hin) as (? & ? & Hn). set_solver.
    + constructor; [|done]. intros Hin. destruct (H1 x Hin) as (_ & _ & Hn). set_solver.
    + intros id. rewrite H3, elem_of_cons. set_solver.
Qed.

(** The user [New] stores for a configured one. *)
Definition configured (e : User) (u : user) : Prop :=
  u_ClientIDs u = ClientIDs e ∧ u_Publish u = PublishFilters e ∧ u_Subscribe u = SubscribeFilters e
  ∧ parsePasswordHash (PasswordHash e) = Ok (u_hash u).

(** The invariant of the loop: a policy whose identifiers are the ones seen. *)
Definition users_seen (users : gmap bytes user) (ids : gset bytes) : Prop :=
  policy_ok users ∧ ∀ n u id, users !! n = Some u → id ∈ u_ClientIDs u → id ∈ ids.

Lemma users_seen_insert users ids ids' e u :
  users_seen users ids → users !! Username e = None → configured e u → add_ids ids (ClientIDs e) = Ok ids' →
  Forall (λ f, ValidateTopicFilter f = None) (PublishFilters e ++ SubscribeFilters e) →
  users_seen (<[Username e := u]> users) ids'.
Proof.
  intros [[Hf Hi Hn] Hseen] Hnew (Ei & Ep & Es & _) (H1 & _ & H3)%add_ids_ok Hv. split; [split|].
  - intros n u' f [[<- <-]|[_ Hl]]%lookup_insert_Some; [|by eapply Hf].
    rewrite Ep, Es. rewrite Forall_forall in Hv. apply Hv.
  - assert (Hnot : ∀ n u' id, users !! n = Some u' → id ∈ u_ClientIDs u' → id ∉ ClientIDs e).
    { intros n u' id Hl Hid Hin. destruct (H1 id Hin) as (_ & _ & Hnot). by apply Hnot, (Hseen n u' id). }
    intros n1 n2 u1 u2 id [[<- <-]|[_ L1]]%lookup_insert_Some [[<- <-]|[_ L2]]%lookup_insert_Some I1 I2;
      rewrite ?Ei in *; try done.
    + by destruct (Hnot n2 u2 id).
    + by destruct (Hnot n1 u1 id).
    + by apply (Hi n1 n2 u1 u2 id).
  - intros n u' id [[<- <-]|[_ Hl]]%lookup_insert_Some Hid; [|by apply (Hn n u')].
    rewrite Ei in Hid. destruct (H1 id Hid) as (? & ? & _). done.
  - intros n u' id [[<- <-]|[_ Hl]]%lookup_insert_Some Hid; apply H3; [right; by rewrite <- Ei|left; eauto].
Qed.

Lemma add_users_ok l users ids users' :
  users_seen users ids → add_users users ids l = Ok users' →
  policy_ok users'
  ∧ NoDup (Username <$> l)
  ∧ (∀ e, e ∈ l → ∃ u, users' !! Username e = Some u ∧ configured e u)
  ∧ (∀ n, n ∉ Username <$> l → users' !! n = users !! n)
  ∧ (∀ n u, users !! n = Some u → n ∉ Username <$> l).
Proof.
  revert users ids. induction l as [|e l IH]; intros users ids Hs; simpl.
  - intros [= <-]. split; [apply Hs|]. split; [constructor|].
    split; [by intros e ?%elem_of_nil|]. split; [done|]. by intros n u _ ?%elem_of_nil.
  - destruct (_ || _) eqn:Hx; [done|]. destruct (users !! Username e) as [|] eqn:Hnew; [done|].
    destruct (parsePasswordHash (PasswordHash e)) as [hash|?] eqn:Hh; [|done].
    destruct (add_ids ids (ClientIDs e)) as [ids'|?] eqn:Hids; [|done].
    destruct (forallb _ _) eqn:Hf; [|done]. intros Hadd.
    assert (Hfil : Forall (λ f, ValidateTopicFilter f = None) (PublishFilters e ++ SubscribeFilters e)).
    { apply Forall_forall. intros f Hin. rewrite forallb_forall in Hf.
      specialize (Hf f). rewrite list_elem_of_In in Hin. apply Hf in Hin. by bool_to_prop. }
    set (u := mkuser _ _ _ hash) in *. assert (Hc : configured e u) by done.
    pose proof (users_seen_insert _ _ _ _ _ Hs Hnew Hc Hids Hfil) as Hs'.
    destruct (IH _ _ Hs' Hadd) as (Hpol & Hnd & Hall & Hrest & Hold).
    assert (Hne : Username e ∉ Username <$> l) by (apply (Hold _ u), lookup_insert_eq).
    split; [done|]. split; [by constructor|]. split; [|split].
    + intros e' [->|Hin]%elem_of_cons; [|by apply Hall]. exists u. by rewrite Hrest, lookup_insert_eq.
    + intros n [Hn1 Hn2]%not_elem_of_cons. rewrite Hrest by done. by rewrite lookup_insert_ne.
    + intros n u' Hl [->|Hin]%elem_of_cons; [congruence|]. destruct (decide (n = Username e)) as [->|Hn]; [done|].
      apply (Hold n u'); [by rewrite lookup_insert_ne|done].
Qed.

Lemma NewLocal_inv procs users l :
  NewLocal procs users = Ok l →
  users ≠ [] ∧ add_users ∅ ∅ users = Ok (l_users l) ∧ l_used l = 0 ∧ l_capacity l = procs.
Proof.
  unfold NewLocal. destruct (bool_decide_reflect (users = [])); [done|].
  destruct (add_users ∅ ∅ users) as [m|?]; [|done]. by intros [= <-].
Qed.

Lemma users_seen_empty : users_seen ∅ ∅.
Proof. split; [split|]; intros *; by rewrite lookup_empty. Qed.

Lemma NewLocal_ok procs users l :
  NewLocal procs users = Ok l →
  policy_ok (l_users l) ∧ NoDup (Username <$> users)
  ∧ (∀ e, e ∈ users → ∃ u, l_users l !! Username e = Some u ∧ configured e u)
  ∧ (∀ n, n ∉ Username <$> users → l_users l !! n = None).
Proof.
  intros (_ & Hadd & _)%NewLocal_inv.
  destruct (add_users_ok _ _ _ _ users_seen_empty Hadd) as (? & ? & ? & Hrest & _).
  split_and!; try done.
Qed.

(** ** Permissions *)

(** [CanSubscribe] neither panics nor depends on the order of the filters. *)
Lemma covered_spec allowed filter :
  Forall (λ a, ValidateTopicFilter a = None) allowed →
  ∃ b, covered allowed filter = Some b
    ∧ (b = true ↔ ∃ a, a ∈ allowed ∧ CoversFilter a filter = Some true).
Proof.
  induction 1 as [|a allowed Ha _ (b & Hb & IH)]; simpl.
  - exists false. split; [done|]. split; [done|]. by intros (a & ?%elem_of_nil & _).
  - destruct (CoversFilter_total a filter Ha) as [c Hc]. rewrite Hc. simpl. destruct c.
    + exists true. split; [done|]. split; [|done]. intros _. exists a. split; [left|done].
    + exists b. split; [done|]. rewrite IH. split.
      * intros (a' & ? & ?). exists a'. split; [by right|done].
      * intros (a' & [->|?]%elem_of_cons & ?); [congruence|by exists a'].
Qed.

Lemma user_of_subscribe l identity :
  policy_ok (l_users l) → Forall (λ a, ValidateTopicFilter a = None) (u_Subscribe (user_of l identity)).
Proof.
  intros Hp. apply Forall_forall. intros f Hin. unfold user_of in Hin.
  destruct (l_users l !! identity) as [u|] eqn:Hu; [|by apply elem_of_nil in Hin].
  apply (po_filters _ Hp identity u f Hu). apply elem_of_app. by right.
Qed.

(** * Theorems *)

(** C34: no privilege escalation through wildcards: under a policy [New] accepted,
    [CanSubscribe] never panics, and it allows a filter exactly when it is valid
    and one of the user's subscribe permissions matches every topic name the
    filter matches; so a client never receives a topic outside its permissions. *)
Theorem CanSubscribe_safe procs users l identity filter :
  NewLocal procs users = Ok l →
  ∃ b, CanSubscribe l identity filter = Some b ∧
    (b = true ↔ ValidateTopicFilter filter = None ∧
      ∃ allowed, allowed ∈ u_Subscribe (user_of l identity) ∧
        ∀ t, validateTopicName t = None → MatchFilter filter t = true → MatchFilter allowed t = true).
Proof.
  intros (Hp & _)%NewLocal_ok. unfold CanSubscribe.
  destruct (ValidateTopicFilter filter) eqn:Hv; [exists false; split; [done|]; split; [done|]; by intros [? _]|].
  pose proof (user_of_subscribe l identity Hp) as Hall.
  destruct (covered_spec _ filter Hall) as (b & Hb & Hiff). exists b. split; [done|]. rewrite Hiff.
  rewrite Forall_forall in Hall. split.
  - intros (a & Hin & Hc). split; [done|]. exists a. split; [done|]. intros t Ht Hm.
    by apply (CoversFilter_sound a filter t (Hall a Hin) Hv Hc).
  - intros (_ & a & Hin & Hcov). exists a. split; [done|].
    destruct (CoversFilter_total a filter (Hall a Hin)) as [[|] Hc]; [done|].
    destruct (CoversFilter_complete a filter Hv Hc) as (t & Ht & Hm & Hno).
    rewrite (Hcov t Ht Hm) in Hno. done.
Qed.

Definition example_hash : bytes :=
  bs "pbkdf2-sha256$600000$" ++ EncodeToString (replicate 16 7) ++ [dollar] ++ EncodeToString (replicate 32 9).

Definition example_users : list User :=
  [mkUser (bs "ann") example_hash [bs "a1"; bs "a2"] [bs "up/+"] [bs "down/#"];
   mkUser (bs "bob") example_hash [bs "b1"] [] [bs "#"]].

Lemma CanSubscribe_safe_witness :
  ∃ l, NewLocal 4 example_users = Ok l ∧ CanSubscribe l (bs "ann") (bs "down/+/x") = Some true
    ∧ ∃ b, CanSubscribe l (bs "ann") (bs "+/x") = Some b ∧ b ≠ true.
Proof.
  destruct (NewLocal 4 example_users) as [l|] eqn:Hl; [|vm_compute in Hl; discriminate Hl].
  exists l. split; [reflexivity|].
  pose proof (CanSubscribe_safe 4 example_users l (bs "ann") (bs "+/x") Hl) as (b & Hb & Hiff).
  vm_compute in Hl. injection Hl as <-. split; [vm_compute; reflexivity|].
  exists b. split; [exact Hb|]. intros ->.
  vm_compute in Hb. discriminate Hb.
Defined.

(** A policy [New] accepts is what was configured and identifies clients: the
    user names are distinct and each has its configured permissions and hash, no
    other name has any, every permission filter is a valid filter, and no client
    identifier belongs to two users. *)
Theorem NewLocal_policy procs users l :
  NewLocal procs users = Ok l →
  NoDup (Username <$> users)
  ∧ (∀ e, e ∈ users → ∃ u, l_users l !! Username e = Some u ∧ configured e u)
  ∧ (∀ n, n ∉ Username <$> users → l_users l !! n = None)
  ∧ (∀ n u f, l_users l !! n = Some u → f ∈ u_Publish u ++ u_Subscribe u → ValidateTopicFilter f = None)
  ∧ (∀ n1 n2 id, CanUseClientID l n1 id = true → CanUseClientID l n2 id = true → n1 = n2).
Proof.
  intros (Hp & ? & ? & ?)%NewLocal_ok. split_and!; try done; [apply Hp|].
  assert (Hcan : ∀ n id, CanUseClientID l n id = true → ∃ u, l_users l !! n = Some u ∧ id ∈ u_ClientIDs u).
  { intros n id (a & Ha & Hid)%existsb_exists. bool_to_prop. subst a. apply list_elem_of_In in Ha.
    unfold user_of in Ha. destruct (l_users l !! n) as [u|]; [eauto|by apply elem_of_nil in Ha]. }
  intros n1 n2 id (u1 & L1 & I1)%Hcan (u2 & L2 & I2)%Hcan. by eapply po_ids.
Qed.

Lemma NewLocal_policy_witness :
  ∃ l, NewLocal 4 example_users = Ok l ∧ CanUseClientID l (bs "ann") (bs "a2") = true
    ∧ (CanUseClientID l (bs "bob") (bs "a2") = true → bs "ann" = bs "bob").
Proof.
  destruct (NewLocal 4 example_users) as [l|] eqn:Hl; [|vm_compute in Hl; discriminate Hl].
  exists l. split; [reflexivity|].
  destruct (NewLocal_policy 4 example_users l Hl) as (_ & _ & _ & _ & Hids).
  vm_compute in Hl. injection Hl as <-. split; [vm_compute; reflexivity|].
  intros Hb. apply (Hids (bs "ann") (bs "bob") (bs "a2")); [vm_compute; reflexivity|exact Hb].
Defined.

(** A hash made by [HashPassword] verifies its password, and any other password
    exactly when PBKDF2 derives the same key from it with the same salt. *)
Lemma HashPassword_verifies (pbkdf2_Key : bytes → bytes → Z → Z → result bytes) s password encoded :
  (∀ p s n l k, pbkdf2_Key p s n l = Ok k → len k = l ∧ Forall is_byte k) →
  Forall is_byte s → len s = 16 → HashPassword pbkdf2_Key s password = Ok encoded →
  ∀ password', VerifyPassword pbkdf2_Key encoded password' = None
    ↔ pbkdf2_Key password' s passwordIterations 32 = pbkdf2_Key password s passwordIterations 32.
Proof.
  intros Hkdf Hs Hl Hh password'. unfold HashPassword in Hh.
  destruct (pbkdf2_Key password s _ _) as [k|?] eqn:Hk; [|done].
  assert (E : encoded = bs "pbkdf2-sha256$600000$" ++ EncodeToString s ++ [dollar] ++ EncodeToString k)
    by congruence. rewrite E.
  destruct (Hkdf _ _ _ _ _ Hk) as [Hlk Hbk].
  unfold VerifyPassword. rewrite parsePasswordHash_encode by done. unfold verify. simpl.
  destruct (pbkdf2_Key password' s passwordIterations 32) as [k'|?]; [|done].
  destruct (bool_decide_reflect (k' = k)) as [->|Hne]; [done|]. split; [done|]. congruence.
Qed.

(** A derivation for examples: the password and the salt, cut to the length. *)
Definition example_kdf (password salt : bytes) (iterations keyLength : Z) : result bytes :=
  Ok (take (Z.to_nat keyLength) (map u8 (password ++ salt) ++ replicate (Z.to_nat keyLength) 0)).

Lemma example_kdf_ok p s n l k : 0 <= l → example_kdf p s n l = Ok k → len k = l ∧ Forall is_byte k.
Proof.
  intros Hl [= <-]. split.
  - unfold len. rewrite length_take, length_app, length_replicate. lia.
  - apply Forall_take, Forall_app. split.
    + apply Forall_forall. intros x (y & -> & _)%list_elem_of_fmap. unfold u8, is_byte.
      apply Z.mod_pos_bound. lia.
    + apply Forall_replicate. unfold is_byte. lia.
Qed.

(** [Authenticate] gives exactly the identity of a user whose password derives
    the stored key, when a slot is free and the context lives; a wrong password
    and an unknown user fail alike with [ErrCredentials]; it runs with at most
    [l_capacity] slots in use and always gives its slot back. *)
Lemma Authenticate_cases (pbkdf2_Key : bytes → bytes → Z → Z → result bytes) l before after username password :
  0 <= l_used l <= l_capacity l →
  let '(r, l') := Authenticate pbkdf2_Key l before after username password in
  l' = l
  ∧ (∀ id, r = Ok id ↔ before = None ∧ after = None ∧ l_used l < l_capacity l ∧ id = username
       ∧ ∃ u, l_users l !! username = Some u
              ∧ pbkdf2_Key password (salt (u_hash u)) passwordIterations 32 = Ok (key (u_hash u)))
  ∧ (before = None → l_used l = l_capacity l → r = Error ErrBusy)
  ∧ (before = None → after = None → l_used l < l_capacity l → (∃ id, r = Ok id) ∨ r = Error ErrCredentials).
Proof.
  intros Hslots. unfold Authenticate, acquire_slot. destruct before as [e|].
  { split_and!; try done. intros id. split; [done|]. by intros [? _]. }
  destruct (Z.ltb_spec (l_used l) (l_capacity l)) as [Hlt|Hge].
  2: { split_and!; try done; [|lia]. intros id. split; [done|]. intros (_ & _ & ? & _). lia. }
  unfold release_slot, check_credentials. simpl. rewrite Z.add_simpl_r.
  split; [by destruct l|]. split; [|split; [lia|]].
  - intros id. destruct after as [e|]; [split; [done|]; by intros (_ & ? & _)|].
    destruct (l_users l !! username) as [u|] eqn:Hu.
    2: { split; [done|]. by intros (_ & _ & _ & _ & u & ? & _). }
    unfold verify. destruct (pbkdf2_Key password (salt (u_hash u)) passwordIterations 32) as [k|?] eqn:Hk.
    2: { split; [done|]. intros (_ & _ & _ & _ & u' & [= <-] & ?). congruence. }
    destruct (bool_decide_reflect (k = key (u_hash u))) as [->|Hne]; split; try done.
    + intros [= <-]. split_and!; try done. by exists u.
    + by intros (_ & _ & _ & -> & _).
    + intros (_ & _ & _ & _ & u' & [= <-] & ?). congruence.
  - intros _ -> _. destruct (l_users l !! username) as [u|]; [|by right].
    destruct (verify _ _ _); [by right|left; eauto].
Qed.
