(* ===== verification/Client.v ===== *)
(** The connection of a client (src/internal/client/client.go): a bounded queue of
    writes, drained by one goroutine that owns the connection.

    Goroutines interleave at the channel operations, so the client is a transition
    system: a call of [enqueue] is its first [select], which lets it go on only
    while the client is open, and then its second one, which may find the client
    closed since; an iteration of [writeLoop] takes one write off the queue.  What
    the network does ([SetWriteDeadline] and [Write]) is chosen by the
    environment.  The goroutine of [writeLoop] runs until it closes [writeDone], the
    last thing it does; [None] is the panic of a channel that is closed twice. *)

From S2P Require Import Prelude Wire.

Local Open Scope Z_scope.
Local Open Scope orb_scope.

(** * Definitions *)

(** [w_result] names the channel a [Send] waits on; [w_deadline] is 0 for the zero
    time. *)
Record queuedWrite := mkWrite {
  w_data : bytes;
  w_result : option nat;
  w_deadline : Z }.

(** [sendQ] is the buffered channel, [c_done] and [c_writeDone] whether these
    channels are closed, [results] what was sent on the result channels.
    [checked] are the calls between the two [select]s of [enqueue], and [sent] is
    the byte stream the connection took. *)
Record Client := mkClient {
  c_id : bytes;
  sendQ : list queuedWrite;
  c_done : bool;
  c_writeDone : bool;
  writeTimeout : Z;
  results : gmap nat (option error);
  checked : gmap nat queuedWrite;
  sent : bytes }.

(** The capacity of [sendQ]. *)
Definition sendQ_capacity : Z := 1024.

Definition Client_New (id : bytes) : Client :=
  mkClient id [] false false 30000000000 ∅ ∅ [].

Definition SetWriteTimeout (c : Client) (timeout : Z) : option error * Client :=
  if timeout <=? 0 then (Some (New "write timeout must be positive"), c)
  else (None, mkClient (c_id c) (sendQ c) (c_done c) (c_writeDone c) timeout (results c) (checked c) (sent c)).

(** [Close]; [closeOnce] makes later calls do nothing. *)
Definition Close (c : Client) : Client :=
  mkClient (c_id c) (sendQ c) true (c_writeDone c) (writeTimeout c) (results c) (checked c) (sent c).

(** The first [select] of call [k] of [enqueue]. *)
Definition enqueue_check (c : Client) (k : nat) (w : queuedWrite) : option error * Client :=
  if c_done c then (Some ErrClosed, c)
  else (None, mkClient (c_id c) (sendQ c) (c_done c) (c_writeDone c) (writeTimeout c) (results c)
                (<[k := w]> (checked c)) (sent c)).

(** The case [c.sendQ <- write] of the second one. *)
Definition enqueue_put (c : Client) (k : nat) (w : queuedWrite) : Client :=
  mkClient (c_id c) (sendQ c ++ [w]) (c_done c) (c_writeDone c) (writeTimeout c) (results c)
    (delete k (checked c)) (sent c).

(** The second [select] of call [k] fails. *)
Definition enqueue_fail (c : Client) (k : nat) : Client :=
  mkClient (c_id c) (sendQ c) (c_done c) (c_writeDone c) (writeTimeout c) (results c)
    (delete k (checked c)) (sent c).

(** The second [select]: a ready case is taken, either one if both are, and the
    default only when none is. *)
Inductive enqueue_select (c : Client) (k : nat) (w : queuedWrite) : option error → Client → Prop :=
| select_done : c_done c = true → enqueue_select c k w (Some ErrClosed) (enqueue_fail c k)
| select_put : len (sendQ c) < sendQ_capacity → enqueue_select c k w None (enqueue_put c k w)
| select_default :
    c_done c = false → sendQ_capacity <= len (sendQ c) →
    enqueue_select c k w (Some ErrClientQueueFull) (enqueue_fail c k).

(** The deadline the writer sets, at time [now]. *)
Definition write_deadline (c : Client) (w : queuedWrite) (now : Z) : Z :=
  let deadline := now + writeTimeout c in
  if negb (w_deadline w =? 0) && (w_deadline w <? deadline) then w_deadline w else deadline.

(** What happens to the write: [set] is the error of [SetWriteDeadline] and
    [(n, err)] the result of [Write], if it is called. *)
Definition write_error (w : queuedWrite) (set : option error) (n : Z) (err : option error) : option error :=
  match set with
  | Some e => Some e
  | None =>
      match err with
      | Some e => Some e
      | None => if n =? len (w_data w) then None else Some (New "short write")
      end
  end.

(** The deferred [close(c.writeDone)] of [writeLoop], which panics if the channel is
    closed. *)
Definition close_writeDone (c : Client) : option Client :=
  if c_writeDone c then None
  else Some (mkClient (c_id c) (sendQ c) (c_done c) true (writeTimeout c) (results c) (checked c) (sent c)).

(** One iteration of [writeLoop] with the write [w] at the head of the queue; after an
    error it closes the client and returns. *)
Definition writeLoop_write (c : Client) (w : queuedWrite) (q : list queuedWrite)
    (set : option error) (n : Z) (err : option error) : option Client :=
  let out := match set with None => take (Z.to_nat n) (w_data w) | Some _ => [] end in
  let e := write_error w set n err in
  let res := match w_result w with Some r => <[r := e]> (results c) | None => results c end in
  let failed := match e with Some _ => true | None => false end in
  let c := mkClient (c_id c) q (c_done c || failed) (c_writeDone c) (writeTimeout c) res (checked c)
             (sent c ++ out) in
  if failed then close_writeDone c else Some c.

(** The case [<-c.done]: the writer returns. *)
Definition writeLoop_exit (c : Client) : option Client := close_writeDone c.

(** What a [Send] that queued result channel [r] may return now. *)
Inductive Send_returns (c : Client) (r : nat) : option error → Prop :=
| Send_result e : results c !! r = Some e → Send_returns c r e
| Send_done : c_done c = true → results c !! r = None → Send_returns c r (Some ErrClosed).

(** * The client as a transition system *)

Inductive event :=
| ECheck (k : nat) (w : queuedWrite) (e : option error)
| EEnqueue (k : nat) (w : queuedWrite) (e : option error)
| EWrite (w : queuedWrite) (e : option error)
| EExit
| EClose
| ETimeout.

Inductive client_step : Client → event → Client → Prop :=
| step_check c k w e c' :
    checked c !! k = None → enqueue_check c k w = (e, c') → client_step c (ECheck k w e) c'
| step_enqueue c k w e c' :
    checked c !! k = Some w → enqueue_select c k w e c' → client_step c (EEnqueue k w e) c'
| step_write c w q set n err c' :
    c_writeDone c = false → sendQ c = w :: q → 0 <= n <= len (w_data w) →
    writeLoop_write c w q set n err = Some c' → client_step c (EWrite w (write_error w set n err)) c'
| step_exit c c' :
    c_writeDone c = false → c_done c = true → writeLoop_exit c = Some c' → client_step c EExit c'
| step_close c : client_step c EClose (Close c)
| step_timeout c t e c' : SetWriteTimeout c t = (e, c') → client_step c ETimeout c'.

(** The events of a run from a new client, oldest first. *)
Inductive client_run (id : bytes) : list event → Client → Prop :=
| run_new : client_run id [] (Client_New id)
| run_step es c e c' : client_run id es c → client_step c e c' → client_run id (es ++ [e]) c'.

(** The writes that were queued, and those the writer took, in order. *)
Definition queued_of (e : event) : option queuedWrite :=
  match e with EEnqueue _ w None => Some w | _ => None end.

Definition taken_of (e : event) : option (queuedWrite * option error) :=
  match e with EWrite w e => Some (w, e) | _ => None end.

Definition queued (es : list event) : list queuedWrite := omap queued_of es.
Definition taken (es : list event) : list (queuedWrite * option error) := omap taken_of es.

(** * The invariant *)

(** The writes of a run: [ok] went out whole, and [failed] is the one that failed,
    if any, of which [part] went out. *)
Record client_inv (es : list event) (c : Client) (ok : list queuedWrite)
    (failed : option (queuedWrite * error)) (part : bytes) : Prop := {
  ci_taken : taken es = ((λ w, (w, None)) <$> ok)
    ++ match failed with Some (w, e) => [(w, Some e)] | None => [] end;
  ci_queued : queued es = (taken es).*1 ++ sendQ c;
  ci_bound : len (sendQ c) <= sendQ_capacity;
  ci_sent : sent c = concat (w_data <$> ok) ++ part;
  ci_part : match failed with Some (w, _) => part `prefix_of` w_data w | None => part = [] end;
  ci_failed : is_Some failed → c_done c = true ∧ c_writeDone c = true;
  ci_exit : c_writeDone c = true → c_done c = true;
  ci_results r : results c !! r = default None ((λ we, Some we.2) <$>
    last (filter (λ we, w_result we.1 = Some r) (taken es))) }.

(** While the writer runs neither close panics. *)
Lemma writeLoop_exit_open c :
  c_writeDone c = false →
  writeLoop_exit c = Some (mkClient (c_id c) (sendQ c) (c_done c) true (writeTimeout c) (results c) (checked c) (sent c)).
Proof. unfold writeLoop_exit, close_writeDone. by intros ->. Qed.

Definition is_error (e : option error) : bool := match e with Some _ => true | None => false end.

Lemma writeLoop_write_open c w q set n err :
  c_writeDone c = false →
  writeLoop_write c w q set n err = Some (mkClient (c_id c) q (c_done c || is_error (write_error w set n err))
    (is_error (write_error w set n err)) (writeTimeout c)
    (match w_result w with Some r => <[r := write_error w set n err]> (results c) | None => results c end) (checked c)
    (sent c ++ match set with None => take (Z.to_nat n) (w_data w) | Some _ => [] end)).
Proof. unfold writeLoop_write, close_writeDone. cbn [c_writeDone]. intros ->. by destruct (write_error w set n err). Qed.

Lemma queued_app es e : queued (es ++ [e]) = queued es ++ match queued_of e with Some w => [w] | None => [] end.
Proof. unfold queued. rewrite omap_app. simpl. by destruct (queued_of e). Qed.

Lemma taken_app es e : taken (es ++ [e]) = taken es ++ match taken_of e with Some w => [w] | None => [] end.
Proof. unfold taken. rewrite omap_app. simpl. by destruct (taken_of e). Qed.

(** Events that move no write. *)
Lemma inv_quiet es e c c' ok failed part :
  queued_of e = None → taken_of e = None → sendQ c' = sendQ c → sent c' = sent c → results c' = results c →
  (c_done c = true → c_done c' = true) → (c_writeDone c = true → c_writeDone c' = true) →
  (c_writeDone c' = true → c_done c' = true) →
  client_inv es c ok failed part → client_inv (es ++ [e]) c' ok failed part.
Proof.
  intros Hq Ht Hs Hse Hr Hd Hw Hx [I1 I2 I3 I4 I5 I6 I7 I8].
  assert (Eq : queued (es ++ [e]) = queued es) by (by rewrite queued_app, Hq, app_nil_r).
  assert (Et : taken (es ++ [e]) = taken es) by (by rewrite taken_app, Ht, app_nil_r).
  split; rewrite ?Eq, ?Et, ?Hs, ?Hse, ?Hr; try done.
  intros Hf. destruct (I6 Hf). auto.
Qed.

Lemma inv_put es c k w ok failed part :
  len (sendQ c) < sendQ_capacity → client_inv es c ok failed part →
  client_inv (es ++ [EEnqueue k w None]) (enqueue_put c k w) ok failed part.
Proof.
  intros Hroom [I1 I2 I3 I4 I5 I6 I7 I8].
  assert (Et : taken (es ++ [EEnqueue k w None]) = taken es) by (by rewrite taken_app, app_nil_r).
  split; rewrite ?Et; simpl; try done.
  - rewrite queued_app, I2. simpl. by rewrite <- app_assoc.
  - unfold len in *. rewrite length_app. simpl. lia.
Qed.

Lemma results_take (res : gmap nat (option error)) (l : list (queuedWrite * option error)) w e r :
  (res !! r = default None ((λ we, Some we.2) <$> last (filter (λ we, w_result we.1 = Some r) l))) →
  (match w_result w with Some r0 => <[r0 := e]> res | None => res end) !! r
  = default None ((λ we, Some we.2) <$> last (filter (λ we, w_result we.1 = Some r) (l ++ [(w, e)]))).
Proof.
  intros Hr. rewrite filter_app. destruct (decide (w_result w = Some r)) as [Hw|Hw].
  - rewrite Hw, lookup_insert_eq. rewrite (filter_cons_True _ (w, e) []) by done.
    change (filter _ []) with (@nil (queuedWrite * option error)). by rewrite last_snoc.
  - rewrite (filter_cons_False _ (w, e) []) by done.
    change (filter _ []) with (@nil (queuedWrite * option error)). rewrite app_nil_r, <- Hr.
    destruct (w_result w) as [r0|]; [|done]. rewrite lookup_insert_ne; congruence.
Qed.

Lemma write_error_None w set n err :
  0 <= n <= len (w_data w) → write_error w set n err = None →
  set = None ∧ take (Z.to_nat n) (w_data w) = w_data w.
Proof.
  intros Hn. unfold write_error. destruct set; [done|]. destruct err; [done|].
  destruct (Z.eqb_spec n (len (w_data w))); [|done]. intros _. split; [done|].
  apply take_ge. unfold len in *. lia.
Qed.

Lemma inv_write es c w q set n err c' ok failed part :
  c_writeDone c = false → sendQ c = w :: q → 0 <= n <= len (w_data w) → writeLoop_write c w q set n err = Some c' →
  client_inv es c ok failed part →
  ∃ ok' failed' part', client_inv (es ++ [EWrite w (write_error w set n err)]) c' ok' failed' part'.
Proof.
  intros Hrun Hq Hn Hw [I1 I2 I3 I4 I5 I6 I7 I8]. rewrite (writeLoop_write_open _ _ _ _ _ _ Hrun) in Hw.
  apply (inj Some) in Hw as <-.
  assert (failed = None) as ->.
  { destruct failed as [f|]; [|done]. destruct (I6 ltac:(eauto)). congruence. }
  simpl in I5. subst part. rewrite app_nil_r in I1, I4. rewrite Hq in I2, I3.
  assert (Et : ∀ e, taken (es ++ [EWrite w e]) = taken es ++ [(w, e)]) by (intros; by rewrite taken_app).
  assert (Eq : ∀ e, queued (es ++ [EWrite w e]) = (taken es ++ [(w, e)]).*1 ++ q).
  { intros e. rewrite queued_app, app_nil_r, I2, fmap_app, <- app_assoc. done. }
  assert (Hb : len q <= sendQ_capacity) by (unfold len in *; simpl in *; lia).
  destruct (write_error w set n err) as [e|] eqn:He; cbn [is_error].
  - exists ok, (Some (w, e)), (match set with None => take (Z.to_nat n) (w_data w) | Some _ => [] end).
    split; rewrite ?Et, ?Eq; simpl; try done.
    + by rewrite I1.
    + by rewrite I4.
    + destruct set; [apply prefix_nil|]. apply prefix_take.
    + intros _. by rewrite orb_true_r.
    + intros _. by rewrite orb_true_r.
    + intros r. apply results_take, I8.
  - apply write_error_None in He as [-> Htake]; [|done].
    exists (ok ++ [w]), None, []. split; rewrite ?Et, ?Eq; simpl; try done.
    + by rewrite fmap_app, app_nil_r, I1.
    + rewrite I4, Htake, fmap_app, concat_app, app_nil_r. simpl. by rewrite app_nil_r.
    + intros r. apply results_take, I8.
Qed.

Ltac quiet := simpl; first [done | congruence | assumption | auto].

Lemma client_run_inv id es c :
  client_run id es c → ∃ ok failed part, client_inv es c ok failed part.
Proof.
  induction 1 as [|es c e c' _ (ok & failed & part & Hinv) Hstep].
  { exists [], None, []. split; done. }
  destruct Hstep as [c k w e c' Hk Hc|c k w e c' Hk Hc|c w q set n err c' Hw Hq Hn Hc|c c' Hw Hd Hc|c|c t e c' Hc].
  - exists ok, failed, part. unfold enqueue_check in Hc. pose proof (ci_exit _ _ _ _ _ Hinv) as Hx.
    destruct (c_done c) eqn:Hd; injection Hc as <- <-; eapply inv_quiet; [..|exact Hinv]; quiet.
  - pose proof (ci_exit _ _ _ _ _ Hinv) as Hx.
    destruct Hc as [Hd|Hroom|Hd Hfull]; [|exists ok, failed, part; by apply inv_put|];
      exists ok, failed, part; eapply inv_quiet; [..|exact Hinv]; quiet.
  - by eapply inv_write.
  - rewrite (writeLoop_exit_open _ Hw) in Hc. injection Hc as <-.
    exists ok, failed, part. eapply inv_quiet; [..|exact Hinv]; quiet.
  - exists ok, failed, part. eapply inv_quiet; [..|exact Hinv]; quiet.
  - exists ok, failed, part. pose proof (ci_exit _ _ _ _ _ Hinv) as Hx.
    unfold SetWriteTimeout in Hc. destruct (t <=? 0); injection Hc as <- <-;
      eapply inv_quiet; [..|exact Hinv]; quiet.
Qed.

(** * Theorems *)

(** C35: the connection is written in order: whatever the goroutines and the network
    do, at most 1024 writes wait; the byte stream is the data of a prefix of the
    accepted writes, each whole and in the order they were accepted, followed by at
    most part of the next one, after whose failure the client is closed and
    nothing more is written; and a [Send] that returns nil was written whole. *)
Theorem writes_in_order id es c :
  client_run id es c →
  len (sendQ c) <= sendQ_capacity
  ∧ ∃ ok rest part, queued es = ok ++ rest ∧ sent c = concat (w_data <$> ok) ++ part
    ∧ (part ≠ [] → ∃ w rest', rest = w :: rest' ∧ part `prefix_of` w_data w ∧ c_done c = true ∧ c_writeDone c = true)
    ∧ ∀ r, Send_returns c r None → ∃ w, w ∈ ok ∧ w_result w = Some r.
Proof.
  intros Hrun. destruct (client_run_inv id es c Hrun) as (ok & failed & part & [I1 I2 I3 I4 I5 I6 I7 I8]).
  split; [done|].
  exists ok, (match failed with Some (w, _) => [w] | None => [] end ++ sendQ c), part. split_and!.
  - rewrite I2, I1, fmap_app, <- list_fmap_compose, list_fmap_id, <- app_assoc. by destruct failed as [[? ?]|].
  - done.
  - intros Hp. destruct failed as [[w e]|]; [|done]. exists w, (sendQ c). destruct (I6 ltac:(eauto)). done.
  - intros r Hs. inversion Hs as [e Hr|]; subst. rewrite I8 in Hr.
    destruct (last _) as [[w e]|] eqn:Hl; [|done]. simpl in Hr. injection Hr as ->.
    apply last_Some_elem_of, list_elem_of_filter in Hl as [Hw Hin]. simpl in Hw. exists w. split; [|done].
    rewrite I1 in Hin. apply elem_of_app in Hin as [(w' & [= <-] & ?)%list_elem_of_fmap|Hin]; [done|].
    destruct failed as [[? ?]|]; [by apply list_elem_of_singleton in Hin|by apply elem_of_nil in Hin].
Qed.

Definition example_write : queuedWrite := mkWrite [208; 0] (Some 1%nat) 0.

Lemma writes_in_order_witness :
  ∃ c, client_run (bs "a") [ECheck 1 example_write None; EEnqueue 1 example_write None; EWrite example_write None] c
    ∧ ∃ ok rest part, [example_write] = ok ++ rest ∧ [208; 0] = concat (w_data <$> ok) ++ part
      ∧ ∃ w, w ∈ ok ∧ w_result w = Some 1%nat.
Proof.
  set (c1 := (enqueue_check (Client_New (bs "a")) 1 example_write).2).
  set (c2 := enqueue_put c1 1 example_write).
  set (c3 := default c2 (writeLoop_write c2 example_write [] None 2 None)).
  assert (Hrun : client_run (bs "a") [ECheck 1 example_write None; EEnqueue 1 example_write None; EWrite example_write None] c3).
  { apply (run_step _ [ECheck 1 example_write None; EEnqueue 1 example_write None] c2 (EWrite example_write None)).
    - apply (run_step _ [ECheck 1 example_write None] c1 (EEnqueue 1 example_write None)).
      + apply (run_step _ [] (Client_New (bs "a")) (ECheck 1 example_write None)); [constructor|].
        by apply step_check.
      + apply step_enqueue; [reflexivity|]. apply select_put. reflexivity.
    - apply (step_write c2 example_write [] None 2 None); [reflexivity|reflexivity| |reflexivity]. split; [lia|reflexivity]. }
  exists c3. split; [exact Hrun|].
  destruct (writes_in_order (bs "a") _ c3 Hrun) as (_ & ok & rest & part & Hq & Hs & _ & Hsend).
  exists ok, rest, part. split; [exact Hq|]. split; [exact Hs|].
  apply Hsend. apply Send_result. reflexivity.
Defined.

(** Nobody waits for ever: every call of [enqueue] has an outcome at once
    ([ErrClientQueueFull] only when 1024 writes wait); as long as the writer lives
    it can go on whenever a write waits or the client is closed; a new call after
    [Close] is refused; and once the client is closed every [Send] returns. *)
Theorem client_never_blocks c :
  (∀ k w, checked c !! k = None → ∃ e c', client_step c (ECheck k w e) c' ∧ (c_done c = true → e = Some ErrClosed))
  ∧ (∀ k w, checked c !! k = Some w → ∃ e c', client_step c (EEnqueue k w e) c')
  ∧ (∀ k w c', client_step c (EEnqueue k w (Some ErrClientQueueFull)) c' → sendQ_capacity <= len (sendQ c))
  ∧ (c_writeDone c = false → c_done c = true → ∃ c', client_step c EExit c' ∧ c_writeDone c' = true)
  ∧ (∀ w q, c_writeDone c = false → sendQ c = w :: q → ∃ e c', client_step c (EWrite w e) c' ∧ sendQ c' = q)
  ∧ (c_done c = true → ∀ r, ∃ e, Send_returns c r e).
Proof.
  split_and!.
  - intros k w Hk. destruct (enqueue_check c k w) as [e c'] eqn:Hc. exists e, c'. split; [by apply step_check|].
    intros Hd. unfold enqueue_check in Hc. rewrite Hd in Hc. by injection Hc as <- _.
  - intros k w Hk. destruct (decide (len (sendQ c) < sendQ_capacity)) as [Hroom|Hfull].
    + do 2 eexists. apply step_enqueue; [done|]. by apply select_put.
    + destruct (c_done c) eqn:Hd; do 2 eexists; apply step_enqueue; try done;
        [by apply select_done|apply select_default; [done|lia]].
  - intros k w c' Hstep. inversion Hstep as [|? ? ? ? ? Hk Hsel| | | |]; subst. by inversion Hsel; subst.
  - intros Hw Hd. eexists. split; [apply step_exit; [exact Hw|exact Hd|by apply writeLoop_exit_open]|done].
  - intros w q Hw Hq. do 2 eexists. split; [eapply (step_write c w q None 0 (Some EOF) _ Hw Hq)|].
    + unfold len. lia.
    + by apply writeLoop_write_open.
    + done.
  - intros Hd r. destruct (results c !! r) as [e|] eqn:Hr.
    + exists e. by apply Send_result.
    + exists (Some ErrClosed). by apply Send_done.
Qed.
