(* ===== verification/Server.v ===== *)
(** The server (src/internal/server/server.go and security.go): the registry of
    connections, the opening and closing of sessions, and the packet handlers.

    The state is the memory the goroutines share.  A definition that holds
    [clientsMu] in the source is one step.  What a goroutine does between two points
    where it waits is modelled as a sequence, on a state nobody else changes meanwhile;
    [Lifecycle] says where it waits.  Results of the network ([Send] waits for the
    write), clocks and contexts are arguments.  [None] is a panic: of a nil pointer, of
    a channel that is closed twice or of a wait group that becomes negative. *)

From S2P Require Import Prelude Topic Wire Encoder Decoder Tree Broker Session Delivery Auth Client.

Local Open Scope Z_scope.
Local Open Scope orb_scope.

(** * State *)

Abbreviation clientptr := nat.
Abbreviation connptr := nat.

(** [ac_done] is whether the channel [done] is closed. *)
Record activeConnection := mkActive {
  ac_client : clientptr;
  ac_session : stateptr;
  cleanSession : bool;
  closing : bool;
  ready : bool;
  disconnectedAt : Z;
  ac_done : bool }.

(** ** Accepted connections *)

(** A [net.Conn] by its identity. *)
Abbreviation netconn := nat.

Record ConnectionLimits := mkConnectionLimits {
  MaxConnections : Z;
  MaxHandshakes : Z }.

Definition DefaultConnectionLimits : ConnectionLimits := mkConnectionLimits 10000 1000.

Definition ConnectionLimits_Validate (l : ConnectionLimits) : option error :=
  if (MaxConnections l <=? 0) || (MaxHandshakes l <=? 0) || (MaxConnections l <? MaxHandshakes l)
  then Some (New "invalid connection limits") else None.

(** The source's [server.Snapshot]. *)
Record ServerStats := mkServerStats {
  AuthenticationRejections : Z;
  AuthorizationRejections : Z;
  Connections : Z;
  Handshakes : Z;
  ConnectionRejections : Z;
  HandshakeRejections : Z }.

(** [connections] maps a connection to whether it is in its handshake; [handlers]
    is the count of the wait group. *)
Record connectionGroup := mkGroup {
  connections : gmap netconn bool;
  handlers : Z;
  g_stats : ServerStats }.

Definition count_handshake (g : ServerStats) (n : Z) : ServerStats :=
  mkServerStats (AuthenticationRejections g) (AuthorizationRejections g) (Connections g) (Handshakes g + n)
    (ConnectionRejections g) (HandshakeRejections g).

Definition count_refused (g : ServerStats) (conns handshakes : Z) : ServerStats :=
  mkServerStats (AuthenticationRejections g) (AuthorizationRejections g) (Connections g) (Handshakes g)
    (u64 (ConnectionRejections g + conns)) (u64 (HandshakeRejections g + handshakes)).

Definition count_rejected (g : ServerStats) (authentication authorization : Z) : ServerStats :=
  mkServerStats (u64 (AuthenticationRejections g + authentication))
    (u64 (AuthorizationRejections g + authorization)) (Connections g) (Handshakes g) (ConnectionRejections g)
    (HandshakeRejections g).

(** What [start] does with a connection, whose handler it starts if it is
    [Started]; only [Stopped] is the result [false]. *)
Inductive started := Started | Rejected | Stopped.

#[export] Instance started_eq_dec : EqDecision started.
Proof. solve_decision. Defined.

Definition start (ctxErr : option error) (conn : netconn) (l : ConnectionLimits) (g : connectionGroup)
    : started * connectionGroup :=
  match ctxErr with
  | Some _ => (Stopped, g)
  | None =>
      if (MaxConnections l <=? msize (connections g)) || (MaxHandshakes l <=? Handshakes (g_stats g))
      then (Rejected,
            mkGroup (connections g) (handlers g)
              (if MaxConnections l <=? msize (connections g) then count_refused (g_stats g) 1 0
               else count_refused (g_stats g) 0 1))
      else (Started,
            mkGroup (<[conn := true]> (connections g)) (handlers g + 1) (count_handshake (g_stats g) 1))
  end.

(** [g.connections[conn]] of a Go map is [false] for a missing key. *)
Definition in_handshake (conn : netconn) (g : connectionGroup) : bool := default false (connections g !! conn).

(** [handlers.Done()]: a wait group panics when its counter becomes negative. *)
Definition handlers_Done (g : connectionGroup) : option connectionGroup :=
  if handlers g - 1 <? 0 then None else Some (mkGroup (connections g) (handlers g - 1) (g_stats g)).

(** The deferred functions of the goroutine that [start] runs. *)
Definition finish (conn : netconn) (g : connectionGroup) : option connectionGroup :=
  handlers_Done (mkGroup (delete conn (connections g)) (handlers g)
    (if in_handshake conn g then count_handshake (g_stats g) (-1) else g_stats g)).

Definition completeHandshake (conn : netconn) (g : connectionGroup) : connectionGroup :=
  if in_handshake conn g
  then mkGroup (<[conn := false]> (connections g)) (handlers g) (count_handshake (g_stats g) (-1))
  else g.

Definition group_Snapshot (g : connectionGroup) : ServerStats :=
  let st := g_stats g in
  mkServerStats (AuthenticationRejections st) (AuthorizationRejections st) (msize (connections g))
    (Handshakes st) (ConnectionRejections st) (HandshakeRejections st).

(** ** The server *)

(** What the source sets of Go's [tls.Config]; a certificate is opaque. *)
Record TLSConfig := mkTLSConfig {
  Certificates : list bytes;
  MinVersion : Z }.

Definition VersionTLS12 : Z := 771.

(** Fields of the server that do not change after [New]; times in nanoseconds. *)
Record Settings := mkSettings {
  srv_addr : bytes;
  handshakeTimeout : Z;
  maxPacketSize : Z;
  srv_writeTimeout : Z;
  connectionLimits : ConnectionLimits;
  tlsConfig : option TLSConfig;
  encodePublishFn : PublishPacket → result bytes }.

Definition default_settings (addr : bytes) : Settings :=
  mkSettings addr 10000000000 (Z.shiftl 1 20) 30000000000 DefaultConnectionLimits None encodePublishPacket.

(** [srv_owners] and [srv_conns] are the heaps of connections and clients. *)
Record Server := mkServer {
  settings : Settings;
  srv_auth : option Local;
  srv_broker : Broker;
  srv_sessions : Store;
  srv_clients : gmap bytes connptr;
  srv_owners : gmap connptr activeConnection;
  srv_conns : gmap clientptr Client;
  srv_connections : connectionGroup }.

Definition New_server (sets : Settings) (policy : option Local) (b : Broker) (sessions : Store) : Server :=
  mkServer sets policy b sessions ∅ ∅ ∅ (mkGroup ∅ 0 (mkServerStats 0 0 0 0 0 0)).

(** The checks at the start of [Start]. *)
Definition Start_checks (s : Server) : option error :=
  let sets := settings s in
  if negb (Bool.eqb (bool_decide (srv_auth s = None)) (bool_decide (tlsConfig sets = None)))
  then Some (New "security requires both authentication and tls")
  else match ConnectionLimits_Validate (connectionLimits sets) with
  | Some err => Some err
  | None =>
      if srv_writeTimeout sets <=? 0 then Some (New "write timeout must be positive")
      else if (maxPacketSize sets <=? 0) || (MaxPacketSize <? maxPacketSize sets)
      then Some (New "invalid maximum packet size")
      else if handshakeTimeout sets <=? 0 then Some (New "handshake timeout must be positive")
      else None
  end.

Definition set_auth (s : Server) (l : option Local) : Server :=
  mkServer (settings s) l (srv_broker s) (srv_sessions s) (srv_clients s) (srv_owners s) (srv_conns s)
    (srv_connections s).

Definition set_broker (s : Server) (b : Broker) : Server :=
  mkServer (settings s) (srv_auth s) b (srv_sessions s) (srv_clients s) (srv_owners s) (srv_conns s)
    (srv_connections s).

Definition set_sessions (s : Server) (st : Store) : Server :=
  mkServer (settings s) (srv_auth s) (srv_broker s) st (srv_clients s) (srv_owners s) (srv_conns s)
    (srv_connections s).

Definition set_registry (s : Server) (clients : gmap bytes connptr) (owners : gmap connptr activeConnection) : Server :=
  mkServer (settings s) (srv_auth s) (srv_broker s) (srv_sessions s) clients owners (srv_conns s)
    (srv_connections s).

Definition set_conns (s : Server) (conns : gmap clientptr Client) : Server :=
  mkServer (settings s) (srv_auth s) (srv_broker s) (srv_sessions s) (srv_clients s) (srv_owners s) conns
    (srv_connections s).

Definition set_group (s : Server) (g : connectionGroup) : Server :=
  mkServer (settings s) (srv_auth s) (srv_broker s) (srv_sessions s) (srv_clients s) (srv_owners s)
    (srv_conns s) g.

Definition count_auth (s : Server) (authentication authorization : Z) : Server :=
  let g := srv_connections s in
  set_group s (mkGroup (connections g) (handlers g) (count_rejected (g_stats g) authentication authorization)).

(** ** Actions on the state *)

Definition action (A : Type) : Type := Server → option (A * Server).

#[export] Instance action_ret : MRet action := λ A a s, Some (a, s).
#[export] Instance action_bind : MBind action := λ A B k m s, '(a, s) ← m s; k a s.

(** A method of a session. *)
Definition on_session {A} (f : method A) (p : stateptr) : action A := λ s,
  '(a, st) ← call f p (srv_sessions s); Some (a, set_sessions s st).

(** An operation of the store. *)
Definition on_store {A} (f : Store → option (A * Store)) : action A := λ s,
  '(a, st) ← f (srv_sessions s); Some (a, set_sessions s st).

Definition on_broker (f : Broker → Broker) : action unit := λ s,
  Some (tt, set_broker s (f (srv_broker s))).

Definition get {A} (f : Server → A) : action A := λ s, Some (f s, s).

(** ** Clients *)

(** [enqueue] when nothing happens between its two [select]s. *)
Definition enqueue (c : Client) (w : queuedWrite) : option error * Client :=
  if c_done c then (Some ErrClosed, c)
  else if len (sendQ c) <? sendQ_capacity
  then (None, mkClient (c_id c) (sendQ c ++ [w]) (c_done c) (c_writeDone c) (writeTimeout c) (results c)
                (checked c) (sent c))
  else (Some ErrClientQueueFull, c).

Definition on_client {A} (f : Client → A * Client) (cli : clientptr) : action A := λ s,
  c ← srv_conns s !! cli;
  let '(a, c) := f c in
  Some (a, set_conns s (<[cli := c]> (srv_conns s))).

Definition Enqueue (cli : clientptr) (data : bytes) : action (option error) :=
  on_client (λ c, enqueue c (mkWrite data None 0)) cli.

Definition close_client (cli : clientptr) : action unit := on_client (λ c, (tt, Close c)) cli.

(** [sendPacketWithDeadline]; [written] is what the wait for the write gives. *)
Definition sendPacketWithDeadline (cli : clientptr) (pkt : Packet) (deadline : Z) (written : option error)
    : action (option error) :=
  match Encode pkt with
  | Error err => mret (Some err)
  | Ok data =>
      err ← on_client (λ c, enqueue c (mkWrite data (Some 0%nat) deadline)) cli;
      match err with
      | Some err => mret (Some err)
      | None => mret written
      end
  end.

Definition sendPacket (cli : clientptr) (pkt : Packet) (written : option error) : action (option error) :=
  sendPacketWithDeadline cli pkt 0 written.

(** * Security (security.go) *)

Definition recordAuthorizationRejection : action unit := λ s, Some (tt, count_auth s 0 1).

Definition canPublish (identity name : bytes) : action bool :=
  policy ← get srv_auth;
  match policy with
  | None => mret true
  | Some l =>
      if CanPublish l identity name then mret true
      else (_ ← recordAuthorizationRejection; mret false)
  end.

Definition canSubscribe (identity filter : bytes) : action bool :=
  policy ← get srv_auth;
  match policy with
  | None => mret true
  | Some l =>
      allowed ← (λ s, b ← CanSubscribe l identity filter; Some (b, s));
      if allowed : bool then mret true
      else (_ ← recordAuthorizationRejection; mret false)
  end.

Section authenticate.
Context (pbkdf2_Key : bytes → bytes → Z → Z → result bytes).

(** [authenticateConnect]: [before], [after] and [later] are what [ctx.Err()]
    gives, twice inside [Authenticate] and then again. *)
Definition authenticateConnect (before after later : option error) (connect : ConnectPacket)
    : action (bytes * Z) := λ s,
  match srv_auth s with
  | None => Some (([], ConnAckAccepted), s)
  | Some l =>
      let username := default [] (conn_Username connect) in
      let password := default [] (conn_Password connect) in
      let '(r, l) := Authenticate pbkdf2_Key l before after username password in
      let s := set_auth s (Some l) in
      match r, later with
      | Error ErrBusy, _ | _, Some _ => Some (([], ConnAckServerUnavailable), s)
      | Error _, None => Some (([], ConnAckBadCredentials), s)
      | Ok who, None =>
          match conn_Username connect, conn_Password connect with
          | Some _, Some _ =>
              if negb (CanUseClientID l who (conn_ClientID connect))
                 || match conn_Will connect with
                    | Some w => negb (CanPublish l who (will_Topic w))
                    | None => false
                    end
              then Some (([], ConnAckNotAuthorized), s)
              else Some ((who, ConnAckAccepted), s)
          | _, _ => Some (([], ConnAckBadCredentials), s)
          end
      end
  end.
End authenticate.

Definition rejectConnection (cli : clientptr) (code deadline : Z) (written : option error) : action unit :=
  _ ← (λ s, Some (tt, if code =? ConnAckNotAuthorized then count_auth s 0 1 else count_auth s 1 0));
  _ ← sendPacketWithDeadline cli (PConnAck (mkConnAck false code)) deadline written;
  mret tt.

(** * Sessions and connections *)

(** [beginClosing]: the time of the first call is kept. *)
Definition beginClosing (now : Z) (c : activeConnection) : activeConnection :=
  if closing c then c
  else mkActive (ac_client c) (ac_session c) (cleanSession c) true (ready c) now (ac_done c).

Definition openSession (connect : ConnectPacket) (identity : bytes) (now : Z)
    : action (result (stateptr * bool)) :=
  let id := conn_ClientID connect in
  expired ← on_store (ExpireSession id now);
  _ ← (if expired : bool then on_broker (λ b, Broker_UnsubscribeAll b id) else mret tt);
  _ ← (if conn_CleanSession connect then
         (_ ← on_broker (λ b, Broker_UnsubscribeAll b id);
          on_store (λ st, st ← Delete id st; Some (tt, st)))
       else mret tt);
  on_store (GetOrCreateOwned id identity now).

(** The subscriber that stands for a session. *)
Definition subscriber (p : stateptr) (id : bytes) : Subscriber := mkSubscriber p id.

Fixpoint subscribe_all (p : stateptr) (id : bytes) (subs : list sessSubscription) : action unit :=
  match subs with
  | [] => mret tt
  | sub :: subs =>
      _ ← on_broker (λ b, Broker_Subscribe b (ss_Filter sub) (ss_QoS sub) (subscriber p id));
      subscribe_all p id subs
  end.

Inductive acquired :=
| Acquired (owner : connptr) (sessionPresent : bool)
| Refused (err : error)
| Waiting (previous : connptr).

(** One round of the loop of [acquireConnection], under the lock; [Waiting] is a
    round that finds a previous owner and waits for it. *)
Definition acquireConnection (ctxErr : option error) (connect : ConnectPacket) (cli : clientptr)
    (identity : bytes) (now : Z) : action acquired := λ s,
  let id := conn_ClientID connect in
  match ctxErr with
  | Some err => Some (Refused err, s)
  | None =>
      other ← (match Get id (srv_sessions s) with
               | None => Some false
               | Some p => st ← states (srv_sessions s) !! p; Some (bool_decide (st_owner st ≠ identity))
               end);
      if other : bool then Some (Refused ErrSessionOwner, s)
      else match srv_clients s !! id with
      | Some previous =>
          prev ← srv_owners s !! previous;
          let s := set_registry s (srv_clients s) (<[previous := beginClosing now prev]> (srv_owners s)) in
          '(_, s) ← close_client (ac_client prev) s;
          Some (Waiting previous, s)
      | None =>
          '(r, s) ← openSession connect identity now s;
          match r with
          | Error err => Some (Refused err, s)
          | Ok (p, present) =>
              '(_, s) ← on_session MarkConnected p s;
              '(subs, s) ← on_session SnapshotSubscriptions p s;
              '(_, s) ← subscribe_all p id subs s;
              let owner := fresh (dom (srv_owners s)) in
              let conn := mkActive cli p (conn_CleanSession connect) false false 0 false in
              Some (Acquired owner present,
                    set_registry s (<[id := owner]> (srv_clients s)) (<[owner := conn]> (srv_owners s)))
          end
      end
  end.

(** [close(owner.done)], which panics if the channel is closed. *)
Definition close_done (owner : connptr) : action unit := λ s,
  conn ← srv_owners s !! owner;
  if ac_done conn then None
  else
    let conn := mkActive (ac_client conn) (ac_session conn) (cleanSession conn) (closing conn) (ready conn)
                  (disconnectedAt conn) true in
    Some (tt, set_registry s (srv_clients s) (<[owner := conn]> (srv_owners s))).

Definition closeSession (owner : connptr) : action unit := λ s,
  conn ← srv_owners s !! owner;
  cli ← srv_conns s !! ac_client conn;
  let id := c_id cli in
  s ← (if bool_decide (srv_clients s !! id = Some owner) then
         '(_, s) ← (if cleanSession conn
                    then (_ ← on_store (λ st, st ← Delete id st; Some (tt, st));
                          on_broker (λ b, Broker_UnsubscribeAll b id)) s
                    else on_session (MarkDisconnectedAt (disconnectedAt conn)) (ac_session conn) s);
         Some (set_registry s (delete id (srv_clients s)) (srv_owners s))
       else Some s);
  close_done owner s.

(** The body of the expiry ticker. *)
Fixpoint unsubscribe_each (ids : list bytes) : action unit :=
  match ids with
  | [] => mret tt
  | id :: ids => _ ← on_broker (λ b, Broker_UnsubscribeAll b id); unsubscribe_each ids
  end.

Definition expire_sessions (now : Z) : action unit :=
  ids ← on_store (Expire now);
  unsubscribe_each ids.
