(* ===== verification/Handlers.v ===== *)
(** The packet handlers of a connection and the delivery of a message to its
    subscribers (src/internal/server/server.go).

    [written] is what waiting for the write of an answer gives; [clock] gives the
    times at which messages are admitted.  The handler of SUBSCRIBE is in two parts, the
    one before it waits for its SUBACK, [handleSubscribe], and the one after it,
    [handleSubscribe_retained]; the others wait last, if at all. *)

From S2P Require Import Prelude Topic Wire Encoder Decoder Tree Broker Session Delivery Auth Client Server.

Local Open Scope Z_scope.
Local Open Scope orb_scope.

(** * Delivery *)

(** What the calls of [deliver] for one message share: the server, the cache and
    the variable [publishErr]; [None] once one of them panics. *)
Abbreviation delivery := (option (Server * publishDeliveryCache * option error)).

(** [owner == nil || owner.closing || !owner.ready || owner.session != state],
    negated, gives the client to write to. *)
Definition online_client (s : Server) (id : bytes) (p : stateptr) : option (option clientptr) :=
  match srv_clients s !! id with
  | None => Some None
  | Some o =>
      owner ← srv_owners s !! o;
      Some (if closing owner || negb (ready owner) || bool_decide (ac_session owner ≠ p) then None
            else Some (ac_client owner))
  end.

Definition deliverPublishToSubscriber (now : Z) (pub : PublishPacket) (sub : Subscription)
    (cache : publishDeliveryCache) : action (option error * publishDeliveryCache) := λ s,
  match Get (sub_ClientID sub) (srv_sessions s) with
  | None => Some (None, cache, s)
  | Some p =>
      if bool_decide (sbr_ref (sub_Subscriber sub) ≠ p) then Some (None, cache, s)
      else
        let qos := deliveryQoS (pub_QoS pub) (sub_QoS sub) in
        let outbound := newOutboundPublish pub qos in
        if qos =? 0 then
          online ← online_client s (sub_ClientID sub) p;
          match online with
          | None => Some (None, cache, s)
          | Some cli =>
              match qos0Payload cache (encodePublishFn (settings s)) outbound with
              | (Error err, cache) => Some (Some err, cache, s)
              | (Ok raw, cache) =>
                  '(err, s) ← Enqueue cli raw s;
                  match err with
                  | Some _ => '(_, s) ← close_client cli s; Some (None, cache, s)
                  | None => Some (None, cache, s)
                  end
              end
          end
        else
          match qos1Template cache (encodePublishFn (settings s)) outbound with
          | (Error err, cache) => Some (Some err, cache, s)
          | (Ok template, cache) =>
              '(r, s) ← on_session (Admit (raw template) (t_packetIDOffset template) now) p s;
              Some (match r with Error err => Some err | Ok _ => None end, cache, s)
          end
  end.

(** The function that [publishMessage] passes to [Publish]. *)
Definition deliver_to (clock : Subscription → Z) (p : PublishPacket) (sub : Subscription) (st : delivery)
    : option error * delivery :=
  match st with
  | None => (None, None)
  | Some (s, cache, publishErr) =>
      match deliverPublishToSubscriber (clock sub) p sub cache s with
      | None => (None, None)
      | Some (err, cache, s) =>
          (err, Some (s, cache, match err with Some err => Some err | None => publishErr end))
      end
  end.

Definition publishMessage (clock : Subscription → Z) (p : PublishPacket) : action (option error) := λ s,
  let '(err, b, st) := Publish (srv_broker s) p (deliver_to clock p) (Some (s, empty_cache, None)) in
  '(s, _, publishErr) ← st;
  Some (match err with Some err => Some err | None => publishErr end, set_broker s b).

Definition publishWill (clock : Subscription → Z) (will : WillMessage) : action unit :=
  _ ← publishMessage clock (mkPublish (will_Topic will) (will_Payload will) (will_Retain will) false (will_QoS will) 0);
  mret tt.

(** * Handlers *)

Definition handlePing (cli : clientptr) (written : option error) : action (option error) :=
  sendPacket cli PPingResp written.

Definition handlePubAck (sess : stateptr) (id : Z) : action (option error) :=
  _ ← on_session (Ack id) sess; mret None.

(** Reading a field of a session. *)
Definition reads {A} (g : State → A) : method A := λ l t s, Some (g s, t, s).

Definition Owner : method bytes := reads st_owner.

(** The body of the first loop of [handleSubscribe]: the code of one filter. *)
Definition subscribe_one (sess : stateptr) (sub : WireSubscription) : action Z :=
  owner ← on_session Owner sess;
  allowed ← canSubscribe owner (wsub_Topic sub);
  if negb allowed then mret 128
  else
    let qos := if 1 <? wsub_QoS sub then 1 else wsub_QoS sub in
    err ← on_session (SetSubscription (wsub_Topic sub) qos) sess;
    match err with
    | Some _ => mret 128
    | None =>
        id ← on_session (reads st_id) sess;
        _ ← on_broker (λ b, Broker_Subscribe b (wsub_Topic sub) qos (subscriber sess id));
        mret qos
    end.

Fixpoint subscribe_filters (sess : stateptr) (subs : list WireSubscription) : action (list Z) :=
  match subs with
  | [] => mret []
  | sub :: subs =>
      code ← subscribe_one sess sub;
      codes ← subscribe_filters sess subs;
      mret (code :: codes)
  end.

(** One retained message for the filter with code [code]. *)
Definition send_retained (cli : clientptr) (sess : stateptr) (now code : Z) (retained : PublishPacket)
    : action (option error) :=
  encodeFn ← get (λ s, encodePublishFn (settings s));
  let outbound := newOutboundPublish retained (deliveryQoS (pub_QoS retained) code) in
  if pub_QoS outbound =? 1 then
    match newPublishTemplate encodeFn outbound with
    | Error err => mret (Some err)
    | Ok template =>
        r ← on_session (Admit (raw template) (t_packetIDOffset template) now) sess;
        mret (match r with Error err => Some err | Ok _ => None end)
    end
  else
    match encodeFn outbound with
    | Error err => mret (Some err)
    | Ok raw => Enqueue cli raw
    end.

(** A loop that returns the first error. *)
Fixpoint until_error {A} (f : A → action (option error)) (l : list A) : action (option error) :=
  match l with
  | [] => mret None
  | a :: l =>
      err ← f a;
      match err with
      | Some err => mret (Some err)
      | None => until_error f l
      end
  end.

(** The retained messages of one requested filter and its code. *)
Definition retained_of (cli : clientptr) (sess : stateptr) (clock : bytes → PublishPacket → Z)
    (granted : WireSubscription * Z) : action (option error) :=
  let '(sub, code) := granted in
  if code =? 128 then mret None
  else
    matching ← get (λ s, RetainedMatching (srv_broker s) (wsub_Topic sub));
    until_error (λ retained, send_retained cli sess (clock (wsub_Topic sub) retained) code retained) matching.

(** [handleSubscribe] up to where it waits for the SUBACK to be written: the error
    when there is nothing to wait for, and the codes.  The deferred [ResumeDelivery]
    runs on every return. *)
Definition handleSubscribe (cli : clientptr) (sess : stateptr) (p : SubscribePacket)
    : action (option error * list Z) :=
  _ ← on_session PauseDelivery sess;
  codes ← subscribe_filters sess (sp_Subscriptions p);
  err ← sendPacket cli (PSubAck (mkSubAck (sp_PacketID p) codes)) None;
  match err with
  | Some err => _ ← on_session ResumeDelivery sess; mret (Some err, codes)
  | None => mret (None, codes)
  end.

(** The rest of it: [written] is what the wait gave. *)
Definition handleSubscribe_retained (cli : clientptr) (sess : stateptr) (p : SubscribePacket) (codes : list Z)
    (written : option error) (clock : bytes → PublishPacket → Z) : action (option error) :=
  err ← match written with
        | Some err => mret (Some err)
        | None => until_error (retained_of cli sess clock) (zip (sp_Subscriptions p) codes)
        end;
  _ ← on_session ResumeDelivery sess;
  mret err.

Fixpoint unsubscribe_filters (id : bytes) (sess : stateptr) (filters : list bytes) : action unit :=
  match filters with
  | [] => mret tt
  | filter :: filters =>
      _ ← on_broker (λ b, Broker_Unsubscribe b filter id);
      _ ← on_session (DeleteSubscription filter) sess;
      unsubscribe_filters id sess filters
  end.

Definition client_id (cli : clientptr) : action bytes := on_client (λ c, (c_id c, c)) cli.

Definition handleUnsubscribe (cli : clientptr) (sess : stateptr) (p : UnsubscribePacket)
    (written : option error) : action (option error) :=
  id ← client_id cli;
  _ ← unsubscribe_filters id sess (up_Topics p);
  sendPacket cli (PUnsubAck (up_PacketID p)) written.

Definition handlePublish (cli : clientptr) (p : PublishPacket) (written : option error)
    (clock : Subscription → Z) : action (option error) :=
  err ← publishMessage clock p;
  match err with
  | Some err => mret (Some err)
  | None => if pub_QoS p =? 1 then sendPacket cli (PPubAck (pub_PacketID p)) written else mret None
  end.

(** What the handler of one packet gets from outside. *)
Record environment := mkEnv {
  env_written : option error;
  env_clock : Subscription → Z }.

(** The handler of a packet returned, or it handles SUBSCRIBE and waits for the SUBACK
    with these codes to be written. *)
Inductive handled :=
| Handled (err : option error)
| AwaitSubAck (p : SubscribePacket) (codes : list Z).

(** A handler that has returned when its step ends. *)
Definition handles (m : action (option error)) : action handled := err ← m; mret (Handled err).

Definition handlePacket (cli : clientptr) (sess : stateptr) (pkt : Packet) (e : environment)
    : action handled :=
  match pkt with
  | PPingReq => handles (handlePing cli (env_written e))
  | PPubAck id => handles (handlePubAck sess id)
  | PSubscribe p =>
      '(err, codes) ← handleSubscribe cli sess p;
      mret (match err with Some err => Handled (Some err) | None => AwaitSubAck p codes end)
  | PUnsubscribe p => handles (handleUnsubscribe cli sess p (env_written e))
  | PPublish p =>
      handles (
        owner ← on_session Owner sess;
        allowed ← canPublish owner (pub_Topic p);
        if negb allowed then mret (Some (New "publication not authorized"))
        else handlePublish cli p (env_written e) (env_clock e))
  | PDisconnect => handles (mret (Some errDisconnect))
  | _ => handles (mret (Some (New "unsupported packet type")))
  end.
