(* ===== verification/Lifecycle.v ===== *)
(** The life of a connection: [handleConn], [serve] and [consumeDeliveries] of
    src/internal/server/server.go, and the steps of the whole server.

    The goroutine of a connection is a state machine, and so is its consumer.  A step
    of them runs from one point where they give up the lock or wait for somebody else
    to the next.  Waiting for a write ends a step where something shared is touched
    afterwards: after CONNACK, in the middle of SUBSCRIBE, while delivery on the session
    is paused, and after a delivery.  The [Reader] of a connection holds the bytes
    that arrive on it and the error after them. *)

From S2P Require Import Prelude Topic Wire Encoder Decoder Tree Broker Session Delivery.
From S2P Require Import Auth Client Server Handlers.

Local Open Scope Z_scope.
Local Open Scope orb_scope.

(** * The handler of a connection *)

(** The variables of [handleConn] once the CONNECT packet is read. *)
Record handler := mkHandler {
  h_client : clientptr;
  h_connect : ConnectPacket;
  h_identity : bytes;
  h_reader : Reader }.

(** The consumer goroutine of a connection and its epoch; [Sending] is where it waits for
    a delivery to be written, [Blocked] the [select] at the end of its loop, and a
    consumer that was not started is [Returned]. *)
Inductive consumer :=
| Running (epoch : Z)
| Sending (epoch : Z)
| Blocked (epoch : Z)
| Returned.

#[export] Instance consumer_eq_dec : EqDecision consumer.
Proof. solve_decision. Defined.

(** Where the goroutine of a connection is.  [Welcoming] is where it waits for an
    accepting CONNACK to be written.  [Subscribing] is in [serve], where
    [handleSubscribe] waits for the SUBACK to be written, [Leaving] is before the deferred
    publication of the will, [Cleaning] before the other deferred function, and
    [Draining] in it, where it waits for the consumer and the writer. *)
Inductive phase :=
| Handshaking (r : Reader)
| Authenticating (h : handler)
| Acquiring (h : handler)
| Awaiting (h : handler) (previous : connptr)
| Greeting (h : handler) (owner : connptr) (sessionPresent : bool)
| Welcoming (h : handler) (owner : connptr)
| Serving (h : handler) (owner : connptr) (consuming : consumer)
| Subscribing (h : handler) (owner : connptr) (consuming : consumer) (p : SubscribePacket) (codes : list Z)
| Leaving (h : handler) (owner : connptr) (consuming : consumer) (cleanDisconnect : bool)
| Cleaning (h : handler) (owner : option connptr) (consuming : consumer)
| Draining (h : handler) (owner : option connptr) (consuming : consumer)
| Finished.

(** The credentials are dropped once they were checked. *)
Definition forget_credentials (c : ConnectPacket) : ConnectPacket :=
  mkConnect (conn_ProtocolName c) (conn_ProtocolLevel c) (conn_CleanSession c) (conn_KeepAlive c)
    (conn_ClientID c) (conn_Will c) None None.

(** [handshake]: the first packet has to be CONNECT. *)
Definition handshake (r : Reader) : action (result handler) := λ s,
  match DecodeWithLimit r (maxPacketSize (settings s)) with
  | Error err => Some (Error err, s)
  | Ok (PConnect connect, r) =>
      let cli := fresh (dom (srv_conns s)) in
      Some (Ok (mkHandler cli connect [] r),
            set_conns s (<[cli := Client_New (conn_ClientID connect)]> (srv_conns s)))
  | Ok _ => Some (Error (New "first packet is not CONNECT"), s)
  end.

(** [ready] is the first failure of setting the deadline and of the TLS handshake. *)
Definition do_handshake (ready : option error) (r : Reader) : action phase :=
  match ready with
  | Some _ => mret Finished
  | None =>
      h ← handshake r;
      mret (match h with Ok h => Authenticating h | Error _ => Finished end)
  end.

Section handleConn.
Context (pbkdf2_Key : bytes → bytes → Z → Z → result bytes).

(** [ctx1], [ctx2] and [ctx3] are what [ctx.Err()] gives during the check,
    [deadline] the end of the handshake and [written] the fate of a refusal. *)
Definition do_authenticate (ctx1 ctx2 ctx3 : option error) (deadline : Z) (written : option error)
    (h : handler) : action phase :=
  '(who, code) ← authenticateConnect pbkdf2_Key ctx1 ctx2 ctx3 (h_connect h);
  if negb (code =? ConnAckAccepted) then
    (_ ← rejectConnection (h_client h) code deadline written; mret (Cleaning h None Returned))
  else mret (Acquiring (mkHandler (h_client h) (forget_credentials (h_connect h)) who (h_reader h))).
End handleConn.

(** One round of the loop in [acquireConnection]. *)
Definition do_acquire (ctxErr : option error) (now deadline : Z) (written : option error) (h : handler)
    : action phase :=
  r ← acquireConnection ctxErr (h_connect h) (h_client h) (h_identity h) now;
  match r with
  | Acquired owner present => mret (Greeting h owner present)
  | Waiting previous => mret (Awaiting h previous)
  | Refused err =>
      _ ← (if bool_decide (err = ErrSessionOwner)
           then rejectConnection (h_client h) ConnAckNotAuthorized deadline written else mret tt);
      mret (Cleaning h None Returned)
  end.

(** The [select] on [previous.done] and [ctx.Done()]: [cancelled] is the choice of
    the second case. *)
Definition do_await (cancelled : bool) (h : handler) (previous : connptr) : phase :=
  if cancelled then Cleaning h None Returned else Acquiring h.

Definition set_ready (owner : connptr) : action unit := λ s,
  a ← srv_owners s !! owner;
  Some (tt, set_registry s (srv_clients s)
    (<[owner := mkActive (ac_client a) (ac_session a) (cleanSession a) (closing a) true (disconnectedAt a)
                  (ac_done a)]> (srv_owners s))).

Definition owner_session (owner : connptr) : action stateptr := λ s,
  a ← srv_owners s !! owner; Some (ac_session a, s).

(** From [SetWriteTimeout] to where it waits for the CONNACK. *)
Definition do_greet (deadline : Z) (h : handler) (owner : connptr) (sessionPresent : bool) : action phase :=
  timeout ← get (λ s, srv_writeTimeout (settings s));
  err ← on_client (λ c, SetWriteTimeout c timeout) (h_client h);
  match err with
  | Some _ => mret (Cleaning h (Some owner) Returned)
  | None =>
      err ← sendPacketWithDeadline (h_client h) (PConnAck (mkConnAck sessionPresent ConnAckAccepted)) deadline
              None;
      mret (match err with Some _ => Cleaning h (Some owner) Returned | None => Welcoming h owner end)
  end.

(** From there to the start of the consumer; [written] is what the wait gave and
    [cleared] the error of clearing the handshake deadline. *)
Definition do_welcome (written cleared : option error) (conn : netconn) (h : handler) (owner : connptr)
    : action phase :=
  match written, cleared with
  | None, None =>
      sess ← owner_session owner;
      _ ← (λ s, Some (tt, set_group s (completeHandshake conn (srv_connections s))));
      _ ← set_ready owner;
      epoch ← on_session BeginDelivery sess;
      mret (Serving h owner (Running epoch))
  | _, _ => mret (Cleaning h (Some owner) Returned)
  end.

(** The read deadline after each packet: [float64(keepAlive) * 1.5] is exact, and
    the conversion to [time.Duration] drops the fraction. *)
Definition keepAliveTimeout (keepAlive : Z) : Z :=
  if 0 <? keepAlive then keepAlive * 3 / 2 * 1000000000 else 0.

(** What [serve] does with the error of a handler. *)
Definition after_packet (h : handler) (owner : connptr) (consuming : consumer) (err : option error) : phase :=
  match err with
  | None => Serving h owner consuming
  | Some err => Leaving h owner consuming (bool_decide (err = errDisconnect))
  end.

(** One iteration of the loop of [serve]; a passed deadline is an error of the
    reader. *)
Definition do_serve (cancelled : bool) (e : environment) (h : handler) (owner : connptr)
    (consuming : consumer) : action phase :=
  if cancelled then mret (Leaving h owner consuming false)
  else
    limit ← get (λ s, maxPacketSize (settings s));
    match DecodeWithLimit (h_reader h) limit with
    | Error _ => mret (Leaving h owner consuming false)
    | Ok (pkt, r) =>
        let h := mkHandler (h_client h) (h_connect h) (h_identity h) r in
        sess ← owner_session owner;
        out ← handlePacket (h_client h) sess pkt e;
        mret (match out with
              | Handled err => after_packet h owner consuming err
              | AwaitSubAck p codes => Subscribing h owner consuming p codes
              end)
    end.

(** The rest of [handleSubscribe]: [written] is what waiting for the SUBACK gave. *)
Definition do_subscribed (written : option error) (clock : bytes → PublishPacket → Z) (h : handler)
    (owner : connptr) (consuming : consumer) (p : SubscribePacket) (codes : list Z) : action phase :=
  sess ← owner_session owner;
  err ← handleSubscribe_retained (h_client h) sess p codes written clock;
  mret (after_packet h owner consuming err).

(** The deferred publication of the will. *)
Definition do_leave (clock : Subscription → Z) (h : handler) (owner : connptr) (consuming : consumer)
    (cleanDisconnect : bool) : action phase :=
  _ ← match conn_Will (h_connect h) with
      | Some will => if cleanDisconnect then mret tt else publishWill clock will
      | None => mret tt
      end;
  mret (Cleaning h (Some owner) consuming).

Definition begin_closing (now : Z) (owner : connptr) : action unit := λ s,
  a ← srv_owners s !! owner;
  Some (tt, set_registry s (srv_clients s) (<[owner := beginClosing now a]> (srv_owners s))).

(** The deferred function up to where it waits. *)
Definition do_clean (now : Z) (h : handler) (owner : option connptr) (consuming : consumer) : action phase :=
  _ ← match owner with Some owner => begin_closing now owner | None => mret tt end;
  _ ← close_client (h_client h);
  mret (Draining h owner consuming).

(** The rest of it, once the consumer and the writer returned. *)
Definition do_drain (owner : option connptr) : action phase :=
  _ ← match owner with Some owner => closeSession owner | None => mret tt end;
  mret Finished.

(** ** The consumer *)

(** One iteration of [consumeDeliveries], up to where it waits for the delivery to be
    written or for a change. *)
Definition do_consume (cancelled : bool) (cli : clientptr) (sess : stateptr) (epoch : Z) : action consumer :=
  closed ← on_client (λ c, (c_done c, c)) cli;
  if cancelled || closed then mret Returned
  else
    d ← on_session (Next epoch) sess;
    match d with
    | None => mret (Blocked epoch)
    | Some d =>
        err ← on_client (λ c, enqueue c (mkWrite (Data d) (Some 0%nat) 0)) cli;
        match err with
        | Some _ => _ ← close_client cli; mret Returned
        | None => mret (Sending epoch)
        end
    end.

(** What it does when that is known. *)
Definition do_sent (written : option error) (cli : clientptr) (epoch : Z) : action consumer :=
  match written with
  | Some _ => _ ← close_client cli; mret Returned
  | None => mret (Running epoch)
  end.

(** The cases of the [select] at the end of the loop: a change of the session, the
    client closed and the context done. *)
Inductive wakeup := WakeChanged | WakeClosed | WakeCancelled.

Definition do_wake (w : wakeup) (sess : stateptr) (epoch : Z) : action consumer :=
  match w with
  | WakeChanged => _ ← on_session receive_changed sess; mret (Running epoch)
  | WakeClosed | WakeCancelled => mret Returned
  end.

(** * The server as a transition system *)

(** A step of the handler of a connection, with what it gets from outside. *)
Inductive input :=
| IHandshake (failed : option error)
| IAuthenticate (ctx1 ctx2 ctx3 : option error) (deadline : Z) (written : option error)
| IAcquire (ctxErr : option error) (now deadline : Z) (written : option error)
| IAwait (cancelled : bool)
| IGreet (deadline : Z)
| IWelcome (written cleared : option error)
| IServe (cancelled : bool) (e : environment)
| ISubAck (written : option error) (clock : bytes → PublishPacket → Z)
| ILeave (clock : Subscription → Z)
| IClean (now : Z)
| IDrain
| IConsume (cancelled : bool)
| ISent (written : option error)
| IWake (w : wakeup).

Definition consumer_of (ph : phase) : option (handler * connptr * consumer) :=
  match ph with
  | Serving h owner co | Subscribing h owner co _ _ | Leaving h owner co _
  | Cleaning h (Some owner) co | Draining h (Some owner) co =>
      Some (h, owner, co)
  | _ => None
  end.

Definition set_consumer (co : consumer) (ph : phase) : phase :=
  match ph with
  | Serving h owner _ => Serving h owner co
  | Subscribing h owner _ p codes => Subscribing h owner co p codes
  | Leaving h owner _ clean => Leaving h owner co clean
  | Cleaning h owner _ => Cleaning h owner co
  | Draining h owner _ => Draining h owner co
  | _ => ph
  end.

Section system.
Context (pbkdf2_Key : bytes → bytes → Z → Z → result bytes).

(** What input [i] does to a connection in phase [ph]; [None] when the connection
    does not wait for [i]. *)
Definition phase_step (conn : netconn) (i : input) (ph : phase) : option (action phase) :=
  match i, ph with
  | IHandshake failed, Handshaking r => Some (do_handshake failed r)
  | IAuthenticate c1 c2 c3 deadline written, Authenticating h =>
      Some (do_authenticate pbkdf2_Key c1 c2 c3 deadline written h)
  | IAcquire ctxErr now deadline written, Acquiring h => Some (do_acquire ctxErr now deadline written h)
  | IAwait cancelled, Awaiting h previous => Some (mret (do_await cancelled h previous))
  | IGreet deadline, Greeting h owner present => Some (do_greet deadline h owner present)
  | IWelcome written cleared, Welcoming h owner => Some (do_welcome written cleared conn h owner)
  | IServe cancelled e, Serving h owner co => Some (do_serve cancelled e h owner co)
  | ISubAck written clock, Subscribing h owner co p codes => Some (do_subscribed written clock h owner co p codes)
  | ILeave clock, Leaving h owner co clean => Some (do_leave clock h owner co clean)
  | IClean now, Cleaning h owner co => Some (do_clean now h owner co)
  | IDrain, Draining h owner Returned => Some (do_drain owner)
  | IConsume cancelled, _ =>
      match consumer_of ph with
      | Some (h, owner, Running epoch) =>
          Some (sess ← owner_session owner;
                co ← do_consume cancelled (h_client h) sess epoch;
                mret (set_consumer co ph))
      | _ => None
      end
  | ISent written, _ =>
      match consumer_of ph with
      | Some (h, owner, Sending epoch) =>
          Some (co ← do_sent written (h_client h) epoch; mret (set_consumer co ph))
      | _ => None
      end
  | IWake w, _ =>
      match consumer_of ph with
      | Some (h, owner, Blocked epoch) =>
          Some (sess ← owner_session owner;
                co ← do_wake w sess epoch;
                mret (set_consumer co ph))
      | _ => None
      end
  | _, _ => None
  end.

(** What an input waits for. *)
Definition input_ready (i : input) (ph : phase) (s : Server) : bool :=
  match i, ph with
  | IAwait false, Awaiting _ previous =>
      match srv_owners s !! previous with Some a => ac_done a | None => false end
  | IDrain, Draining h _ _ =>
      match srv_conns s !! h_client h with Some c => c_writeDone c | None => false end
  | IWake WakeClosed, _ =>
      match consumer_of ph with
      | Some (h, _, _) => match srv_conns s !! h_client h with Some c => c_done c | None => false end
      | None => false
      end
  | IWake WakeChanged, _ =>
      match consumer_of ph with
      | Some (_, owner, _) =>
          match srv_owners s !! owner with
          | Some a => match states (srv_sessions s) !! ac_session a with Some st => changed st | None => false end
          | None => false
          end
      | None => false
      end
  | _, _ => true
  end.

Record System := mkSystem {
  sys_server : Server;
  sys_handlers : gmap netconn phase }.

(** [EvAccept] is a connection with the bytes it will send; [EvWrite] an iteration
    of the writer of a client and [EvExit] its end; [EvTick] is the expiry ticker. *)
Inductive sys_event :=
| EvAccept (ctxErr : option error) (conn : netconn) (r : Reader)
| EvHandler (conn : netconn) (i : input)
| EvFinish (conn : netconn)
| EvWrite (cli : clientptr) (set : option error) (n : Z) (err : option error)
| EvExit (cli : clientptr)
| EvTick (now : Z).

(** What the writer of a client takes off the queue, if it did not return. *)
Definition writer_next (c : Client) : option (queuedWrite * list queuedWrite) :=
  if c_writeDone c then None else match sendQ c with w :: q => Some (w, q) | [] => None end.

(** The event can happen. *)
Definition sys_enabled (e : sys_event) (sys : System) : bool :=
  let s := sys_server sys in
  match e with
  | EvAccept _ conn r =>
      bool_decide (sys_handlers sys !! conn = None) && forallb (λ b, (0 <=? b) && (b <? 256)) (rd_data r)
  | EvHandler conn i =>
      match sys_handlers sys !! conn with
      | Some ph => bool_decide (is_Some (phase_step conn i ph)) && input_ready i ph s
      | None => false
      end
  | EvFinish conn => match sys_handlers sys !! conn with Some Finished => true | _ => false end
  | EvWrite cli set n err =>
      match srv_conns s !! cli with
      | Some c => match writer_next c with Some (w, _) => (0 <=? n) && (n <=? len (w_data w)) | None => false end
      | None => false
      end
  | EvExit cli =>
      match srv_conns s !! cli with Some c => c_done c && negb (c_writeDone c) | None => false end
  | EvTick _ => negb (OfflineTTL (limits (srv_sessions s)) =? 0)
  end.

(** What an event that can happen does; [None] is a panic. *)
Definition sys_exec (e : sys_event) (sys : System) : option System :=
  let s := sys_server sys in
  match e with
  | EvAccept ctxErr conn r =>
      let '(o, g) := start ctxErr conn (connectionLimits (settings s)) (srv_connections s) in
      Some (mkSystem (set_group s g)
              (if decide (o = Started) then <[conn := Handshaking r]> (sys_handlers sys) else sys_handlers sys))
  | EvHandler conn i =>
      ph ← sys_handlers sys !! conn;
      act ← phase_step conn i ph;
      '(ph, s) ← act s;
      Some (mkSystem s (<[conn := ph]> (sys_handlers sys)))
  | EvFinish conn =>
      g ← finish conn (srv_connections s);
      Some (mkSystem (set_group s g) (delete conn (sys_handlers sys)))
  | EvWrite cli set n err =>
      c ← srv_conns s !! cli;
      '(w, q) ← writer_next c;
      c ← writeLoop_write c w q set n err;
      Some (mkSystem (set_conns s (<[cli := c]> (srv_conns s))) (sys_handlers sys))
  | EvExit cli =>
      c ← srv_conns s !! cli;
      c ← writeLoop_exit c;
      Some (mkSystem (set_conns s (<[cli := c]> (srv_conns s))) (sys_handlers sys))
  | EvTick now => '(_, s) ← expire_sessions now s; Some (mkSystem s (sys_handlers sys))
  end.

(** The server of [New], with a store, a broker and a policy as their own [New]s
    make them. *)
Definition new_system (sets : Settings) (policy : option Local) (b : Broker) (st : Store) : System :=
  mkSystem (New_server sets policy b st) ∅.

Record configured (policy : option Local) (b : Broker) (st : Store) : Prop := {
  cf_policy l : policy = Some l → ∃ procs users, NewLocal procs users = Ok l;
  cf_broker : ∃ l, Broker_NewWithLimits l = Ok b;
  cf_store : ∃ l, NewWithLimits l = Ok st }.

(** The states of a server that [Start] accepted, after [n] events. *)
Inductive sys_reachable : nat → System → Prop :=
| sys_start sets policy b st :
    configured policy b st → Start_checks (New_server sets policy b st) = None →
    sys_reachable 0 (new_system sets policy b st)
| sys_next n sys e sys' :
    sys_reachable n sys → sys_enabled e sys = true → sys_exec e sys = Some sys' → sys_reachable (S n) sys'.
End system.
