(* ===== verification/Options.v ===== *)
(** How a server is put together: [New] and its options
    (src/internal/server/server.go, security.go). *)

From S2P Require Import Prelude Topic Wire Encoder Decoder Tree Broker Session Delivery Auth AuthProofs Client.
From S2P Require Import Server Handlers Lifecycle.

Local Open Scope Z_scope.
Local Open Scope orb_scope.

(** * Definitions *)

(** The source's type [Option].  The function that [WithListener] sets is an argument of
    [Start_begin]. *)
Definition ServerOption : Type := Server → Server.

Definition set_settings (s : Server) (sets : Settings) : Server :=
  mkServer sets (srv_auth s) (srv_broker s) (srv_sessions s) (srv_clients s) (srv_owners s) (srv_conns s)
    (srv_connections s).

Definition WithConnectionLimits (limits : ConnectionLimits) : ServerOption := λ s,
  let t := settings s in
  set_settings s (mkSettings (srv_addr t) (handshakeTimeout t) (maxPacketSize t) (srv_writeTimeout t) limits (tlsConfig t) (encodePublishFn t)).

Definition WithWriteTimeout (timeout : Z) : ServerOption := λ s,
  let t := settings s in
  set_settings s (mkSettings (srv_addr t) (handshakeTimeout t) (maxPacketSize t) timeout (connectionLimits t) (tlsConfig t) (encodePublishFn t)).

Definition WithPublishEncoder (fn : PublishPacket → result bytes) : ServerOption := λ s,
  let t := settings s in
  set_settings s (mkSettings (srv_addr t) (handshakeTimeout t) (maxPacketSize t) (srv_writeTimeout t) (connectionLimits t) (tlsConfig t) fn).

Definition WithHandshakeTimeout (timeout : Z) : ServerOption := λ s,
  let t := settings s in
  set_settings s (mkSettings (srv_addr t) timeout (maxPacketSize t) (srv_writeTimeout t) (connectionLimits t) (tlsConfig t) (encodePublishFn t)).

Definition WithMaxPacketSize (size : Z) : ServerOption := λ s,
  let t := settings s in
  set_settings s (mkSettings (srv_addr t) (handshakeTimeout t) size (srv_writeTimeout t) (connectionLimits t) (tlsConfig t) (encodePublishFn t)).

(** The copy of the configuration that [WithSecurity] keeps. *)
Definition at_least_TLS12 (config : TLSConfig) : TLSConfig :=
  if MinVersion config <? VersionTLS12 then mkTLSConfig (Certificates config) VersionTLS12 else config.

(** [config] nil leaves the field as it is. *)
Definition WithSecurity (policy : option Local) (config : option TLSConfig) : ServerOption := λ s,
  let s := set_auth s policy in
  match config with
  | Some config =>
      let t := settings s in
      set_settings s (mkSettings (srv_addr t) (handshakeTimeout t) (maxPacketSize t) (srv_writeTimeout t) (connectionLimits t)
        (Some (at_least_TLS12 config)) (encodePublishFn t))
  | None => s
  end.

(** [New]; the source's default [listenFn] is [net.Listen]. *)
Definition Server_New (addr : bytes) (b : Broker) (sessions : Store) (opts : list ServerOption) : Server :=
  foldl (λ s opt, opt s) (New_server (default_settings addr) None b sessions) opts.

(** * Servers from options *)

(** The options of the package, with policies that [NewLocal] made. *)
Inductive offered : ServerOption → Prop :=
| offered_limits l : offered (WithConnectionLimits l)
| offered_write t : offered (WithWriteTimeout t)
| offered_encoder fn : offered (WithPublishEncoder fn)
| offered_handshake t : offered (WithHandshakeTimeout t)
| offered_packets n : offered (WithMaxPacketSize n)
| offered_security policy config :
    (∀ l, policy = Some l → ∃ procs users, NewLocal procs users = Ok l) → offered (WithSecurity policy config).

(** A server that was not started: new but for its settings and policy, with the
    address that [New] was given. *)
Definition unstarted (addr : bytes) (b : Broker) (sessions : Store) (s : Server) : Prop :=
  s = New_server (settings s) (srv_auth s) b sessions
  ∧ srv_addr (settings s) = addr
  ∧ (∀ l, srv_auth s = Some l → ∃ procs users, NewLocal procs users = Ok l)
  ∧ (∀ c, tlsConfig (settings s) = Some c → VersionTLS12 <= MinVersion c).

Lemma at_least_TLS12_version c : VersionTLS12 <= MinVersion (at_least_TLS12 c).
Proof. unfold at_least_TLS12. destruct (Z.ltb_spec (MinVersion c) VersionTLS12); simpl; lia. Qed.

Lemma offered_unstarted addr b sessions opt s :
  offered opt → unstarted addr b sessions s → unstarted addr b sessions (opt s).
Proof.
  intros Ho (Hs & Haddr & Hl & Hc). destruct s. injection Hs as -> -> -> -> -> ->.
  destruct Ho as [l|t|fn|t|n|policy [config|] Hp]; (split; [reflexivity|split; [exact Haddr|]]); simpl in *; try done.
  split; [exact Hp|]. intros c [= <-]. apply at_least_TLS12_version.
Qed.

Lemma New_unstarted addr b sessions opts : Forall offered opts → unstarted addr b sessions (Server_New addr b sessions opts).
Proof.
  unfold Server_New. assert (H0 : unstarted addr b sessions (New_server (default_settings addr) None b sessions)) by done.
  revert H0. generalize (New_server (default_settings addr) None b sessions) as s. intros s Hs Hall. revert s Hs.
  induction Hall as [|opt opts Ho _ IH]; intros s Hs; simpl; [exact Hs|]. by apply IH, offered_unstarted.
Qed.

Lemma started_reachable kdf limits retained_limits sessions addr b opts :
  NewWithLimits limits = Ok sessions → Broker_NewWithLimits retained_limits = Ok b →
  Forall offered opts → Start_checks (Server_New addr b sessions opts) = None →
  sys_reachable kdf 0 (mkSystem (Server_New addr b sessions opts) ∅).
Proof.
  intros Hst Hb Hall Hstart. destruct (New_unstarted addr b sessions opts Hall) as (Es & _ & Hl & _). revert Hstart. rewrite Es. intros Hstart.
  apply sys_start; [|exact Hstart]. split; [exact Hl|by eexists|by eexists].
Qed.

(** C26: whatever options a server is given, in any order and number, [Start] lets it
    run only if it has a policy and TLS or neither, with TLS 1.2 or higher and limits
    and timeouts that are positive, packets being at most as long as MQTT allows; no
    option changes its address; and then it is in the initial state from which the
    theorems on reachable states speak. *)
Theorem started_options_are_safe kdf limits retained_limits sessions addr b opts :
  NewWithLimits limits = Ok sessions → Broker_NewWithLimits retained_limits = Ok b →
  Forall offered opts → Start_checks (Server_New addr b sessions opts) = None →
  let s := Server_New addr b sessions opts in
  match srv_auth s, tlsConfig (settings s) with
  | Some _, Some c => VersionTLS12 <= MinVersion c
  | None, None => True
  | _, _ => False
  end
  ∧ srv_addr (settings s) = addr
  ∧ 0 < MaxConnections (connectionLimits (settings s)) ∧ 0 < MaxHandshakes (connectionLimits (settings s))
  ∧ 0 < srv_writeTimeout (settings s) ∧ 0 < handshakeTimeout (settings s)
  ∧ 0 < maxPacketSize (settings s) <= MaxPacketSize
  ∧ sys_reachable kdf 0 (mkSystem s ∅).
Proof.
  intros Hst Hb Hall Hstart s. pose proof (started_reachable kdf _ _ _ _ _ _ Hst Hb Hall Hstart) as Hr.
  destruct (New_unstarted addr b sessions opts Hall) as (_ & Haddr & _ & Hc). fold s in Haddr, Hc, Hstart, Hr. unfold Start_checks in Hstart.
  destruct (Bool.eqb _ _) eqn:Hboth; [|discriminate Hstart]. cbn [negb] in Hstart.
  destruct (ConnectionLimits_Validate _) eqn:Hlim; [discriminate Hstart|]. unfold ConnectionLimits_Validate in Hlim.
  destruct (_ || _)%bool eqn:Hpos in Hlim; [discriminate Hlim|]. apply orb_false_iff in Hpos as [Hp1 Hp2].
  destruct (_ <=? 0) eqn:Hw in Hstart; [discriminate Hstart|]. destruct (_ || _)%bool eqn:Hpk in Hstart; [discriminate Hstart|].
  destruct (_ <=? 0) eqn:Hh in Hstart; [discriminate Hstart|]. apply orb_false_iff in Hpk as [Hk1 Hk2].
  split_and!; [|exact Haddr|lia..|exact Hr]. apply eqb_prop in Hboth.
  destruct (srv_auth s), (tlsConfig (settings s)) as [c|]; try discriminate Hboth; [by apply Hc|done].
Qed.

(** Development mode and a time to write first, then a policy with TLS 1.0. *)
Lemma started_options_are_safe_witness :
  ∃ l c, NewLocal 4 example_users = Ok l
    ∧ tlsConfig (settings (Server_New (bs "127.0.0.1:1883") (mkBroker NewTree ∅ DefaultRetainedLimits (mkRetainedStats 0 0 0))
        (mkStore ∅ ∅ DefaultLimits zero_snapshot)
        [WithSecurity None None; WithWriteTimeout 5; WithSecurity (Some l) (Some (mkTLSConfig [] 769))])) = Some c
    ∧ VersionTLS12 <= MinVersion c.
Proof.
  destruct (NewLocal 4 example_users) as [l|] eqn:Hl; [|vm_compute in Hl; discriminate Hl].
  exists l. eexists. split; [reflexivity|]. split; [reflexivity|].
  apply (started_options_are_safe (λ _ _ _ _, Error EOF) DefaultLimits DefaultRetainedLimits
    (mkStore ∅ ∅ DefaultLimits zero_snapshot) (bs "127.0.0.1:1883") (mkBroker NewTree ∅ DefaultRetainedLimits (mkRetainedStats 0 0 0))
    [WithSecurity None None; WithWriteTimeout 5; WithSecurity (Some l) (Some (mkTLSConfig [] 769))]); try reflexivity.
  repeat constructor; try done. intros l' [= <-]. by exists 4, example_users.
Defined.
