(* ===== verification/ServerInv.v ===== *)
(** The invariant of the server: the registry of connections, the sessions and the
    routing tree agree.  The rules for actions, and that the packet handlers keep
    the invariant. *)

From S2P Require Import Prelude Topic Wire Filters Encoder Decoder Codec Tree Broker.
From S2P Require Import Session SessionQueue SessionStore SessionProofs CodecProofs Delivery Auth AuthProofs Client.
From S2P Require Import Server Handlers.

Local Open Scope Z_scope.
Local Open Scope orb_scope.

(** * Actions *)

(** [m] returns from [s], with a result and a state that [Q] holds of. *)
Definition runs {A} (m : action A) (s : Server) (Q : A → Server → Prop) : Prop :=
  ∃ a s', m s = Some (a, s') ∧ Q a s'.

Lemma runs_ret {A} (a : A) s (Q : A → Server → Prop) : Q a s → runs (mret a) s Q.
Proof. intros HQ. by exists a, s. Qed.

Lemma runs_bind {A B} (m : action A) (k : A → action B) s (Q : B → Server → Prop) :
  runs m s (λ a s', runs (k a) s' Q) → runs (m ≫= k) s Q.
Proof.
  intros (a & s1 & Hm & b & s2 & Hk & HQ). exists b, s2. split; [|done].
  unfold mbind, action_bind. rewrite Hm. done.
Qed.

Lemma bind_inv {A B} (m : action A) (k : A → action B) s b s' :
  (m ≫= k) s = Some (b, s') → ∃ a s1, m s = Some (a, s1) ∧ k a s1 = Some (b, s').
Proof. unfold mbind, action_bind. destruct (m s) as [[a s1]|]; simpl; [by exists a, s1|done]. Qed.

Lemma runs_mono {A} (m : action A) s (Q Q' : A → Server → Prop) :
  runs m s Q → (∀ a s', Q a s' → Q' a s') → runs m s Q'.
Proof. intros (a & s' & Hm & HQ) Himp. exists a, s'. auto. Qed.

Lemma runs_step {A B} (m : action A) (k : A → action B) s (Q : A → Server → Prop) (Q' : B → Server → Prop) :
  runs m s Q → (∀ a s', Q a s' → runs (k a) s' Q') → runs (m ≫= k) s Q'.
Proof. intros Hm Hk. apply runs_bind. eapply runs_mono; [exact Hm|exact Hk]. Qed.

(** * What the steps of other connections leave alone *)

(** A consumer that waits for a session that has something to send finds the token. *)
Definition blocked_ok (l : Limits) (s : State) : Prop := can_send l s = true → changed s = true.

Record link_kept (l : Limits) (s s' : State) : Prop := {
  lk_id : st_id s' = st_id s;
  lk_owner : st_owner s' = st_owner s;
  lk_deleted : deleted s' = deleted s;
  lk_connected : connected s' = connected s;
  lk_epoch : epoch s' = epoch s;
  lk_blocked : blocked_ok l s → blocked_ok l s' }.

#[export] Instance link_kept_preorder l : PreOrder (link_kept l).
Proof.
  split; [intros s; split; auto|]. intros s1 s2 s3 [] []. split; try congruence. auto.
Qed.

Record store_quiet (st st' : Store) : Prop := {
  sq_limits : limits st' = limits st;
  sq_data : st_data st' = st_data st;
  sq_none p : states st !! p = None → states st' !! p = None;
  sq_states p s : states st !! p = Some s → ∃ s', states st' !! p = Some s' ∧ link_kept (limits st) s s' }.

#[export] Instance store_quiet_preorder : PreOrder store_quiet.
Proof.
  split; [intros st; split; auto; intros p s Hs; by exists s|]. intros st1 st2 st3 [L1 D1 N1 S1] [L2 D2 N2 S2].
  split; try congruence; [auto|]. intros p s Hp. destruct (S1 p s Hp) as (s2 & Hp2 & H12).
  destruct (S2 p s2 Hp2) as (s3 & Hp3 & H23). exists s3. split; [done|]. rewrite L1 in H23. by transitivity s2.
Qed.

Record quiet (s s' : Server) : Prop := {
  qu_settings : settings s' = settings s;
  qu_auth : srv_auth s' = srv_auth s;
  qu_clients : srv_clients s' = srv_clients s;
  qu_owners : srv_owners s' = srv_owners s;
  qu_conns cli : c_id <$> srv_conns s' !! cli = c_id <$> srv_conns s !! cli;
  qu_closed cli c : srv_conns s !! cli = Some c → c_done c = true →
    ∃ c', srv_conns s' !! cli = Some c' ∧ c_done c' = true;
  qu_connections : connections (srv_connections s') = connections (srv_connections s);
  qu_handshakes : Handshakes (g_stats (srv_connections s')) = Handshakes (g_stats (srv_connections s));
  qu_handlers : handlers (srv_connections s') = handlers (srv_connections s);
  qu_store : store_quiet (srv_sessions s) (srv_sessions s') }.

#[export] Instance quiet_preorder : PreOrder quiet.
Proof.
  split; [intros s; split; try done; eauto|]. intros s1 s2 s3 [] [].
  split; try congruence; [|by etransitivity]. intros cli c Hc Hd.
  destruct (qu_closed0 cli c Hc Hd) as (c2 & Hc2 & Hd2). eauto.
Qed.

(** Methods that do not connect or disconnect the session, and keep its waiting
    consumer informed. *)
Class MethodQuiet {A} (f : method A) : Prop :=
  method_quiet l t s a t' s' :
    f l t s = Some (a, t', s') →
    connected s' = connected s ∧ epoch s' = epoch s ∧ (changed s = true → changed s' = true).

(** Methods that do not touch the subscriptions. *)
Class MethodSubs {A} (f : method A) : Prop :=
  method_subs l t s a t' s' : f l t s = Some (a, t', s') → subscriptions s' = subscriptions s.

Ltac quiet_method :=
  intros l t s a t' s'; repeat case_match; intros; simplify_option_eq; auto.

#[export] Instance Admit_quiet data off now : MethodQuiet (Admit data off now).
Proof. unfold MethodQuiet, Admit. quiet_method. Qed.
#[export] Instance Admit_subs data off now : MethodSubs (Admit data off now).
Proof. unfold MethodSubs, Admit. quiet_method. Qed.
#[export] Instance Ack_quiet id : MethodQuiet (Ack id).
Proof. unfold MethodQuiet, Ack. quiet_method. Qed.
#[export] Instance Ack_subs id : MethodSubs (Ack id).
Proof. unfold MethodSubs, Ack. quiet_method. Qed.
#[export] Instance Pause_quiet : MethodQuiet PauseDelivery.
Proof. unfold MethodQuiet, PauseDelivery. quiet_method. Qed.
#[export] Instance Pause_subs : MethodSubs PauseDelivery.
Proof. unfold MethodSubs, PauseDelivery. quiet_method. Qed.
#[export] Instance Resume_quiet : MethodQuiet ResumeDelivery.
Proof. unfold MethodQuiet, ResumeDelivery. quiet_method. Qed.
#[export] Instance Resume_subs : MethodSubs ResumeDelivery.
Proof. unfold MethodSubs, ResumeDelivery. quiet_method. Qed.
#[export] Instance SetSubscription_quiet f q : MethodQuiet (SetSubscription f q).
Proof. unfold MethodQuiet, SetSubscription. quiet_method. Qed.
#[export] Instance DeleteSubscription_quiet f : MethodQuiet (DeleteSubscription f).
Proof. unfold MethodQuiet, DeleteSubscription. quiet_method. Qed.
#[export] Instance Snapshot_quiet : MethodQuiet SnapshotSubscriptions.
Proof. unfold MethodQuiet, SnapshotSubscriptions. quiet_method. Qed.
#[export] Instance Snapshot_subs : MethodSubs SnapshotSubscriptions.
Proof. unfold MethodSubs, SnapshotSubscriptions. quiet_method. Qed.
#[export] Instance BeginDelivery_subs : MethodSubs BeginDelivery.
Proof. unfold MethodSubs, BeginDelivery. quiet_method. Qed.
#[export] Instance MarkConnected_subs : MethodSubs MarkConnected.
Proof. unfold MethodSubs, MarkConnected. quiet_method. Qed.
#[export] Instance MarkDisconnectedAt_subs at_ : MethodSubs (MarkDisconnectedAt at_).
Proof. unfold MethodSubs, MarkDisconnectedAt. quiet_method. Qed.
#[export] Instance receive_changed_subs : MethodSubs receive_changed.
Proof. unfold MethodSubs, receive_changed. quiet_method. Qed.

(** [Next] changes the queue only. *)
Lemma Next_inv ep l t s d t' s' :
  Next ep l t s = Some (d, t', s') →
  ∃ h infl next active, s' = set_queue s h (entries s) infl next active.
Proof.
  unfold Next. destruct (_ || _).
  { intros [= _ _ <-]. exists (heap s), (inflight s), (nextPacketID s), (activeInflight s). by destruct s. }
  destruct (next_unsent _ _ _) as [[[r message]|]|]; simpl; [|intros [= _ _ <-]|done].
  - destruct (if negb _ then _ else _) as [[[[? ?] ?] ?]|]; simpl; [|done].
    destruct (patch _ _ _ _); simpl; [|done]. intros [= _ _ <-]. eauto.
  - exists (heap s), (inflight s), (nextPacketID s), (activeInflight s). by destruct s.
Qed.

#[export] Instance Next_quiet ep : MethodQuiet (Next ep).
Proof. intros l t s d t' s' (? & ? & ? & ? & ->)%Next_inv. auto. Qed.
#[export] Instance Next_subs ep : MethodSubs (Next ep).
Proof. by intros l t s d t' s' (? & ? & ? & ? & ->)%Next_inv. Qed.

#[export] Instance reads_ok {A} (g : State → A) : MethodOk always (reads g).
Proof. intros l t s Hl Hs Ht _. do 3 eexists. split; [reflexivity|]. split; [done|method_fields]. Qed.
#[export] Instance reads_quiet {A} (g : State → A) : MethodQuiet (reads g).
Proof. by intros l t s a t' s' [= <- <- <-]. Qed.
#[export] Instance reads_subs {A} (g : State → A) : MethodSubs (reads g).
Proof. by intros l t s a t' s' [= <- <- <-]. Qed.
#[export] Instance reads_wakes {A} (g : State → A) : MethodWakes (reads g).
Proof. intros l t s a t' s' [= <- <- <-]. auto. Qed.
#[export] Instance Snapshot_wakes : MethodWakes SnapshotSubscriptions.
Proof. intros l t s a t' s' [= <- <- <-]. auto. Qed.

(** * The routing tree *)

#[export] Instance splitFilter_inj : Inj (=) (=) splitFilter.
Proof. intros f g E. by rewrite <- (join_splitFilter f), <- (join_splitFilter g), E. Qed.

Lemma find_Broker_Subscribe b f q sub p c :
  find (root (topics (Broker_Subscribe b f q sub))) p c =
  if decide (p = splitFilter f ∧ c = ID sub) then Some (mkSubscription (ID sub) sub q)
  else find (root (topics b)) p c.
Proof. unfold Broker_Subscribe, Clone. simpl. by rewrite clone_id, find_subscribe. Qed.

Lemma find_Broker_Unsubscribe b f cid p c :
  find (root (topics (Broker_Unsubscribe b f cid))) p c =
  if decide (p = splitFilter f ∧ c = cid) then None else find (root (topics b)) p c.
Proof. unfold Broker_Unsubscribe, Clone. simpl. by rewrite clone_id, find_unsubscribe. Qed.

Lemma find_Broker_UnsubscribeAll b cid p c :
  find (root (topics (Broker_UnsubscribeAll b cid))) p c =
  if decide (c = cid) then None else find (root (topics b)) p c.
Proof. unfold Broker_UnsubscribeAll, Clone. simpl. by rewrite clone_id, find_unsubscribeAll. Qed.

Lemma Publish_topics {S} b pub (deliver : Subscription → S → option error * S) st :
  topics (Publish b pub deliver st).1.2 = topics b.
Proof.
  unfold Publish. destruct (pub_Retain pub); [|done]. unfold updateRetained.
  by destruct (_ && _).
Qed.

(** The broker, with routes of QoS 0 and 1 only. *)
Record routing_ok (b : Broker) : Prop := {
  ro_broker : broker_ok b;
  ro_qos ls c sub : find (root (topics b)) ls c = Some sub → 0 <= sub_QoS sub <= 1 }.

Lemma routing_Subscribe b f q sub :
  ValidateTopicFilter f = None → 0 <= q <= 1 → routing_ok b → routing_ok (Broker_Subscribe b f q sub).
Proof.
  intros Hf Hq [Hb Hr]. split; [by apply Broker_Subscribe_ok|]. intros ls c sub'. rewrite find_Broker_Subscribe.
  case_decide; [by intros [= <-]|apply Hr].
Qed.

Lemma routing_Unsubscribe b f c : routing_ok b → routing_ok (Broker_Unsubscribe b f c).
Proof.
  intros [Hb Hr]. split; [by apply Broker_Unsubscribe_ok|]. intros ls c' sub'. rewrite find_Broker_Unsubscribe.
  case_decide; [done|apply Hr].
Qed.

Lemma routing_UnsubscribeAll b c : routing_ok b → routing_ok (Broker_UnsubscribeAll b c).
Proof.
  intros [Hb Hr]. split; [by apply Broker_UnsubscribeAll_ok|]. intros ls c' sub'. rewrite find_Broker_UnsubscribeAll.
  case_decide; [done|apply Hr].
Qed.

Lemma routing_Publish {S} b pub (deliver : Subscription → S → option error * S) st :
  routing_ok b → routing_ok (Publish b pub deliver st).1.2.
Proof. intros [Hb Hr]. split; [by apply Publish_ok|]. rewrite Publish_topics. exact Hr. Qed.

(** * The invariant *)

(** The route that a session asks for: filter [f] of client [c]. *)
Definition session_route (st : Store) (f c : bytes) : option Subscription :=
  p ← st_data st !! c;
  s ← states st !! p;
  q ← subscriptions s !! f;
  Some (mkSubscription c (subscriber p c) q).

(** The tree routes exactly what the sessions of the store ask for. *)
Definition routes_agree (b : Broker) (st : Store) : Prop :=
  ∀ f c, find (root (topics b)) (splitFilter f) c = session_route st f c.

(** Connection [a] is registered under the name of its client, and the session of
    that name is its session. *)
Definition registered (s : Server) (o : connptr) (a : activeConnection) : Prop :=
  ∃ c, srv_conns s !! ac_client a = Some c ∧ srv_clients s !! c_id c = Some o
       ∧ st_data (srv_sessions s) !! c_id c = Some (ac_session a).

Record server_ok (s : Server) : Prop := {
  sv_store : store_ok (srv_sessions s);
  sv_broker : routing_ok (srv_broker s);
  sv_policy l : srv_auth s = Some l → policy_ok (l_users l);
  sv_routes : routes_agree (srv_broker s) (srv_sessions s);
  sv_clients id o : srv_clients s !! id = Some o →
    ∃ a c, srv_owners s !! o = Some a ∧ srv_conns s !! ac_client a = Some c ∧ c_id c = id ∧ ac_done a = false;
  sv_owners o a : srv_owners s !! o = Some a → ac_done a = false → registered s o a;
  sv_connected id p st : st_data (srv_sessions s) !! id = Some p → states (srv_sessions s) !! p = Some st →
    connected st = true ↔ is_Some (srv_clients s !! id) }.

Lemma registered_quiet s s' o a : quiet s s' → registered s o a → registered s' o a.
Proof.
  intros Hq (c & Hc & Hcl & Hd). pose proof (qu_conns _ _ Hq (ac_client a)) as E. rewrite Hc in E.
  destruct (srv_conns s' !! ac_client a) as [c'|] eqn:Hc'; [|done]. simpl in E. injection E as E.
  exists c'. rewrite E, (qu_clients _ _ Hq), (sq_data _ _ (qu_store _ _ Hq)). done.
Qed.

(** A quiet step that keeps the parts well formed and in agreement keeps the invariant. *)
Lemma server_ok_quiet s s' :
  server_ok s → quiet s s' → store_ok (srv_sessions s') → routing_ok (srv_broker s') →
  routes_agree (srv_broker s') (srv_sessions s') → server_ok s'.
Proof.
  intros Hok Hq Hst Hb Hr. pose proof (qu_store _ _ Hq) as Hsq. split; try done.
  - rewrite (qu_auth _ _ Hq). apply Hok.
  - intros id o. rewrite (qu_clients _ _ Hq), (qu_owners _ _ Hq). intros Hid.
    destruct (sv_clients _ Hok id o Hid) as (a & c & Ha & Hc & <- & Hd).
    pose proof (qu_conns _ _ Hq (ac_client a)) as E. rewrite Hc in E.
    destruct (srv_conns s' !! ac_client a) as [c'|] eqn:Hc'; [|done]. simpl in E. injection E as E.
    exists a, c'. done.
  - intros o a. rewrite (qu_owners _ _ Hq). intros Ha Hd. eapply registered_quiet; [done|]. by apply Hok.
  - intros id p st'. rewrite (sq_data _ _ Hsq), (qu_clients _ _ Hq). intros Hid Hp.
    destruct (states (srv_sessions s) !! p) as [st|] eqn:Hp0.
    + destruct (sq_states _ _ Hsq p st Hp0) as (st1 & Hp1 & Hk). assert (st1 = st') as -> by congruence.
      rewrite (lk_connected _ _ _ Hk). by apply (sv_connected _ Hok id p).
    + by rewrite (sq_none _ _ Hsq p Hp0) in Hp.
Qed.

(** ** Rules for the actions *)

(** The session of a connection that is registered. *)
Lemma registered_session s o a :
  server_ok s → registered s o a →
  ∃ c st, srv_conns s !! ac_client a = Some c ∧ st_data (srv_sessions s) !! c_id c = Some (ac_session a)
    ∧ states (srv_sessions s) !! ac_session a = Some st ∧ st_id st = c_id c ∧ deleted st = false.
Proof.
  intros Hok (c & Hc & _ & Hd). destruct (data_state _ _ _ (sv_store _ Hok) Hd) as (st & Hp & Hid & Hdel).
  by exists c, st.
Qed.

Lemma session_route_insert st f c p s s' t :
  states st !! p = Some s →
  session_route (mkStore (st_data st) (<[p := s']> (states st)) (limits st) t) f c =
  if decide (st_data st !! c = Some p)
  then (q ← subscriptions s' !! f; Some (mkSubscription c (subscriber p c) q))
  else session_route st f c.
Proof.
  intros Hp. unfold session_route. simpl. destruct (st_data st !! c) as [p'|] eqn:Hc; simpl; [|done].
  destruct (decide (p' = p)) as [->|Hne].
  - by rewrite lookup_insert_eq, decide_True by done.
  - rewrite lookup_insert_ne by done. by rewrite decide_False by congruence.
Qed.

(** What a method does to a session, and to nothing else the invariant reads. *)
Lemma on_session_runs {A} pre (f : method A) `{MethodOk A pre f, MethodQuiet A f, MethodWakes A f} s p st :
  store_ok (srv_sessions s) → states (srv_sessions s) !! p = Some st → pre st →
  runs (on_session f p) s (λ a s', ∃ st' t',
    f (limits (srv_sessions s)) (totals (srv_sessions s)) st = Some (a, t', st')
    ∧ s' = set_sessions s (mkStore (st_data (srv_sessions s)) (<[p := st']> (states (srv_sessions s)))
             (limits (srv_sessions s)) t')
    ∧ store_ok (srv_sessions s') ∧ link_kept (limits (srv_sessions s)) st st' ∧ quiet s s').
Proof.
  intros Hst Hp Hpre.
  destruct (call_ok pre f p st (srv_sessions s) Hst Hp Hpre) as (a & st' & t' & Hf & Hc & Hok & Hid & Hown & Hdel & _).
  exists a. eexists. split; [unfold on_session; by rewrite Hc|]. exists st', t'.
  destruct (method_quiet _ _ _ _ _ _ Hf) as (Hconn & Hep & Hch).
  assert (Hlk : link_kept (limits (srv_sessions s)) st st').
  { split; try done. intros Hb Hcs. destruct (method_wakes _ _ _ _ _ _ Hf) as [?|Hw]; [done|]. auto. }
  split_and!; try done. split; try done; [by eauto|]. split; try done; simpl.
  - intros p' Hn. rewrite lookup_insert_ne; [done|]. congruence.
  - intros p' s0 Hp'. destruct (decide (p' = p)) as [->|Hne].
    + rewrite lookup_insert_eq. exists st'. split; [done|]. congruence.
    + rewrite lookup_insert_ne by done. by exists s0.
Qed.

(** A client keeps its name and is not opened again. *)
Definition client_kept (c c' : Client) : Prop := c_id c' = c_id c ∧ (c_done c = true → c_done c' = true).

Lemma set_conns_quiet s cli c c' :
  srv_conns s !! cli = Some c → client_kept c c' → quiet s (set_conns s (<[cli := c']> (srv_conns s))).
Proof.
  intros Hc [Hid Hdone]. split; try done; simpl.
  - intros cli'. destruct (decide (cli' = cli)) as [->|Hne].
    + rewrite lookup_insert_eq, Hc. simpl. by f_equal.
    + by rewrite lookup_insert_ne.
  - intros cli' c0 Hc0 Hd0. destruct (decide (cli' = cli)) as [->|Hne].
    + exists c'. rewrite lookup_insert_eq. split; [done|]. apply Hdone. congruence.
    + exists c0. by rewrite lookup_insert_ne.
Qed.

(** Writing to a client changes nothing but the client. *)
Lemma on_client_runs {A} (f : Client → A * Client) s cli c :
  (∀ c, client_kept c (f c).2) → srv_conns s !! cli = Some c →
  runs (on_client f cli) s (λ a s', a = (f c).1 ∧ s' = set_conns s (<[cli := (f c).2]> (srv_conns s)) ∧ quiet s s').
Proof.
  intros Hf Hc. unfold runs, on_client. rewrite Hc. simpl. pose proof (Hf c) as Hid.
  destruct (f c) as [a c'] eqn:E. do 2 eexists. split; [done|]. split; [done|]. split; [done|].
  by eapply set_conns_quiet.
Qed.

(** ** Actions that keep the invariant and are quiet *)

Definition kept (s s' : Server) : Prop := server_ok s' ∧ quiet s s'.

(** [m] returns and keeps the invariant wherever [P] holds. *)
Definition keeps {A} (P : Server → Prop) (m : action A) : Prop :=
  ∀ s, server_ok s → P s → runs m s (λ _ s', kept s s').

(** A condition that quiet steps do not invalidate. *)
Class Stable (P : Server → Prop) : Prop := stable s s' : quiet s s' → P s → P s'.

Lemma keeps_ret {A} P (a : A) : keeps P (mret a).
Proof. intros s Hok _. apply runs_ret. by split. Qed.

Lemma keeps_get {A} P (f : Server → A) : keeps P (get f).
Proof. intros s Hok _. exists (f s), s. split; [done|]. by split. Qed.

Lemma keeps_bind {A B} P `{!Stable P} (m : action A) (k : A → action B) :
  keeps P m → (∀ a, keeps P (k a)) → keeps P (m ≫= k).
Proof.
  intros Hm Hk s Hok HP. eapply runs_step; [by apply Hm|]. intros a s1 [Hok1 Hq1].
  eapply runs_mono; [apply Hk; [done|by eapply stable]|]. intros b s2 [Hok2 Hq2]. split; [done|].
  by transitivity s1.
Qed.

(** A connection that handles client [cli] with session [p]. *)
Definition handling (cli : clientptr) (p : stateptr) (s : Server) : Prop :=
  ∃ o a, srv_owners s !! o = Some a ∧ ac_done a = false ∧ ac_client a = cli ∧ ac_session a = p.

#[export] Instance handling_stable cli p : Stable (handling cli p).
Proof. intros s s' Hq (o & a & Ha & ?). exists o, a. by rewrite (qu_owners _ _ Hq). Qed.

Lemma handling_session cli p s :
  server_ok s → handling cli p s →
  ∃ c st, srv_conns s !! cli = Some c ∧ st_data (srv_sessions s) !! c_id c = Some p
    ∧ states (srv_sessions s) !! p = Some st ∧ st_id st = c_id c ∧ deleted st = false.
Proof.
  intros Hok (o & a & Ha & Hd & <- & <-). by apply (registered_session s o), (sv_owners _ Hok).
Qed.

Lemma session_runs_kept {A} pre (f : method A)
    `{MethodOk A pre f, MethodQuiet A f, MethodWakes A f, MethodSubs A f} s p st :
  server_ok s → states (srv_sessions s) !! p = Some st → pre st → runs (on_session f p) s (λ _ s', kept s s').
Proof.
  intros Hok Hp Hpre. eapply runs_mono; [by apply (on_session_runs pre f s p st); [apply Hok|..]|].
  intros a s' (st' & t' & Hf & -> & Hst & Hk & Hq). split; [|done].
  eapply server_ok_quiet; [done|done|done|apply Hok|]. intros g c. simpl.
  rewrite (session_route_insert _ _ _ _ st) by done. rewrite (sv_routes _ Hok g c). case_decide as Hd; [|done].
  unfold session_route. rewrite Hd. simpl. rewrite Hp. simpl. by rewrite (method_subs _ _ _ _ _ _ Hf).
Qed.

Lemma keeps_session {A} (f : method A)
    `{MethodOk A always f, MethodQuiet A f, MethodWakes A f, MethodSubs A f} cli p :
  keeps (handling cli p) (on_session f p).
Proof.
  intros s Hok (c & st & _ & _ & Hp & _)%handling_session; [|done]. by apply (session_runs_kept always f s p st).
Qed.

Lemma client_runs_kept {A} (f : Client → A * Client) s cli :
  (∀ c, client_kept c (f c).2) → server_ok s → is_Some (srv_conns s !! cli) →
  runs (on_client f cli) s (λ _ s', kept s s').
Proof.
  intros Hf Hok [c Hc]. eapply runs_mono; [by apply (on_client_runs f s cli c)|].
  intros a s' (_ & -> & Hq). split; [|done]. eapply server_ok_quiet; [done|done|apply Hok..].
Qed.

Lemma enqueue_kept w c : client_kept c (enqueue c w).2.
Proof. unfold client_kept, enqueue. repeat case_match; by simplify_eq. Qed.

Lemma keeps_client {A} (f : Client → A * Client) cli p :
  (∀ c, client_kept c (f c).2) → keeps (handling cli p) (on_client f cli).
Proof.
  intros Hf s Hok (c & st & Hc & _)%handling_session; [|done]. apply client_runs_kept; [done|done|by exists c].
Qed.

Lemma keeps_sendDeadline cli p pkt deadline written :
  keeps (handling cli p) (sendPacketWithDeadline cli pkt deadline written).
Proof.
  unfold sendPacketWithDeadline. destruct (Encode pkt) as [data|err]; [|apply keeps_ret].
  apply keeps_bind; [apply _| |intros [err|]; apply keeps_ret]. apply keeps_client, enqueue_kept.
Qed.

Lemma keeps_sendPacket cli p pkt written : keeps (handling cli p) (sendPacket cli pkt written).
Proof. apply keeps_sendDeadline. Qed.

Lemma count_auth_kept s n m : server_ok s → kept s (count_auth s n m).
Proof. intros Hok. split; [destruct Hok; by split|]. split; try done. eauto. Qed.

Lemma keeps_recordRejection P : keeps P recordAuthorizationRejection.
Proof. intros s Hok _. exists tt. eexists. split; [done|]. by apply count_auth_kept. Qed.

Lemma keeps_canPublish P `{!Stable P} identity name : keeps P (canPublish identity name).
Proof.
  apply keeps_bind; [done|apply keeps_get|]. intros [l|]; [|apply keeps_ret].
  destruct (CanPublish _ _ _); [apply keeps_ret|]. apply keeps_bind; [done|apply keeps_recordRejection|].
  intros _. apply keeps_ret.
Qed.

Lemma CanSubscribe_total l identity filter : policy_ok (l_users l) → ∃ b, CanSubscribe l identity filter = Some b.
Proof.
  intros Hl. unfold CanSubscribe. destruct (ValidateTopicFilter filter); [eauto|].
  pose proof (user_of_subscribe l identity Hl) as Hall.
  induction Hall as [|a allowed Ha _ IH]; [by exists false|]. simpl.
  destruct (CoversFilter_total a filter Ha) as [[] ->]; simpl; eauto.
Qed.

Lemma keeps_canSubscribe P `{!Stable P} identity filter : keeps P (canSubscribe identity filter).
Proof.
  intros s Hok HP. unfold canSubscribe. destruct (srv_auth s) as [l|] eqn:Hl.
  - destruct (CanSubscribe_total l identity filter (sv_policy _ Hok l Hl)) as [b Hb].
    apply runs_bind. exists (Some l), s. split; [by unfold get; rewrite Hl|]. apply runs_bind.
    exists b, s. split; [by rewrite Hb|]. destruct b; [apply runs_ret; by split|].
    by apply (keeps_bind P _ _ (keeps_recordRejection P) (λ _, keeps_ret P false)).
  - apply runs_bind. exists None, s. split; [by unfold get; rewrite Hl|]. apply runs_ret. by split.
Qed.

(** ** Publishing *)

Lemma on_session_broker {A} (f : method A) p s a s' : on_session f p s = Some (a, s') → srv_broker s' = srv_broker s.
Proof. unfold on_session. destruct (call _ _ _) as [[? ?]|]; simpl; [|done]. by intros [= _ <-]. Qed.

Lemma on_client_broker {A} (f : Client → A * Client) cli s a s' :
  on_client f cli s = Some (a, s') → srv_broker s' = srv_broker s.
Proof. unfold on_client. destruct (srv_conns s !! cli) as [c|]; simpl; [|done]. destruct (f c). by intros [= _ <-]. Qed.

Lemma online_client_ok s id p :
  server_ok s → ∃ o, online_client s id p = Some o ∧ ∀ cli, o = Some cli →
    ∃ c, srv_conns s !! cli = Some c ∧ c_id c = id.
Proof.
  intros Hok. unfold online_client. destruct (srv_clients s !! id) as [o|] eqn:Ho; [|by exists None].
  destruct (sv_clients _ Hok id o Ho) as (a & c & Ha & Hc & Hid & _). rewrite Ha. simpl.
  eexists. split; [done|]. intros cli. case_match; [done|]. intros [= <-]. by exists c.
Qed.

(** Closing a client after a failed [Enqueue]. *)
Lemma enqueue_or_close cli data s :
  server_ok s → is_Some (srv_conns s !! cli) →
  ∃ s', ('(err, s) ← Enqueue cli data s;
         match err with Some _ => '(_, s) ← close_client cli s; Some s | None => Some s end) = Some s'
    ∧ kept s s' ∧ srv_broker s' = srv_broker s ∧ srv_sessions s' = srv_sessions s.
Proof.
  intros Hok [c Hc]. unfold Enqueue, close_client, on_client. rewrite Hc. simpl.
  pose proof (enqueue_kept (mkWrite data None 0) c) as Hid.
  assert (Hkept : ∀ c', client_kept c c' → kept s (set_conns s (<[cli := c']> (srv_conns s)))).
  { intros c' Hid'. pose proof (set_conns_quiet s cli c c' Hc Hid') as Hq. split; [|done].
    eapply server_ok_quiet; [done|done|apply Hok..]. }
  destruct (enqueue c _) as [[err|] c'] eqn:E; simpl in *.
  - rewrite lookup_insert_eq. simpl. eexists. split; [done|]. unfold set_conns. simpl. rewrite insert_insert_eq.
    split; [apply (Hkept (Close c')); by destruct Hid|done].
  - eexists. split; [done|]. split; [exact (Hkept c' Hid)|done].
Qed.

Lemma deliver_runs now pub sub cache s :
  server_ok s →
  runs (deliverPublishToSubscriber now pub sub cache) s (λ _ s', kept s s' ∧ srv_broker s' = srv_broker s).
Proof.
  intros Hok. assert (Hstay : ∀ r, runs (λ s, Some (r : option error * publishDeliveryCache, s)) s
    (λ _ s', kept s s' ∧ srv_broker s' = srv_broker s)) by (intros r; exists r, s; split; [done|by split; [split|]]).
  unfold runs, deliverPublishToSubscriber, Get in *.
  destruct (st_data (srv_sessions s) !! sub_ClientID sub) as [p|] eqn:Hp; [|apply (Hstay (None, cache))].
  destruct (bool_decide _); [apply (Hstay (None, cache))|]. destruct (_ =? 0).
  - destruct (online_client_ok s (sub_ClientID sub) p Hok) as (o & -> & Ho). simpl.
    destruct o as [cli|]; [|apply (Hstay (None, cache))].
    destruct (qos0Payload _ _ _) as [[data|err] cache']; [|apply (Hstay (Some err, cache'))].
    destruct (Ho cli eq_refl) as (c & Hc & _).
    destruct (enqueue_or_close cli data s Hok ltac:(eauto)) as (s' & Hrun & Hk & Hb & _).
    exists (None, cache'), s'. split; [|done]. destruct (Enqueue cli data s) as [[err s1]|]; simpl in *; [|done].
    destruct err; [|congruence]. destruct (close_client cli s1) as [[? ?]|]; simpl in *; [congruence|done].
  - destruct (qos1Template _ _ _) as [[tmpl|err] cache']; [|apply (Hstay (Some err, cache'))].
    destruct (data_state _ _ _ (sv_store _ Hok) Hp) as (st & Hst & _).
    destruct (session_runs_kept always (Admit (raw tmpl) (t_packetIDOffset tmpl) now) s p st Hok Hst I)
      as (r & s' & Hr & Hk). rewrite Hr. simpl. do 2 eexists. split; [done|]. split; [done|].
    by eapply on_session_broker.
Qed.

Lemma deliver_all_runs clock pub subs s cache err :
  server_ok s →
  ∃ s' cache' err', foldl (λ st sub, (deliver_to clock pub sub st).2) (Some (s, cache, err)) subs
                    = Some (s', cache', err')
    ∧ kept s s' ∧ srv_broker s' = srv_broker s.
Proof.
  revert s cache err. induction subs as [|sub subs IH]; intros s cache err Hok.
  { exists s, cache, err. split; [done|]. by split; [split|]. }
  destruct (deliver_runs (clock sub) pub sub cache s Hok) as ([e c1] & s1 & Hd & [Hok1 Hq1] & Hb1).
  cbn [foldl]. unfold deliver_to at 2. rewrite Hd. cbn [snd].
  destruct (IH s1 c1 (match e with Some err => Some err | None => err end) Hok1)
    as (s2 & c2 & e2 & -> & [Hok2 Hq2] & Hb2).
  exists s2, c2, e2. split; [done|]. split; [|congruence]. split; [done|]. by transitivity s1.
Qed.

Lemma keeps_publishMessage P clock p : keeps P (publishMessage clock p).
Proof.
  intros s Hok _. unfold runs, publishMessage.
  pose proof (routing_Publish (srv_broker s) p (deliver_to clock p) (Some (s, empty_cache, None)) (sv_broker _ Hok)) as Hb.
  pose proof (Publish_topics (srv_broker s) p (deliver_to clock p) (Some (s, empty_cache, None))) as Ht.
  assert (Hst : ∃ s' c e, (Publish (srv_broker s) p (deliver_to clock p) (Some (s, empty_cache, None))).2
    = Some (s', c, e) ∧ kept s s' ∧ srv_broker s' = srv_broker s).
  { unfold Publish. destruct (if pub_Retain p then _ else _) as [[err|] b]; simpl.
    - exists s, empty_cache, None. split; [done|]. by split; [split|].
    - by apply deliver_all_runs. }
  destruct (Publish _ _ _ _) as [[err b] st]. simpl in *. destruct Hst as (s' & c & e & -> & [Hok' Hq] & Hbr).
  do 2 eexists. split; [done|]. assert (Hq' : quiet s (set_broker s' b)) by (destruct Hq; by split).
  split; [|done]. eapply server_ok_quiet; [exact Hok|done|apply Hok'|done|].
  intros f cid. simpl. rewrite Ht, <- Hbr. apply Hok'.
Qed.

Lemma keeps_publishWill P `{!Stable P} clock will : keeps P (publishWill clock will).
Proof. apply keeps_bind; [done|apply keeps_publishMessage|]. intros _. apply keeps_ret. Qed.

(** ** Subscribing *)

Lemma SetSubscription_subs f q l t s a t' s' :
  SetSubscription f q l t s = Some (a, t', s') →
  subscriptions s' = if decide (a = None) then <[f := q]> (subscriptions s) else subscriptions s.
Proof.
  unfold SetSubscription. repeat case_match; intros; simplify_eq; simpl; case_decide; congruence || done.
Qed.

Lemma DeleteSubscription_subs f l t s a t' s' :
  DeleteSubscription f l t s = Some (a, t', s') → subscriptions s' = delete f (subscriptions s).
Proof.
  unfold DeleteSubscription. case_match eqn:Hf; intros; simplify_eq; simpl; [done|]. by rewrite delete_id.
Qed.

(** The session of a name, seen from the other side. *)
Lemma data_session st c p s :
  store_ok st → states st !! p = Some s → deleted s = false → st_data st !! c = Some p ↔ c = st_id s.
Proof.
  intros Hst Hp Hd. rewrite (sto_data _ Hst). split; [intros (s0 & ? & <- & _); congruence|].
  intros ->. by exists s.
Qed.

(** A change of one subscription, in the session and in the tree. *)
Lemma routes_update b b' st p s s' f t (o : option Z) :
  store_ok st → states st !! p = Some s → deleted s = false → routes_agree b st →
  (∀ g, subscriptions s' !! g = if decide (g = f) then o else subscriptions s !! g) →
  (∀ ls c, find (root (topics b')) ls c =
    if decide (ls = splitFilter f ∧ c = st_id s) then (q ← o; Some (mkSubscription c (subscriber p c) q))
    else find (root (topics b)) ls c) →
  routes_agree b' (mkStore (st_data st) (<[p := s']> (states st)) (limits st) t).
Proof.
  intros Hst Hp Hd Hr Hsub Hfind g c. rewrite Hfind, (session_route_insert _ _ _ _ s) by done. rewrite Hr.
  pose proof (data_session st c p s Hst Hp Hd) as Hc.
  assert (Hg : splitFilter g = splitFilter f ↔ g = f) by (split; [apply (inj splitFilter)|by intros ->]).
  destruct (decide (st_data st !! c = Some p)) as [Hcp|Hcp].
  - rewrite Hsub. destruct (decide (g = f)) as [->|Hgf].
    + rewrite decide_True by tauto. done.
    + rewrite decide_False by tauto. unfold session_route. rewrite Hcp. simpl. by rewrite Hp.
  - by rewrite decide_False by tauto.
Qed.

Lemma keeps_subscribe_one cli p sub :
  subscription_ok sub → keeps (handling cli p) (subscribe_one p sub).
Proof.
  intros [Hv Hqos]. unfold subscribe_one.
  apply keeps_bind; [apply _|apply (keeps_session (reads st_owner))|intros owner].
  apply keeps_bind; [apply _|apply keeps_canSubscribe, _|intros allowed].
  destruct (negb allowed); [apply keeps_ret|]. intros s Hok Hh.
  destruct (handling_session _ _ _ Hok Hh) as (c & st & _ & Hdata & Hp & Hid & Hdel).
  set (q := if 1 <? wsub_QoS sub then 1 else wsub_QoS sub). set (f := wsub_Topic sub) in *.
  assert (Hq01 : 0 <= q <= 1) by (unfold q; destruct (Z.ltb_spec 1 (wsub_QoS sub)); lia).
  eapply runs_step; [by apply (on_session_runs always (SetSubscription f q) s p st (sv_store _ Hok) Hp)|].
  intros err s1 (st1 & t1 & Hf & -> & Hst1 & Hk & Hq). pose proof (SetSubscription_subs _ _ _ _ _ _ _ _ Hf) as Hsubs.
  destruct err as [err|].
  - apply runs_ret. split; [|done]. eapply server_ok_quiet; [done|done|done|apply Hok|].
    apply (routes_update (srv_broker s) _ _ p st st1 f _ (subscriptions st !! f)); try done.
    + apply Hok.
    + apply Hok.
    + intros g. rewrite Hsubs, decide_False by done. destruct (decide (g = f)); by subst.
    + intros ls c'. cbn [srv_broker set_sessions].
      destruct (decide (ls = splitFilter f ∧ c' = st_id st)) as [[-> ->]|]; [|done]. rewrite (sv_routes _ Hok).
      unfold session_route. rewrite Hid, Hdata. simpl. by rewrite Hp.
  - apply runs_bind. unfold on_session, call, reads. cbn [srv_sessions set_sessions states].
    exists (st_id st1). eexists. split; [simpl; rewrite lookup_insert_eq; reflexivity|].
    apply runs_bind. exists tt. eexists. split; [done|]. apply runs_ret.
    rewrite insert_insert_eq.
    assert (Hq' : quiet s (set_broker (set_sessions s (mkStore (st_data (srv_sessions s))
      (<[p := st1]> (states (srv_sessions s))) (limits (srv_sessions s)) t1))
      (Broker_Subscribe (srv_broker s) f q (subscriber p (st_id st1))))) by (destruct Hq; by split).
    split; [|done]. eapply server_ok_quiet; [exact Hok|exact Hq'|exact Hst1| |].
    + simpl. apply routing_Subscribe; [done|done|apply Hok].
    + simpl. apply (routes_update (srv_broker s) _ _ p st st1 f _ (Some q)); try done; try apply Hok.
      * intros g. rewrite Hsubs, decide_True, lookup_insert by done.
        destruct (decide (f = g)), (decide (g = f)); by subst.
      * intros ls c'. rewrite find_Broker_Subscribe. simpl. rewrite (lk_id _ _ _ Hk).
        by destruct (decide (ls = splitFilter f ∧ c' = st_id st)) as [[_ ->]|].
Qed.

Lemma keeps_subscribe_filters cli p subs :
  Forall subscription_ok subs → keeps (handling cli p) (subscribe_filters p subs).
Proof.
  induction 1 as [|sub subs Hv _ IH]; simpl; [apply keeps_ret|].
  apply keeps_bind; [apply _|by apply keeps_subscribe_one|]. intros code.
  apply keeps_bind; [apply _|done|]. intros codes. apply keeps_ret.
Qed.

Lemma keeps_until_error {A} P `{!Stable P} (f : A → action (option error)) l :
  (∀ a, keeps P (f a)) → keeps P (until_error f l).
Proof.
  intros Hf. induction l as [|a l IH]; simpl; [apply keeps_ret|].
  apply keeps_bind; [done|done|]. intros [err|]; [apply keeps_ret|done].
Qed.

Lemma keeps_send_retained cli p now code retained :
  keeps (handling cli p) (send_retained cli p now code retained).
Proof.
  unfold send_retained. apply keeps_bind; [apply _|apply keeps_get|]. intros encodeFn.
  destruct (_ =? 1).
  - destruct (newPublishTemplate _ _) as [t|err]; [|apply keeps_ret].
    apply keeps_bind; [apply _|apply (keeps_session (Admit _ _ _))|]. intros r. apply keeps_ret.
  - destruct (encodeFn _) as [data|err]; [|apply keeps_ret]. apply keeps_client, enqueue_kept.
Qed.

Lemma keeps_retained_of cli p clock granted : keeps (handling cli p) (retained_of cli p clock granted).
Proof.
  destruct granted as [sub code]. simpl. destruct (_ =? 128); [apply keeps_ret|].
  apply keeps_bind; [apply _|apply keeps_get|]. intros matching. apply keeps_until_error; [apply _|].
  intros retained. apply keeps_send_retained.
Qed.

Lemma keeps_handleSubscribe cli p pkt :
  subscribe_ok pkt → keeps (handling cli p) (handleSubscribe cli p pkt).
Proof.
  intros (_ & _ & Hall). unfold handleSubscribe.
  apply keeps_bind; [apply _|apply (keeps_session PauseDelivery)|intros _].
  apply keeps_bind; [apply _|by apply keeps_subscribe_filters|intros codes].
  apply keeps_bind; [apply _|apply keeps_sendPacket|intros [err|]]; [|apply keeps_ret].
  apply keeps_bind; [apply _|apply (keeps_session ResumeDelivery)|intros _]. apply keeps_ret.
Qed.

Lemma keeps_handleSubscribe_retained cli p pkt codes written clock :
  keeps (handling cli p) (handleSubscribe_retained cli p pkt codes written clock).
Proof.
  unfold handleSubscribe_retained. apply keeps_bind; [apply _| |intros err].
  { destruct written; [apply keeps_ret|]. apply keeps_until_error; [apply _|]. intros. apply keeps_retained_of. }
  apply keeps_bind; [apply _|apply (keeps_session ResumeDelivery)|intros _]. apply keeps_ret.
Qed.

(** The codes SUBACK can have. *)
Definition code_ok (code : Z) : Prop := 0 <= code <= 1 ∨ code = 128.

Lemma code_refused : code_ok 128.
Proof. by right. Qed.

Lemma subscribe_one_code p sub s code s' :
  0 <= wsub_QoS sub → subscribe_one p sub s = Some (code, s') → code_ok code.
Proof.
  intros Hq (owner & s1 & _ & H)%bind_inv. apply bind_inv in H as (allowed & s2 & _ & H).
  destruct (negb allowed); [injection H as <- _; apply code_refused|].
  apply bind_inv in H as (err & s3 & _ & H). destruct err; [injection H as <- _; apply code_refused|].
  apply bind_inv in H as (id & s4 & _ & H). apply bind_inv in H as (u & s5 & _ & E). injection E as <- _.
  left. destruct (Z.ltb_spec 1 (wsub_QoS sub)); lia.
Qed.

Lemma subscribe_filters_codes p subs s codes s' :
  Forall subscription_ok subs → subscribe_filters p subs s = Some (codes, s') → Forall code_ok codes.
Proof.
  intros Hall. revert s codes. induction Hall as [|sub subs [_ Hq] _ IH]; intros s codes H.
  { injection H as <- _. constructor. }
  apply bind_inv in H as (code & s1 & H1 & H). apply bind_inv in H as (codes1 & s2 & H2 & E). injection E as <- <-.
  apply Forall_cons. split; [eapply subscribe_one_code; [apply Hq|exact H1]|exact (IH _ _ H2)].
Qed.

(** A connection with its client's name. *)
Definition handling_as (id : bytes) (cli : clientptr) (p : stateptr) (s : Server) : Prop :=
  handling cli p s ∧ c_id <$> srv_conns s !! cli = Some id.

#[export] Instance handling_as_stable id cli p : Stable (handling_as id cli p).
Proof.
  intros s s' Hq [Hh Hid]. split; [by eapply handling_stable|]. by rewrite (qu_conns _ _ Hq).
Qed.

Lemma unsubscribe_kept id cli p filter s :
  server_ok s → handling_as id cli p s →
  runs (_ ← on_broker (λ b, Broker_Unsubscribe b filter id); on_session (DeleteSubscription filter) p) s
    (λ _ s', kept s s').
Proof.
  intros Hok [Hh Hcid]. destruct (handling_session _ _ _ Hok Hh) as (c & st & Hc & Hdata & Hp & Hid & Hdel).
  rewrite Hc in Hcid. simpl in Hcid. injection Hcid as <-. apply runs_bind. exists tt. eexists. split; [done|].
  set (s1 := set_broker s _).
  eapply runs_mono; [by apply (on_session_runs always (DeleteSubscription filter) s1 p st (sv_store _ Hok) Hp)|].
  intros u s2 (st1 & t1 & Hf & -> & Hst1 & Hk & Hq). assert (Hq' : quiet s s1) by (split; try done; eauto).
  assert (Hq2 : quiet s (set_sessions s1 (mkStore (st_data (srv_sessions s1))
    (<[p := st1]> (states (srv_sessions s1))) (limits (srv_sessions s1)) t1))) by by transitivity s1.
  split; [|done]. eapply server_ok_quiet; [exact Hok|exact Hq2|exact Hst1| |].
  { simpl. apply routing_Unsubscribe, Hok. }
  simpl. apply (routes_update (srv_broker s) _ _ p st st1 filter _ None); try done; try apply Hok.
  - intros g. rewrite (DeleteSubscription_subs _ _ _ _ _ _ _ Hf), lookup_delete.
    destruct (decide (filter = g)), (decide (g = filter)); by subst.
  - intros ls c'. by rewrite find_Broker_Unsubscribe, Hid.
Qed.

Lemma keeps_unsubscribe_filters id cli p filters :
  keeps (handling_as id cli p) (unsubscribe_filters id p filters).
Proof.
  induction filters as [|f filters IH]; [apply keeps_ret|]. cbn [unsubscribe_filters]. intros s Hok HP.
  destruct (unsubscribe_kept id cli p f s Hok HP) as (a & s1 & Hrun & [Hok1 Hq1]).
  destruct (IH s1 Hok1 (stable _ _ Hq1 HP)) as (b & s2 & Hrun2 & [Hok2 Hq2]).
  exists b, s2. split; [|split; [done|by transitivity s1]].
  unfold mbind, action_bind in *. simpl in *. destruct (on_session _ _ _) as [[? ?]|]; simpl in *; [|done].
  congruence.
Qed.

Lemma keeps_handleUnsubscribe cli p pkt written :
  keeps (handling cli p) (handleUnsubscribe cli p pkt written).
Proof.
  intros s Hok Hh. destruct (handling_session _ _ _ Hok Hh) as (c & st & Hc & _).
  unfold handleUnsubscribe. eapply runs_step; [by apply (on_client_runs (λ c, (c_id c, c)) s cli c)|].
  intros id s1 (-> & -> & Hq). simpl in *. rewrite insert_id by done.
  assert (E : set_conns s (srv_conns s) = s) by by destruct s. rewrite E.
  assert (HP : handling_as (c_id c) cli p s) by (split; [done|by rewrite Hc]).
  apply (keeps_bind (handling_as (c_id c) cli p)); [apply keeps_unsubscribe_filters| |done|done].
  intros _ s2 Hok2 [Hh2 _]. by apply (keeps_sendPacket cli p).
Qed.

Lemma keeps_handles P `{!Stable P} (m : action (option error)) : keeps P m → keeps P (handles m).
Proof. intros Hm. apply keeps_bind; [exact _|exact Hm|]. intros err. apply keeps_ret. Qed.

(** The handler of a packet that the decoder gave returns or gets to its wait, and keeps
    the invariant. *)
Lemma keeps_handlePacket cli p pkt e : packet_accepted pkt → keeps (handling cli p) (handlePacket cli p pkt e).
Proof.
  intros Hpkt. destruct pkt as [?|?|q|id|q|?|q|?| | |]; simpl; try (apply (keeps_handles _ _), keeps_ret).
  - apply (keeps_handles _ _). apply keeps_bind; [apply _|apply (keeps_session (reads st_owner))|intros owner].
    apply keeps_bind; [apply _|apply keeps_canPublish, _|intros allowed].
    destruct (negb allowed); [apply keeps_ret|].
    apply keeps_bind; [apply _|apply keeps_publishMessage|intros [err|]]; [apply keeps_ret|].
    destruct (_ =? 1); [apply keeps_sendPacket|apply keeps_ret].
  - apply (keeps_handles _ _). apply keeps_bind; [apply _|apply (keeps_session (Ack id))|intros _]. apply keeps_ret.
  - apply keeps_bind; [apply _|by apply keeps_handleSubscribe|]. intros [err codes]. apply keeps_ret.
  - apply (keeps_handles _ _), keeps_handleUnsubscribe.
  - apply (keeps_handles _ _), keeps_sendPacket.
Qed.

(** The wait is for a SUBACK of a SUBSCRIBE that was read. *)
Lemma handlePacket_waits cli p pkt e s q codes s' :
  packet_accepted pkt → handlePacket cli p pkt e s = Some (AwaitSubAck q codes, s') →
  pkt = PSubscribe q ∧ Forall code_ok codes.
Proof.
  intros Hpkt H. destruct pkt as [?|?|?|?|q'|?|?|?| | |]; try (apply bind_inv in H as (err & s1 & _ & E); discriminate E).
  apply bind_inv in H as ([err codes'] & s1 & H & E). destruct err; [discriminate E|]. injection E as -> -> _. split; [done|].
  apply bind_inv in H as (u & s2 & _ & H). apply bind_inv in H as (codes1 & s3 & H2 & H).
  apply bind_inv in H as (err & s4 & _ & H). destruct Hpkt as (_ & _ & Hall).
  assert (codes1 = codes) as ->.
  { destruct err; [apply bind_inv in H as (u' & s5 & _ & E); discriminate E|by injection H]. }
  by eapply subscribe_filters_codes.
Qed.
