(* ===== verification/Ownership.v ===== *)
(** The life cycle keeps the invariant of the server: opening and closing sessions,
    taking a client over, expiry; and the invariant of the whole system of
    connections, with the theorems about every reachable state. *)

From stdpp Require Import sorting.
From S2P Require Import Prelude Topic Wire Filters Encoder Decoder Codec CodecProofs Tree.
From S2P Require Import Broker Session SessionQueue SessionStore SessionProofs Delivery Auth AuthProofs Client.
From S2P Require Import Server Handlers Lifecycle ServerInv.

Local Open Scope Z_scope.
Local Open Scope orb_scope.

(** * What a step leaves of the other connections *)

(** Being closed and being done are for ever. *)
Definition owner_grows (a a' : activeConnection) : Prop :=
  ac_client a' = ac_client a ∧ (ac_done a = true → ac_done a' = true) ∧ (closing a = true → closing a' = true).

(** Every connection that is not done, but [x], keeps its client and its session. *)
Record apart (x : option connptr) (s s' : Server) : Prop := {
  ap_settings : settings s' = settings s;
  ap_limits : limits (srv_sessions s') = limits (srv_sessions s);
  ap_conns cli c : srv_conns s !! cli = Some c → ∃ c', srv_conns s' !! cli = Some c' ∧ client_kept c c';
  ap_owners o a : srv_owners s !! o = Some a → ac_done a = false → x ≠ Some o →
    ∃ a', srv_owners s' !! o = Some a' ∧ ac_done a' = false ∧ ac_client a' = ac_client a
      ∧ ac_session a' = ac_session a ∧ cleanSession a' = cleanSession a
      ∧ ∀ st, states (srv_sessions s) !! ac_session a = Some st →
          ∃ st', states (srv_sessions s') !! ac_session a = Some st'
            ∧ link_kept (limits (srv_sessions s)) st st';
  ap_back o a' : srv_owners s' !! o = Some a' → ac_done a' = false → x ≠ Some o →
    ∃ a, srv_owners s !! o = Some a ∧ ac_done a = false ∧ ac_client a = ac_client a';
  ap_grows o a : srv_owners s !! o = Some a → ∃ a', srv_owners s' !! o = Some a' ∧ owner_grows a a' }.

Lemma quiet_apart x s s' : quiet s s' → apart x s s'.
Proof.
  intros Hq. pose proof (qu_store _ _ Hq) as Hsq. split.
  - apply Hq.
  - apply Hsq.
  - intros cli c Hc. pose proof (qu_conns _ _ Hq cli) as E. rewrite Hc in E.
    destruct (srv_conns s' !! cli) as [c'|] eqn:Hc'; [|done]. exists c'. split; [done|]. split; [by injection E|].
    intros Hd. destruct (qu_closed _ _ Hq cli c Hc Hd) as (c2 & ? & ?). congruence.
  - intros o a Ha Hd _. exists a. rewrite (qu_owners _ _ Hq). split_and!; try done. intros st Hst.
    by apply (sq_states _ _ Hsq).
  - intros o a'. rewrite (qu_owners _ _ Hq). intros Ha Hd _. by exists a'.
  - intros o a Ha. exists a. by rewrite (qu_owners _ _ Hq).
Qed.

Lemma apart_trans x s1 s2 s3 : apart x s1 s2 → apart x s2 s3 → apart x s1 s3.
Proof.
  intros [S1 L1 C1 O1 B1 G1] [S2 L2 C2 O2 B2 G2]. split; try congruence.
  - intros cli c (c2 & Hc2 & E2 & D2)%C1. destruct (C2 cli c2 Hc2) as (c3 & ? & E3 & D3). exists c3.
    split; [done|]. split; [congruence|auto].
  - intros o a Ha Hd Hx. destruct (O1 o a Ha Hd Hx) as (a2 & Ha2 & Hd2 & E1 & E2 & E3 & Hs2).
    destruct (O2 o a2 Ha2 Hd2 Hx) as (a3 & Ha3 & Hd3 & F1 & F2 & F3 & Hs3). exists a3.
    split_and!; try congruence. intros st Hst. destruct (Hs2 st Hst) as (st2 & Hst2 & Hk2).
    rewrite <- E2 in Hst2. destruct (Hs3 st2 Hst2) as (st3 & Hst3 & Hk3). exists st3.
    split; [congruence|]. rewrite L1 in Hk3. by transitivity st2.
  - intros o a3 Ha3 Hd3 Hx. destruct (B2 o a3 Ha3 Hd3 Hx) as (a2 & Ha2 & Hd2 & E).
    destruct (B1 o a2 Ha2 Hd2 Hx) as (a1 & Ha1 & Hd1 & E'). exists a1. split_and!; congruence.
  - intros o a Ha. destruct (G1 o a Ha) as (a2 & Ha2 & E2 & D2 & F2). destruct (G2 o a2 Ha2) as (a3 & Ha3 & E3 & D3 & F3).
    exists a3. split; [done|]. split_and!; [congruence|auto|auto].
Qed.

(** * Opening sessions *)

(** The tree without the routes of one client, and the store without its session. *)
Lemma routes_remove b st id p s t :
  store_ok st → st_data st !! id = Some p → states st !! p = Some s → routes_agree b st →
  routes_agree (Broker_UnsubscribeAll b id) (mkStore (delete id (st_data st)) (<[p := removed s]> (states st)) (limits st) t).
Proof.
  intros Hst Hid Hp Hr f c. rewrite find_Broker_UnsubscribeAll, Hr. unfold session_route. simpl.
  destruct (decide (c = id)) as [->|Hne]; [by rewrite lookup_delete_eq|]. rewrite lookup_delete_ne by done.
  destruct (st_data st !! c) as [p'|] eqn:Hc; simpl; [|done]. rewrite lookup_insert_ne; [done|].
  intros ->. apply Hne. by eapply data_inj.
Qed.

(** Removing the routes of a client that has no session removes nothing. *)
Lemma routes_absent b st id :
  st_data st !! id = None → routes_agree b st → routes_agree (Broker_UnsubscribeAll b id) st.
Proof.
  intros Hid Hr f c. rewrite find_Broker_UnsubscribeAll, Hr.
  destruct (decide (c = id)) as [->|Hne]; [|done]. unfold session_route. by rewrite Hid.
Qed.

(** Sessions keep their epochs, and new ones start at 0. *)
Definition epochs_from (st st' : Store) : Prop :=
  ∀ p s', states st' !! p = Some s' → (∃ s, states st !! p = Some s ∧ epoch s' = epoch s) ∨ epoch s' = 0.

#[export] Instance epochs_from_preorder : PreOrder epochs_from.
Proof.
  split; [intros st p s; eauto|]. intros st1 st2 st3 H12 H23 p s3 Hp.
  destruct (H23 p s3 Hp) as [(s2 & Hp2 & E)|?]; [|by right]. destruct (H12 p s2 Hp2) as [(s1 & ? & ?)|?].
  - left. exists s1. split; congruence.
  - right. congruence.
Qed.

Lemma epochs_below_from n st st' : 0 <= n → epochs_from st st' → epochs_below n st → epochs_below n st'.
Proof.
  intros H0 Hf Hn p s' Hp. destruct (Hf p s' Hp) as [(s & Hs & ->)| ->]; [by eapply Hn|lia].
Qed.

Lemma epochs_from_states st st' : states st' = states st → epochs_from st st'.
Proof. intros E p s. rewrite E. eauto. Qed.

Lemma epochs_from_insert st data p s s' lim t :
  (states st !! p = Some s ∧ epoch s' = epoch s) ∨ epoch s' = 0 →
  epochs_from st (mkStore data (<[p := s']> (states st)) lim t).
Proof.
  intros He p' s0. cbn [states]. intros [[<- <-]|[_ Hl]]%lookup_insert_Some; [|eauto].
  destruct He as [[? ?]|?]; eauto.
Qed.

(** A change of the session [id] only. *)
Record store_apart (id : bytes) (st st' : Store) : Prop := {
  sa_limits : limits st' = limits st;
  sa_data c : c ≠ id → st_data st' !! c = st_data st !! c;
  sa_states p s : states st !! p = Some s → st_data st !! id ≠ Some p → states st' !! p = Some s;
  sa_new p : st_data st' !! id = Some p → st_data st !! id = Some p ∨ states st !! p = None;
  sa_epochs : epochs_from st st' }.

Lemma store_apart_refl id st : store_apart id st st.
Proof. split; auto. reflexivity. Qed.

Lemma store_apart_trans id st1 st2 st3 : store_apart id st1 st2 → store_apart id st2 st3 → store_apart id st1 st3.
Proof.
  intros [L1 D1 S1 N1 E1] [L2 D2 S2 N2 E2].
  assert (Hback : ∀ p s, states st1 !! p = Some s → st_data st1 !! id ≠ Some p → st_data st2 !! id ≠ Some p).
  { intros p s Hp Hne H2. destruct (N1 p H2); congruence. }
  split; try congruence; [| | |by etransitivity].
  - intros c Hc. by rewrite D2, D1.
  - intros p s Hp Hne. eauto.
  - intros p Hp. destruct (N2 p Hp) as [H2|H2]; [by apply N1|].
    destruct (decide (st_data st1 !! id = Some p)); [by left|right].
    destruct (states st1 !! p) as [s|] eqn:Hs; [|done]. rewrite (S1 p s Hs) in H2; done.
Qed.

Lemma removed_apart id st p s t :
  st_data st !! id = Some p → states st !! p = Some s →
  store_apart id st (mkStore (delete id (st_data st)) (<[p := removed s]> (states st)) (limits st) t).
Proof.
  intros Hid Hp. split; simpl; try done.
  - intros c Hc. by rewrite lookup_delete_ne.
  - intros p' s' Hp' Hne. rewrite lookup_insert_ne; [done|]. congruence.
  - intros p'. by rewrite lookup_delete_eq.
  - apply (epochs_from_insert st _ p s). auto.
Qed.

(** The server changed for the client [id] only, which has no connection. *)
Record opened (id : bytes) (s s' : Server) : Prop := {
  op_ok : server_ok s';
  op_eq : ∃ b st, s' = set_broker (set_sessions s st) b;
  op_store : store_apart id (srv_sessions s) (srv_sessions s') }.

Lemma opened_refl id s : server_ok s → opened id s s.
Proof. intros Hok. split; [done|exists (srv_broker s), (srv_sessions s); by destruct s|apply store_apart_refl]. Qed.

Lemma opened_trans id s1 s2 s3 : opened id s1 s2 → opened id s2 s3 → opened id s1 s3.
Proof.
  intros [_ (b2 & st2 & ->) A2] [Hok (b3 & st3 & ->) A3]. split; [done|by exists b3, st3|].
  eapply store_apart_trans; [exact A2|exact A3].
Qed.

(** A change of a session nobody is connected to keeps the invariant. *)
Lemma server_ok_opened id s b st :
  server_ok s → srv_clients s !! id = None → store_ok st → routing_ok b → routes_agree b st →
  store_apart id (srv_sessions s) st →
  (∀ p x, st_data st !! id = Some p → states st !! p = Some x → connected x = false) →
  opened id s (set_broker (set_sessions s st) b).
Proof.
  intros Hok Hid Hst Hb Hr Ha Hconn. split; [|by exists b, st|done].
  split; [exact Hst|exact Hb|exact (sv_policy _ Hok)|exact Hr|exact (sv_clients _ Hok)| |]; simpl.
  - intros o a Ho Hd. destruct (sv_owners _ Hok o a Ho Hd) as (c & Hc & Hcl & Hdata). exists c. simpl.
    rewrite (sa_data _ _ _ Ha) by congruence. done.
  - intros c p x Hc Hp. destruct (decide (c = id)) as [->|Hne].
    + rewrite Hid, (Hconn p x Hc Hp). split; [done|by intros [? ?]].
    + rewrite (sa_data _ _ _ Ha) in Hc by done.
      destruct (data_state _ _ _ (sv_store _ Hok) Hc) as (x0 & Hx0 & _).
      assert (Hne' : st_data (srv_sessions s) !! id ≠ Some p).
      { intros E. apply Hne. by eapply data_inj; [apply (sv_store _ Hok)|..]. }
      rewrite (sa_states _ _ _ Ha p x0 Hx0 Hne') in Hp. injection Hp as <-. by apply (sv_connected _ Hok c p).
Qed.

Lemma remove_opened id s p x t :
  server_ok s → srv_clients s !! id = None → st_data (srv_sessions s) !! id = Some p →
  states (srv_sessions s) !! p = Some x →
  let st := mkStore (delete id (st_data (srv_sessions s))) (<[p := removed x]> (states (srv_sessions s)))
              (limits (srv_sessions s)) t in
  store_ok st → opened id s (set_broker (set_sessions s st) (Broker_UnsubscribeAll (srv_broker s) id)).
Proof.
  intros Hok Hid Hp Hx st Hst.
  apply server_ok_opened; [done|done|done|apply routing_UnsubscribeAll, Hok|..].
  - apply routes_remove; [apply Hok|done|done|apply Hok].
  - by apply removed_apart.
  - intros p' x'. simpl. by rewrite lookup_delete_eq.
Qed.

(** Unsubscribing a client without a session. *)
Lemma unsubscribe_opened id s :
  server_ok s → srv_clients s !! id = None → st_data (srv_sessions s) !! id = None →
  opened id s (set_broker s (Broker_UnsubscribeAll (srv_broker s) id)).
Proof.
  intros Hok Hid Hp. replace s with (set_sessions s (srv_sessions s)) at 2 by by destruct s.
  apply server_ok_opened; [done|done|exact (sv_store _ Hok)|apply routing_UnsubscribeAll, Hok|..].
  - apply routes_absent; [done|apply Hok].
  - apply store_apart_refl.
  - intros p x. by rewrite Hp.
Qed.

Lemma runs_assoc {A B C} (m : action A) (k : A → action B) (j : B → action C) s (Q : B → Server → Prop)
    (Q' : C → Server → Prop) :
  runs (m ≫= k) s Q → (∀ b s', Q b s' → runs (j b) s' Q') → runs (m ≫= λ a, k a ≫= j) s Q'.
Proof.
  intros (b & s1 & Hm & HQ) Hj. destruct (Hj b s1 HQ) as (c & s2 & Hjs & HQ'). exists c, s2. split; [|done].
  unfold mbind, action_bind in *. destruct (m s) as [[a s0]|]; simpl in *; [|done]. by rewrite Hm.
Qed.

(** The session of a name nobody is connected to is not connected. *)
Lemma offline id p x s :
  server_ok s → srv_clients s !! id = None → st_data (srv_sessions s) !! id = Some p →
  states (srv_sessions s) !! p = Some x → connected x = false.
Proof.
  intros Hok Hid Hp Hx. pose proof (sv_connected _ Hok id p x Hp Hx) as E. rewrite Hid in E.
  destruct (connected x); [|done]. destruct E as [[? ?] _]; done.
Qed.

Lemma expire_opened id now s :
  server_ok s → srv_clients s !! id = None →
  runs (expired ← on_store (ExpireSession id now);
        if expired : bool then on_broker (λ b, Broker_UnsubscribeAll b id) else mret tt) s
    (λ _ s', opened id s s').
Proof.
  intros Hok Hid. unfold runs, mbind, action_bind, on_store, ExpireSession.
  destruct (st_data (srv_sessions s) !! id) as [p|] eqn:Hp.
  - destruct (data_state _ _ _ (sv_store _ Hok) Hp) as (x & Hx & _).
    pose proof (expireLocked_spec id p x now _ (sv_store _ Hok) Hp Hx) as Hexp. destruct (decide _).
    + destruct Hexp as (t & -> & Hst). do 2 eexists. split; [done|]. by apply (remove_opened id s p x t).
    + rewrite Hexp. do 2 eexists. split; [done|]. replace (set_sessions s (srv_sessions s)) with s by by destruct s.
      by apply opened_refl.
  - do 2 eexists. split; [done|]. replace (set_sessions s (srv_sessions s)) with s by by destruct s.
    by apply opened_refl.
Qed.

Lemma clean_opened id s :
  server_ok s → srv_clients s !! id = None →
  runs (_ ← on_broker (λ b, Broker_UnsubscribeAll b id); on_store (λ st, st ← Delete id st; Some (tt, st))) s
    (λ _ s', opened id s s').
Proof.
  intros Hok Hid. unfold runs, mbind, action_bind, on_broker, on_store. simpl. unfold Delete.
  destruct (st_data (srv_sessions s) !! id) as [p|] eqn:Hp.
  - destruct (data_state _ _ _ (sv_store _ Hok) Hp) as (x & Hx & _).
    destruct (deleteLocked_ok id p x _ (sv_store _ Hok) Hp Hx) as (t & -> & Hst). do 2 eexists. split; [done|].
    by apply (remove_opened id s p x t).
  - rewrite deleteLocked_absent by done. do 2 eexists. split; [done|]. by apply unsubscribe_opened.
Qed.

Lemma GetOrCreateOwned_opened id owner now s :
  server_ok s → srv_clients s !! id = None →
  runs (on_store (GetOrCreateOwned id owner now)) s (λ r s', opened id s s' ∧ ∀ p present, r = Ok (p, present) →
    ∃ x, st_data (srv_sessions s') !! id = Some p ∧ states (srv_sessions s') !! p = Some x ∧ st_owner x = owner).
Proof.
  intros Hok Hid. pose proof (sv_store _ Hok) as Hst.
  destruct (GetOrCreateOwned_ok id owner now _ Hst) as (r & st' & Hg & Hst').
  unfold runs, on_store. rewrite Hg. exists r. eexists. split; [done|]. unfold GetOrCreateOwned in Hg.
  replace (set_sessions s st') with (set_broker (set_sessions s st') (srv_broker s)) by by destruct s.
  destruct (st_data (srv_sessions s) !! id) as [p|] eqn:Hp.
  - destruct (data_state _ _ _ Hst Hp) as (x & Hx & _). rewrite Hx in Hg. simpl in Hg.
    assert (st' = srv_sessions s) as -> by (destruct (bool_decide _); congruence).
    replace (set_broker _ _) with s by by destruct s. split; [by apply opened_refl|]. intros p' present ->.
    destruct (bool_decide_reflect (st_owner x ≠ owner)); [done|].
    injection Hg as <- _. exists x. split_and!; [done|done|]. by destruct (decide (st_owner x = owner)).
  - destruct (_ <=? _).
    + assert (E : states st' = states (srv_sessions s) ∧ st_data st' = st_data (srv_sessions s)
        ∧ limits st' = limits (srv_sessions s)) by (by simplify_eq). destruct E as (E1 & E2 & E3).
      assert (Hr : ∃ err, r = Error err) by (simplify_eq; eauto). destruct Hr as [err ->]. split; [|done].
      apply server_ok_opened; [done|done|done|apply Hok| | |].
      * intros f c. rewrite (sv_routes _ Hok f c). unfold session_route. by rewrite E1, E2.
      * split; rewrite ?E1, ?E2; try done; [auto|by apply epochs_from_states].
      * rewrite E2, Hp. done.
    + set (p := new_ptr (srv_sessions s)) in *. assert (Hnew : states (srv_sessions s) !! p = None)
        by (unfold p, new_ptr; apply not_elem_of_dom, is_fresh).
      assert (r = Ok (p, false)) as -> by congruence.
      assert (st' = mkStore (<[id := p]> (st_data (srv_sessions s))) (<[p := new_state id owner now]> (states (srv_sessions s)))
        (limits (srv_sessions s)) (totals (srv_sessions s))) as -> by congruence.
      split.
      * apply server_ok_opened; [done|done|done|apply Hok| | |].
        -- intros f c. rewrite (sv_routes _ Hok f c). unfold session_route. cbn [st_data states].
           destruct (decide (c = id)) as [->|Hne].
           ++ rewrite Hp, lookup_insert_eq. simpl. by rewrite lookup_insert_eq.
           ++ rewrite lookup_insert_ne by done. destruct (st_data (srv_sessions s) !! c) as [p'|] eqn:Hc; [|done].
              simpl. destruct (data_state _ _ _ Hst Hc) as (x & Hx & _). by rewrite lookup_insert_ne by congruence.
        -- split; cbn [st_data states limits]; [done|..].
           ++ intros c Hc. by rewrite lookup_insert_ne.
           ++ intros p' x Hx _. by rewrite lookup_insert_ne by congruence.
           ++ intros p'. rewrite lookup_insert_eq. intros [= <-]. by right.
           ++ apply (epochs_from_insert _ _ p (new_state id owner now)). by right.
        -- intros p' x. cbn [st_data states]. rewrite lookup_insert_eq. intros [= <-]. rewrite lookup_insert_eq.
           by intros [= <-].
      * intros p' present [= <- _]. exists (new_state id owner now). cbn [srv_sessions set_broker set_sessions st_data states].
        by rewrite !lookup_insert_eq.
Qed.

Lemma openSession_opened connect owner now s :
  server_ok s → srv_clients s !! conn_ClientID connect = None →
  runs (openSession connect owner now) s (λ r s', opened (conn_ClientID connect) s s' ∧
    ∀ p present, r = Ok (p, present) →
      ∃ x, st_data (srv_sessions s') !! conn_ClientID connect = Some p
        ∧ states (srv_sessions s') !! p = Some x ∧ st_owner x = owner).
Proof.
  intros Hok Hid. unfold openSession. set (id := conn_ClientID connect) in *.
  eapply runs_assoc; [by apply expire_opened|]. intros u s1 H1.
  assert (Hid1 : srv_clients s1 !! id = None) by (destruct H1 as [_ (? & ? & ->) _]; done).
  apply (runs_step _ _ _ (λ _ s', opened id s s')).
  { destruct (conn_CleanSession connect); [|by apply runs_ret].
    eapply runs_mono; [by apply (clean_opened id s1); [apply H1|]|]. intros ? s2 H2. exact (opened_trans _ _ _ _ H1 H2). }
  intros u2 s2 H2. assert (Hid2 : srv_clients s2 !! id = None) by (destruct H2 as [_ (? & ? & ->) _]; done).
  eapply runs_mono; [apply (GetOrCreateOwned_opened id owner now s2); [apply H2|done]|].
  intros r s3 [H3 Hr]. split; [exact (opened_trans _ _ _ _ H2 H3)|done].
Qed.

(** Subscribing again what the session asks for changes no route. *)
Lemma routes_again b st id p x f q :
  st_data st !! id = Some p → states st !! p = Some x → subscriptions x !! f = Some q →
  routing_ok b → routes_agree b st →
  routing_ok (Broker_Subscribe b f q (subscriber p id)) ∧ routes_agree (Broker_Subscribe b f q (subscriber p id)) st.
Proof.
  intros Hid Hp Hf Hb Hr.
  assert (Hroute : session_route st f id = Some (mkSubscription id (subscriber p id) q)).
  { unfold session_route. rewrite Hid. simpl. rewrite Hp. simpl. by rewrite Hf. }
  split.
  - rewrite <- Hr in Hroute. apply routing_Subscribe; [|exact (ro_qos _ Hb _ _ _ Hroute)|done].
    by destruct (bo_filters _ (ro_broker _ Hb) _ _ _ Hroute) as (g & ->%(inj splitFilter) & Hg).
  - intros g c. rewrite find_Broker_Subscribe. simpl.
    destruct (decide (splitFilter g = splitFilter f ∧ c = id)) as [[->%(inj splitFilter) ->]|]; done.
Qed.

Lemma subscribe_all_runs p id x subs s :
  st_data (srv_sessions s) !! id = Some p → states (srv_sessions s) !! p = Some x →
  (∀ sub, sub ∈ subs → subscriptions x !! ss_Filter sub = Some (ss_QoS sub)) →
  routing_ok (srv_broker s) → routes_agree (srv_broker s) (srv_sessions s) →
  runs (subscribe_all p id subs) s (λ _ s', ∃ b, s' = set_broker s b ∧ routing_ok b ∧ routes_agree b (srv_sessions s)).
Proof.
  intros Hid Hp. revert s Hid Hp. induction subs as [|sub subs IH]; intros s Hid Hp Hsubs Hb Hr.
  { apply runs_ret. exists (srv_broker s). split; [by destruct s|done]. }
  cbn [subscribe_all]. apply runs_bind. exists tt. eexists. split; [done|].
  destruct (routes_again (srv_broker s) (srv_sessions s) id p x (ss_Filter sub) (ss_QoS sub)) as [Hb' Hr']; try done.
  { apply Hsubs. left. }
  eapply runs_mono; [apply IH; try done; intros sub' Hin; apply Hsubs; by right|].
  intros u s' (b & -> & ?). by exists b.
Qed.

Lemma elem_of_SnapshotSubscriptions l t s subs t' s' :
  SnapshotSubscriptions l t s = Some (subs, t', s') →
  s' = s ∧ ∀ sub, sub ∈ subs ↔ subscriptions s !! ss_Filter sub = Some (ss_QoS sub).
Proof.
  intros [= <- _ <-]. split; [done|]. intros sub. rewrite merge_sort_Permutation, list_elem_of_fmap. split.
  - by intros ([f q] & -> & ?%elem_of_map_to_list).
  - intros Hs. exists (ss_Filter sub, ss_QoS sub). rewrite elem_of_map_to_list. by destruct sub.
Qed.

(** * Taking over and releasing *)

(** The connection that [acquireConnection] registers. *)
Definition new_owner (cli : clientptr) (p : stateptr) (clean : bool) : activeConnection :=
  mkActive cli p clean false false 0 false.

(** The last part of [acquireConnection]: the session is marked, its subscriptions
    are routed again, and the connection is registered. *)
Lemma register_runs s id p x cli c clean present :
  server_ok s → srv_clients s !! id = None → srv_conns s !! cli = Some c → c_id c = id →
  st_data (srv_sessions s) !! id = Some p → states (srv_sessions s) !! p = Some x →
  let o := fresh (dom (srv_owners s)) in
  ∃ s', ('(_, s) ← on_session MarkConnected p s;
         '(subs, s) ← on_session SnapshotSubscriptions p s;
         '(_, s) ← subscribe_all p id subs s;
         let owner := fresh (dom (srv_owners s)) in
         Some (Acquired owner present,
               set_registry s (<[id := owner]> (srv_clients s)) (<[owner := new_owner cli p clean]> (srv_owners s))))
        = Some (Acquired o present, s')
    ∧ server_ok s' ∧ srv_owners s !! o = None
    ∧ s' = set_registry (set_broker (set_sessions s (srv_sessions s')) (srv_broker s'))
             (<[id := o]> (srv_clients s)) (<[o := new_owner cli p clean]> (srv_owners s))
    ∧ st_data (srv_sessions s') = st_data (srv_sessions s) ∧ limits (srv_sessions s') = limits (srv_sessions s)
    ∧ states (srv_sessions s') = <[p := set_link x true 0]> (states (srv_sessions s)).
Proof.
  intros Hok Hid Hcli Hc Hp Hx o. pose proof (sv_store _ Hok) as Hst.
  destruct (data_state _ _ _ Hst Hp) as (x' & Hx' & Hxid & Hdel). assert (x' = x) as -> by congruence.
  destruct (call_ok always MarkConnected p x _ Hst Hx I) as (a1 & x1 & t1 & Hf1 & Hc1 & Hst1 & _).
  unfold MarkConnected in Hf1. rewrite Hdel in Hf1. simpl in Hf1. injection Hf1 as _ _ <-.
  set (st1 := mkStore _ _ _ _) in *.
  assert (E1 : on_session MarkConnected p s = Some (a1, set_sessions s st1)) by (unfold on_session; by rewrite Hc1).
  rewrite E1. cbn [mbind option_bind].
  assert (Hx1 : states st1 !! p = Some (set_link x true 0)) by (unfold st1; simpl; apply lookup_insert_eq).
  destruct (call_ok always SnapshotSubscriptions p _ st1 Hst1 Hx1 I) as (subs & x2 & t2 & Hf2 & Hc2 & Hst2 & _).
  apply elem_of_SnapshotSubscriptions in Hf2 as [-> Hsubs].
  set (st2 := mkStore (st_data st1) _ _ t2) in *.
  assert (E2 : on_session SnapshotSubscriptions p (set_sessions s st1)
    = Some (subs, set_sessions (set_sessions s st1) st2)) by (unfold on_session; simpl; by rewrite Hc2).
  rewrite E2. cbn [mbind option_bind].
  assert (Hst2' : states st2 = <[p := set_link x true 0]> (states (srv_sessions s)))
    by (unfold st2, st1; simpl; apply insert_insert_eq).
  assert (Hr2 : routes_agree (srv_broker s) st2).
  { intros f cid. rewrite (sv_routes _ Hok f cid). unfold session_route. rewrite Hst2'. simpl.
    destruct (st_data (srv_sessions s) !! cid) as [p'|] eqn:Hcid; simpl; [|done].
    destruct (decide (p' = p)) as [->|Hne]; [by rewrite Hx, lookup_insert_eq|by rewrite lookup_insert_ne]. }
  destruct (subscribe_all_runs p id (set_link x true 0) subs (set_sessions (set_sessions s st1) st2))
    as (u & s3 & Hrun & b & -> & Hb & Hr);
    [exact Hp| |intros sub Hin; by apply Hsubs|exact (sv_broker _ Hok)|exact Hr2|].
  { cbn [srv_sessions set_sessions]. rewrite Hst2'. apply lookup_insert_eq. }
  rewrite Hrun. cbn [mbind option_bind]. eexists. split; [reflexivity|].
  assert (Ho : srv_owners s !! o = None) by (unfold o; apply not_elem_of_dom, is_fresh).
  split; [|split; [exact Ho|split; [reflexivity|split; [reflexivity|split; [reflexivity|exact Hst2']]]]].
  change (fresh (dom (srv_owners _))) with o.
  split; [exact Hst2|exact Hb|exact (sv_policy _ Hok)|exact Hr|..]; simpl.
  - intros id' o'. intros [[<- <-]|[Hne Hl]]%lookup_insert_Some.
    + exists (new_owner cli p clean), c. rewrite lookup_insert_eq. by split_and!.
    + destruct (sv_clients _ Hok id' o' Hl) as (a & c' & Ha & ?). exists a, c'.
      rewrite lookup_insert_ne by congruence. done.
  - intros o' a [[<- <-]|[Hne Hl]]%lookup_insert_Some Hd; unfold registered; simpl.
    + exists c. rewrite Hc, lookup_insert_eq. done.
    + destruct (sv_owners _ Hok o' a Hl Hd) as (c' & Hc' & Hcl & Hdata). exists c'.
      rewrite lookup_insert_ne by congruence. done.
  - intros id' p' y Hp' Hy. change (states st2 !! p' = Some y) in Hy. rewrite Hst2' in Hy. destruct (decide (id' = id)) as [->|Hne].
    + assert (p' = p) as -> by congruence. rewrite lookup_insert_eq in Hy. injection Hy as <-.
      rewrite lookup_insert_eq. simpl. split; eauto.
    + rewrite lookup_insert_ne in Hy; [|intros ->; apply Hne; by eapply data_inj].
      rewrite lookup_insert_ne by done. by apply (sv_connected _ Hok id' p').
Qed.

Lemma link_kept_refl l s : link_kept l s s.
Proof. reflexivity. Qed.

(** A session with a connection is not the session of a name without one. *)
Lemma session_elsewhere id s o a :
  server_ok s → srv_clients s !! id = None → srv_owners s !! o = Some a → ac_done a = false →
  st_data (srv_sessions s) !! id ≠ Some (ac_session a).
Proof.
  intros Hok Hid Ha Hd Hp. destruct (sv_owners _ Hok o a Ha Hd) as (c & _ & Hcl & Hdata).
  assert (id = c_id c) by (by eapply data_inj; [apply (sv_store _ Hok)|..]). congruence.
Qed.

Lemma opened_apart x id s s' : server_ok s → srv_clients s !! id = None → opened id s s' → apart x s s'.
Proof.
  intros Hok Hid [_ (b & st & ->) Hst]. simpl in Hst. split; simpl; try done.
  - apply Hst.
  - intros cli c Hc. by exists c.
  - intros o a Ha Hd _. exists a. split_and!; try done. intros y Hy. exists y. split; [|apply link_kept_refl].
    apply (sa_states _ _ _ Hst); [done|]. by eapply session_elsewhere.
  - intros o a Ha Hd _. by exists a.
  - intros o a Ha. by exists a.
Qed.

(** The connection is done, or it is closing and its client is closed. *)
Definition told_to_stop (s : Server) (a : activeConnection) : Prop :=
  ac_done a = true ∨ closing a = true ∧ ∃ c, srv_conns s !! ac_client a = Some c ∧ c_done c = true.

Lemma told_apart x s s' o a :
  apart x s s' → srv_owners s !! o = Some a → told_to_stop s a → ∃ a', srv_owners s' !! o = Some a' ∧ told_to_stop s' a'.
Proof.
  intros Hap Ha Ht. destruct (ap_grows _ _ _ Hap o a Ha) as (a' & Ha' & E & D & F). exists a'. split; [done|].
  destruct Ht as [?|(Hc & c & Hcc & Hd)]; [left; auto|right]. split; [auto|]. rewrite E.
  destruct (ap_conns _ _ _ Hap _ _ Hcc) as (c' & Hc' & _ & Hd'). eauto.
Qed.

(** What [acquireConnection] guarantees for its result. *)
Definition acquire_post (cli : clientptr) (connect : ConnectPacket) (who : bytes) (s : Server) (r : acquired)
    (s' : Server) : Prop :=
  server_ok s' ∧ srv_connections s' = srv_connections s
  ∧ epochs_from (srv_sessions s) (srv_sessions s')
  ∧ match r with
    | Acquired o _ =>
        apart (Some o) s s' ∧ srv_owners s !! o = None ∧ srv_clients s !! conn_ClientID connect = None
        ∧ ∃ p x, srv_owners s' !! o = Some (new_owner cli p (conn_CleanSession connect))
          ∧ states (srv_sessions s') !! p = Some x ∧ st_owner x = who
    | Waiting previous => apart None s s' ∧ srv_clients s !! conn_ClientID connect = Some previous
        ∧ ∃ a, srv_owners s' !! previous = Some a ∧ told_to_stop s' a
    | Refused _ => apart None s s'
    end.

Lemma beginClosing_fields now a :
  ac_client (beginClosing now a) = ac_client a ∧ ac_session (beginClosing now a) = ac_session a
  ∧ cleanSession (beginClosing now a) = cleanSession a ∧ ac_done (beginClosing now a) = ac_done a
  ∧ closing (beginClosing now a) = true.
Proof. unfold beginClosing. by destruct (closing a) eqn:?. Qed.

(** Changing the flags of a connection is harmless. *)
Lemma flags_ok s o a a' :
  server_ok s → srv_owners s !! o = Some a → ac_client a' = ac_client a → ac_session a' = ac_session a →
  cleanSession a' = cleanSession a → ac_done a' = ac_done a → (closing a = true → closing a' = true) →
  let s' := set_registry s (srv_clients s) (<[o := a']> (srv_owners s)) in server_ok s' ∧ apart None s s'.
Proof.
  intros Hok Ha E1 E2 E3 E4 E5 s'. split.
  - split; [exact (sv_store _ Hok)|exact (sv_broker _ Hok)|exact (sv_policy _ Hok)|exact (sv_routes _ Hok)|..|
      exact (sv_connected _ Hok)]; simpl.
    + intros id o' Hid. destruct (sv_clients _ Hok id o' Hid) as (a0 & c & Ha0 & Hc & Hid' & Hd).
      destruct (decide (o' = o)) as [->|Hne].
      * assert (a0 = a) as -> by congruence. exists a', c. rewrite lookup_insert_eq, E1, E4. done.
      * exists a0, c. by rewrite lookup_insert_ne.
    + intros o' a0 [[<- <-]|[Hne Hl]]%lookup_insert_Some Hd; unfold registered; simpl.
      * rewrite E1, E2. apply (sv_owners _ Hok o a Ha). congruence.
      * by apply (sv_owners _ Hok o' a0).
  - split; simpl; try done.
    + intros cli c Hc. by exists c.
    + intros o' a0 Ha0 Hd _. destruct (decide (o' = o)) as [->|Hne].
      * assert (a0 = a) as -> by congruence. exists a'. rewrite lookup_insert_eq. split_and!; try congruence.
        intros st Hst. exists st. split; [done|apply link_kept_refl].
      * exists a0. rewrite lookup_insert_ne by done. split_and!; try done. intros st Hst. exists st.
        split; [done|apply link_kept_refl].
    + intros o' a0 [[<- <-]|[Hne Hl]]%lookup_insert_Some Hd _; [exists a; split_and!; congruence|by exists a0].
    + intros o' a0 Ha0. destruct (decide (o' = o)) as [->|Hne].
      * assert (a0 = a) as -> by congruence. exists a'. rewrite lookup_insert_eq. split; [done|].
        split_and!; [done|congruence|done].
      * exists a0. by rewrite lookup_insert_ne.
Qed.

(** The client id is in use: its connection is told to stop. *)
Lemma acquire_waits connect cli who now s previous :
  server_ok s → srv_clients s !! conn_ClientID connect = Some previous →
  runs (λ s, prev ← srv_owners s !! previous;
             let s := set_registry s (srv_clients s) (<[previous := beginClosing now prev]> (srv_owners s)) in
             '(_, s) ← close_client (ac_client prev) s;
             Some (Waiting previous, s)) s (acquire_post cli connect who s).
Proof.
  intros Hok Hid. unfold runs. destruct (sv_clients _ Hok _ previous Hid) as (a & c' & Ha & Hc' & _). rewrite Ha. cbn [mbind option_bind].
  destruct (beginClosing_fields now a) as (E1 & E2 & E3 & E4 & E5).
  destruct (flags_ok s previous a (beginClosing now a) Hok Ha E1 E2 E3 E4 (λ _, E5)) as [Hok1 Hap1].
  set (s1 := set_registry _ _ _) in *.
  destruct (on_client_runs (λ c, (tt, Close c)) s1 (ac_client a) c') as (u & s2 & Hrun & _ & E & Hq); [done|exact Hc'|].
  unfold close_client. rewrite Hrun. cbn [mbind option_bind]. exists (Waiting previous), s2. split; [done|].
  split; [|split; [by rewrite E|split; [by rewrite E|split; [|split; [done|]]]]].
  - eapply server_ok_quiet; [exact Hok1|exact Hq|..]; rewrite E; apply Hok1.
  - eapply apart_trans; [exact Hap1|by apply quiet_apart].
  - exists (beginClosing now a). rewrite E. simpl. rewrite lookup_insert_eq. split; [done|]. right. split; [done|].
    exists (Close c'). simpl. by rewrite E1, lookup_insert_eq.
Qed.

(** A new registration touches no other connection. *)
Lemma registered_apart s id o p x cli clean s' :
  server_ok s → srv_clients s !! id = None → o = fresh (dom (srv_owners s)) → srv_owners s !! o = None →
  st_data (srv_sessions s) !! id = Some p →
  s' = set_registry (set_broker (set_sessions s (srv_sessions s')) (srv_broker s'))
         (<[id := o]> (srv_clients s)) (<[o := new_owner cli p clean]> (srv_owners s)) →
  st_data (srv_sessions s') = st_data (srv_sessions s) → limits (srv_sessions s') = limits (srv_sessions s) →
  states (srv_sessions s') = <[p := set_link x true 0]> (states (srv_sessions s)) →
  apart (Some o) s s'.
Proof.
  intros Hok Hid _ Ho Hp Es2 Ed El Es. rewrite Es2. split; simpl; [done|done|intros ? c0 ?; by exists c0|..].
  - intros o' a Ha Hd Hne. exists a. rewrite lookup_insert_ne by congruence. split_and!; try done.
    intros y Hy. exists y. split; [|apply link_kept_refl]. rewrite Es, lookup_insert_ne; [done|].
    intros E. apply (session_elsewhere id s o' a Hok Hid Ha Hd). by rewrite <- E.
  - intros o' a Ha Hd Hne. rewrite lookup_insert_ne in Ha by congruence. by exists a.
  - intros o' a Ha. exists a. by rewrite lookup_insert_ne by congruence.
Qed.

(** The client id is free: its session is opened and connected. *)
Lemma acquire_opens connect cli c who now s :
  server_ok s → srv_conns s !! cli = Some c → c_id c = conn_ClientID connect → srv_clients s !! conn_ClientID connect = None →
  runs (λ s, '(r, s) ← openSession connect who now s;
             match r with
             | Error err => Some (Refused err, s)
             | Ok (p, present) =>
                 '(_, s) ← on_session MarkConnected p s;
                 '(subs, s) ← on_session SnapshotSubscriptions p s;
                 '(_, s) ← subscribe_all p (conn_ClientID connect) subs s;
                 let owner := fresh (dom (srv_owners s)) in
                 let conn := mkActive cli p (conn_CleanSession connect) false false 0 false in
                 Some (Acquired owner present,
                       set_registry s (<[conn_ClientID connect := owner]> (srv_clients s)) (<[owner := conn]> (srv_owners s)))
             end) s (acquire_post cli connect who s).
Proof.
  intros Hok Hcli Hc Hid. unfold runs. set (id := conn_ClientID connect) in *.
  destruct (openSession_opened connect who now s Hok Hid) as (r & s1 & -> & Hop & Hr). cbn [mbind option_bind].
  pose proof (op_ok _ _ _ Hop) as Hok1. pose proof (opened_apart None id s s1 Hok Hid Hop) as Hap.
  destruct (op_eq _ _ _ Hop) as (b1 & st1 & E1). pose proof (op_store _ _ _ Hop) as Hst1.
  destruct r as [[p present]|err]; [|exists (Refused err), s1; split; [done|]; split; [done|]; split; [by rewrite E1|]; by split; [apply Hst1|]].
  destruct (Hr p present eq_refl) as (x & Hp & Hx & Hown). assert (Hid1 : srv_clients s1 !! id = None) by by rewrite E1.
  destruct (register_runs s1 id p x cli c (conn_CleanSession connect) present Hok1 Hid1)
    as (s2 & Hrun & Hok2 & Ho & Es2 & Ed & El & Es); [by rewrite E1|done|done|done|].
  unfold new_owner in Hrun. rewrite Hrun. pose proof (registered_apart s1 id _ p x cli _ s2 Hok1 Hid1 eq_refl Ho Hp Es2 Ed El Es) as Hap2.
  set (o := fresh (dom (srv_owners s1))) in *. exists (Acquired o present), s2. split; [done|]. split; [done|].
  split; [by rewrite Es2, E1|]. split.
  { transitivity (srv_sessions s1); [apply Hst1|]. intros p' y. rewrite Es.
    intros [[<- <-]|[_ Hl]]%lookup_insert_Some; left; eauto. }
  split; [|split; [by rewrite E1 in Ho|split; [done|]]].
  - eapply apart_trans; [by apply (opened_apart _ id)|exact Hap2].
  - exists p, (set_link x true 0). rewrite Es2 at 1. simpl. rewrite lookup_insert_eq, Es, lookup_insert_eq. by split_and!.
Qed.

Lemma acquire_runs ctxErr connect cli c who now s :
  server_ok s → srv_conns s !! cli = Some c → c_id c = conn_ClientID connect →
  runs (acquireConnection ctxErr connect cli who now) s (acquire_post cli connect who s).
Proof.
  intros Hok Hcli Hc. unfold runs, acquireConnection, Get.
  assert (Hstay : ∀ err, acquire_post cli connect who s (Refused err) s).
  { intros err. split; [done|]. split; [done|]. split; [reflexivity|]. by apply quiet_apart. }
  destruct ctxErr as [err|]; [exists (Refused err), s; by split|].
  assert (Hother : ∃ b : bool, match st_data (srv_sessions s) !! conn_ClientID connect with
               | None => Some false
               | Some p => st ← states (srv_sessions s) !! p; Some (bool_decide (st_owner st ≠ who))
               end = Some b).
  { destruct (st_data (srv_sessions s) !! _) as [p|] eqn:Hp; simpl; [|by exists false].
    destruct (data_state _ _ _ (sv_store _ Hok) Hp) as (x & -> & _). simpl. eauto. }
  destruct Hother as [[] ->]; simpl; [exists (Refused ErrSessionOwner), s; by split|].
  destruct (srv_clients s !! conn_ClientID connect) as [previous|] eqn:Hid.
  - by apply (acquire_waits connect cli who now s previous).
  - by apply (acquire_opens connect cli c who now s).
Qed.

(** Releasing the connection [o] of client [id] after a change of its session. *)
Lemma release_ok s o a c b st :
  server_ok s → srv_owners s !! o = Some a → ac_done a = false → srv_conns s !! ac_client a = Some c →
  store_ok st → routing_ok b → routes_agree b st → store_apart (c_id c) (srv_sessions s) st →
  (∀ p x, st_data st !! c_id c = Some p → states st !! p = Some x → connected x = false) →
  let a' := mkActive (ac_client a) (ac_session a) (cleanSession a) (closing a) (ready a) (disconnectedAt a) true in
  let s' := set_registry (set_broker (set_sessions s st) b) (delete (c_id c) (srv_clients s))
              (<[o := a']> (srv_owners s)) in
  server_ok s' ∧ apart (Some o) s s'.
Proof.
  intros Hok Ha Hd Hc Hst Hb Hr Hap Hoff a' s'.
  assert (Hreg : srv_clients s !! c_id c = Some o).
  { destruct (sv_owners _ Hok o a Ha Hd) as (c' & Hc' & Hcl & _). congruence. }
  assert (Hname : ∀ o' a0, srv_owners s !! o' = Some a0 → ac_done a0 = false → o' ≠ o →
    ∃ c0, srv_conns s !! ac_client a0 = Some c0 ∧ srv_clients s !! c_id c0 = Some o' ∧ c_id c0 ≠ c_id c
      ∧ st_data (srv_sessions s) !! c_id c0 = Some (ac_session a0)).
  { intros o' a0 Ha0 Hd0 Hne. destruct (sv_owners _ Hok o' a0 Ha0 Hd0) as (c0 & Hc0 & Hcl & Hdata).
    exists c0. split_and!; try done. congruence. }
  split.
  - split; [exact Hst|exact Hb|exact (sv_policy _ Hok)|exact Hr|..]; simpl.
    + intros id o' [Hne Hl]%lookup_delete_Some. destruct (sv_clients _ Hok id o' Hl) as (a0 & c0 & Ha0 & Hc0 & Hid & ?).
      exists a0, c0. rewrite lookup_insert_ne by congruence. done.
    + intros o' a0 [[<- <-]|[Hne Hl]]%lookup_insert_Some Hd0; [done|]. unfold registered. simpl.
      destruct (Hname o' a0 Hl Hd0 ltac:(done)) as (c0 & Hc0 & Hcl & Hne0 & Hdata). exists c0.
      rewrite lookup_delete_ne by done. rewrite (sa_data _ _ _ Hap) by done. done.
    + intros id p x Hp Hx. destruct (decide (id = c_id c)) as [->|Hne].
      * rewrite lookup_delete_eq, (Hoff p x Hp Hx). split; [done|by intros [? ?]].
      * rewrite lookup_delete_ne by done. rewrite (sa_data _ _ _ Hap) in Hp by done.
        destruct (data_state _ _ _ (sv_store _ Hok) Hp) as (x0 & Hx0 & _).
        rewrite (sa_states _ _ _ Hap p x0 Hx0) in Hx.
        -- injection Hx as <-. by apply (sv_connected _ Hok id p).
        -- intros E. apply Hne. by eapply data_inj; [apply (sv_store _ Hok)|..].
  - split; simpl; [done|apply Hap|intros ? c0 ?; by exists c0|..].
    + intros o' a0 Ha0 Hd0 Hne. destruct (Hname o' a0 Ha0 Hd0 ltac:(congruence)) as (c0 & Hc0 & Hcl & Hne0 & Hdata).
      exists a0. rewrite lookup_insert_ne by congruence. split_and!; try done.
      intros y Hy. exists y. split; [|apply link_kept_refl]. apply (sa_states _ _ _ Hap); [done|].
      intros E. apply Hne0. symmetry. by eapply data_inj; [apply (sv_store _ Hok)|..].
    + intros o' a0 Ha0 Hd0 Hne. rewrite lookup_insert_ne in Ha0 by congruence. by exists a0.
    + intros o' a0 Ha0. destruct (decide (o' = o)) as [->|Hne].
      * assert (a0 = a) as -> by congruence. exists a'. by rewrite lookup_insert_eq.
      * exists a0. by rewrite lookup_insert_ne.
Qed.

(** A session changed without its name. *)
Lemma update_apart id st p x x' t :
  st_data st !! id = Some p → states st !! p = Some x → epoch x' = epoch x →
  store_apart id st (mkStore (st_data st) (<[p := x']> (states st)) (limits st) t).
Proof.
  intros Hid Hp He. split; simpl; try done; [|by auto|by apply (epochs_from_insert st _ p x); auto].
  intros p' s' Hp' Hne. rewrite lookup_insert_ne; [done|]. congruence.
Qed.

Lemma close_done_inv o s u s' :
  close_done o s = Some (u, s') →
  ∃ a, srv_owners s !! o = Some a ∧ ac_done a = false
    ∧ s' = set_registry s (srv_clients s) (<[o := mkActive (ac_client a) (ac_session a) (cleanSession a) (closing a) (ready a)
        (disconnectedAt a) true]> (srv_owners s)).
Proof.
  unfold close_done. destruct (srv_owners s !! o) as [a|]; cbn [mbind option_bind]; [|discriminate].
  destruct (ac_done a) eqn:Hd; [discriminate|]. intros E. exists a. split; [done|]. split; [done|congruence].
Qed.

Lemma closeSession_runs s o a :
  server_ok s → srv_owners s !! o = Some a → ac_done a = false →
  runs (closeSession o) s (λ _ s', server_ok s' ∧ apart (Some o) s s'
    ∧ srv_connections s' = srv_connections s ∧ epochs_from (srv_sessions s) (srv_sessions s')
    ∧ (∃ a', srv_owners s' !! o = Some a' ∧ ac_done a' = true)).
Proof.
  intros Hok Ha Hd. destruct (sv_owners _ Hok o a Ha Hd) as (c & Hc & Hcl & Hdata).
  destruct (data_state _ _ _ (sv_store _ Hok) Hdata) as (x & Hx & Hxid & Hdel).
  unfold runs, closeSession. rewrite Ha. cbn [mbind option_bind]. rewrite Hc. cbn [mbind option_bind].
  rewrite bool_decide_true by done. exists tt.
  assert (Hpost : ∀ b st, store_ok st → routing_ok b → routes_agree b st → store_apart (c_id c) (srv_sessions s) st →
    (∀ p y, st_data st !! c_id c = Some p → states st !! p = Some y → connected y = false) →
    ∃ s', close_done o (set_registry (set_broker (set_sessions s st) b)
                (delete (c_id c) (srv_clients s)) (srv_owners s)) = Some (tt, s')
      ∧ (server_ok s' ∧ apart (Some o) s s' ∧ srv_connections s' = srv_connections s
         ∧ epochs_from (srv_sessions s) (srv_sessions s') ∧ ∃ a', srv_owners s' !! o = Some a' ∧ ac_done a' = true)).
  { intros b st Hst Hb Hr Hap Hoff. eexists. split; [unfold close_done; cbn [srv_owners set_registry]; rewrite Ha; cbn [mbind option_bind]; by rewrite Hd|].
    destruct (release_ok s o a c b st Hok Ha Hd Hc Hst Hb Hr Hap Hoff) as [H1 H2].
    split; [exact H1|]. split; [exact H2|]. split; [done|]. split; [apply Hap|]. eexists. simpl.
    by rewrite lookup_insert_eq. }
  destruct (cleanSession a) eqn:Hclean.
  - destruct (deleteLocked_ok (c_id c) _ x _ (sv_store _ Hok) Hdata Hx) as (t & Hdl & Hst').
    unfold mbind at 3, action_bind, on_store. unfold Delete. rewrite Hdl. simpl.
    destruct (Hpost (Broker_UnsubscribeAll (srv_broker s) (c_id c)) _ Hst') as (s' & E & HP).
    + apply routing_UnsubscribeAll, Hok.
    + apply routes_remove; [apply Hok|done|done|apply Hok].
    + by apply removed_apart.
    + intros p y. simpl. by rewrite lookup_delete_eq.
    + exists s'. split; [exact E|exact HP].
  - destruct (call_ok always (MarkDisconnectedAt (disconnectedAt a)) (ac_session a) x _ (sv_store _ Hok) Hx I)
      as (u & x' & t & Hf & Hcall & Hst' & _).
    assert (Hx' : connected x' = false ∧ epoch x' = epoch x ∧ subscriptions x' = subscriptions x).
    { unfold MarkDisconnectedAt in Hf. rewrite Hdel in Hf. simpl in Hf.
      destruct (connected x) eqn:Hcx; injection Hf as _ _ <-; by split_and!. }
    destruct Hx' as (Hconn & Hep & Hsubs).
    assert (E1 : on_session (MarkDisconnectedAt (disconnectedAt a)) (ac_session a) s
      = Some (u, set_sessions s (mkStore (st_data (srv_sessions s)) (<[ac_session a := x']> (states (srv_sessions s)))
          (limits (srv_sessions s)) t))) by (unfold on_session; by rewrite Hcall).
    rewrite E1. simpl. destruct (Hpost (srv_broker s) _ Hst') as (s' & E & HP).
    + apply Hok.
    + intros f cid. rewrite (session_route_insert _ _ _ _ x) by done. rewrite (sv_routes _ Hok f cid).
      case_decide as Hdd; [|done]. unfold session_route. rewrite Hdd. simpl. rewrite Hx. simpl. by rewrite Hsubs.
    + by apply (update_apart _ _ _ x).
    + intros p y. simpl. rewrite Hdata. intros [= <-]. rewrite lookup_insert_eq. by intros [= <-].
    + exists s'. split; [|exact HP]. rewrite <- E. by destruct s.
Qed.

(** * Expiry *)

Lemma unsubscribe_each_runs ids s :
  routing_ok (srv_broker s) →
  runs (unsubscribe_each ids) s (λ _ s', ∃ b, s' = set_broker s b ∧ routing_ok b
    ∧ ∀ p c, find (root (topics b)) p c
             = if decide (c ∈ ids) then None else find (root (topics (srv_broker s))) p c).
Proof.
  revert s. induction ids as [|id ids IH]; intros s Hb.
  { apply runs_ret. exists (srv_broker s). split; [by destruct s|]. split; [done|]. done. }
  cbn [unsubscribe_each]. apply runs_bind. exists tt. eexists. split; [done|].
  eapply runs_mono; [apply IH; by apply routing_UnsubscribeAll|].
  intros u s' (b & -> & Hb' & Hfind). exists b. split; [done|]. split; [done|]. intros p c. rewrite Hfind. cbn [srv_broker set_broker].
  rewrite find_Broker_UnsubscribeAll. destruct (decide (c ∈ id :: ids)) as [Hin|Hin].
  - apply elem_of_cons in Hin. repeat case_decide; tauto.
  - rewrite elem_of_cons in Hin. repeat case_decide; tauto.
Qed.

Lemma expire_runs now s :
  server_ok s → runs (expire_sessions now) s (λ _ s', server_ok s' ∧ apart None s s'
    ∧ srv_connections s' = srv_connections s ∧ epochs_from (srv_sessions s) (srv_sessions s')).
Proof.
  intros Hok. destruct (Expire_expiry now _ (sv_store _ Hok)) as (gone & st' & Hx & [Ok Li Go Nd Da Sta]).
  unfold expire_sessions. apply runs_bind. exists gone, (set_sessions s st'). split; [unfold on_store; by rewrite Hx|].
  eapply runs_mono; [by apply unsubscribe_each_runs, Hok|]. intros u s' (b & -> & Hb & Hfind). simpl in Hfind.
  assert (Hkeep : ∀ id p x, id ∉ gone → st_data (srv_sessions s) !! id = Some p →
    states (srv_sessions s) !! p = Some x → states st' !! p = Some x).
  { intros id p x Hid Hp Hxx. rewrite Sta, Hxx. simpl. destruct (decide _) as [[Hin _]|]; [|done].
    destruct (data_state _ _ _ (sv_store _ Hok) Hp) as (x' & ? & Hn & _). congruence. }
  assert (Hoff : ∀ id, id ∈ gone → srv_clients s !! id = None).
  { intros id (p & x & Hin & Hxx & _ & Hconn & _)%Go. apply elem_of_map_to_list in Hin.
    pose proof (sv_connected _ Hok id p x Hin Hxx) as E. destruct (srv_clients s !! id) as [o|]; [|done].
    rewrite Hconn in E. discriminate (proj2 E (ex_intro _ o eq_refl)). }
  assert (Hgone : ∀ id o, srv_clients s !! id = Some o → id ∉ gone) by (intros id o Hid Hin; by rewrite (Hoff id Hin) in Hid).
  split; [|split; [|split; [done|]]].
  - split; [exact Ok|exact Hb|exact (sv_policy _ Hok)| |exact (sv_clients _ Hok)|..]; simpl.
    + intros f c. rewrite Hfind, (sv_routes _ Hok f c). unfold session_route. simpl. rewrite Da.
      destruct (decide (c ∈ gone)) as [Hin|Hin]; [done|].
      destruct (st_data (srv_sessions s) !! c) as [p|] eqn:Hc; simpl; [|done].
      destruct (data_state _ _ _ (sv_store _ Hok) Hc) as (x & Hxx & _). rewrite Hxx, (Hkeep c p x); done.
    + intros o a Ha Hd. destruct (sv_owners _ Hok o a Ha Hd) as (c & Hc & Hcl & Hdata). exists c. simpl.
      rewrite Da, decide_False by (by eapply Hgone). done.
    + intros id p x. rewrite Da. destruct (decide (id ∈ gone)) as [Hin|Hin]; [done|]. intros Hp Hxx.
      destruct (data_state _ _ _ (sv_store _ Hok) Hp) as (x0 & Hx0 & _). rewrite (Hkeep id p x0 Hin Hp Hx0) in Hxx.
      injection Hxx as <-. by apply (sv_connected _ Hok id p).
  - split; simpl; [done|exact Li|intros ? c0 ?; by exists c0|..].
    + intros o a Ha Hd _. exists a. split_and!; try done. intros y Hy. exists y. split; [|apply link_kept_refl].
      destruct (sv_owners _ Hok o a Ha Hd) as (c & _ & Hcl & Hdata). by apply (Hkeep (c_id c)); [eapply Hgone|..].
    + intros o a Ha Hd _. by exists a.
    + intros o a Ha. by exists a.
  - intros p y. cbn [srv_sessions set_broker set_sessions]. rewrite Sta. intros (x & Hxx & ->)%fmap_Some_1. left.
    exists x. split; [done|]. by destruct (decide _).
Qed.
