(* ===== verification/SystemProofs.v ===== *)
(** The invariant of the system of connections and the theorems about every state
    the server can reach. *)

From S2P Require Import Prelude Topic Wire Filters Encoder Decoder Codec CodecProofs Tree.
From S2P Require Import Broker Session SessionQueue SessionStore SessionProofs Delivery Auth AuthProofs Client.
From S2P Require Import Server Handlers Lifecycle ServerInv Ownership.

Local Open Scope Z_scope.
Local Open Scope orb_scope.

(** * Phases *)

(** The handler of a connection, the connection it registered and its consumer. *)
Definition view (ph : phase) : option (handler * option connptr * consumer) :=
  match ph with
  | Handshaking _ | Finished => None
  | Authenticating h | Acquiring h | Awaiting h _ => Some (h, None, Returned)
  | Greeting h o _ | Welcoming h o => Some (h, Some o, Returned)
  | Serving h o co | Subscribing h o co _ _ | Leaving h o co _ => Some (h, Some o, co)
  | Cleaning h o co | Draining h o co => Some (h, o, co)
  end.

Definition phase_owner (ph : phase) : option connptr := '(_, o, _) ← view ph; o.

(** Whether a connection counts as being in its handshake, where the phase says. *)
Definition phase_flag (ph : phase) : option bool :=
  match ph with
  | Handshaking _ | Authenticating _ | Acquiring _ | Awaiting _ _ | Greeting _ _ _ | Welcoming _ _ => Some true
  | Serving _ _ _ | Subscribing _ _ _ _ _ | Leaving _ _ _ _ => Some false
  | Cleaning _ _ _ | Draining _ _ _ | Finished => None
  end.

Definition handler_ok (s : Server) (h : handler) : Prop :=
  Forall is_byte (rd_data (h_reader h))
  ∧ ∃ c, srv_conns s !! h_client h = Some c ∧ c_id c = conn_ClientID (h_connect h).

(** The consumer serves the current epoch, and does not sleep on messages. *)
Definition consumer_ok (l : Limits) (st : State) (co : consumer) : Prop :=
  match co with
  | Running e | Sending e => epoch st = e
  | Blocked e => epoch st = e ∧ blocked_ok l st
  | Returned => True
  end.

(** The connection that handler [h] registered is its own, and its session belongs
    to the identity that [h] proved. *)
Definition owner_ok (s : Server) (h : handler) (o : connptr) (co : consumer) : Prop :=
  ∃ a st, srv_owners s !! o = Some a ∧ ac_done a = false ∧ ac_client a = h_client h
    ∧ cleanSession a = conn_CleanSession (h_connect h)
    ∧ states (srv_sessions s) !! ac_session a = Some st ∧ st_owner st = h_identity h
    ∧ consumer_ok (limits (srv_sessions s)) st co.

(** What a handler waits for was told to stop: its own writer and consumer, or the
    previous connection of its client; and the codes of a SUBACK are legal. *)
Definition waiting_ok (s : Server) (ph : phase) : Prop :=
  match ph with
  | Draining h _ _ => ∃ c, srv_conns s !! h_client h = Some c ∧ c_done c = true
  | Awaiting _ previous => ∃ a, srv_owners s !! previous = Some a ∧ told_to_stop s a
  | Subscribing _ _ _ _ codes => Forall code_ok codes
  | _ => True
  end.

Record phase_ok (s : Server) (ph : phase) : Prop := {
  po_reader r : ph = Handshaking r → Forall is_byte (rd_data r);
  po_view h o co : view ph = Some (h, o, co) →
    handler_ok s h ∧ match o with Some o => owner_ok s h o co | None => co = Returned end;
  po_waiting : waiting_ok s ph }.

(** The accounts of accepted connections. *)
Record group_ok (l : ConnectionLimits) (g : connectionGroup) (hs : gmap netconn phase) : Prop := {
  gr_none conn : hs !! conn = None → connections g !! conn = None;
  gr_flags conn ph : hs !! conn = Some ph →
    ∃ b, connections g !! conn = Some b ∧ (phase_flag ph = None ∨ phase_flag ph = Some b);
  gr_handlers : handlers g = msize hs;
  gr_handshakes : Handshakes (g_stats g) = msum (λ b : bool, if b then 1 else 0) (connections g);
  gr_connections : msize (connections g) <= MaxConnections l;
  gr_max : Handshakes (g_stats g) <= MaxHandshakes l }.

Record sys_ok (n : Z) (sys : System) : Prop := {
  sy_server : server_ok (sys_server sys);
  sy_packets : 0 < maxPacketSize (settings (sys_server sys)) <= MaxPacketSize;
  sy_epochs : epochs_below n (srv_sessions (sys_server sys));
  sy_phases conn ph : sys_handlers sys !! conn = Some ph → phase_ok (sys_server sys) ph;
  sy_distinct conn1 conn2 ph1 ph2 h1 h2 o1 o2 co1 co2 :
    sys_handlers sys !! conn1 = Some ph1 → sys_handlers sys !! conn2 = Some ph2 →
    view ph1 = Some (h1, o1, co1) → view ph2 = Some (h2, o2, co2) → h_client h1 = h_client h2 → conn1 = conn2;
  sy_owned o a : srv_owners (sys_server sys) !! o = Some a → ac_done a = false →
    ∃ conn ph, sys_handlers sys !! conn = Some ph ∧ phase_owner ph = Some o;
  sy_group : group_ok (connectionLimits (settings (sys_server sys))) (srv_connections (sys_server sys))
               (sys_handlers sys) }.

(** * Steps that concern other connections *)

Lemma consumer_kept l st st' co : link_kept l st st' → consumer_ok l st co → consumer_ok l st' co.
Proof.
  intros Hk. unfold consumer_ok. destruct co; [rewrite (lk_epoch _ _ _ Hk); done..| |done].
  rewrite (lk_epoch _ _ _ Hk). intros [? ?]. split; [done|]. by apply (lk_blocked _ _ _ Hk).
Qed.

Lemma owner_apart x s s' h o co : apart x s s' → x ≠ Some o → owner_ok s h o co → owner_ok s' h o co.
Proof.
  intros Hap Hx (a & st & Ha & Hd & Hc & Hcl & Hst & Hown & Hco).
  destruct (ap_owners _ _ _ Hap o a Ha Hd Hx) as (a' & Ha' & Hd' & E1 & E2 & E3 & Hs).
  destruct (Hs st Hst) as (st' & Hst' & Hk). exists a', st'. rewrite E1, E2, E3, (lk_owner _ _ _ Hk).
  rewrite (ap_limits _ _ _ Hap). split_and!; try done. by eapply consumer_kept.
Qed.

Lemma handler_apart x s s' h : apart x s s' → handler_ok s h → handler_ok s' h.
Proof.
  intros Hap [Hr (c & Hc & Hid)]. split; [done|]. destruct (ap_conns _ _ _ Hap _ _ Hc) as (c' & Hc' & E & _).
  exists c'. split; [done|congruence].
Qed.

Lemma waiting_apart x s s' ph : apart x s s' → waiting_ok s ph → waiting_ok s' ph.
Proof.
  intros Hap. destruct ph; simpl; try done.
  - intros (a & Ha & Ht). by eapply told_apart.
  - intros (c & Hc & Hd). destruct (ap_conns _ _ _ Hap _ _ Hc) as (c' & Hc' & _ & Hd'). eauto.
Qed.

Lemma phase_apart x s s' ph :
  apart x s s' → (∀ o, phase_owner ph = Some o → x ≠ Some o) → phase_ok s ph → phase_ok s' ph.
Proof.
  intros Hap Hx [Hr Hv Hdr]. split; [done| |by eapply waiting_apart]. intros h o co Hvw.
  destruct (Hv h o co Hvw) as [Hh Ho].
  split; [by eapply handler_apart|]. destruct o as [o|]; [|done]. eapply owner_apart; [done| |done].
  apply Hx. unfold phase_owner. by rewrite Hvw.
Qed.

(** Two handlers never registered the same connection. *)
Lemma owner_unique n sys conn1 conn2 ph1 ph2 o :
  sys_ok n sys → sys_handlers sys !! conn1 = Some ph1 → sys_handlers sys !! conn2 = Some ph2 →
  phase_owner ph1 = Some o → phase_owner ph2 = Some o → conn1 = conn2.
Proof.
  intros Hok H1 H2 Ho1 Ho2. unfold phase_owner in *.
  destruct (view ph1) as [[[h1 o1] co1]|] eqn:V1; [|done]. destruct (view ph2) as [[[h2 o2] co2]|] eqn:V2; [|done].
  simpl in *. subst o1 o2. destruct (sy_phases _ _ Hok _ _ H1) as [_ P1 _]. destruct (sy_phases _ _ Hok _ _ H2) as [_ P2 _].
  destruct (P1 _ _ _ V1) as [_ (a1 & ? & Ha1 & _ & Hc1 & _)]. destruct (P2 _ _ _ V2) as [_ (a2 & ? & Ha2 & _ & Hc2 & _)].
  eapply sy_distinct; [done|exact H1|exact H2|exact V1|exact V2|congruence].
Qed.

(** An event that is not a step of a handler. *)
Lemma outside_step n sys s' :
  sys_ok n sys → server_ok s' → apart None (sys_server sys) s' → srv_connections s' = srv_connections (sys_server sys) →
  epochs_below n (srv_sessions s') → sys_ok n (mkSystem s' (sys_handlers sys)).
Proof.
  intros Hok Hs' Hap Hg Hep. split; cbn [sys_server sys_handlers].
  - done.
  - rewrite (ap_settings _ _ _ Hap). apply Hok.
  - done.
  - intros conn ph Hph. eapply phase_apart; [done|done|]. by apply (sy_phases _ _ Hok conn).
  - apply Hok.
  - intros o a' Ha' Hd'. destruct (ap_back _ _ _ Hap o a' Ha' Hd') as (a & Ha & Hd & _); [done|].
    by apply (sy_owned _ _ Hok o a).
  - rewrite Hg, (ap_settings _ _ _ Hap). apply Hok.
Qed.

(** A step of the handler of [conn], which changes at most the connection [x]. *)
Lemma handler_step n n' sys conn ph ph' s' x :
  sys_ok n sys → sys_handlers sys !! conn = Some ph → server_ok s' → apart x (sys_server sys) s' →
  (∀ o, x = Some o → phase_owner ph = Some o ∨ srv_owners (sys_server sys) !! o = None) →
  phase_ok s' ph' →
  (∀ h' o' co', view ph' = Some (h', o', co') →
     (∃ h o co, view ph = Some (h, o, co) ∧ h_client h' = h_client h)
     ∨ srv_conns (sys_server sys) !! h_client h' = None) →
  (∀ o a', phase_owner ph = Some o ∨ x = Some o → srv_owners s' !! o = Some a' → ac_done a' = false →
     phase_owner ph' = Some o) →
  epochs_below n' (srv_sessions s') →
  group_ok (connectionLimits (settings s')) (srv_connections s') (<[conn := ph']> (sys_handlers sys)) →
  sys_ok n' (mkSystem s' (<[conn := ph']> (sys_handlers sys))).
Proof.
  intros Hok Hph Hs' Hap Hx Hph' Hcli Hown Hep Hg. split; cbn [sys_server sys_handlers]; [done| |done|..|done].
  - rewrite (ap_settings _ _ _ Hap). apply Hok.
  - intros conn0 ph0 [[<- <-]|[Hne Hl]]%lookup_insert_Some; [done|].
    eapply phase_apart; [done| |by apply (sy_phases _ _ Hok conn0)]. intros o Ho E.
    destruct (Hx o E) as [Ho'|Hnone]; [apply Hne; by eapply owner_unique|].
    unfold phase_owner in Ho. destruct (view ph0) as [[[h0 o0] co0]|] eqn:V0; [|done]. simpl in Ho. subst o0.
    destruct (sy_phases _ _ Hok _ _ Hl) as [_ P0 _]. destruct (P0 _ _ _ V0) as [_ (a & ? & Ha & _)]. congruence.
  - assert (Hone : ∀ conn0 ph0 h0 o0 co0 h1 o1 co1, sys_handlers sys !! conn0 = Some ph0 → conn ≠ conn0 →
      view ph0 = Some (h0, o0, co0) → view ph' = Some (h1, o1, co1) → h_client h0 = h_client h1 → False).
    { intros conn0 ph0 h0 o0 co0 h1 o1 co1 H0 Hne V0 V1 E. destruct (Hcli _ _ _ V1) as [(h & o & co & V & E')|Hnone].
      - apply Hne. eapply sy_distinct; [done|exact Hph|exact H0|exact V|exact V0|congruence].
      - destruct (sy_phases _ _ Hok _ _ H0) as [_ P0 _]. destruct (P0 _ _ _ V0) as [[_ (c & Hc & _)] _]. congruence. }
    intros conn1 conn2 ph1 ph2 h1 h2 o1 o2 co1 co2 H1 H2 V1 V2 E.
    apply lookup_insert_Some in H1 as [[<- <-]|[Hne1 H1]], H2 as [[<- <-]|[Hne2 H2]]; [done|..].
    + exfalso. by eapply (Hone conn2 ph2).
    + exfalso. by eapply (Hone conn1 ph1).
    + by eapply (sy_distinct _ _ Hok conn1 conn2 ph1 ph2).
  - intros o a' Ha' Hd'. destruct (decide (phase_owner ph = Some o ∨ x = Some o)) as [Hin|Hout].
    + exists conn, ph'. rewrite lookup_insert_eq. split; [done|]. by eapply Hown.
    + destruct (ap_back _ _ _ Hap o a' Ha' Hd') as (a & Ha & Hd & _); [tauto|].
      destruct (sy_owned _ _ Hok o a Ha Hd) as (conn0 & ph0 & H0 & Ho0). exists conn0, ph0.
      split; [|done]. rewrite lookup_insert_ne; [done|]. intros <-. apply Hout. left. congruence.
Qed.

(** ** The accounts *)

Definition same_group (g g' : connectionGroup) : Prop :=
  connections g' = connections g ∧ handlers g' = handlers g ∧ Handshakes (g_stats g') = Handshakes (g_stats g).

Lemma quiet_group s s' : quiet s s' → same_group (srv_connections s) (srv_connections s').
Proof. intros []. by split_and!. Qed.

Lemma group_same l g g' hs conn ph ph' :
  group_ok l g hs → same_group g g' → hs !! conn = Some ph →
  phase_flag ph' = None ∨ phase_flag ph' = phase_flag ph → group_ok l g' (<[conn := ph']> hs).
Proof.
  intros [N F H S C M] (E1 & E2 & E3) Hph Hflag. split; rewrite ?E1, ?E2, ?E3; try done.
  - intros conn0 [H0 _]%lookup_insert_None. by apply N.
  - intros conn0 ph0 [[<- <-]|[_ Hl]]%lookup_insert_Some; [|by apply F].
    destruct (F conn ph Hph) as (b & Hb & Hf). exists b. split; [done|]. destruct Hflag as [?|E]; [by left|].
    rewrite E. done.
  - rewrite H. unfold msize. by rewrite map_size_insert_Some by eauto.
Qed.

(** The common case of [handler_step]: nothing but this handler moves. *)
Lemma apart_step n sys conn ph ph' s' :
  sys_ok n sys → sys_handlers sys !! conn = Some ph → server_ok s' → apart None (sys_server sys) s' →
  same_group (srv_connections (sys_server sys)) (srv_connections s') →
  epochs_below n (srv_sessions s') →
  (∀ h' o' co', view ph' = Some (h', o', co') → handler_ok s' h' ∧
     match o' with Some o => owner_ok s' h' o co' | None => co' = Returned end
     ∧ ∃ h o co, view ph = Some (h, o, co) ∧ h_client h' = h_client h) →
  (∀ r, ph' ≠ Handshaking r) → waiting_ok s' ph' →
  (phase_owner ph ≠ None → phase_owner ph' = phase_owner ph) →
  phase_flag ph' = None ∨ phase_flag ph' = phase_flag ph →
  sys_ok n (mkSystem s' (<[conn := ph']> (sys_handlers sys))).
Proof.
  intros Hok Hph Hs' Hap Hg Hep Hview Hr Hdr Hown Hflag.
  apply (handler_step n n sys conn ph ph' s' None); try done.
  - split; [intros r ->; by destruct (Hr r)| |done]. intros h o co V. destruct (Hview h o co V) as (? & ? & _). done.
  - intros h' o' co' V. left. by apply (Hview h' o' co').
  - intros o a' [Ho|?] _ _; [|done]. rewrite Hown by congruence. done.
  - rewrite (ap_settings _ _ _ Hap). eapply group_same; [apply Hok|done..].
Qed.

Lemma quiet_epochs s s' : quiet s s' → epochs_from (srv_sessions s) (srv_sessions s').
Proof.
  intros Hq p st' Hp. pose proof (qu_store _ _ Hq) as Hsq.
  destruct (states (srv_sessions s) !! p) as [st|] eqn:Hs.
  - destruct (sq_states _ _ Hsq p st Hs) as (st1 & Hp1 & Hk). left. exists st. split; [done|].
    rewrite <- (lk_epoch _ _ _ Hk). congruence.
  - by rewrite (sq_none _ _ Hsq p Hs) in Hp.
Qed.

(** * The steps of a handler *)

(** [m] runs for connection [conn], and the phase it gives keeps the invariant. *)
Definition steps (n : Z) (sys : System) (conn : netconn) (m : action phase) : Prop :=
  runs m (sys_server sys) (λ ph' s', sys_ok n (mkSystem s' (<[conn := ph']> (sys_handlers sys)))).

(** What a step leaves of everything but the registry of its connection. *)
Record elsewhere (s s' : Server) : Prop := {
  el_ok : server_ok s';
  el_apart : apart None s s';
  el_group : same_group (srv_connections s) (srv_connections s');
  el_epochs : epochs_from (srv_sessions s) (srv_sessions s') }.

Lemma kept_elsewhere s s' : kept s s' → elsewhere s s'.
Proof.
  intros [Hs' Hq]. split; [exact Hs'|by apply quiet_apart|by apply quiet_group|by apply quiet_epochs].
Qed.

Lemma elsewhere_trans s1 s2 s3 : elsewhere s1 s2 → elsewhere s2 s3 → elsewhere s1 s3.
Proof.
  intros [_ A1 (G1 & G2 & G3) E1] [O2 A2 (F1 & F2 & F3) E2].
  split; [exact O2|by eapply apart_trans|unfold same_group; split_and!; congruence|by etransitivity].
Qed.

Lemma Authenticate_users kdf l before after username password :
  l_users (Authenticate kdf l before after username password).2 = l_users l.
Proof.
  unfold Authenticate. destruct before; [done|]. unfold acquire_slot. by destruct (_ <? _).
Qed.

Lemma set_auth_elsewhere s l l' :
  server_ok s → srv_auth s = Some l → l_users l' = l_users l → elsewhere s (set_auth s (Some l')).
Proof.
  intros Hs Hl Hu. split.
  - split; [exact (sv_store _ Hs)|exact (sv_broker _ Hs)| |exact (sv_routes _ Hs)|exact (sv_clients _ Hs)|
      exact (sv_owners _ Hs)|exact (sv_connected _ Hs)]. intros l0 [= <-]. rewrite Hu. by apply (sv_policy _ Hs).
  - split; [done|done|intros ? c ?; by exists c|..].
    + intros o a Ha Hd _. exists a. split_and!; try done. intros st Hst. exists st. split; [done|apply link_kept_refl].
    + intros o a Ha Hd _. by exists a.
    + intros o a Ha. by exists a.
  - by split_and!.
  - by apply epochs_from_states.
Qed.

Lemma authenticate_runs kdf c1 c2 c3 connect s :
  server_ok s → runs (authenticateConnect kdf c1 c2 c3 connect) s (λ _ s', elsewhere s s').
Proof.
  intros Hs. unfold runs, authenticateConnect. destruct (srv_auth s) as [l|] eqn:Hl.
  - pose proof (Authenticate_users kdf l c1 c2 (default [] (conn_Username connect)) (default [] (conn_Password connect))) as Hu.
    destruct (Authenticate _ _ _ _ _ _) as [r l']. simpl in Hu.
    assert (Hel : elsewhere s (set_auth s (Some l'))) by by apply (set_auth_elsewhere s l).
    repeat case_match; eexists _, _; (split; [reflexivity|exact Hel]).
  - do 2 eexists. split; [reflexivity|]. apply kept_elsewhere. by split.
Qed.

Lemma send_runs_kept cli pkt deadline written s :
  server_ok s → is_Some (srv_conns s !! cli) →
  runs (sendPacketWithDeadline cli pkt deadline written) s (λ _ s', kept s s').
Proof.
  intros Hs Hc. unfold sendPacketWithDeadline. destruct (Encode pkt); [|apply runs_ret; by split].
  eapply runs_step; [by apply client_runs_kept; [apply enqueue_kept|..]|]. intros [err|] s' Hk; by apply runs_ret.
Qed.

Lemma reject_runs_kept cli code deadline written s :
  server_ok s → is_Some (srv_conns s !! cli) →
  runs (rejectConnection cli code deadline written) s (λ _ s', kept s s').
Proof.
  intros Hs Hc. unfold rejectConnection.
  apply (runs_step _ _ _ (λ _ s', kept s s' ∧ is_Some (srv_conns s' !! cli))).
  { exists tt. eexists. split; [reflexivity|]. destruct (_ =? _); (split; [by apply count_auth_kept|done]). }
  intros _ s1 [[Hs1 Hq1] Hc1]. eapply runs_step; [by apply send_runs_kept|]. intros e s2 [Hs2 Hq2].
  apply runs_ret. split; [done|]. by transitivity s1.
Qed.

(** Two connections that are not done have different sessions. *)
Lemma sessions_distinct s o1 o2 a1 a2 :
  server_ok s → srv_owners s !! o1 = Some a1 → srv_owners s !! o2 = Some a2 → ac_done a1 = false → ac_done a2 = false →
  ac_session a1 = ac_session a2 → o1 = o2.
Proof.
  intros Hs H1 H2 D1 D2 E. destruct (sv_owners _ Hs o1 a1 H1 D1) as (c1 & _ & Hc1 & Hd1).
  destruct (sv_owners _ Hs o2 a2 H2 D2) as (c2 & _ & Hc2 & Hd2). rewrite <- E in Hd2.
  assert (c_id c1 = c_id c2) by (by eapply data_inj; [apply (sv_store _ Hs)|..]). congruence.
Qed.

(** A method that a connection calls on its own session. *)
Lemma own_session_runs {A} pre (f : method A) `{MethodOk A pre f, MethodSubs A f} s o a st :
  (∀ l t x r t' x', f l t x = Some (r, t', x') → connected x' = connected x) →
  server_ok s → srv_owners s !! o = Some a → ac_done a = false →
  states (srv_sessions s) !! ac_session a = Some st → pre st →
  runs (on_session f (ac_session a)) s (λ r s', ∃ st' t',
    f (limits (srv_sessions s)) (totals (srv_sessions s)) st = Some (r, t', st')
    ∧ s' = set_sessions s (mkStore (st_data (srv_sessions s)) (<[ac_session a := st']> (states (srv_sessions s)))
             (limits (srv_sessions s)) t')
    ∧ server_ok s' ∧ apart (Some o) s s' ∧ st_owner st' = st_owner st
    ∧ (epoch st' = epoch st ∨ epoch st' = u64 (epoch st + 1))).
Proof.
  intros Hconn Hs Ha Hd Hst Hpre.
  destruct (call_ok pre f _ st _ (sv_store _ Hs) Hst Hpre) as (r & st' & t' & Hf & Hc & Hok' & Hid & Hown & Hdel & Hep).
  exists r. eexists. split; [unfold on_session; by rewrite Hc|]. exists st', t'. split; [exact Hf|]. split; [reflexivity|].
  split; [|split; [|done]].
  - split; [exact Hok'|exact (sv_broker _ Hs)|exact (sv_policy _ Hs)| |exact (sv_clients _ Hs)|exact (sv_owners _ Hs)|].
    + intros g cid. simpl. rewrite (session_route_insert _ _ _ _ st) by done. rewrite (sv_routes _ Hs g cid).
      case_decide as E; [|done]. unfold session_route. rewrite E. simpl. rewrite Hst. simpl.
      by rewrite (method_subs _ _ _ _ _ _ Hf).
    + intros id p x Hp. simpl. intros [[<- <-]|[_ Hl]]%lookup_insert_Some; [|by apply (sv_connected _ Hs id p)].
      rewrite (Hconn _ _ _ _ _ _ Hf). by apply (sv_connected _ Hs id (ac_session a)).
  - split; [done|done|intros ? c ?; by exists c|..].
    + intros o' a' Ha' Hd' Hne. exists a'. split_and!; try done. intros x Hx. exists x. split; [|apply link_kept_refl].
      simpl. rewrite lookup_insert_ne; [done|]. intros E. apply Hne. f_equal. by eapply (sessions_distinct s).
    + intros o' a' Ha' Hd' _. by exists a'.
    + intros o' a' Ha'. by exists a'.
Qed.

Lemma Next_none l t s t' s' : Next (epoch s) l t s = Some (None, t', s') → s' = s ∧ can_send l s = false.
Proof.
  unfold can_send, Next. destruct (_ || _); [by intros [= _ <-]|].
  destruct (next_unsent _ _ _) as [[[r message]|]|]; simpl; [|by intros [= _ <-]|done].
  destruct (if negb _ then _ else _) as [[[[? ?] ?] ?]|]; simpl; [|done]. by destruct (patch _ _ _ _).
Qed.

(** [completeHandshake] takes one connection out of the count of handshakes. *)
Lemma completeHandshake_ok l g hs conn ph ph' :
  group_ok l g hs → hs !! conn = Some ph → phase_flag ph = Some true → phase_flag ph' = Some false →
  group_ok l (completeHandshake conn g) (<[conn := ph']> hs).
Proof.
  intros [N F H S C M] Hph Hf Hf'. destruct (F conn ph Hph) as (b & Hb & [?|E]); [congruence|].
  assert (b = true) as -> by congruence. unfold completeHandshake, in_handshake. rewrite Hb. simpl.
  pose proof (msum_insert_Some (λ b : bool, if b then 1 else 0) _ _ _ false Hb) as Hsum. simpl in Hsum.
  split; simpl; try lia.
  - intros conn0 [H0 Hne]%lookup_insert_None. rewrite lookup_insert_ne by done. by apply N.
  - intros conn0 ph0 [[<- <-]|[Hne Hl]]%lookup_insert_Some.
    + exists false. rewrite lookup_insert_eq. auto.
    + rewrite lookup_insert_ne by done. by apply F.
  - rewrite H. unfold msize. by rewrite map_size_insert_Some by eauto.
  - unfold msize in *. by rewrite map_size_insert_Some by eauto.
Qed.

Section steps.
Context (n : Z) (sys : System) (conn : netconn).
Context (Hn : 0 <= n) (Hok : sys_ok n sys).
Implicit Types (h : handler) (co : consumer).

Local Abbreviation s := (sys_server sys).

Lemma epochs_later s' : epochs_from (srv_sessions s) (srv_sessions s') → epochs_below n (srv_sessions s').
Proof. intros Hf. eapply epochs_below_from; [done|exact Hf|apply Hok]. Qed.

(** A new client changes nothing for the others. *)
Lemma new_client_ok c :
  let cli := fresh (dom (srv_conns s)) in
  let s' := set_conns s (<[cli := c]> (srv_conns s)) in
  srv_conns s !! cli = None ∧ server_ok s' ∧ apart None s s'.
Proof.
  intros cli s'. assert (Hnew : srv_conns s !! cli = None) by (apply not_elem_of_dom, is_fresh).
  pose proof (sy_server _ _ Hok) as Hs. split; [done|].
  assert (Hsame : ∀ cli0 c0, srv_conns s !! cli0 = Some c0 → srv_conns s' !! cli0 = Some c0)
    by (intros cli0 c0 H0; unfold s'; simpl; rewrite lookup_insert_ne by congruence; done).
  split.
  - split; [exact (sv_store _ Hs)|exact (sv_broker _ Hs)|exact (sv_policy _ Hs)|exact (sv_routes _ Hs)| | |
      exact (sv_connected _ Hs)].
    + intros id o Hid. destruct (sv_clients _ Hs id o Hid) as (a & c0 & Ha & Hc & ?). exists a, c0. auto.
    + intros o a Ha Hd. destruct (sv_owners _ Hs o a Ha Hd) as (c0 & Hc & ?). exists c0. auto.
  - split; try done.
    + intros cli0 c0 H0. exists c0. split; [auto|by split].
    + intros o a Ha Hd _. exists a. split_and!; try done. intros st Hst. exists st. split; [done|apply link_kept_refl].
    + intros o a Ha Hd _. by exists a.
    + intros o a Ha. by exists a.
Qed.

Lemma handshake_steps failed r :
  sys_handlers sys !! conn = Some (Handshaking r) → steps n sys conn (do_handshake failed r).
Proof.
  intros Hph. destruct (sy_phases _ _ Hok conn _ Hph) as [Hbytes _ _]. specialize (Hbytes r eq_refl).
  assert (Hfin : sys_ok n (mkSystem s (<[conn := Finished]> (sys_handlers sys)))).
  { apply (apart_step n sys conn (Handshaking r));
      [exact Hok|exact Hph|exact (sy_server _ _ Hok)|by apply quiet_apart|by split_and!|exact (sy_epochs _ _ Hok)
      |discriminate|discriminate|exact I|by intros []|by left]. }
  unfold do_handshake. destruct failed; [by apply runs_ret|]. apply runs_bind. unfold runs, handshake.
  destruct (DecodeWithLimit r (maxPacketSize (settings s))) as [[pkt r']|err] eqn:Hdec;
    [|exists (Error err), s; split; [done|]; by apply runs_ret].
  assert (Hother : (∀ p, pkt ≠ PConnect p) →
    ∃ a s', Some (Error (New "first packet is not CONNECT"), s) = Some (a : result handler, s')
      ∧ steps n (mkSystem s' (sys_handlers sys)) conn
          (mret match a with Ok h => Authenticating h | Error _ => Finished end)).
  { intros _. do 2 eexists. split; [done|]. by apply runs_ret. }
  destruct pkt as [connect| | | | | | | | | |]; try (by apply Hother).
  destruct (new_client_ok (Client_New (conn_ClientID connect))) as (Hnew & Hs' & Hap).
  do 2 eexists. split; [done|]. apply runs_ret.
  apply (proj1 (decode_exact r _ _ _ Hbytes (sy_packets _ _ Hok))) in Hdec as (data & _ & _ & _ & Htakes).
  apply (handler_step n n sys conn (Handshaking r) _ _ None);
    [exact Hok|exact Hph|exact Hs'|exact Hap|discriminate|..].
  - split; [discriminate| |exact I]. intros h0 o0 co0 [= <- <- <-]. split; [|done]. split.
    + simpl. destruct Htakes as [E _]. rewrite E in Hbytes. by apply Forall_app in Hbytes as [_ ?].
    + eexists. simpl. by rewrite lookup_insert_eq.
  - intros h' o' co' [= <- <- <-]. right. exact Hnew.
  - by intros o a' [?|?].
  - exact (sy_epochs _ _ Hok).
  - eapply group_same; [exact (sy_group _ _ Hok)|by split_and!|exact Hph|by right].
Qed.

(** A step that leaves the rest alone and whose handler registered nothing. *)
Lemma elsewhere_step ph ph' s' h h' :
  sys_handlers sys !! conn = Some ph → view ph = Some (h, None, Returned) →
  view ph' = Some (h', None, Returned) → h_client h' = h_client h → h_reader h' = h_reader h →
  conn_ClientID (h_connect h') = conn_ClientID (h_connect h) → elsewhere s s' → waiting_ok s' ph' →
  phase_flag ph' = None ∨ phase_flag ph' = phase_flag ph →
  sys_ok n (mkSystem s' (<[conn := ph']> (sys_handlers sys))).
Proof.
  intros Hph V V' Ec Er Ei Hel Hdr Hflag. destruct (sy_phases _ _ Hok conn ph Hph) as [_ P _]. destruct (P _ _ _ V) as [Hh _].
  apply (apart_step n sys conn ph); [exact Hok|exact Hph|apply Hel|apply Hel|apply Hel|apply epochs_later, Hel|..].
  - intros h1 o1 co1. rewrite V'. intros [= <- <- <-]. split; [|split; [done|by exists h, None, Returned]].
    destruct (handler_apart _ _ _ h (el_apart _ _ Hel) Hh) as [Hb (c & Hc & Hid)].
    split; [by rewrite Er|]. exists c. by rewrite Ec, Ei.
  - intros r ->. discriminate.
  - exact Hdr.
  - unfold phase_owner. by rewrite V.
  - exact Hflag.
Qed.

Lemma handler_client ph h o co :
  sys_handlers sys !! conn = Some ph → view ph = Some (h, o, co) → is_Some (srv_conns s !! h_client h).
Proof.
  intros Hph V. destruct (sy_phases _ _ Hok conn ph Hph) as [_ P _]. destruct (P _ _ _ V) as [[_ (c & Hc & _)] _]. by exists c.
Qed.

Lemma authenticate_steps kdf c1 c2 c3 deadline written h :
  sys_handlers sys !! conn = Some (Authenticating h) →
  steps n sys conn (do_authenticate kdf c1 c2 c3 deadline written h).
Proof.
  intros Hph. unfold steps, do_authenticate.
  eapply runs_step; [apply authenticate_runs, (sy_server _ _ Hok)|]. intros [who code] s1 H1.
  destruct (negb _).
  - destruct (handler_client _ h None Returned Hph eq_refl) as [c Hc].
    destruct (ap_conns _ _ _ (el_apart _ _ H1) _ _ Hc) as (c1' & Hc1 & _).
    eapply runs_step; [apply (reject_runs_kept _ _ _ _ s1); [apply H1|by exists c1']|]. intros u s2 H2.
    apply runs_ret. eapply elsewhere_step; [exact Hph|reflexivity..| |exact I|by left].
    eapply elsewhere_trans; [exact H1|by apply kept_elsewhere].
  - apply runs_ret. eapply elsewhere_step; [exact Hph|reflexivity..|exact H1|exact I|by right].
Qed.

Lemma await_steps cancelled h previous :
  sys_handlers sys !! conn = Some (Awaiting h previous) → steps n sys conn (mret (do_await cancelled h previous)).
Proof.
  intros Hph. apply runs_ret. assert (Hel : elsewhere s s) by (apply kept_elsewhere; split; [apply Hok|reflexivity]).
  unfold do_await. destruct cancelled; (eapply elsewhere_step; [exact Hph|reflexivity..|exact Hel|exact I|]); [by left|by right].
Qed.

Lemma acquire_steps ctxErr now deadline written h :
  sys_handlers sys !! conn = Some (Acquiring h) → steps n sys conn (do_acquire ctxErr now deadline written h).
Proof.
  intros Hph. destruct (sy_phases _ _ Hok conn _ Hph) as [_ P _].
  destruct (P h None Returned eq_refl) as [[Hbytes (c & Hc & Hid)] _]. unfold steps, do_acquire.
  eapply runs_step; [by apply (acquire_runs ctxErr (h_connect h) (h_client h) c (h_identity h) now), Hid; [apply Hok|]|].
  intros r s1 (Hs1 & Hg & He & Hr). destruct r as [o present|err|previous].
  - destruct Hr as (Hap & Hnone & _ & p & x & Ho & Hx & Hown). apply runs_ret.
    apply (handler_step n n sys conn (Acquiring h) _ _ (Some o));
      [exact Hok|exact Hph|exact Hs1|exact Hap|..].
    + intros o' [= <-]. by right.
    + split; [discriminate| |exact I]. intros h' o' co' [= <- <- <-]. split.
      * by eapply handler_apart; [exact Hap|split; [|exists c]].
      * exists (new_owner (h_client h) p (conn_CleanSession (h_connect h))), x. by split_and!.
    + intros h' o' co' [= <- <- <-]. left. by exists h, None, Returned.
    + intros o' a' [[=]|[= <-]] _ _. reflexivity.
    + by apply epochs_later.
    + rewrite Hg, (ap_settings _ _ _ Hap). eapply group_same; [exact (sy_group _ _ Hok)|by split_and!|exact Hph|by right].
  - assert (H1 : elsewhere s s1) by (split; [exact Hs1|exact Hr|rewrite Hg; by split_and!|exact He]).
    apply (runs_step _ _ _ (λ _ s', elsewhere s s')).
    + destruct (bool_decide _); [|by apply runs_ret].
      destruct (ap_conns _ _ _ Hr _ _ Hc) as (c1' & Hc1 & _).
      eapply runs_mono; [apply (reject_runs_kept _ _ _ _ s1); [exact Hs1|by exists c1']|]. intros u s2 H2.
      eapply elsewhere_trans; [exact H1|by apply kept_elsewhere].
    + intros u s2 H2. apply runs_ret. eapply elsewhere_step; [exact Hph|reflexivity..|exact H2|exact I|by left].
  - destruct Hr as (Hap & _ & Htold). apply runs_ret. eapply elsewhere_step; [exact Hph|reflexivity..| |exact Htold|by right].
    split; [exact Hs1|exact Hap|rewrite Hg; by split_and!|exact He].
Qed.

(** Two views of one handler, that read more bytes meanwhile. *)
Definition same_handler (h h' : handler) : Prop :=
  h_client h' = h_client h ∧ h_connect h' = h_connect h ∧ h_identity h' = h_identity h
  ∧ Forall is_byte (rd_data (h_reader h')).

(** A step that leaves the rest alone, of a handler that keeps its connection. *)
Lemma move_step ph ph' s' h h' o co co' :
  sys_handlers sys !! conn = Some ph → view ph = Some (h, o, co) → view ph' = Some (h', o, co') →
  same_handler h h' → elsewhere s s' →
  (∀ o0, o = Some o0 → owner_ok s' h o0 co → owner_ok s' h o0 co') → (o = None → co' = Returned) →
  waiting_ok s' ph' → phase_flag ph' = None ∨ phase_flag ph' = phase_flag ph →
  sys_ok n (mkSystem s' (<[conn := ph']> (sys_handlers sys))).
Proof.
  intros Hph V V' (Ec & Ek & Ei & Hb) Hel Ho Hn' Hdr Hflag.
  destruct (sy_phases _ _ Hok conn ph Hph) as [_ P _]. destruct (P _ _ _ V) as [Hh Ho0].
  apply (apart_step n sys conn ph); [exact Hok|exact Hph|apply Hel|apply Hel|apply Hel|apply epochs_later, Hel|..].
  - intros h1 o1 co1. rewrite V'. intros [= <- <- <-]. split; [|split; [|by exists h, o, co]].
    + destruct (handler_apart _ _ _ h (el_apart _ _ Hel) Hh) as [_ Hc]. split; [done|]. by rewrite Ec, Ek.
    + destruct o as [o|]; [|by apply Hn'].
      assert (Hown : owner_ok s' h o co') by (apply Ho; [done|]; by eapply owner_apart; [apply Hel|..]).
      unfold owner_ok in *. rewrite Ec, Ek, Ei. done.
  - intros r ->. discriminate.
  - exact Hdr.
  - intros _. unfold phase_owner. by rewrite V, V'.
  - exact Hflag.
Qed.

Lemma same_handler_refl ph h o co :
  sys_handlers sys !! conn = Some ph → view ph = Some (h, o, co) → same_handler h h.
Proof.
  intros Hph V. destruct (sy_phases _ _ Hok conn ph Hph) as [_ P _]. destruct (P _ _ _ V) as [[Hb _] _]. by split_and!.
Qed.

(** The connection of a handler and its session. *)
Lemma handler_owner ph h o co :
  sys_handlers sys !! conn = Some ph → view ph = Some (h, Some o, co) → owner_ok s h o co.
Proof. intros Hph V. destruct (sy_phases _ _ Hok conn ph Hph) as [_ P _]. by destruct (P _ _ _ V) as [_ ?]. Qed.

Lemma serve_steps cancelled e h o co :
  sys_handlers sys !! conn = Some (Serving h o co) → steps n sys conn (do_serve cancelled e h o co).
Proof.
  intros Hph. pose proof (same_handler_refl _ h (Some o) co Hph eq_refl) as Hsame.
  destruct (handler_owner _ h o co Hph eq_refl) as (a & st & Ha & Hd & Hc & _).
  assert (Hquit : sys_ok n (mkSystem s (<[conn := Leaving h o co false]> (sys_handlers sys)))).
  { eapply move_step; [exact Hph|reflexivity|reflexivity|exact Hsame| |done|done|exact I|by right].
    apply kept_elsewhere. split; [apply Hok|reflexivity]. }
  unfold steps, do_serve. destruct cancelled; [by apply runs_ret|].
  apply runs_bind. do 2 eexists. split; [reflexivity|].
  destruct (DecodeWithLimit _ _) as [[pkt r]|err] eqn:Hdec; [|by apply runs_ret].
  destruct (Hsame) as (_ & _ & _ & Hb).
  apply (proj1 (decode_exact _ _ _ _ Hb (sy_packets _ _ Hok))) in Hdec as (data & Hpkt & _ & _ & [Et _]).
  apply runs_bind. exists (ac_session a), s. split; [unfold owner_session; by rewrite Ha|].
  destruct (keeps_handlePacket (h_client h) (ac_session a) pkt e Hpkt s) as (out & s' & Hrun & Hk%kept_elsewhere);
    [apply Hok|by exists o, a|].
  apply runs_bind. exists out, s'. split; [exact Hrun|]. apply runs_ret.
  assert (Hsame' : same_handler h (mkHandler (h_client h) (h_connect h) (h_identity h) r)).
  { split_and!; try done. rewrite Et in Hb. by apply Forall_app in Hb as [_ ?]. }
  destruct out as [[err|]|p codes];
    (eapply move_step; [exact Hph|reflexivity|reflexivity|exact Hsame'|exact Hk|done|done| |by right]); try exact I.
  by eapply handlePacket_waits.
Qed.

Lemma subscribed_steps written clock h o co p codes :
  sys_handlers sys !! conn = Some (Subscribing h o co p codes) →
  steps n sys conn (do_subscribed written clock h o co p codes).
Proof.
  intros Hph. pose proof (same_handler_refl _ h (Some o) co Hph eq_refl) as Hsame.
  destruct (handler_owner _ h o co Hph eq_refl) as (a & st & Ha & Hd & Hc & _).
  apply runs_bind. exists (ac_session a), s. split; [unfold owner_session; by rewrite Ha|].
  eapply runs_step; [apply (keeps_handleSubscribe_retained (h_client h) (ac_session a) p codes written clock s);
    [apply Hok|by exists o, a]|].
  intros [err|] s' Hk%kept_elsewhere; apply runs_ret;
    (eapply move_step; [exact Hph|reflexivity|reflexivity|exact Hsame|exact Hk|done|done|exact I|by right]).
Qed.

Lemma leave_steps clock h o co clean :
  sys_handlers sys !! conn = Some (Leaving h o co clean) → steps n sys conn (do_leave clock h o co clean).
Proof.
  intros Hph. pose proof (same_handler_refl _ h (Some o) co Hph eq_refl) as Hsame. unfold steps, do_leave.
  apply (runs_step _ _ _ (λ _ s', kept s s')).
  - assert (Hstay : kept s s) by (split; [apply Hok|reflexivity]).
    destruct (conn_Will _) as [will|]; [|by apply runs_ret]. destruct clean; [by apply runs_ret|].
    assert (Hst : Stable (λ _, True)) by done. exact (keeps_publishWill _ clock will s (sy_server _ _ Hok) I).
  - intros u s' Hk%kept_elsewhere. apply runs_ret.
    eapply move_step; [exact Hph|reflexivity|reflexivity|exact Hsame|exact Hk|done|done|exact I|by left].
Qed.

Lemma clean_steps now h o co :
  sys_handlers sys !! conn = Some (Cleaning h o co) → steps n sys conn (do_clean now h o co).
Proof.
  intros Hph. pose proof (same_handler_refl _ h o co Hph eq_refl) as Hsame. unfold steps, do_clean.
  destruct (handler_client _ h o co Hph eq_refl) as [c Hc].
  apply (runs_step _ _ _ (λ _ s', elsewhere s s')).
  - destruct o as [o|]; [|apply runs_ret, kept_elsewhere; split; [apply Hok|reflexivity]].
    destruct (handler_owner _ h o co Hph eq_refl) as (a & st & Ha & _).
    destruct (beginClosing_fields now a) as (E1 & E2 & E3 & E4 & E5).
    destruct (flags_ok s o a (beginClosing now a) (sy_server _ _ Hok) Ha E1 E2 E3 E4 (λ _, E5)) as [Hs1 Hap1].
    exists tt. eexists. split; [unfold begin_closing; by rewrite Ha|].
    split; [exact Hs1|exact Hap1|by split_and!|by apply epochs_from_states].
  - intros u s1 H1. destruct (ap_conns _ _ _ (el_apart _ _ H1) _ _ Hc) as (c1 & Hc1 & _).
    destruct (client_runs_kept (λ c, (tt, Close c)) s1 (h_client h)) as (u2 & s2 & Hrun & H2%kept_elsewhere);
      [done|apply H1|by exists c1|].
    apply runs_bind. exists u2, s2. split; [exact Hrun|]. apply runs_ret.
    eapply move_step; [exact Hph|reflexivity|reflexivity|exact Hsame|by eapply elsewhere_trans|done| | |by left];
      [|unfold on_client in Hrun; rewrite Hc1 in Hrun; simpl in Hrun;
        injection Hrun as _ <-; exists (Close c1); simpl; by rewrite lookup_insert_eq].
    intros ->. destruct (sy_phases _ _ Hok conn _ Hph) as [_ P _]. by destruct (P _ _ _ eq_refl) as [_ ?].
Qed.

Lemma drain_steps h o co :
  sys_handlers sys !! conn = Some (Draining h o co) → steps n sys conn (do_drain o).
Proof.
  intros Hph. unfold steps, do_drain. destruct o as [o|].
  - destruct (handler_owner _ h o co Hph eq_refl) as (a & st & Ha & Hd & _).
    eapply runs_step; [by apply (closeSession_runs s o a); [apply Hok|..]|].
    intros u s1 (Hs1 & Hap & Hg & He & a' & Ha' & Hd'). apply runs_ret.
    apply (handler_step n n sys conn (Draining h (Some o) co) Finished _ (Some o));
      [exact Hok|exact Hph|exact Hs1|exact Hap|..].
    + intros o' [= <-]. by left.
    + split; [discriminate|discriminate|exact I].
    + discriminate.
    + intros o' a2 [[= <-]|[= <-]] Ha2 Hd2; congruence.
    + by apply epochs_later.
    + rewrite Hg, (ap_settings _ _ _ Hap). eapply group_same; [exact (sy_group _ _ Hok)|by split_and!|exact Hph|by left].
  - apply runs_bind. exists tt, s. split; [reflexivity|]. apply runs_ret.
    apply (apart_step n sys conn (Draining h None co));
      [exact Hok|exact Hph|exact (sy_server _ _ Hok)|by apply quiet_apart|by split_and!|exact (sy_epochs _ _ Hok)
      |discriminate|discriminate|exact I|by intros []|by left].
Qed.

Lemma sys_ok_later sys0 : sys_ok n sys0 → sys_ok (n + 1) sys0.
Proof.
  intros [Hs Hp He Hph Hd Ho Hg]. split; try done. intros p st Hst. specialize (He p st Hst). lia.
Qed.

(** The last part of [do_welcome]. *)
Lemma welcome_finish h o s1 :
  n + 1 < 2 ^ 64 → sys_handlers sys !! conn = Some (Welcoming h o) → kept s s1 →
  ∀ sess, (∃ a, srv_owners s !! o = Some a ∧ ac_session a = sess) →
  runs (_ ← (λ s, Some (tt, set_group s (completeHandshake conn (srv_connections s))));
        _ ← set_ready o;
        epoch ← on_session BeginDelivery sess;
        mret (Serving h o (Running epoch))) s1
    (λ ph' s', sys_ok (n + 1) (mkSystem s' (<[conn := ph']> (sys_handlers sys)))).
Proof.
  intros Hlt Hph [Hs1 Hq1] sess (a & Ha & <-).
  destruct (handler_owner _ h o Returned Hph eq_refl) as (a' & st & Ha' & Hd & Hc & Hcl & Hst & Hown & _).
  assert (a' = a) as -> by congruence. clear Ha'.
  destruct (sq_states _ _ (qu_store _ _ Hq1) _ _ Hst) as (st1 & Hst1 & Hk1).
  apply runs_bind. exists tt. eexists. split; [reflexivity|]. set (g := completeHandshake conn (srv_connections s1)).
  assert (Hs2 : server_ok (set_group s1 g)) by (destruct Hs1; by split).
  assert (Ha1 : srv_owners (set_group s1 g) !! o = Some a) by (simpl; by rewrite (qu_owners _ _ Hq1)).
  set (a3 := mkActive (ac_client a) (ac_session a) (cleanSession a) (closing a) true (disconnectedAt a) (ac_done a)).
  destruct (flags_ok (set_group s1 g) o a a3 Hs2 Ha1 eq_refl eq_refl eq_refl eq_refl (λ E, E)) as [Hs3 Hap3].
  apply runs_bind. exists tt. eexists. split; [unfold set_ready; by rewrite Ha1|]. fold a3.
  set (s3 := set_registry _ _ _) in *.
  assert (Ha3 : srv_owners s3 !! o = Some a3) by (unfold s3; simpl; apply lookup_insert_eq).
  assert (Hroom : epoch_room st1).
  { unfold epoch_room. rewrite (lk_epoch _ _ _ Hk1). pose proof (sy_epochs _ _ Hok _ _ Hst). lia. }
  eapply runs_step; [apply (own_session_runs epoch_room BeginDelivery s3 o a3 st1);
    [by intros ? ? ? ? ? ? [= _ _ <-]|exact Hs3|exact Ha3|exact Hd|exact Hst1|exact Hroom]|].
  intros ep s4 (st4 & t4 & Hf & Es4 & Hs4 & Hap4 & Hown4 & Hep4). apply runs_ret.
  assert (Hap : apart (Some o) s s4).
  { eapply apart_trans; [|exact Hap4]. eapply apart_trans; [|destruct Hap3 as [? ? ? O3 B3 G3]; split;
      [done|done|done|intros; by apply O3|intros; by apply B3|exact G3]].
    eapply apart_trans; [by apply quiet_apart|]. split; [done|done|intros ? c0 ?; by exists c0|..].
    - intros o0 a0 Ha0 Hd0 _. exists a0. split_and!; try done. intros x Hx. exists x. split; [done|apply link_kept_refl].
    - intros o0 a0 Ha0 Hd0 _. by exists a0.
    - intros o0 a0 Ha0. by exists a0. }
  injection Hf as <- _ Est.
  apply (handler_step n (n + 1) sys conn (Welcoming h o) _ _ (Some o));
    [exact Hok|exact Hph|exact Hs4|exact Hap|..].
  - intros o' [= <-]. by left.
  - split; [discriminate| |exact I]. intros h' o' co' [= <- <- <-]. split.
    + destruct (sy_phases _ _ Hok conn _ Hph) as [_ P _]. destruct (P _ _ _ eq_refl) as [Hh _].
      by eapply handler_apart; [exact Hap|].
    + exists a3, st4. rewrite Es4. simpl. rewrite !lookup_insert_eq. split_and!; try done.
      * by rewrite Hown4, (lk_owner _ _ _ Hk1).
      * by rewrite <- Est.
  - intros h' o' co' [= <- <- <-]. left. by exists h, (Some o), Returned.
  - intros o' a2 [[= <-]|[= <-]] _ _; reflexivity.
  - rewrite Es4. eapply epochs_insert; [|exact Hst1|exact Hep4]. exact (epochs_later s1 (quiet_epochs _ _ Hq1)).
  - rewrite Es4. simpl. rewrite (qu_settings _ _ Hq1). unfold g.
    assert (Hg1 : group_ok (connectionLimits (settings s)) (srv_connections s1) (sys_handlers sys)).
    { rewrite <- (insert_id (sys_handlers sys) conn (Welcoming h o)) by done.
      eapply group_same; [exact (sy_group _ _ Hok)|by apply quiet_group|exact Hph|by right]. }
    by eapply completeHandshake_ok.
Qed.

Lemma greet_steps deadline h o present :
  sys_handlers sys !! conn = Some (Greeting h o present) → steps n sys conn (do_greet deadline h o present).
Proof.
  intros Hph. pose proof (same_handler_refl _ h (Some o) Returned Hph eq_refl) as Hsame.
  destruct (handler_client _ h (Some o) Returned Hph eq_refl) as [c Hcli].
  assert (Hquit : ∀ s1, kept s s1 →
    sys_ok n (mkSystem s1 (<[conn := Cleaning h (Some o) Returned]> (sys_handlers sys)))).
  { intros s1 H1%kept_elsewhere.
    eapply move_step; [exact Hph|reflexivity|reflexivity|exact Hsame|exact H1|done|done|exact I|by left]. }
  unfold steps, do_greet. apply runs_bind. do 2 eexists. split; [reflexivity|].
  eapply runs_step; [apply (client_runs_kept (λ c, SetWriteTimeout c (srv_writeTimeout (settings s))) s (h_client h));
    [intros c0; unfold SetWriteTimeout; by destruct (_ <=? _)|apply Hok|by exists c]|].
  intros [err|] s1 H1; [apply runs_ret; by apply Hquit|].
  destruct (ap_conns _ _ _ (el_apart _ _ (kept_elsewhere _ _ H1)) _ _ Hcli) as (c1 & Hc1 & _).
  eapply runs_step; [apply (send_runs_kept _ _ _ _ s1); [apply H1|by exists c1]|].
  intros err s2 [Hs2 Hq2]. assert (H2 : kept s s2) by (split; [done|]; transitivity s1; [apply H1|done]).
  apply runs_ret. destruct err; [by apply Hquit|]. apply kept_elsewhere in H2.
  eapply move_step; [exact Hph|reflexivity|reflexivity|exact Hsame|exact H2|done|done|exact I|by right].
Qed.

Lemma welcome_steps written cleared h o :
  n + 1 < 2 ^ 64 → sys_handlers sys !! conn = Some (Welcoming h o) →
  steps (n + 1) sys conn (do_welcome written cleared conn h o).
Proof.
  intros Hlt Hph. pose proof (same_handler_refl _ h (Some o) Returned Hph eq_refl) as Hsame.
  destruct (handler_owner _ h o Returned Hph eq_refl) as (a & st & Ha & _).
  assert (Hstay : kept s s) by (split; [apply Hok|reflexivity]).
  destruct written as [err|]; [|destruct cleared as [err|]].
  1, 2: apply runs_ret, sys_ok_later; eapply move_step;
    [exact Hph|reflexivity|reflexivity|exact Hsame|by apply kept_elsewhere|done|done|exact I|by left].
  apply runs_bind. exists (ac_session a), s. split; [unfold owner_session; by rewrite Ha|].
  by eapply welcome_finish; [..|exists a].
Qed.

(** ** The consumer *)

Lemma view_consumer ph h o co : consumer_of ph = Some (h, o, co) → view ph = Some (h, Some o, co).
Proof. destruct ph as [| | | | | | | | |? [?|] ?|? [?|] ?|]; simpl; by intros [=]; subst. Qed.

Lemma view_set_consumer ph h o co co' :
  consumer_of ph = Some (h, o, co) → view (set_consumer co' ph) = Some (h, Some o, co').
Proof. destruct ph as [| | | | | | | | |? [?|] ?|? [?|] ?|]; simpl; by intros [=]; subst. Qed.

Lemma waiting_set_consumer s0 co ph : waiting_ok s0 ph → waiting_ok s0 (set_consumer co ph).
Proof. by destruct ph. Qed.

Lemma flag_set_consumer co ph : phase_flag (set_consumer co ph) = phase_flag ph.
Proof. by destruct ph. Qed.

(** One iteration of the consumer is quiet, and it blocks only when there is
    nothing to send. *)
Lemma consume_runs cancelled h o ep :
  owner_ok s h o (Running ep) → is_Some (srv_conns s !! h_client h) →
  ∀ a, srv_owners s !! o = Some a →
  runs (do_consume cancelled (h_client h) (ac_session a) ep) s
    (λ co' s', kept s s' ∧ owner_ok s' h o co').
Proof.
  intros Hown [c Hc] a Ha. pose proof Hown as (a' & st & Ha' & Hd & Hcli & Hcl & Hst & Hwho & Hep).
  assert (a' = a) as -> by congruence. clear Ha'.
  assert (Hpost : ∀ s' co', kept s s' → (∀ st', states (srv_sessions s') !! ac_session a = Some st' →
    epoch st' = ep → consumer_ok (limits (srv_sessions s)) st' co') → kept s s' ∧ owner_ok s' h o co').
  { intros s' co' Hk Hco. split; [exact Hk|]. destruct Hk as [_ Hq]. pose proof (qu_store _ _ Hq) as Hsq.
    destruct (sq_states _ _ Hsq _ _ Hst) as (st' & Hst' & Hlk). exists a, st'.
    rewrite (qu_owners _ _ Hq), (lk_owner _ _ _ Hlk), (sq_limits _ _ Hsq). split_and!; try done.
    apply Hco; [done|]. by rewrite (lk_epoch _ _ _ Hlk). }
  unfold do_consume. eapply runs_step; [by apply (on_client_runs (λ c, (c_done c, c)) s (h_client h) c)|].
  intros closed s1 (_ & E1 & Hq1). cbn [snd] in E1. rewrite insert_id in E1 by done.
  assert (s1 = s) as -> by (rewrite E1; by destruct (sys_server sys)). clear E1 Hq1.
  assert (Hstay : kept s s) by (split; [apply Hok|reflexivity]).
  destruct (cancelled || closed); [apply runs_ret; by apply Hpost|].
  eapply runs_step; [apply (on_session_runs always (Next ep) s (ac_session a) st);
    [apply (sv_store _ (sy_server _ _ Hok))|done|done]|].
  intros d s2 (st2 & t2 & Hnext & Es2 & Hst2 & Hlk2 & Hq2).
  assert (H2 : kept s s2).
  { destruct (session_runs_kept always (Next ep) s (ac_session a) st (sy_server _ _ Hok) Hst I) as (d' & s2' & Hr & Hk).
    unfold on_session, call in Hr. rewrite Hst in Hr. simpl in Hr. rewrite Hnext in Hr. simpl in Hr.
    rewrite Es2. assert (E : s2' = set_sessions s (mkStore (st_data (srv_sessions s))
      (<[ac_session a := st2]> (states (srv_sessions s))) (limits (srv_sessions s)) t2)) by congruence.
    by rewrite <- E. }
  destruct d as [d|].
  - assert (Hc2 : is_Some (srv_conns s2 !! h_client h)) by (rewrite Es2; by exists c).
    eapply runs_step; [apply (client_runs_kept (λ c, enqueue c (mkWrite (Data d) (Some 0%nat) 0)) s2 (h_client h));
      [apply enqueue_kept|apply H2|done]|]. intros err s3 [Hs3 Hq3].
    assert (H3 : kept s s3) by (split; [done|]; transitivity s2; [apply H2|done]).
    assert (Hc3 : is_Some (srv_conns s3 !! h_client h)).
    { destruct Hc2 as [c2 Hc2]. pose proof (qu_conns _ _ Hq3 (h_client h)) as E. rewrite Hc2 in E.
      destruct (srv_conns s3 !! h_client h); [by eexists|done]. }
    destruct err as [e|]; [|apply runs_ret; by apply Hpost].
    eapply runs_step; [by apply (client_runs_kept (λ c, (tt, Close c)) s3 (h_client h))|].
    intros u s4 [Hs4 Hq4]. apply runs_ret. apply Hpost; [|done]. split; [done|]. transitivity s3; [apply H3|done].
  - apply runs_ret. apply Hpost; [done|]. intros st' Hst' He. split; [done|]. simpl in Hep. rewrite <- Hep in Hnext.
    apply Next_none in Hnext as [-> Hcan]. rewrite Es2 in Hst'. simpl in Hst'. rewrite lookup_insert_eq in Hst'.
    injection Hst' as <-. unfold blocked_ok. by rewrite Hcan.
Qed.

Lemma consume_steps cancelled ph h o ep :
  sys_handlers sys !! conn = Some ph → consumer_of ph = Some (h, o, Running ep) →
  steps n sys conn (sess ← owner_session o; co ← do_consume cancelled (h_client h) sess ep;
                    mret (set_consumer co ph)).
Proof.
  intros Hph V0. pose proof (view_consumer _ _ _ _ V0) as V. pose proof (same_handler_refl _ _ _ _ Hph V) as Hsame.
  pose proof (handler_owner _ _ _ _ Hph V) as Hown. pose proof Hown as (a & st & Ha & _).
  apply runs_bind. exists (ac_session a), s. split; [unfold owner_session; by rewrite Ha|].
  eapply runs_step; [apply (consume_runs cancelled h o ep Hown); [by eapply handler_client|exact Ha]|].
  intros co' s' [Hk Hown']. apply runs_ret.
  eapply move_step; [exact Hph|exact V|by eapply view_set_consumer|exact Hsame|by apply kept_elsewhere| |done| |].
  - by intros o0 [= <-] _.
  - apply waiting_set_consumer. eapply (waiting_apart None); [apply quiet_apart, Hk|]. by apply (sy_phases _ _ Hok conn).
  - right. apply flag_set_consumer.
Qed.

Lemma sent_steps written ph h o ep :
  sys_handlers sys !! conn = Some ph → consumer_of ph = Some (h, o, Sending ep) →
  steps n sys conn (co ← do_sent written (h_client h) ep; mret (set_consumer co ph)).
Proof.
  intros Hph V0. pose proof (view_consumer _ _ _ _ V0) as V. pose proof (same_handler_refl _ _ _ _ Hph V) as Hsame.
  pose proof (handler_owner _ _ _ _ Hph V) as Hown.
  assert (Hmove : ∀ s' co', kept s s' → co' = Running ep ∨ co' = Returned →
    sys_ok n (mkSystem s' (<[conn := set_consumer co' ph]> (sys_handlers sys)))).
  { intros s' co' Hk Hco'. eapply move_step; [exact Hph|exact V|by eapply view_set_consumer|exact Hsame|by apply kept_elsewhere| |done| |].
    - intros o0 [= <-] (a & st & H). exists a, st. by destruct Hco' as [->| ->], H as (?&?&?&?&?&?&?).
    - apply waiting_set_consumer. eapply (waiting_apart None); [apply quiet_apart, Hk|]. by apply (sy_phases _ _ Hok conn).
    - right. apply flag_set_consumer. }
  assert (Hstay : kept s s) by (split; [apply Hok|reflexivity]). unfold steps, do_sent. destruct written as [err|].
  - apply (runs_step _ _ _ (λ co' s', kept s s' ∧ co' = Returned)).
    + eapply runs_step; [apply (client_runs_kept (λ c, (tt, Close c)) s (h_client h)); [done|apply Hok|by eapply handler_client]|].
      intros u s1 H1. by apply runs_ret.
    + intros co' s1 [H1 ->]. apply runs_ret. apply Hmove; [exact H1|by right].
  - apply runs_bind. exists (Running ep), s. split; [reflexivity|]. apply runs_ret, Hmove; [exact Hstay|by left].
Qed.

Lemma wake_steps w ph h o ep :
  sys_handlers sys !! conn = Some ph → consumer_of ph = Some (h, o, Blocked ep) →
  steps n sys conn (sess ← owner_session o; co ← do_wake w sess ep; mret (set_consumer co ph)).
Proof.
  intros Hph V0. pose proof (view_consumer _ _ _ _ V0) as V. pose proof (same_handler_refl _ _ _ _ Hph V) as Hsame.
  destruct (handler_owner _ _ _ _ Hph V) as (a & st & Ha & Hd & Hc & Hcl & Hst & Hwho & Hep & _).
  apply runs_bind. exists (ac_session a), s. split; [unfold owner_session; by rewrite Ha|].
  assert (Hstop : runs (co ← mret Returned; mret (set_consumer co ph)) s
    (λ ph' s', sys_ok n (mkSystem s' (<[conn := ph']> (sys_handlers sys))))).
  { apply runs_bind. exists Returned, s. split; [reflexivity|]. apply runs_ret.
    eapply move_step; [exact Hph|exact V|by eapply view_set_consumer|exact Hsame| | |done| |right; apply flag_set_consumer].
    + apply kept_elsewhere. split; [apply Hok|reflexivity].
    + intros o0 [= <-] _. by exists a, st.
    + apply waiting_set_consumer. by apply (sy_phases _ _ Hok conn). }
  destruct w; [|exact Hstop|exact Hstop]. simpl.
  - destruct (own_session_runs always receive_changed s o a st) as (b & s1 & Hrun & st1 & t1 & Hf & Es1 & Hs1 & Hap1 & Hown1 & _);
      [by intros ? ? ? ? ? ? [= _ _ <-]|apply Hok|done|done|done|done|].
    apply runs_bind. exists (Running ep), s1. split; [unfold mbind, action_bind; by rewrite Hrun|].
    injection Hf as _ _ Est1. apply runs_ret.
    pose proof (view_set_consumer ph h o _ (Running ep) V0) as V'.
    apply (handler_step n n sys conn ph _ _ (Some o)); [exact Hok|exact Hph|exact Hs1|exact Hap1|..].
    + intros o' [= <-]. left. unfold phase_owner. by rewrite V.
    + split; [by intros r E; rewrite E in V'| |apply waiting_set_consumer; eapply waiting_apart;
        [exact Hap1|by apply (sy_phases _ _ Hok conn)]]. intros h' o' co'. rewrite V'. intros [= <- <- <-]. split.
      * destruct (sy_phases _ _ Hok conn _ Hph) as [_ P _]. destruct (P _ _ _ V) as [Hh _]. by eapply handler_apart.
      * exists a, st1. rewrite Es1. simpl. rewrite lookup_insert_eq, Hown1. split_and!; try done. by rewrite <- Est1.
    + intros h' o' co'. rewrite V'. intros [= <- <- <-]. left. by exists h, (Some o), (Blocked ep).
    + intros o' a2 Ho _ _. unfold phase_owner in *. rewrite V' in *. rewrite V in Ho. simpl in *. by destruct Ho.
    + rewrite Es1. apply epochs_later. apply (epochs_from_insert _ _ _ st). left. by rewrite <- Est1.
    + rewrite Es1. simpl. eapply group_same; [exact (sy_group _ _ Hok)|by split_and!|exact Hph|right; apply flag_set_consumer].
Qed.
End steps.

(** * Events *)

Lemma phase_step_steps kdf n sys conn i ph act :
  0 <= n → n + 1 < 2 ^ 64 → sys_ok n sys → sys_handlers sys !! conn = Some ph →
  phase_step kdf conn i ph = Some act → steps (n + 1) sys conn act.
Proof.
  intros H0 Hlt Hok Hph Hact.
  assert (Hlater : ∀ m, steps n sys conn m → steps (n + 1) sys conn m).
  { intros m Hm. eapply runs_mono; [exact Hm|]. intros ph' s'. by apply sys_ok_later. }
  destruct i as [failed|c1 c2 c3 dl w|ctxErr now dl w|cancelled|dl|w cl|cancelled e|w ck|clock|now| |cancelled|w|stopped];
    simpl in Hact.
  12, 13, 14: destruct (consumer_of ph) as [[[h o] [ep|ep|ep|]]|] eqn:V; try discriminate Hact;
    injection Hact as <-; apply Hlater; first [by eapply consume_steps|by eapply sent_steps|by eapply wake_steps].
  all: destruct ph as [r|h|h|h previous|h o present|h o|h o co|h o co p codes|h o co clean|h o co|h o [ep|ep|ep|]|];
    try discriminate Hact; injection Hact as <-.
  - by eapply Hlater, handshake_steps.
  - by eapply Hlater, authenticate_steps.
  - by eapply Hlater, acquire_steps.
  - by eapply Hlater, await_steps.
  - by eapply Hlater, greet_steps.
  - by eapply welcome_steps.
  - by eapply Hlater, serve_steps.
  - by eapply Hlater, subscribed_steps.
  - by eapply Hlater, leave_steps.
  - by eapply Hlater, clean_steps.
  - by eapply Hlater, drain_steps.
Qed.

(** An event that starts or ends a handler. *)
Lemma group_step n sys g hs :
  sys_ok n sys → group_ok (connectionLimits (settings (sys_server sys))) g hs →
  (∀ conn ph, hs !! conn = Some ph → sys_handlers sys !! conn = Some ph
     ∨ ∃ r, ph = Handshaking r ∧ Forall is_byte (rd_data r)) →
  (∀ conn ph, sys_handlers sys !! conn = Some ph → phase_owner ph ≠ None → hs !! conn = Some ph) →
  sys_ok n (mkSystem (set_group (sys_server sys) g) hs).
Proof.
  intros Hok Hg Hin Hout. pose proof (sy_server _ _ Hok) as Hs.
  assert (Hview : ∀ conn ph h o co, hs !! conn = Some ph → view ph = Some (h, o, co) → sys_handlers sys !! conn = Some ph).
  { intros conn ph h o co Hl V. destruct (Hin conn ph Hl) as [?|(r & -> & _)]; [done|discriminate V]. }
  split; cbn [sys_server sys_handlers].
  - destruct Hs. by split.
  - exact (sy_packets _ _ Hok).
  - exact (sy_epochs _ _ Hok).
  - intros conn ph Hl. destruct (Hin conn ph Hl) as [Hl'|(r & -> & Hr)];
      [destruct (sy_phases _ _ Hok conn ph Hl') as [P1 P2 P3]; split; [exact P1|exact P2|exact P3]|].
    split; [by intros r' [= <-]|discriminate|exact I].
  - intros conn1 conn2 ph1 ph2 h1 h2 o1 o2 co1 co2 H1 H2 V1 V2 E.
    eapply (sy_distinct _ _ Hok conn1 conn2 ph1 ph2); eauto.
  - intros o a Ha Hd. destruct (sy_owned _ _ Hok o a Ha Hd) as (conn & ph & Hph & Ho). exists conn, ph.
    split; [|done]. apply Hout; [done|congruence].
  - exact Hg.
Qed.

Lemma start_ok l g hs ctxErr conn r o g' :
  group_ok l g hs → hs !! conn = None → start ctxErr conn l g = (o, g') →
  group_ok l g' (if decide (o = Started) then <[conn := Handshaking r]> hs else hs).
Proof.
  intros [N F H S C M] Hconn Hstart. unfold start in Hstart.
  destruct ctxErr; [injection Hstart as <- <-; by split|].
  destruct (_ || _) eqn:Hfull; injection Hstart as <- <-; simpl.
  { split; simpl; try done; destruct (MaxConnections l <=? _); done. }
  bool_to_prop. pose proof (N conn Hconn) as Hnone. split; simpl; try lia.
  - intros conn0 [Hl0 Hne]%lookup_insert_None. rewrite lookup_insert_ne by done. by apply N.
  - intros conn0 ph0 [[<- <-]|[Hne Hl]]%lookup_insert_Some.
    + exists true. rewrite lookup_insert_eq. auto.
    + rewrite lookup_insert_ne by done. by apply F.
  - rewrite H. unfold msize. rewrite map_size_insert_None by done. lia.
  - rewrite msum_insert_None by done. lia.
  - unfold msize in *. rewrite map_size_insert_None by done. lia.
Qed.

Lemma finish_ok l g hs conn ph :
  group_ok l g hs → hs !! conn = Some ph → ∃ g', finish conn g = Some g' ∧ group_ok l g' (delete conn hs).
Proof.
  intros [N F H S C M] Hph. destruct (F conn ph Hph) as (b & Hb & _). unfold finish, handlers_Done, in_handshake. rewrite Hb. simpl.
  assert (0 < msize hs) by (unfold msize; pose proof (proj2 (map_size_ne_0_lookup hs) (ex_intro _ conn (ex_intro _ _ Hph))); lia).
  destruct (Z.ltb_spec (handlers g - 1) 0) as [|_]; [lia|]. eexists. split; [reflexivity|].
  pose proof (msum_delete (λ b : bool, if b then 1 else 0) _ _ _ Hb) as Hsum. simpl in Hsum.
  assert (Hsize : msize (delete conn (connections g)) <= msize (connections g)).
  { unfold msize. rewrite map_size_delete_Some by eauto. lia. }
  split; simpl; try lia.
  - intros conn0 Hl. destruct (decide (conn0 = conn)) as [->|Hne]; [apply lookup_delete_eq|].
    rewrite lookup_delete_ne in Hl by done. rewrite lookup_delete_ne by done. by apply N.
  - intros conn0 ph0 [Hne Hl]%lookup_delete_Some. rewrite lookup_delete_ne by done. by apply F.
  - rewrite H. unfold msize. rewrite map_size_delete_Some by eauto.
    pose proof (proj2 (map_size_ne_0_lookup hs) (ex_intro _ conn (ex_intro _ _ Hph))). lia.
  - destruct b; simpl; lia.
  - destruct b; simpl; lia.
Qed.

(** The writer of a client. *)
Lemma writer_next_inv c w q : writer_next c = Some (w, q) → c_writeDone c = false ∧ sendQ c = w :: q.
Proof. unfold writer_next. destruct (c_writeDone c); [discriminate|]. destruct (sendQ c); [discriminate|]. by intros [= -> ->]. Qed.

Lemma writer_kept c w q set k err c' :
  c_writeDone c = false → writeLoop_write c w q set k err = Some c' → client_kept c c'.
Proof. intros Hw. rewrite (writeLoop_write_open _ _ _ _ _ _ Hw). intros [= <-]. split; [done|]. simpl. by intros ->. Qed.

Lemma exit_kept c c' : writeLoop_exit c = Some c' → client_kept c c'.
Proof. unfold writeLoop_exit, close_writeDone. destruct (c_writeDone c); [discriminate|]. by intros [= <-]. Qed.

(** What the events of a writer and the end of a handler do. *)
Lemma exec_finish_inv kdf conn sys sys' :
  sys_exec kdf (EvFinish conn) sys = Some sys' →
  ∃ g, finish conn (srv_connections (sys_server sys)) = Some g
    ∧ sys' = mkSystem (set_group (sys_server sys) g) (delete conn (sys_handlers sys)).
Proof. cbn [sys_exec]. intros (g & Hg & E)%bind_Some. exists g. split; [exact Hg|congruence]. Qed.

Lemma exec_write_inv kdf cli set k err sys sys' :
  sys_exec kdf (EvWrite cli set k err) sys = Some sys' →
  ∃ c w q c', srv_conns (sys_server sys) !! cli = Some c ∧ writer_next c = Some (w, q)
    ∧ writeLoop_write c w q set k err = Some c'
    ∧ sys' = mkSystem (set_conns (sys_server sys) (<[cli := c']> (srv_conns (sys_server sys)))) (sys_handlers sys).
Proof.
  cbn [sys_exec]. intros (c & Hc & H)%bind_Some. apply bind_Some in H as ([w q] & Hn & H). apply bind_Some in H as (c' & Hw & E).
  exists c, w, q, c'. split; [exact Hc|]. split; [exact Hn|]. split; [exact Hw|congruence].
Qed.

Lemma exec_exit_inv kdf cli sys sys' :
  sys_exec kdf (EvExit cli) sys = Some sys' →
  ∃ c c', srv_conns (sys_server sys) !! cli = Some c ∧ writeLoop_exit c = Some c'
    ∧ sys' = mkSystem (set_conns (sys_server sys) (<[cli := c']> (srv_conns (sys_server sys)))) (sys_handlers sys).
Proof.
  cbn [sys_exec]. intros (c & Hc & H)%bind_Some. apply bind_Some in H as (c' & Hx & E). exists c, c'.
  split; [exact Hc|]. split; [exact Hx|congruence].
Qed.

Lemma client_step_ok n sys cli c c' :
  0 <= n → sys_ok n sys → srv_conns (sys_server sys) !! cli = Some c → client_kept c c' →
  sys_ok n (mkSystem (set_conns (sys_server sys) (<[cli := c']> (srv_conns (sys_server sys)))) (sys_handlers sys)).
Proof.
  intros H0 Hok Hc Hid. pose proof (set_conns_quiet _ cli c c' Hc Hid) as Hq. pose proof (sy_server _ _ Hok) as Hs.
  apply outside_step; [exact Hok| |by apply quiet_apart|done|].
  - eapply server_ok_quiet; [exact Hs|exact Hq|apply Hs..].
  - eapply epochs_below_from; [done|by apply quiet_epochs|apply Hok].
Qed.

Lemma bytes_of_forallb (l : bytes) : forallb (λ b, (0 <=? b) && (b <? 256)) l = true → Forall is_byte l.
Proof.
  intros Hl. apply Forall_forall. intros b Hin. rewrite forallb_forall in Hl.
  specialize (Hl b (proj1 (list_elem_of_In _ _) Hin)). bool_to_prop. by split.
Qed.

(** Every event that can happen returns, and keeps the invariant. *)
Lemma sys_exec_ok kdf n sys e :
  0 <= n → n + 1 < 2 ^ 64 → sys_ok n sys → sys_enabled kdf e sys = true →
  ∃ sys', sys_exec kdf e sys = Some sys' ∧ sys_ok (n + 1) sys'.
Proof.
  intros H0 Hlt Hok Hen. destruct e as [ctxErr conn r|conn i|conn|cli set k err|cli|now]; simpl in Hen; simpl.
  - bool_to_prop. destruct (start _ _ _ _) as [o g] eqn:Hstart. eexists. split; [done|]. apply sys_ok_later.
    pose proof (start_ok _ _ _ ctxErr conn r o g (sy_group _ _ Hok) ltac:(done) Hstart) as Hg.
    apply group_step; [exact Hok|exact Hg|..]; destruct (decide (o = Started)); auto.
    + intros conn0 ph [[<- <-]|[_ Hl]]%lookup_insert_Some; [right|by left]. exists r. split; [done|].
      by apply bytes_of_forallb.
    + intros conn0 ph Hl _. rewrite lookup_insert_ne; [done|]. congruence.
  - destruct (sys_handlers sys !! conn) as [ph|] eqn:Hph; [|done]. bool_to_prop. simpl.
    destruct (phase_step kdf conn i ph) as [act|] eqn:Hact; [|by destruct H as [? ?]]. simpl.
    destruct (phase_step_steps kdf n sys conn i ph act H0 Hlt Hok Hph Hact) as (ph' & s' & Hrun & Hok').
    rewrite Hrun. simpl. eauto.
  - destruct (sys_handlers sys !! conn) as [[]|] eqn:Hph; try done.
    destruct (finish_ok _ _ _ conn _ (sy_group _ _ Hok) Hph) as (g & -> & Hg). simpl. eexists. split; [done|]. apply sys_ok_later.
    apply group_step; [exact Hok|exact Hg|..].
    + intros conn0 ph [_ Hl]%lookup_delete_Some. by left.
    + intros conn0 ph Hl Ho. rewrite lookup_delete_ne; [done|]. intros <-. rewrite Hph in Hl. by injection Hl as <-.
  - destruct (srv_conns (sys_server sys) !! cli) as [c|] eqn:Hc; [|done]. simpl.
    destruct (writer_next c) as [[w q]|] eqn:Hnext; [|done]. apply writer_next_inv in Hnext as [Hw _]. simpl.
    destruct (writeLoop_write c w q set k err) as [c'|] eqn:Hc'; [|by rewrite writeLoop_write_open in Hc'].
    simpl. eexists. split; [done|]. apply sys_ok_later. apply (client_step_ok n sys cli c); [done..|]. by eapply writer_kept.
  - destruct (srv_conns (sys_server sys) !! cli) as [c|] eqn:Hc; [|done]. simpl. apply andb_true_iff in Hen as [_ Hw].
    apply negb_true_iff in Hw. destruct (writeLoop_exit c) as [c'|] eqn:Hx; [|by rewrite writeLoop_exit_open in Hx].
    simpl. eexists. split; [done|]. apply sys_ok_later. apply (client_step_ok n sys cli c); [done..|]. by apply exit_kept.
  - destruct (expire_runs now (sys_server sys) (sy_server _ _ Hok)) as (u & s' & Hrun & Hs' & Hap & Hg & He).
    rewrite Hrun. simpl. eexists. split; [done|]. apply sys_ok_later.
    apply outside_step; [exact Hok|exact Hs'|exact Hap|exact Hg|]. eapply epochs_below_from; [done|exact He|apply Hok].
Qed.

Lemma new_system_ok sets policy b st :
  configured policy b st → Start_checks (New_server sets policy b st) = None → sys_ok 0 (new_system sets policy b st).
Proof.
  intros [Hpol (bl & Hb) (l & Hst)] Hstart.
  assert (Hempty : st_data st = ∅ ∧ states st = ∅).
  { unfold NewWithLimits in Hst. destruct (Limits_Validate l); [done|]. by injection Hst as <-. }
  destruct Hempty as [Ed Es]. apply NewWithLimits_ok in Hst as Hok.
  assert (Hbr : topics b = NewTree).
  { unfold Broker_NewWithLimits in Hb. destruct (RetainedLimits_Validate bl); [done|]. by injection Hb as <-. }
  apply Broker_NewWithLimits_ok in Hb.
  unfold Start_checks, New_server in Hstart. simpl in Hstart.
  destruct (negb _); [discriminate|]. destruct (ConnectionLimits_Validate _) eqn:Hlim; [discriminate|].
  destruct (srv_writeTimeout sets <=? 0); [discriminate|].
  destruct (_ || _) eqn:Hmax; [discriminate|]. unfold ConnectionLimits_Validate in Hlim.
  destruct (_ || _) eqn:Hl in Hlim; [discriminate|]. bool_to_prop.
  split; cbn [sys_server sys_handlers new_system New_server].
  - split; simpl.
    + exact Hok.
    + split; [exact Hb|]. intros ls c sub. rewrite Hbr. simpl. by rewrite find_empty.
    + intros lo Hlo. destruct (Hpol lo Hlo) as (procs & users & Hn). by apply NewLocal_ok in Hn as [? _].
    + intros f c. rewrite Hbr. simpl. rewrite find_empty. unfold session_route. by rewrite Ed.
    + intros id o. by rewrite lookup_empty.
    + intros o a. by rewrite lookup_empty.
    + intros id p x. by rewrite Ed, lookup_empty.
  - done.
  - intros p x. simpl. by rewrite Es, lookup_empty.
  - intros conn ph. by rewrite lookup_empty.
  - intros conn1 conn2 ph1 ph2 h1 h2 o1 o2 co1 co2. by rewrite lookup_empty.
  - intros o a Ho. simpl in Ho. by apply lookup_empty_Some in Ho.
  - split; simpl; try done.
    + unfold msize. rewrite map_size_empty. lia.
    + lia.
Qed.

Lemma reachable_sys_ok kdf n sys : sys_reachable kdf n sys → Z.of_nat n < 2 ^ 64 → sys_ok (Z.of_nat n) sys.
Proof.
  induction 1 as [sets policy b st Hcf Hstart|n sys e sys' Hr IH Hen Hex]; intros Hlt; [by apply new_system_ok|].
  destruct (sys_exec_ok kdf (Z.of_nat n) sys e) as (sys1 & Hex1 & Hok1); [lia|lia|apply IH; lia|done|].
  rewrite Hex in Hex1. injection Hex1 as <-. by replace (Z.of_nat (S n)) with (Z.of_nat n + 1) by lia.
Qed.
