(* ===== verification/ServerTheorems.v ===== *)
(** What holds in every state the server can reach: no event panics, the routes
    follow the sessions, a client has one connection and its owner's session, no
    connection waits for ever, and the limits on connections hold. *)

From S2P Require Import Prelude Topic Wire Filters Encoder Decoder Codec CodecProofs Tree.
From S2P Require Import Broker Session SessionQueue SessionStore SessionProofs Delivery Auth AuthProofs Client.
From S2P Require Import Server Handlers Lifecycle ServerInv Ownership SystemProofs.

Local Open Scope Z_scope.
Local Open Scope orb_scope.

(** * A run *)

Section run.
Context (kdf : bytes → bytes → Z → Z → result bytes).

Fixpoint run_events (es : list sys_event) (sys : System) : option System :=
  match es with
  | [] => Some sys
  | e :: es =>
      if sys_enabled kdf e sys then (sys' ← sys_exec kdf e sys; run_events es sys') else None
  end.

Lemma run_events_reachable es n sys sys' :
  sys_reachable kdf n sys → run_events es sys = Some sys' → sys_reachable kdf (n + length es) sys'.
Proof.
  revert n sys. induction es as [|e es IH]; intros n sys Hr; simpl.
  - intros [= <-]. by rewrite Nat.add_0_r.
  - destruct (sys_enabled kdf e sys) eqn:Hen; [|done].
    destruct (sys_exec kdf e sys) as [sys1|] eqn:Hex; [|done]. simpl. intros Hrun.
    replace (n + S (length es))%nat with (S n + length es)%nat by lia. eapply IH; [|exact Hrun]. by eapply sys_next.
Qed.

Lemma run_events_app es1 es2 sys :
  run_events (es1 ++ es2) sys = (sys1 ← run_events es1 sys; run_events es2 sys1).
Proof.
  revert sys. induction es1 as [|e es1 IH]; intros sys; simpl; [reflexivity|].
  destruct (sys_enabled kdf e sys); [|reflexivity]. destruct (sys_exec kdf e sys) as [sys1|]; [apply IH|reflexivity].
Qed.
End run.

Definition no_kdf (password salt : bytes) (iterations length : Z) : result bytes := Error ErrCredentials.

Definition example_system : System :=
  new_system (default_settings (bs "127.0.0.1:1883")) None
    (mkBroker NewTree ∅ DefaultRetainedLimits (mkRetainedStats 0 0 0)) (mkStore ∅ ∅ DefaultLimits zero_snapshot).

Lemma example_system_reachable kdf : sys_reachable kdf 0 example_system.
Proof.
  apply sys_start; [|reflexivity]. split; [discriminate|by exists DefaultRetainedLimits|by exists DefaultLimits].
Qed.

(** CONNECT of client "a", clean, no keep-alive; SUBSCRIBE to "x" at QoS 1; PUBLISH
    to "x" at QoS 1. *)
Definition example_stream : bytes :=
  [16; 13; 0; 4; 77; 81; 84; 84; 4; 2; 0; 0; 0; 1; 97]
  ++ [130; 6; 0; 1; 0; 1; 120; 1] ++ [50; 6; 0; 1; 120; 0; 2; 104].

Definition example_env : environment := mkEnv None (λ _, 7).

(** The client connects, its consumer finds nothing, it subscribes and publishes. *)
Definition example_events : list sys_event :=
  [EvAccept None 0 (mkReader example_stream EOF);
   EvHandler 0 (IHandshake None);
   EvHandler 0 (IAuthenticate None None None 10 None);
   EvHandler 0 (IAcquire None 5 10 None);
   EvHandler 0 (IGreet 10);
   EvHandler 0 (IWelcome None None);
   EvHandler 0 (IConsume false);
   EvHandler 0 (IServe false example_env);
   EvHandler 0 (ISubAck None (λ _ _, 7));
   EvHandler 0 (IServe false example_env)].

Lemma example_run : ∃ sys, run_events no_kdf example_events example_system = Some sys
  ∧ sys_reachable no_kdf 10 sys.
Proof.
  assert (Hsome : match run_events no_kdf example_events example_system with Some _ => true | None => false end = true)
    by (vm_compute; reflexivity).
  destruct (run_events no_kdf example_events example_system) as [sys|] eqn:Hrun; [|discriminate Hsome].
  exists sys. split; [done|]. apply (run_events_reachable no_kdf example_events 0 example_system sys); [|done].
  apply example_system_reachable.
Qed.

(** * Theorems *)

(** C1: no panic: in every reachable state, every event that can happen returns: no nil
    pointer, no index out of range, no channel closed a second time, no wait group
    below zero.  The events are the acceptance of a connection, every step of a handler
    and of its consumer with any packets, results and times, the writers and the expiry
    ticker, in any order (fewer than 2^64 events, so that epochs do not wrap). *)
Theorem server_never_panics kdf n sys e :
  sys_reachable kdf n sys → Z.of_nat n + 1 < 2 ^ 64 → sys_enabled kdf e sys = true →
  ∃ sys', sys_exec kdf e sys = Some sys'.
Proof.
  intros Hr Hlt Hen. pose proof (reachable_sys_ok kdf n sys Hr ltac:(lia)) as Hok.
  destruct (sys_exec_ok kdf (Z.of_nat n) sys e) as (sys' & Hex & _); [lia|lia|done|done|]. by exists sys'.
Qed.

Lemma server_never_panics_witness :
  ∃ sys', sys_exec no_kdf (EvAccept None 3 (mkReader example_stream EOF)) example_system = Some sys'.
Proof.
  apply (server_never_panics no_kdf 0 example_system); [apply example_system_reachable|lia|reflexivity].
Defined.

(** C2: the routing tree follows the sessions: in every reachable state the tree has a
    route for a filter and a client iff the session of that client in the store has
    that subscription; the route leads to that session, at its QoS.  So subscribing,
    unsubscribing, take-over, clean sessions, disconnection and expiry leave no
    dangling route and lose none. *)
Theorem routes_follow_sessions kdf n sys f c sub :
  sys_reachable kdf n sys → Z.of_nat n < 2 ^ 64 →
  find (root (topics (srv_broker (sys_server sys)))) (splitFilter f) c = Some sub ↔
  ∃ p st, st_data (srv_sessions (sys_server sys)) !! c = Some p
    ∧ states (srv_sessions (sys_server sys)) !! p = Some st
    ∧ subscriptions st !! f = Some (sub_QoS sub) ∧ sub = mkSubscription c (mkSubscriber p c) (sub_QoS sub).
Proof.
  intros Hr Hlt. pose proof (reachable_sys_ok kdf n sys Hr Hlt) as Hok.
  rewrite (sv_routes _ (sy_server _ _ Hok) f c). unfold session_route, subscriber. split.
  - intros (p & Hp & (st & Hst & (q & Hq & [= <-])%bind_Some)%bind_Some)%bind_Some. by exists p, st.
  - intros (p & st & Hp & Hst & Hq & E). rewrite Hp. simpl. rewrite Hst. simpl. rewrite Hq. simpl. by rewrite <- E.
Qed.

Lemma routes_follow_sessions_witness :
  ∃ sys p st, run_events no_kdf example_events example_system = Some sys
    ∧ st_data (srv_sessions (sys_server sys)) !! bs "a" = Some p
    ∧ states (srv_sessions (sys_server sys)) !! p = Some st ∧ subscriptions st !! bs "x" = Some 1.
Proof.
  destruct example_run as (sys & Hrun & Hr). exists sys.
  assert (Hfind : match run_events no_kdf example_events example_system with
    | Some sys => find (root (topics (srv_broker (sys_server sys)))) (splitFilter (bs "x")) (bs "a")
    | None => None
    end = Some (mkSubscription (bs "a") (mkSubscriber 0 (bs "a")) 1)) by (vm_compute; reflexivity).
  rewrite Hrun in Hfind.
  destruct (proj1 (routes_follow_sessions no_kdf 10 sys (bs "x") (bs "a") (mkSubscription (bs "a") (mkSubscriber 0 (bs "a")) 1)
    Hr ltac:(vm_compute; reflexivity))) as (p & st & Hp & Hst & Hq & _).
  - exact Hfind.
  - exists p, st. split; [exact Hrun|]. split; [exact Hp|]. split; [exact Hst|exact Hq].
Defined.

(** The handler of a connection that is registered, and its registration. *)
Lemma registered_handler n sys conn ph h o co :
  sys_ok n sys → sys_handlers sys !! conn = Some ph → view ph = Some (h, Some o, co) →
  ∃ a st, srv_owners (sys_server sys) !! o = Some a ∧ ac_client a = h_client h
    ∧ srv_clients (sys_server sys) !! conn_ClientID (h_connect h) = Some o
    ∧ st_data (srv_sessions (sys_server sys)) !! conn_ClientID (h_connect h) = Some (ac_session a)
    ∧ states (srv_sessions (sys_server sys)) !! ac_session a = Some st
    ∧ connected st = true ∧ st_owner st = h_identity h
    ∧ consumer_ok (limits (srv_sessions (sys_server sys))) st co.
Proof.
  intros Hok Hph V. destruct (sy_phases _ _ Hok conn ph Hph) as [_ P _].
  destruct (P _ _ _ V) as [[_ (c & Hc & Hid)] (a & st & Ha & Hd & Hcl & _ & Hst & Hown & Hco)].
  destruct (sv_owners _ (sy_server _ _ Hok) o a Ha Hd) as (c' & Hc' & Hreg & Hdata).
  assert (c' = c) as -> by congruence. rewrite Hid in *. exists a, st. split_and!; try done.
  apply (sv_connected _ (sy_server _ _ Hok) _ _ _ Hdata Hst). by exists o.
Qed.

(** C3: one connection per client, with its owner's session: in every reachable state
    the client id of two connections that were let in is different, and the session
    of such a connection is the one the store has for its client id, marked
    connected, and belongs to the identity the connection proved. *)
Theorem one_connection_per_client kdf n sys conn ph h o co :
  sys_reachable kdf n sys → Z.of_nat n < 2 ^ 64 →
  sys_handlers sys !! conn = Some ph → view ph = Some (h, Some o, co) →
  (∀ conn' ph' h' o' co', sys_handlers sys !! conn' = Some ph' → view ph' = Some (h', Some o', co') →
     conn_ClientID (h_connect h') = conn_ClientID (h_connect h) → conn' = conn)
  ∧ ∃ a st, srv_owners (sys_server sys) !! o = Some a
    ∧ st_data (srv_sessions (sys_server sys)) !! conn_ClientID (h_connect h) = Some (ac_session a)
    ∧ states (srv_sessions (sys_server sys)) !! ac_session a = Some st
    ∧ connected st = true ∧ st_owner st = h_identity h.
Proof.
  intros Hr Hlt Hph V. pose proof (reachable_sys_ok kdf n sys Hr Hlt) as Hok.
  destruct (registered_handler _ sys conn ph h o co Hok Hph V) as (a & st & Ha & _ & Hreg & Hd & Hst & Hc & Hown & _).
  split; [|by exists a, st]. intros conn' ph' h' o' co' Hph' V' Hid.
  destruct (registered_handler _ sys conn' ph' h' o' co' Hok Hph' V') as (a' & _ & _ & _ & Hreg' & _).
  rewrite Hid, Hreg in Hreg'. injection Hreg' as <-.
  eapply owner_unique; [exact Hok|exact Hph'|exact Hph|unfold phase_owner; by rewrite V'|unfold phase_owner; by rewrite V].
Qed.

(** What the run leaves of its only connection. *)
Lemma example_view : ∃ sys ph h o, run_events no_kdf example_events example_system = Some sys
  ∧ sys_reachable no_kdf 10 sys ∧ sys_handlers sys !! 0%nat = Some ph ∧ consumer_of ph = Some (h, o, Blocked 1)
  ∧ conn_ClientID (h_connect h) = bs "a".
Proof.
  destruct example_run as (sys & Hrun & Hr). exists sys.
  assert (Hview : match run_events no_kdf example_events example_system with
    | Some sys => match sys_handlers sys !! 0%nat with
                  | Some ph => match consumer_of ph with
                               | Some (h, _, Blocked ep) => bool_decide (ep = 1 ∧ conn_ClientID (h_connect h) = bs "a")
                               | _ => false
                               end
                  | None => false
                  end
    | None => false
    end = true) by (vm_compute; reflexivity).
  rewrite Hrun in Hview. destruct (sys_handlers sys !! 0%nat) as [ph|] eqn:Hph; [|discriminate Hview].
  destruct (consumer_of ph) as [[[h o] [ep|ep|ep|]]|] eqn:Hco; try discriminate Hview.
  apply bool_decide_eq_true_1 in Hview as [-> Hid]. exists ph, h, o.
  split; [exact Hrun|]. split; [exact Hr|]. split; [reflexivity|]. split; [exact Hco|exact Hid].
Qed.

Lemma one_connection_per_client_witness :
  ∃ sys a, sys_reachable no_kdf 10 sys
    ∧ st_data (srv_sessions (sys_server sys)) !! bs "a" = Some (ac_session a).
Proof.
  destruct example_view as (sys & ph & h & o & Hrun & Hr & Hph & Hco & Hid).
  destruct (one_connection_per_client no_kdf 10 sys 0 ph h o (Blocked 1) Hr ltac:(vm_compute; reflexivity) Hph
    (view_consumer _ _ _ _ Hco)) as (_ & a & st & _ & Hd & _).
  exists sys, a. split; [exact Hr|]. rewrite <- Hid. exact Hd.
Defined.

(** C22: the limits on connections hold: in every reachable state the accounts have
    exactly the connections whose handler runs, at most [MaxConnections]; the count
    of handshakes is the number of connections marked to be in their handshake, at
    most [MaxHandshakes]; and every connection is marked until it is served, and no
    longer. *)
Theorem connection_limits_hold kdf n sys :
  sys_reachable kdf n sys → Z.of_nat n < 2 ^ 64 →
  let g := srv_connections (sys_server sys) in
  let l := connectionLimits (settings (sys_server sys)) in
  Connections (group_Snapshot g) = msize (sys_handlers sys) ∧ handlers g = msize (sys_handlers sys)
  ∧ msize (sys_handlers sys) <= MaxConnections l
  ∧ Handshakes (group_Snapshot g) = msum (λ b : bool, if b then 1 else 0) (connections g)
  ∧ Handshakes (group_Snapshot g) <= MaxHandshakes l
  ∧ (∀ conn ph, sys_handlers sys !! conn = Some ph →
      ∃ b, connections g !! conn = Some b ∧ (phase_flag ph = None ∨ phase_flag ph = Some b)).
Proof.
  intros Hr Hlt g l. pose proof (sy_group _ _ (reachable_sys_ok kdf n sys Hr Hlt)) as [N F H S C M].
  assert (E : msize (connections g) = msize (sys_handlers sys)).
  { unfold msize. rewrite <- !size_dom. do 2 f_equal. apply set_eq. intros conn. rewrite !elem_of_dom.
    destruct (sys_handlers sys !! conn) as [ph|] eqn:Hph.
    - destruct (F conn ph Hph) as (b & Hb & _). unfold g. rewrite Hb. split; by eexists.
    - unfold g. by rewrite (N conn Hph). }
  simpl. rewrite <- E. split_and!; try done. by rewrite E.
Qed.

Lemma connection_limits_hold_witness :
  ∃ sys, sys_reachable no_kdf 10 sys
    ∧ msize (sys_handlers sys) <= MaxConnections (connectionLimits (settings (sys_server sys))).
Proof.
  destruct example_run as (sys & _ & Hr). exists sys. split; [exact Hr|].
  apply (connection_limits_hold no_kdf 10 sys Hr ltac:(vm_compute; reflexivity)).
Defined.

(** ** Keep alive *)

(** The timeout of an odd keep-alive interval is half a second short of one and a
    half times the interval, which MQTT 3.1.1 (3.1.2-24) grants the client. *)
Lemma keepAliveTimeout_short k :
  0 < k → Z.odd k = true → 2 * keepAliveTimeout k = 3 * k * 1000000000 - 1000000000.
Proof.
  intros Hk Hodd. unfold keepAliveTimeout. destruct (Z.ltb_spec 0 k); [|lia].
  rewrite Zodd_mod in Hodd. apply Z.eqb_eq in Hodd. pose proof (Z.div_mod k 2).
  replace (k * 3 / 2) with (3 * (k / 2) + 1); [lia|]. apply (Z.div_unique_pos _ _ _ 1); lia.
Qed.

(** ** Progress *)

(** An event of connection [conn]: of its handler, its consumer or its writer. *)
Definition own_event (sys : System) (conn : netconn) (e : sys_event) : Prop :=
  match e with
  | EvHandler conn' _ | EvFinish conn' => conn' = conn
  | EvExit cli => ∃ ph h o co, sys_handlers sys !! conn = Some ph ∧ view ph = Some (h, o, co) ∧ h_client h = cli
  | _ => False
  end.

(** Events that need the context to be cancelled. *)
Definition cancels (e : sys_event) : bool :=
  match e with
  | EvHandler _ (IAwait true | IServe true _ | IConsume true | IWake WakeCancelled) => true
  | _ => false
  end.

(** Connection [conn] can go on by itself, and nothing has to be cancelled for it. *)
Definition can_go_on (kdf : bytes → bytes → Z → Z → result bytes) (sys : System) (conn : netconn) : Prop :=
  ∃ e, own_event sys conn e ∧ cancels e = false ∧ sys_enabled kdf e sys = true.

Section progress.
Context (kdf : bytes → bytes → Z → Z → result bytes) (n : Z) (sys : System) (Hok : sys_ok n sys).

Lemma handler_enabled conn ph i act :
  sys_handlers sys !! conn = Some ph → phase_step kdf conn i ph = Some act → input_ready i ph (sys_server sys) = true →
  cancels (EvHandler conn i) = false → can_go_on kdf sys conn.
Proof.
  intros Hph Hact Hready Hc. exists (EvHandler conn i). split; [done|]. split; [done|]. cbn [sys_enabled].
  rewrite Hph, Hact, Hready, bool_decide_true; [done|by eexists].
Qed.

Lemma draining_goes_on conn h o co :
  sys_handlers sys !! conn = Some (Draining h o co) → can_go_on kdf sys conn.
Proof.
  intros Hph. destruct (sy_phases _ _ Hok conn _ Hph) as [_ P (c & Hc & Hdone)].
  destruct (P h o co eq_refl) as [_ Hco]. destruct co as [ep|ep|ep|].
  - destruct o as [o|]; [|discriminate Hco]. by eapply (handler_enabled conn _ (IConsume false)).
  - destruct o as [o|]; [|discriminate Hco]. by eapply (handler_enabled conn _ (ISent None)).
  - destruct o as [o|]; [|discriminate Hco]. eapply (handler_enabled conn _ (IWake WakeClosed)); [exact Hph|done| |done].
    simpl. by rewrite Hc.
  - destruct (c_writeDone c) eqn:Hw.
    + eapply (handler_enabled conn _ IDrain); [exact Hph|done| |done]. simpl. by rewrite Hc.
    + exists (EvExit (h_client h)). split; [by exists (Draining h o Returned), h, o, Returned|]. split; [done|].
      cbn [sys_enabled]. by rewrite Hc, Hdone, Hw.
Qed.

Lemma goes_on conn ph :
  sys_handlers sys !! conn = Some ph →
  can_go_on kdf sys conn ∨ ∃ h previous a, ph = Awaiting h previous
    ∧ srv_owners (sys_server sys) !! previous = Some a ∧ ac_done a = false ∧ told_to_stop (sys_server sys) a.
Proof.
  intros Hph. destruct ph as [r|h|h|h previous|h o present|h o|h o co|h o co p codes|h o co clean|h o co|h o co|].
  4: { destruct (po_waiting _ _ (sy_phases _ _ Hok conn _ Hph)) as (a & Ha & Ht). destruct (ac_done a) eqn:Hd.
       - left. eapply (handler_enabled conn _ (IAwait false)); [exact Hph|done| |done]. simpl. by rewrite Ha.
       - right. by exists h, previous, a. }
  all: left.
  - by eapply (handler_enabled conn _ (IHandshake None)).
  - by eapply (handler_enabled conn _ (IAuthenticate None None None 0 None)).
  - by eapply (handler_enabled conn _ (IAcquire None 0 0 None)).
  - by eapply (handler_enabled conn _ (IGreet 0)).
  - by eapply (handler_enabled conn _ (IWelcome None None)).
  - by eapply (handler_enabled conn _ (IServe false example_env)).
  - by eapply (handler_enabled conn _ (ISubAck None (λ _ _, 0))).
  - by eapply (handler_enabled conn _ (ILeave (λ _, 0))).
  - by eapply (handler_enabled conn _ (IClean 0)).
  - by eapply draining_goes_on.
  - exists (EvFinish conn). split; [done|]. split; [done|]. cbn [sys_enabled]. by rewrite Hph.
Qed.
End progress.

(** C20: nobody waits for ever on somebody who cannot go on: in every reachable state
    every connection has a step it can take, of its handler, its consumer or its
    writer, with nothing cancelled, unless it waits for the previous connection of
    its client; that one is another connection, was told to stop (it is closing and
    its client is closed), and has such a step.  In particular take-overs do not
    deadlock, and a handler that waits for its consumer and writer does not wait for
    ever. *)
Theorem no_connection_is_stuck kdf n sys conn ph :
  sys_reachable kdf n sys → Z.of_nat n < 2 ^ 64 → sys_handlers sys !! conn = Some ph →
  can_go_on kdf sys conn
  ∨ ∃ h previous a conn' ph', ph = Awaiting h previous ∧ srv_owners (sys_server sys) !! previous = Some a
      ∧ told_to_stop (sys_server sys) a ∧ conn' ≠ conn
      ∧ sys_handlers sys !! conn' = Some ph' ∧ phase_owner ph' = Some previous ∧ can_go_on kdf sys conn'.
Proof.
  intros Hr Hlt Hph. pose proof (reachable_sys_ok kdf n sys Hr Hlt) as Hok.
  destruct (goes_on kdf _ sys Hok conn ph Hph) as [?|(h & previous & a & -> & Ha & Hd & Ht)]; [by left|right].
  destruct (sy_owned _ _ Hok previous a Ha Hd) as (conn' & ph' & Hph' & Ho).
  exists h, previous, a, conn', ph'. split; [done|]. split; [done|]. split; [done|].
  split; [intros ->; rewrite Hph in Hph'; by injection Hph' as <-|]. split; [done|]. split; [done|].
  destruct (goes_on kdf _ sys Hok conn' ph' Hph') as [?|(h' & p' & a' & -> & _)]; [done|discriminate Ho].
Qed.

Lemma no_connection_is_stuck_witness :
  ∃ sys ph, sys_reachable no_kdf 10 sys ∧ sys_handlers sys !! 0%nat = Some ph
    ∧ (can_go_on no_kdf sys 0 ∨ ∃ h previous, ph = Awaiting h previous).
Proof.
  destruct example_view as (sys & ph & h & o & _ & Hr & Hph & _). exists sys, ph. split; [exact Hr|]. split; [exact Hph|].
  destruct (no_connection_is_stuck no_kdf 10 sys 0 ph Hr ltac:(vm_compute; reflexivity) Hph)
    as [Hgo|(h' & previous & _ & _ & _ & Hph' & _)]; [left; exact Hgo|right; exists h', previous; exact Hph'].
Defined.
