(* ===== verification/HandlerProofs.v ===== *)
(** What SUBSCRIBE does: the codes of the SUBACK, the subscriptions of the session
    afterwards, that the SUBACK goes before the retained messages, and that the delivery
    of the session is paused until both are done. *)

From S2P Require Import Prelude Topic Wire Filters Encoder Decoder Codec CodecProofs Tree.
From S2P Require Import Broker Session SessionQueue SessionStore SessionProofs Delivery Auth AuthProofs Client.
From S2P Require Import Server Handlers Lifecycle ServerInv Ownership SystemProofs ServerTheorems.

Local Open Scope Z_scope.
Local Open Scope orb_scope.

(** * Frames *)

(** Whenever [m] returns, [R] holds between the states before and after. *)
Definition frames {A} (R : Server → Server → Prop) (m : action A) : Prop :=
  ∀ s a s', m s = Some (a, s') → R s s'.

Section frames.
Context (R : Server → Server → Prop) `{!PreOrder R}.

Lemma frames_ret {A} (a : A) : frames R (mret a).
Proof. intros s b s' E. injection E as _ <-. reflexivity. Qed.

Lemma frames_get {A} (f : Server → A) : frames R (get f).
Proof. intros s b s' E. injection E as _ <-. reflexivity. Qed.

Lemma frames_bind {A B} (m : action A) (k : A → action B) :
  frames R m → (∀ a, frames R (k a)) → frames R (m ≫= k).
Proof.
  intros Hm Hk s b s' (a & s1 & H1 & H2)%bind_inv. transitivity s1; [by eapply Hm|by eapply Hk].
Qed.

Lemma frames_until_error {A} (f : A → action (option error)) l :
  (∀ a, frames R (f a)) → frames R (until_error f l).
Proof.
  intros Hf. induction l as [|a l IH]; simpl; [apply frames_ret|]. apply frames_bind; [done|].
  intros [err|]; [apply frames_ret|done].
Qed.
End frames.

(** The subscriptions and the owner of session [p] do not change. *)
Definition subs_kept (p : stateptr) (s s' : Server) : Prop :=
  ∀ st, states (srv_sessions s) !! p = Some st →
  ∃ st', states (srv_sessions s') !! p = Some st' ∧ subscriptions st' = subscriptions st.

(** Client [cli] gets more to write, at the end of its queue. *)
Definition queue_grows (cli : clientptr) (s s' : Server) : Prop :=
  ∀ c, srv_conns s !! cli = Some c →
  ∃ c' q, srv_conns s' !! cli = Some c' ∧ sendQ c' = sendQ c ++ q.

#[export] Instance subs_kept_preorder p : PreOrder (subs_kept p).
Proof.
  split; [intros s st Hst; by exists st|]. intros s1 s2 s3 H12 H23 st Hst.
  destruct (H12 st Hst) as (st2 & Hst2 & E2). destruct (H23 st2 Hst2) as (st3 & Hst3 & E3).
  exists st3. split; [done|congruence].
Qed.

#[export] Instance queue_grows_preorder cli : PreOrder (queue_grows cli).
Proof.
  split; [intros s c Hc; exists c, []; by rewrite app_nil_r|]. intros s1 s2 s3 H12 H23 c Hc.
  destruct (H12 c Hc) as (c2 & q2 & Hc2 & E2). destruct (H23 c2 Hc2) as (c3 & q3 & Hc3 & E3).
  exists c3, (q2 ++ q3). split; [done|]. by rewrite E3, E2, app_assoc.
Qed.

(** What a method of a session leaves in the server. *)
Lemma on_session_inv {A} (f : method A) p s a s' :
  on_session f p s = Some (a, s') →
  ∃ st st' t', states (srv_sessions s) !! p = Some st
    ∧ f (limits (srv_sessions s)) (totals (srv_sessions s)) st = Some (a, t', st')
    ∧ s' = set_sessions s (mkStore (st_data (srv_sessions s)) (<[p := st']> (states (srv_sessions s)))
             (limits (srv_sessions s)) t').
Proof.
  unfold on_session, call. destruct (states (srv_sessions s) !! p) as [st|]; simpl; [|done].
  destruct (f _ _ st) as [[[a' t'] st']|] eqn:Hf; simpl; [|done]. intros E. injection E as <- <-.
  by exists st, st', t'.
Qed.

Lemma session_subs_kept {A} (f : method A) `{MethodSubs A f} p p' : frames (subs_kept p) (on_session f p').
Proof.
  intros s a s' (st & st' & t' & Hst & Hf & ->)%on_session_inv st0 Hst0. cbn [srv_sessions set_sessions states].
  destruct (decide (p' = p)) as [->|Hne].
  - assert (st0 = st) as -> by congruence. exists st'. rewrite lookup_insert_eq. split; [done|].
    by eapply method_subs.
  - exists st0. by rewrite lookup_insert_ne.
Qed.

Lemma session_queue_grows {A} (f : method A) cli p : frames (queue_grows cli) (on_session f p).
Proof.
  intros s a s' (st & st' & t' & _ & _ & ->)%on_session_inv c Hc. exists c, []. by rewrite app_nil_r.
Qed.

Lemma client_subs_kept {A} (f : Client → A * Client) p cli : frames (subs_kept p) (on_client f cli).
Proof.
  intros s a s'. unfold on_client. destruct (srv_conns s !! cli) as [c|]; simpl; [|done].
  destruct (f c) as [a' c']. intros E. injection E as _ <-. intros st Hst. by exists st.
Qed.

Lemma enqueue_queue_grows w cli : frames (queue_grows cli) (on_client (λ c, enqueue c w) cli).
Proof.
  intros s a s'. unfold on_client. destruct (srv_conns s !! cli) as [c|] eqn:Hc; simpl; [|done].
  destruct (enqueue c w) as [e c'] eqn:He. intros E. injection E as _ <-. intros c0 Hc0.
  assert (c0 = c) as -> by congruence. cbn [srv_conns set_conns]. unfold enqueue in He.
  destruct (c_done c); [|destruct (_ <? _)]; injection He as _ <-.
  - exists c, []. by rewrite lookup_insert_eq, app_nil_r.
  - eexists _, [w]. by rewrite lookup_insert_eq.
  - exists c, []. by rewrite lookup_insert_eq, app_nil_r.
Qed.

(** The retained messages of a SUBSCRIBE are such actions. *)
Section retained.
Context (R : Server → Server → Prop) `{!PreOrder R} (cli : clientptr) (p : stateptr).
Context (Hadmit : ∀ data off now, frames R (on_session (Admit data off now) p)).
Context (Henq : ∀ w, frames R (on_client (λ c, enqueue c w) cli)).

Lemma retained_frames clock granted : frames R (until_error (retained_of cli p clock) granted).
Proof using Type*.
  apply frames_until_error; [done|]. intros [sub code]. unfold retained_of.
  destruct (code =? 128); [by apply frames_ret|]. apply frames_bind; [done|by apply frames_get|]. intros matching.
  apply frames_until_error; [done|]. intros retained. unfold send_retained.
  apply frames_bind; [done|by apply frames_get|]. intros encodeFn. destruct (_ =? 1).
  - destruct (newPublishTemplate _ _) as [t|err]; [|by apply frames_ret].
    apply frames_bind; [done|apply Hadmit|]. intros r. by apply frames_ret.
  - destruct (encodeFn _) as [data|err]; [|by apply frames_ret]. apply Henq.
Qed.
End retained.

(** * The reference *)

(** The policy lets [identity] subscribe to [filter]. *)
Definition permits (policy : option Local) (identity filter : bytes) : bool :=
  match policy with
  | None => true
  | Some l => bool_decide (CanSubscribe l identity filter = Some true)
  end.

(** The number of levels of a filter. *)
Definition levels (filter : bytes) : Z := 1 + Z.of_nat (length (base.filter (λ c, c = 47) filter)).

(** A session with subscriptions [m] has room for [filter] while the other sessions
    have [others] subscriptions: a filter it has can always be set again. *)
Definition fits (l : Limits) (others : Z) (m : gmap bytes Z) (filter : bytes) : bool :=
  (len filter <=? MaxFilterBytes l) && (levels filter <=? MaxFilterLevels l)
  && (bool_decide (is_Some (m !! filter))
      || (msize m <? MaxSubscriptionsPerSession l) && (others + msize m <? MaxSubscriptionsGlobal l)).

(** The codes for the requested filters, in turn, and the subscriptions after them. *)
Fixpoint grants (allowed : bytes → bool) (l : Limits) (others : Z) (m : gmap bytes Z) (subs : list WireSubscription)
    : list Z * gmap bytes Z :=
  match subs with
  | [] => ([], m)
  | sub :: subs =>
      let f := wsub_Topic sub in
      let q := Z.min (wsub_QoS sub) 1 in
      if allowed f && fits l others m f
      then let '(codes, m') := grants allowed l others (<[f := q]> m) subs in (q :: codes, m')
      else let '(codes, m') := grants allowed l others m subs in (128 :: codes, m')
  end.

(** * Subscribing *)

Lemma canSubscribe_inv identity filter s b s' :
  canSubscribe identity filter s = Some (b, s') →
  b = permits (srv_auth s) identity filter ∧ srv_sessions s' = srv_sessions s ∧ srv_auth s' = srv_auth s
  ∧ srv_conns s' = srv_conns s.
Proof.
  unfold canSubscribe, get, permits. intros (policy & s1 & E & H)%bind_inv. injection E as <- <-.
  destruct (srv_auth s) as [l|] eqn:Hl; [|injection H as <- <-; by rewrite Hl].
  apply bind_inv in H as (allowed & s1 & E & H). destruct (CanSubscribe l identity filter) as [b'|]; [|discriminate E].
  simpl in E. injection E as <- <-. destruct b'.
  - injection H as <- <-. by rewrite Hl.
  - apply bind_inv in H as (u & s1 & E & H). injection E as _ <-. injection H as <- <-. simpl. by rewrite Hl.
Qed.

(** [SetSubscription] accepts exactly what fits. *)
Lemma SetSubscription_fits f q l t st a t' st' :
  SetSubscription f q l t st = Some (a, t', st') → deleted st = false →
  let others := SubscriptionCount t - msize (subscriptions st) in
  (if fits l others (subscriptions st) f then a = None else a ≠ None)
  ∧ subscriptions st' = (if fits l others (subscriptions st) f then <[f := q]> (subscriptions st) else subscriptions st)
  ∧ SubscriptionCount t' - msize (subscriptions st') = others
  ∧ deleted st' = false ∧ st_owner st' = st_owner st ∧ st_id st' = st_id st ∧ paused st' = paused st.
Proof.
  intros H Hd others. unfold SetSubscription in H. rewrite Hd in H. unfold fits, levels.
  set (n := Z.of_nat (length (base.filter _ f))) in *.
  replace (len f <=? MaxFilterBytes l) with (negb (MaxFilterBytes l <? len f)) by (rewrite Z.leb_antisym; done).
  replace (1 + n <=? MaxFilterLevels l) with (negb (MaxFilterLevels l <=? n))
    by (rewrite Z.leb_antisym, negb_involutive; apply eq_iff_eq_true; rewrite Z.leb_le, Z.ltb_lt; lia).
  rewrite <- negb_orb. destruct (_ || _); simpl in *; [by injection H as <- <- <-|].
  destruct (subscriptions st !! f) as [q0|] eqn:Hf.
  - injection H as <- <- <-. rewrite bool_decide_true by eauto. simpl. unfold others, msize.
    rewrite map_size_insert_Some by eauto. done.
  - rewrite bool_decide_false by (by intros [? ?]). simpl.
    replace (others + msize (subscriptions st)) with (SubscriptionCount t) by (unfold others; lia).
    rewrite !Z.ltb_antisym, <- negb_orb. destruct (_ || _); simpl; injection H as <- <- <-; [done|]. simpl.
    unfold others, msize. rewrite map_size_insert_None by done. split_and!; done || lia.
Qed.

(** What the parts of a SUBSCRIBE keep. *)
Record same_context (s s' : Server) : Prop := {
  sc_auth : srv_auth s' = srv_auth s;
  sc_conns : srv_conns s' = srv_conns s;
  sc_limits : limits (srv_sessions s') = limits (srv_sessions s) }.

Lemma subscribe_one_grants p sub s code s' st :
  subscribe_one p sub s = Some (code, s') → states (srv_sessions s) !! p = Some st → deleted st = false →
  subscription_ok sub →
  let f := wsub_Topic sub in
  let others := SubscriptionCount (totals (srv_sessions s)) - msize (subscriptions st) in
  let granted := permits (srv_auth s) (st_owner st) f && fits (limits (srv_sessions s)) others (subscriptions st) f in
  same_context s s'
  ∧ code = (if granted then Z.min (wsub_QoS sub) 1 else 128)
  ∧ ∃ st', states (srv_sessions s') !! p = Some st' ∧ deleted st' = false ∧ st_owner st' = st_owner st
    ∧ paused st' = paused st
    ∧ SubscriptionCount (totals (srv_sessions s')) - msize (subscriptions st') = others
    ∧ subscriptions st' = (if granted then <[f := Z.min (wsub_QoS sub) 1]> (subscriptions st) else subscriptions st).
Proof.
  intros H Hst Hd [_ Hq] f others granted. unfold subscribe_one in H.
  apply bind_inv in H as (owner & s1 & E & H).
  apply on_session_inv in E as (st1 & st1' & t1 & Hst1 & E & ->). injection E as <- <- <-.
  assert (st1 = st) as -> by congruence.
  apply bind_inv in H as (allowed & s2 & E & H). apply canSubscribe_inv in E as (-> & Es & Ea & Ec).
  cbn [srv_auth set_sessions srv_conns srv_sessions] in *. unfold granted.
  assert (Hst2 : states (srv_sessions s2) !! p = Some st) by (rewrite Es; apply lookup_insert_eq).
  assert (Hl2 : limits (srv_sessions s2) = limits (srv_sessions s)) by by rewrite Es.
  assert (Ht2 : totals (srv_sessions s2) = totals (srv_sessions s)) by by rewrite Es.
  destruct (permits _ _ _); simpl in H.
  2: { injection H as <- <-. split; [by split|]. split; [done|]. exists st. by rewrite Ht2. }
  simpl. apply bind_inv in H as (err & s3 & E & H). apply on_session_inv in E as (st2 & st3 & t3 & Hst2' & Hset & ->).
  assert (st2 = st) as -> by congruence. rewrite Hl2, Ht2 in Hset.
  replace (if 1 <? wsub_QoS sub then 1 else wsub_QoS sub) with (Z.min (wsub_QoS sub) 1) in *
    by (destruct (Z.ltb_spec 1 (wsub_QoS sub)); lia).
  pose proof (SetSubscription_fits _ _ _ _ _ _ _ _ Hset Hd) as (Herr & Hsubs & Hcount & Hd3 & Ho3 & _ & Hp3).
  fold f others in Herr, Hsubs, Hcount.
  destruct err as [err|].
  - injection H as <- <-. destruct (fits _ _ _ _); [discriminate Herr|]. split; [by split|]. split; [done|].
    exists st3. cbn [srv_sessions set_sessions states totals]. by rewrite lookup_insert_eq.
  - destruct (fits _ _ _ _); [|done].
    apply bind_inv in H as (id & s4 & E & H). apply on_session_inv in E as (st4 & st4' & t4 & Hst4 & E & ->).
    injection E as <- <- <-. apply bind_inv in H as (u & s5 & E & H). injection E as _ <-. injection H as <- <-.
    cbn [srv_sessions set_sessions states totals set_broker] in *. rewrite lookup_insert_eq in Hst4.
    injection Hst4 as <-. split; [by split|]. split; [done|]. exists st3. by rewrite lookup_insert_eq.
Qed.

Lemma subscribe_filters_grants p subs s codes s' st :
  subscribe_filters p subs s = Some (codes, s') → states (srv_sessions s) !! p = Some st → deleted st = false →
  Forall subscription_ok subs →
  same_context s s'
  ∧ ∃ st', states (srv_sessions s') !! p = Some st' ∧ paused st' = paused st
    ∧ (codes, subscriptions st')
      = grants (permits (srv_auth s) (st_owner st)) (limits (srv_sessions s))
          (SubscriptionCount (totals (srv_sessions s)) - msize (subscriptions st)) (subscriptions st) subs.
Proof.
  revert s codes s' st. induction subs as [|sub subs IH]; intros s codes s' st H Hst Hd Hall.
  { injection H as <- <-. split; [by split|]. by exists st. }
  apply Forall_cons in Hall as [Hsub Hall]. cbn [subscribe_filters] in H.
  apply bind_inv in H as (code & s1 & H1 & H). apply bind_inv in H as (codes1 & s2 & H2 & E). injection E as <- <-.
  destruct (subscribe_one_grants p sub s code s1 st H1 Hst Hd Hsub) as ([A1 C1 L1] & Ecode & st1 & Hst1 & Hd1 & Ho1 & Hp1 & Hn1 & Es1).
  destruct (IH s1 codes1 s2 st1 H2 Hst1 Hd1 Hall) as ([A2 C2 L2] & st2 & Hst2 & Hp2 & Eg).
  split; [split; congruence|]. exists st2. split; [done|]. split; [congruence|]. rewrite A1, L1, Ho1, Hn1, Es1 in Eg. cbn [grants].
  rewrite Ecode. destruct (_ && _); by rewrite <- Eg.
Qed.

Lemma grants_length allowed l others m subs : length (grants allowed l others m subs).1 = length subs.
Proof.
  revert m. induction subs as [|sub subs IH]; intros m; simpl; [done|].
  destruct (_ && _);
    [specialize (IH (<[wsub_Topic sub := Z.min (wsub_QoS sub) 1]> m))|specialize (IH m)];
    destruct (grants _ _ _ _ subs); simpl in *; congruence.
Qed.

(** Sending puts the packet on the queue of a client that is open and has room. *)
Definition has_room (c : Client) : bool := negb (c_done c) && (len (sendQ c) <? sendQ_capacity).

Lemma enqueue_room c w :
  has_room c = true → (enqueue c w).1 = None ∧ sendQ (enqueue c w).2 = sendQ c ++ [w].
Proof. unfold has_room, enqueue. destruct (c_done c); [done|]. simpl. by intros ->. Qed.

Lemma enqueue_no_room c w : has_room c = false → is_Some (enqueue c w).1 ∧ (enqueue c w).2 = c.
Proof.
  unfold has_room, enqueue. destruct (c_done c); simpl; [intros _; split; [by eexists|done]|].
  intros ->. split; [by eexists|done].
Qed.

Lemma sendPacket_inv cli pkt written data s err s' c :
  Encode pkt = Ok data → sendPacket cli pkt written s = Some (err, s') → srv_conns s !! cli = Some c →
  let r := enqueue c (mkWrite data (Some 0%nat) 0) in
  err = match r.1 with Some err => Some err | None => written end
  ∧ s' = set_conns s (<[cli := r.2]> (srv_conns s)).
Proof.
  intros He H Hc r. unfold sendPacket, sendPacketWithDeadline in H. rewrite He in H.
  apply bind_inv in H as (err0 & s1 & H1 & H). unfold on_client in H1. rewrite Hc in H1. cbn [mbind option_bind] in H1.
  fold r in H1. destruct r as [e c']. injection H1 as <- <-. destruct e; injection H as <- <-; done.
Qed.

Lemma sendPacket_frames (R : Server → Server → Prop) `{!PreOrder R} cli pkt written :
  (∀ w, frames R (on_client (λ c, enqueue c w) cli)) → frames R (sendPacket cli pkt written).
Proof.
  intros Henq. unfold sendPacket, sendPacketWithDeadline. destruct (Encode pkt) as [data|]; [|by apply frames_ret].
  apply frames_bind; [done|apply Henq|]. intros [err|]; by apply frames_ret.
Qed.

(** The SUBACK for a SUBSCRIBE of that length can be encoded. *)
Lemma SubAck_encodes id codes : len codes <= MaxRemainingLength - 2 → ∃ data, Encode (PSubAck (mkSubAck id codes)) = Ok data.
Proof.
  intros Hl. simpl. unfold encodeSubAck. simpl. destruct (Z.ltb_spec (MaxRemainingLength - 2) (len codes)); [lia|].
  destruct (encodeRemainingLength_ok (2 + len codes)) as (ds & -> & _); [unfold len, MaxRemainingLength in *; lia|].
  by eexists.
Qed.

(** The retained messages are sent when the SUBACK was. *)
Lemma after_suback_frames (R : Server → Server → Prop) `{!PreOrder R} cli p clock granted (err : option error) :
  (∀ data off now, frames R (on_session (Admit data off now) p)) →
  (∀ w, frames R (on_client (λ c, enqueue c w) cli)) →
  frames R (match err with Some err => mret (Some err) | None => until_error (retained_of cli p clock) granted end).
Proof. intros Ha He. destruct err; [by apply frames_ret|by apply retained_frames]. Qed.

(** The handler of SUBSCRIBE up to its wait. *)
Lemma handleSubscribe_inv cli p pkt s err codes s' st c data :
  handleSubscribe cli p pkt s = Some ((err, codes), s') →
  states (srv_sessions s) !! p = Some st → deleted st = false → srv_conns s !! cli = Some c → subscribe_ok pkt →
  let others := SubscriptionCount (totals (srv_sessions s)) - msize (subscriptions st) in
  let granted := grants (permits (srv_auth s) (st_owner st)) (limits (srv_sessions s)) others (subscriptions st)
                   (sp_Subscriptions pkt) in
  Encode (PSubAck (mkSubAck (sp_PacketID pkt) granted.1)) = Ok data →
  ∃ st' c', codes = granted.1 ∧ states (srv_sessions s') !! p = Some st' ∧ subscriptions st' = granted.2
    ∧ srv_conns s' !! cli = Some c'
    ∧ if has_room c
      then err = None ∧ paused st' = true ∧ sendQ c' = sendQ c ++ [mkWrite data (Some 0%nat) 0]
      else is_Some err ∧ paused st' = false ∧ c' = c.
Proof.
  intros H Hst Hdel Hc Hpkt others granted Henc. unfold handleSubscribe in H.
  apply bind_inv in H as (u1 & s1 & H1 & H). apply on_session_inv in H1 as (stp & stp' & tp & Hp & E & ->).
  injection E as _ <- <-. assert (stp = st) as -> by congruence.
  apply bind_inv in H as (codes1 & s2 & H2 & H).
  destruct (subscribe_filters_grants _ _ _ _ _ (set_flow st true (changed st)) H2) as ([_ C2 _] & st2 & Hst2 & Hp2 & Eg);
    [apply lookup_insert_eq|done|apply Hpkt|].
  cbn [srv_auth srv_conns srv_sessions set_sessions totals limits] in C2, Eg.
  change (st_owner (set_flow st true (changed st))) with (st_owner st) in Eg.
  change (subscriptions (set_flow st true (changed st))) with (subscriptions st) in Eg. fold others granted in Eg.
  assert (Ecodes : codes1 = granted.1) by by rewrite <- Eg. assert (Esubs : subscriptions st2 = granted.2) by by rewrite <- Eg.
  apply bind_inv in H as (r3 & s3 & H3 & H). rewrite Ecodes in H3. cbn [srv_conns set_sessions] in C2.
  destruct (sendPacket_inv _ _ _ data s2 r3 s3 c Henc H3) as [Er ->]; [by rewrite C2|].
  destruct (has_room c) eqn:Hroom.
  - destruct (enqueue_room c (mkWrite data (Some 0%nat) 0) Hroom) as [E1 E2]. rewrite E1 in Er. subst r3.
    injection H as <- <- <-. exists st2. eexists. cbn [srv_sessions srv_conns set_conns].
    rewrite lookup_insert_eq. split_and!; try done.
  - destruct (enqueue_no_room c (mkWrite data (Some 0%nat) 0) Hroom) as [[e E1] E2]. rewrite E1 in Er. subst r3.
    apply bind_inv in H as (u & s4 & H4 & E). injection E as <- <- <-.
    apply on_session_inv in H4 as (st4 & st5 & t5 & Hst4 & E & ->). cbn [srv_sessions set_conns] in Hst4.
    assert (st4 = st2) as -> by congruence. injection E as _ _ <-.
    eexists _, c. cbn [srv_sessions srv_conns set_conns set_sessions states]. rewrite lookup_insert_eq, E2, lookup_insert_eq.
    split_and!; done.
Qed.

(** The rest of it. *)
Lemma handleSubscribe_retained_inv cli p pkt codes written clock s err s' st c :
  handleSubscribe_retained cli p pkt codes written clock s = Some (err, s') →
  states (srv_sessions s) !! p = Some st → srv_conns s !! cli = Some c →
  ∃ st' c' q, states (srv_sessions s') !! p = Some st' ∧ subscriptions st' = subscriptions st
    ∧ (paused st' = false ∧ changed st' = true) ∧ srv_conns s' !! cli = Some c' ∧ sendQ c' = sendQ c ++ q.
Proof.
  intros (r4 & s4 & H4 & H)%bind_inv Hst Hc.
  pose proof (after_suback_frames (subs_kept p) _ _ _ _ _ (λ _ _ _, session_subs_kept _ _ _)
    (λ w, client_subs_kept _ _ _) _ _ _ H4) as Hk4.
  pose proof (after_suback_frames (queue_grows cli) _ _ _ _ _ (λ _ _ _, session_queue_grows _ _ _)
    (λ w, enqueue_queue_grows _ _) _ _ _ H4) as Hg4.
  apply bind_inv in H as (u5 & s5 & H5 & E). injection E as _ <-.
  apply on_session_inv in H5 as (st4 & st5 & t5 & Hst4 & E & ->). injection E as _ _ <-.
  destruct (Hk4 st Hst) as (st4' & Hst4' & E4). assert (st4' = st4) as -> by congruence.
  destruct (Hg4 c Hc) as (c4 & q4 & Hc4 & Eq4).
  exists (notifyLocked (set_flow st4 false (changed st4))), c4, q4.
  cbn [srv_sessions set_sessions states srv_conns]. rewrite lookup_insert_eq. by split_and!.
Qed.

(** The session and the client of a connection that is served. *)
Lemma serving_session n sys conn ph h o co :
  sys_ok n sys → sys_handlers sys !! conn = Some ph → view ph = Some (h, Some o, co) →
  ∃ a st c, srv_owners (sys_server sys) !! o = Some a ∧ handling (h_client h) (ac_session a) (sys_server sys)
    ∧ states (srv_sessions (sys_server sys)) !! ac_session a = Some st ∧ deleted st = false ∧ st_owner st = h_identity h
    ∧ srv_conns (sys_server sys) !! h_client h = Some c.
Proof.
  intros Hok Hph V. destruct (registered_handler _ sys conn _ h o co Hok Hph V)
    as (a & st & Ha & Hcl & _ & Hd & Hst & _ & Hown & _).
  destruct (po_view _ _ (sy_phases _ _ Hok conn _ Hph) _ _ _ V) as [_ (a2 & st2 & Ha2 & Hd2 & _)].
  assert (Hh : handling (h_client h) (ac_session a) (sys_server sys)) by (exists o, a; split_and!; congruence).
  destruct (handling_session _ _ _ (sy_server _ _ Hok) Hh) as (c & st1 & Hc & _ & Hst1 & _ & Hdel).
  exists a, st, c. assert (st1 = st) as -> by congruence. done.
Qed.

(** C23: SUBSCRIBE is answered truthfully.  On a connection that is served, filter by
    filter the lower of the requested QoS and 1 is granted when the policy lets the
    connection's identity subscribe and the filter fits the limits of its session, and
    128 otherwise; the session then has exactly the granted subscriptions, besides those
    it had.  The SUBACK with these codes goes on the client's queue, if that has room,
    and the handler waits for it to be written, with the delivery of the session paused;
    otherwise the handler fails at once.  Whatever the other goroutines do meanwhile, and
    whether the write succeeds or not, the rest of the handler returns: it puts what it
    sends at the end of the queue, changes no subscription and resumes the delivery. *)
Theorem handleSubscribe_grants kdf n sys conn h o co a st c pkt e :
  sys_reachable kdf n sys → Z.of_nat n < 2 ^ 64 →
  sys_handlers sys !! conn = Some (Serving h o co) → srv_owners (sys_server sys) !! o = Some a →
  states (srv_sessions (sys_server sys)) !! ac_session a = Some st →
  srv_conns (sys_server sys) !! h_client h = Some c →
  subscribe_ok pkt → len (sp_Subscriptions pkt) <= MaxRemainingLength - 2 →
  let s := sys_server sys in
  let l := limits (srv_sessions s) in
  let others := SubscriptionCount (totals (srv_sessions s)) - msize (subscriptions st) in
  let granted := grants (permits (srv_auth s) (h_identity h)) l others (subscriptions st) (sp_Subscriptions pkt) in
  (∃ out s' st' c' data,
    handlePacket (h_client h) (ac_session a) (PSubscribe pkt) e s = Some (out, s')
    ∧ states (srv_sessions s') !! ac_session a = Some st' ∧ subscriptions st' = granted.2
    ∧ Encode (PSubAck (mkSubAck (sp_PacketID pkt) granted.1)) = Ok data
    ∧ srv_conns s' !! h_client h = Some c'
    ∧ if has_room c
      then out = AwaitSubAck pkt granted.1 ∧ paused st' = true ∧ sendQ c' = sendQ c ++ [mkWrite data (Some 0%nat) 0]
      else (∃ err, out = Handled (Some err)) ∧ paused st' = false ∧ c' = c)
  ∧ ∀ m sys2 h2 co2 codes written clock,
      sys_reachable kdf m sys2 → Z.of_nat m + 1 < 2 ^ 64 →
      sys_handlers sys2 !! conn = Some (Subscribing h2 o co2 pkt codes) →
      ∃ a2 st2 c2 err sys3 st3 c3 q,
        srv_owners (sys_server sys2) !! o = Some a2 ∧ states (srv_sessions (sys_server sys2)) !! ac_session a2 = Some st2
        ∧ srv_conns (sys_server sys2) !! h_client h2 = Some c2
        ∧ sys_exec kdf (EvHandler conn (ISubAck written clock)) sys2 = Some sys3
        ∧ sys_handlers sys3 !! conn = Some (after_packet h2 o co2 err)
        ∧ states (srv_sessions (sys_server sys3)) !! ac_session a2 = Some st3
        ∧ subscriptions st3 = subscriptions st2 ∧ paused st3 = false
        ∧ srv_conns (sys_server sys3) !! h_client h2 = Some c3 ∧ sendQ c3 = sendQ c2 ++ q.
Proof.
  intros Hr Hlt Hph Ha Hst Hc Hpkt Hlen s l others granted. split.
  - pose proof (reachable_sys_ok kdf n sys Hr Hlt) as Hok.
    destruct (serving_session _ _ _ _ _ _ _ Hok Hph eq_refl) as (a' & st' & c' & Ha' & Hh & Hst' & Hdel & Hown & _).
    assert (a' = a) as -> by congruence. assert (st' = st) as -> by congruence.
    destruct (keeps_handleSubscribe (h_client h) (ac_session a) pkt Hpkt s) as ([err codes] & s' & Hrun & _); [apply Hok|done|].
    destruct (SubAck_encodes (sp_PacketID pkt) granted.1) as [data Henc];
      [unfold granted, len in *; by rewrite grants_length|].
    destruct (handleSubscribe_inv _ _ _ _ _ _ _ st c data Hrun Hst Hdel Hc Hpkt) as (st1 & c1 & H1 & H2 & H3 & H4 & H5);
      [by rewrite Hown|]. rewrite Hown in H1, H3. fold others granted in H1, H3.
    exists (match err with Some err => Handled (Some err) | None => AwaitSubAck pkt codes end), s', st1, c1, data.
    split; [simpl; unfold mbind, action_bind; by rewrite Hrun|]. split_and!; try done. subst codes.
    destruct (has_room c); destruct H5 as (H5 & ? & ?); [by subst err|]. destruct H5 as [e' ->]. split; [by eexists|done].
  - intros m sys2 h2 co2 codes written clock Hr2 Hlt2 Hph2.
    pose proof (reachable_sys_ok kdf m sys2 Hr2 ltac:(lia)) as Hok.
    destruct (serving_session _ _ _ _ _ _ _ Hok Hph2 eq_refl) as (a2 & st2 & c2 & Ha2 & _ & Hst2 & _ & _ & Hc2).
    assert (Hen : sys_enabled kdf (EvHandler conn (ISubAck written clock)) sys2 = true).
    { cbn [sys_enabled]. by rewrite Hph2, bool_decide_true by (by eexists). }
    destruct (sys_exec_ok kdf (Z.of_nat m) sys2 _ ltac:(lia) Hlt2 Hok Hen) as (sys3 & Hex & _).
    pose proof Hex as Hrun. cbn [sys_exec] in Hrun. rewrite Hph2 in Hrun. cbn [mbind option_bind phase_step] in Hrun.
    apply bind_Some in Hrun as ([ph3 s3] & Hrun & E). injection E as <-.
    apply bind_inv in Hrun as (sess & s1 & H1 & Hrun). unfold owner_session in H1. rewrite Ha2 in H1. injection H1 as <- <-.
    apply bind_inv in Hrun as (err & s4 & Hrun & E). injection E as <- <-.
    destruct (handleSubscribe_retained_inv _ _ _ _ _ _ _ _ _ st2 c2 Hrun Hst2 Hc2) as (st3 & c3 & q & H1 & H2 & [H3 _] & H4 & H5).
    exists a2, st2, c2, err. eexists. exists st3, c3, q. split_and!; try done. cbn [sys_handlers]. apply lookup_insert_eq.
Qed.

(** The client of the example run subscribes again, with QoS 2. *)
Lemma handleSubscribe_grants_witness :
  ∃ sys a out s' st', sys_reachable no_kdf 10 sys
    ∧ handlePacket 0 (ac_session a) (PSubscribe (mkSubscribe 3 [mkWireSub (bs "y") 2])) example_env (sys_server sys)
      = Some (out, s')
    ∧ states (srv_sessions s') !! ac_session a = Some st'.
Proof.
  destruct example_run as (sys & Hrun & Hr).
  assert (Hphase : match run_events no_kdf example_events example_system with
    | Some sys => match sys_handlers sys !! 0%nat with
                  | Some (Serving h _ _) => bool_decide (h_client h = 0%nat)
                  | _ => false
                  end
    | None => false
    end = true) by (vm_compute; reflexivity).
  rewrite Hrun in Hphase. destruct (sys_handlers sys !! 0%nat) as [ph|] eqn:Hph; [|discriminate Hphase].
  destruct ph as [| | | | | |h o co| | | | |]; try discriminate Hphase. apply bool_decide_eq_true_1 in Hphase.
  assert (Hlt : Z.of_nat 10 < 2 ^ 64) by (vm_compute; reflexivity).
  destruct (serving_session _ _ _ _ _ _ _ (reachable_sys_ok no_kdf 10 sys Hr Hlt) Hph eq_refl)
    as (a & st & c & Ha & _ & Hst & _ & _ & Hc).
  destruct (handleSubscribe_grants no_kdf 10 sys 0 h o co a st c (mkSubscribe 3 [mkWireSub (bs "y") 2]) example_env
    Hr Hlt Hph Ha Hst Hc) as [(out & s' & st' & c' & data & H1 & H2 & _) _].
  - split; [simpl; lia|]. split; [discriminate|]. repeat constructor; simpl; lia.
  - vm_compute. discriminate.
  - rewrite Hphase in H1. exists sys, a, out, s', st'. split; [exact Hr|]. split; [exact H1|exact H2].
Defined.
