(* ===== verification/Frames.v ===== *)
(** What the steps of the server leave alone, once and for all: a relation between the
    states before and after that every operation on the shared memory keeps
    ([ServerFrame]) is kept by every handler and every step of a connection but the
    two that check the credentials and make the client.  One that only [PauseDelivery]
    may break ([RunningFrame]) is kept by all of these but the handler of SUBSCRIBE. *)

From S2P Require Import Prelude Topic Wire Filters Encoder Decoder Codec CodecProofs Tree.
From S2P Require Import Broker Session SessionQueue SessionStore SessionProofs Delivery Auth AuthProofs Client.
From S2P Require Import Server Handlers Lifecycle ServerInv Ownership SystemProofs ServerTheorems HandlerProofs.

Local Open Scope Z_scope.
Local Open Scope orb_scope.

(** * The interface *)

(** Functions on clients that leave the writer alone. *)
Class WriterQuiet {A} (f : Client → A * Client) : Prop :=
  writer_quiet c : c_writeDone (f c).2 = c_writeDone c.

#[export] Instance enqueue_writer w : WriterQuiet (λ c, enqueue c w).
Proof. intros c. unfold enqueue. destruct (c_done c); [done|]. by destruct (_ <? _). Qed.
#[export] Instance Close_writer : WriterQuiet (λ c, (tt, Close c)).
Proof. done. Qed.
#[export] Instance timeout_writer t : WriterQuiet (λ c, SetWriteTimeout c t).
Proof. intros c. unfold SetWriteTimeout. by destruct (_ <=? 0). Qed.
#[export] Instance read_writer {A} (g : Client → A) : WriterQuiet (λ c, (g c, c)).
Proof. done. Qed.

(** Methods that pause no session, and operations of the store after which a session
    is stored and paused only if it was. *)
Class MethodResuming {A} (f : method A) : Prop :=
  method_resuming l t s a t' s' : f l t s = Some (a, t', s') → paused s' = true → paused s = true.

Ltac resuming := intros l t s a t' s'; repeat case_match; intros; simplify_option_eq; auto.

#[export] Instance Resume_resuming : MethodResuming ResumeDelivery.
Proof. unfold MethodResuming, ResumeDelivery. resuming. Qed.
#[export] Instance Begin_resuming : MethodResuming BeginDelivery.
Proof. unfold MethodResuming, BeginDelivery. resuming. Qed.
#[export] Instance Admit_resuming data offset now : MethodResuming (Admit data offset now).
Proof. unfold MethodResuming, Admit. resuming. Qed.
#[export] Instance Next_resuming ep : MethodResuming (Next ep).
Proof.
  intros l t s a t' s'. unfold Next. destruct (_ || _); [by intros [= _ _ <-]|].
  destruct (next_unsent _ _ _) as [[[r m]|]|]; simpl; [|by intros [= _ _ <-]|done].
  destruct (if negb (e_packetID m =? 0) then _ else _) as [[[[id next] infl] t1]|]; simpl; [|done].
  destruct (patch _ _ _ _); simpl; [|done]. by intros [= _ _ <-].
Qed.
#[export] Instance Ack_resuming id : MethodResuming (Ack id).
Proof. unfold MethodResuming, Ack. resuming. Qed.
#[export] Instance SetSubscription_resuming f q : MethodResuming (SetSubscription f q).
Proof. unfold MethodResuming, SetSubscription. resuming. Qed.
#[export] Instance DeleteSubscription_resuming f : MethodResuming (DeleteSubscription f).
Proof. unfold MethodResuming, DeleteSubscription. resuming. Qed.
#[export] Instance MarkConnected_resuming : MethodResuming MarkConnected.
Proof. unfold MethodResuming, MarkConnected. resuming. Qed.
#[export] Instance MarkDisconnectedAt_resuming at_ : MethodResuming (MarkDisconnectedAt at_).
Proof. unfold MethodResuming, MarkDisconnectedAt. resuming. Qed.
#[export] Instance Snapshot_resuming : MethodResuming SnapshotSubscriptions.
Proof. unfold MethodResuming, SnapshotSubscriptions. resuming. Qed.
#[export] Instance receive_changed_resuming : MethodResuming receive_changed.
Proof. unfold MethodResuming, receive_changed. resuming. Qed.
#[export] Instance reads_resuming {A} (g : State → A) : MethodResuming (reads g).
Proof. unfold MethodResuming, reads. resuming. Qed.

Definition resumes (st st' : Store) : Prop :=
  ∀ id p x', st_data st' !! id = Some p → states st' !! p = Some x' → paused x' = true →
  ∃ x, st_data st !! id = Some p ∧ states st !! p = Some x ∧ paused x = true.

#[export] Instance resumes_preorder : PreOrder resumes.
Proof.
  split; [intros st id p x; by exists x|]. intros st1 st2 st3 H12 H23 id p x Hd Hx Hp.
  destruct (H23 id p x Hd Hx Hp) as (x2 & ? & ? & ?). by eapply H12.
Qed.

Class StoreResuming {A} (f : Store → option (A * Store)) : Prop :=
  store_resuming st a st' : f st = Some (a, st') → resumes st st'.

Lemma call_resumes {A} (f : method A) `{!MethodResuming f} p st a st' : call f p st = Some (a, st') → resumes st st'.
Proof.
  unfold call. destruct (states st !! p) as [s|] eqn:Hs; simpl; [|done].
  destruct (f _ _ s) as [[[a' t'] s']|] eqn:Hf; simpl; [|done]. intros [= _ <-] id p' x' Hd Hx Hp. simpl in *.
  apply lookup_insert_Some in Hx as [[<- <-]|[_ Hx]]; [|by exists x'].
  exists s. split_and!; [done|done|]. by eapply method_resuming.
Qed.

Lemma deleteLocked_resumes id st st' : deleteLocked id st = Some st' → resumes st st'.
Proof.
  unfold deleteLocked. destruct (st_data st !! id) as [p|]; [|by intros [= <-]].
  destruct (states st !! p) as [s|] eqn:Hs; simpl; [|done]. intros [= <-] id' p' x' Hd Hx Hp. simpl in *.
  apply lookup_delete_Some in Hd as [_ Hd]. apply lookup_insert_Some in Hx as [[<- <-]|[_ Hx]]; [by exists s|by exists x'].
Qed.

#[export] Instance Delete_resuming id : StoreResuming (λ st, st ← Delete id st; Some (tt, st)).
Proof. intros st a st' (st1 & H & [= _ <-])%bind_Some. by eapply deleteLocked_resumes. Qed.

Lemma expireLocked_resuming p now : StoreResuming (expireLocked p now).
Proof.
  intros st a st'. unfold expireLocked. destruct p as [p|]; [|by intros [= _ <-]].
  destruct (_ =? 0); [by intros [= _ <-]|]. destruct (states st !! p) as [s|]; simpl; [|done].
  destruct (_ || _); [by intros [= _ <-]|].
  destruct (deleteLocked _ st) as [st1|] eqn:Hd; simpl; [|done]. intros [= _ <-]. exact (deleteLocked_resumes _ _ _ Hd).
Qed.

#[export] Instance ExpireSession_resuming id now : StoreResuming (ExpireSession id now).
Proof. intros st a st'. apply expireLocked_resuming. Qed.

#[export] Instance Expire_resuming now : StoreResuming (Expire now).
Proof.
  intros st a st'. unfold Expire. destruct (_ =? 0); [by intros [= _ <-]|].
  generalize (map_to_list (st_data st)), (@nil bytes). intros todo. revert st.
  induction todo as [|[id p] todo IH]; intros st gone; cbn [Expire_loop]; [by intros [= _ <-]|].
  destruct (expireLocked (Some p) now st) as [[g st1]|] eqn:He; simpl; [|done]. intros H.
  transitivity st1; [by eapply expireLocked_resuming|by eapply IH].
Qed.

#[export] Instance GetOrCreateOwned_resuming id owner now : StoreResuming (GetOrCreateOwned id owner now).
Proof.
  intros st a st'. unfold GetOrCreateOwned. destruct (st_data st !! id) as [p|].
  - destruct (states st !! p) as [s|]; simpl; [|done]. destruct (bool_decide _); by intros [= _ <-].
  - destruct (_ <=? _); [intros [= _ <-] id' p' x'; by exists x'|]. intros [= _ <-] id' p' x' Hd Hx Hp. simpl in *.
    apply lookup_insert_Some in Hx as [[<- <-]|[Hne Hx]]; [discriminate Hp|].
    apply lookup_insert_Some in Hd as [[_ E]|[_ Hd]]; [by destruct Hne|by exists x'].
Qed.

(** A relation that the operations on the parts of the server keep, but for one that
    pauses a session. *)
Class RunningFrame (R : Server → Server → Prop) : Prop := {
  #[global] rf_preorder :: PreOrder R;
  rf_session {A} (f : method A) `{!MethodResuming f} p : frames R (on_session f p);
  rf_store {A} (f : Store → option (A * Store)) `{!StoreResuming f} : frames R (on_store f);
  rf_broker s b : R s (set_broker s b);
  rf_registry s cl ow : R s (set_registry s cl ow);
  rf_group s g : R s (set_group s g);
  rf_client {A} (f : Client → A * Client) `{!WriterQuiet f} s cli c :
    srv_conns s !! cli = Some c → R s (set_conns s (<[cli := (f c).2]> (srv_conns s))) }.

(** A relation that all of them keep. *)
Class ServerFrame (R : Server → Server → Prop) : Prop := {
  #[global] sf_preorder :: PreOrder R;
  sf_sessions s st : R s (set_sessions s st);
  sf_broker s b : R s (set_broker s b);
  sf_registry s cl ow : R s (set_registry s cl ow);
  sf_group s g : R s (set_group s g);
  sf_client {A} (f : Client → A * Client) `{!WriterQuiet f} s cli c :
    srv_conns s !! cli = Some c → R s (set_conns s (<[cli := (f c).2]> (srv_conns s))) }.

Lemma any_session_framed (R : Server → Server → Prop) `{!ServerFrame R} {A} (f : method A) p : frames R (on_session f p).
Proof. intros s a s' (st & st' & t' & _ & _ & ->)%on_session_inv. apply sf_sessions. Qed.

#[export] Instance server_running (R : Server → Server → Prop) `{!ServerFrame R} : RunningFrame R.
Proof.
  split; [apply _| | |apply sf_broker|apply sf_registry|apply sf_group|intros A f Hf; by apply (sf_client f)].
  - intros A f _ p. by apply any_session_framed.
  - intros A f _ s a s'. unfold on_store. destruct (f _) as [[? ?]|]; simpl; [|done]. intros [= _ <-]. apply sf_sessions.
Qed.

Create HintDb frame.
#[export] Hint Resolve frames_ret frames_get : frame.
#[export] Hint Extern 1 (PreOrder _) => apply _ : frame.
#[export] Hint Extern 1 (ServerFrame _) => apply _ : frame.
#[export] Hint Extern 1 (RunningFrame _) => apply _ : frame.
#[export] Hint Extern 1 (WriterQuiet _) => apply _ : frame.
#[export] Hint Extern 1 (MethodResuming _) => apply _ : frame.
#[export] Hint Extern 1 (StoreResuming _) => apply _ : frame.

(** Decomposes an action and leaves what the database does not know. *)
Ltac frame :=
  repeat match goal with
  | |- frames _ _ => solve [eauto with frame]
  | |- frames _ (_ ≫= _) => apply frames_bind; [apply _| |intros ?]
  | |- frames _ (match ?x with _ => _ end) => destruct x
  end.

(** What [m] gives, whenever it returns, satisfies [Q]. *)
Definition gives {A} (Q : A → Prop) (m : action A) : Prop := ∀ s a s', m s = Some (a, s') → Q a.

Lemma gives_ret {A} (Q : A → Prop) a : Q a → gives Q (mret a).
Proof. intros Ha s b s' E. by injection E as <- _. Qed.

Lemma gives_bind {A B} (Q : B → Prop) (m : action A) (k : A → action B) : (∀ a, gives Q (k a)) → gives Q (m ≫= k).
Proof. intros Hk s b s' (a & s1 & _ & H)%bind_inv. by eapply Hk. Qed.

(** Decomposes an action and leaves what it gives. *)
Ltac gives :=
  repeat match goal with
  | |- gives _ (mret _) => apply gives_ret
  | |- gives _ (_ ≫= _) => apply gives_bind; intros ?
  | |- gives _ (match ?x with _ => _ end) => destruct x
  end; simpl.

(** * The operations *)

Section frames.
Context {R : Server → Server → Prop} `{!RunningFrame R}.

Lemma broker_framed f : frames R (on_broker f).
Proof. intros s a s' [= _ <-]. apply rf_broker. Qed.

Lemma client_framed {A} (f : Client → A * Client) `{!WriterQuiet f} cli : frames R (on_client f cli).
Proof.
  intros s a s'. unfold on_client. destruct (srv_conns s !! cli) as [c|] eqn:Hc; simpl; [|done].
  pose proof (rf_client f s cli c Hc) as HR. destruct (f c) as [r c']. by intros [= _ <-].
Qed.

Lemma counted_framed (f : Server → connectionGroup) : frames R (λ s, Some (tt, set_group s (f s))).
Proof. intros s a s' [= _ <-]. apply rf_group. Qed.

#[local] Hint Resolve rf_session rf_store broker_framed client_framed : frame.

Lemma Enqueue_framed cli data : frames R (Enqueue cli data).
Proof. apply client_framed, _. Qed.
Lemma close_framed cli : frames R (close_client cli).
Proof. apply client_framed, _. Qed.
#[local] Hint Resolve Enqueue_framed close_framed : frame.

Lemma send_framed cli pkt deadline written : frames R (sendPacketWithDeadline cli pkt deadline written).
Proof. unfold sendPacketWithDeadline. frame. Qed.
Lemma sendPacket_framed cli pkt written : frames R (sendPacket cli pkt written).
Proof. apply send_framed. Qed.
Lemma record_framed : frames R recordAuthorizationRejection.
Proof. intros s a s' [= _ <-]. apply rf_group. Qed.
#[local] Hint Resolve send_framed sendPacket_framed record_framed : frame.

Lemma canPublish_framed identity name : frames R (canPublish identity name).
Proof. unfold canPublish. frame. Qed.
Lemma canSubscribe_framed identity filter : frames R (canSubscribe identity filter).
Proof.
  unfold canSubscribe. apply frames_bind; [apply _|frame|]. intros [l|]; [|frame].
  apply frames_bind; [apply _| |intros []; frame]. intros s a s'. destruct (CanSubscribe l identity filter); simpl; [|done].
  by intros [= _ <-].
Qed.
#[local] Hint Resolve canPublish_framed canSubscribe_framed : frame.

Lemma deliver_framed now pub sub cache s r s' :
  deliverPublishToSubscriber now pub sub cache s = Some (r, s') → R s s'.
Proof.
  unfold deliverPublishToSubscriber. destruct (Get _ _) as [p|]; [|by intros [= _ <-]].
  destruct (bool_decide _); [by intros [= _ <-]|]. destruct (_ =? 0).
  - destruct (online_client _ _ _) as [[cli|]|]; simpl; [|by intros [= _ <-]|done].
    destruct (qos0Payload _ _ _) as [[data|err] c']; [|by intros [= _ <-]].
    destruct (Enqueue cli data s) as [[[err|] s1]|] eqn:E; simpl; [..|done];
      pose proof (Enqueue_framed _ _ _ _ _ E) as E1; [|by intros [= _ <-]].
    destruct (close_client cli s1) as [[u s2]|] eqn:Ec; simpl; [|done]. intros [= _ <-].
    pose proof (close_framed _ _ _ _ Ec). by transitivity s1.
  - destruct (qos1Template _ _ _) as [[t|err] c']; [|by intros [= _ <-]].
    destruct (on_session _ p s) as [[r' s1]|] eqn:E; simpl; [|done]. intros [= _ <-]. eapply rf_session; [|exact E]. apply _.
Qed.

Lemma deliver_none clock pub subs : foldl (λ st sub, (deliver_to clock pub sub st).2) None subs = None.
Proof. by induction subs. Qed.

Lemma deliver_all_framed clock pub subs s c e s' c' e' :
  foldl (λ st sub, (deliver_to clock pub sub st).2) (Some (s, c, e)) subs = Some (s', c', e') → R s s'.
Proof.
  revert s c e. induction subs as [|sub subs IH]; intros s c e; cbn [foldl]; [by intros [= <- _ _]|].
  unfold deliver_to at 2. destruct (deliverPublishToSubscriber _ _ _ _ _) as [[[err c1] s1]|] eqn:E;
    cbn [snd]; [|by rewrite deliver_none].
  intros H. transitivity s1; [by eapply deliver_framed|by eapply IH].
Qed.

Lemma publishMessage_framed clock pub : frames R (publishMessage clock pub).
Proof.
  intros s a s'. unfold publishMessage, Publish.
  destruct (if pub_Retain pub then _ else _) as [[err|] b]; [intros [= _ <-]; apply rf_broker|].
  destruct (foldl _ _ _) as [[[s1 c1] e1]|] eqn:E; simpl; [|done]. intros [= _ <-].
  apply deliver_all_framed in E. transitivity s1; [exact E|apply rf_broker].
Qed.
#[local] Hint Resolve publishMessage_framed : frame.

Lemma subscribe_filters_framed p subs : frames R (subscribe_filters p subs).
Proof. induction subs as [|sub subs IH]; simpl; [by apply frames_ret; apply _|]. unfold subscribe_one, Owner. frame. Qed.

Lemma unsubscribe_filters_framed id p filters : frames R (unsubscribe_filters id p filters).
Proof. induction filters as [|f filters IH]; simpl; frame. Qed.

Lemma after_suback_framed cli p clock granted (err : option error) :
  frames R (match err with Some err => mret (Some err) | None => until_error (retained_of cli p clock) granted end).
Proof. apply after_suback_frames; [apply _|intros; apply rf_session, _|intros; apply client_framed, _]. Qed.
#[local] Hint Resolve subscribe_filters_framed unsubscribe_filters_framed after_suback_framed : frame.

Lemma handle_running cli p pkt e : (∀ q, pkt ≠ PSubscribe q) → frames R (handlePacket cli p pkt e).
Proof.
  intros Hno. destruct pkt as [?|?|?|?|q|?|?|?| | |]; simpl; try (by destruct (Hno q));
    unfold handles, handlePing, handlePubAck, handleUnsubscribe, handlePublish, client_id, Owner; frame.
Qed.

Lemma handleSubscribe_retained_framed cli p pkt codes written clock :
  frames R (handleSubscribe_retained cli p pkt codes written clock).
Proof. unfold handleSubscribe_retained. frame. Qed.
#[local] Hint Resolve handleSubscribe_retained_framed : frame.

Lemma openSession_framed connect identity now : frames R (openSession connect identity now).
Proof. unfold openSession. frame. Qed.

Lemma subscribe_all_framed p id subs : frames R (subscribe_all p id subs).
Proof. induction subs as [|sub subs IH]; simpl; frame. Qed.

Lemma unsubscribe_each_framed ids : frames R (unsubscribe_each ids).
Proof. induction ids as [|id ids IH]; simpl; frame. Qed.

Lemma expire_framed now : frames R (expire_sessions now).
Proof. unfold expire_sessions. apply frames_bind; [apply _|apply rf_store, _|apply unsubscribe_each_framed]. Qed.

Lemma reject_framed cli code deadline written : frames R (rejectConnection cli code deadline written).
Proof.
  unfold rejectConnection. apply frames_bind; [apply _| |intros _; frame].
  intros s a s' E. injection E as _ <-. destruct (_ =? _); apply rf_group.
Qed.

(** A run of a sequence that is written out on the state. *)
Lemma bind_framed {A B} (m : action A) (k : A * Server → option (B * Server)) s b s' :
  frames R m → m s ≫= k = Some (b, s') → (∀ a s1, k (a, s1) = Some (b, s') → R s1 s') →
  R s s'.
Proof.
  intros Hm H Hk. destruct (m s) as [[a s1]|] eqn:E; simpl in H; [|done].
  transitivity s1; [by eapply Hm|by eapply Hk].
Qed.

Lemma acquire_framed ctxErr connect cli identity now : frames R (acquireConnection ctxErr connect cli identity now).
Proof.
  intros s a s'. unfold acquireConnection. destruct ctxErr; [by intros [= _ <-]|].
  destruct (match Get _ _ with Some _ => _ | None => _ end) as [[]|]; simpl; [by intros [= _ <-]| |done].
  destruct (srv_clients s !! conn_ClientID connect) as [previous|].
  - destruct (srv_owners s !! previous) as [prev|]; simpl; [|done]. set (s1 := set_registry _ _ _). intros H.
    transitivity s1; [apply rf_registry|]. eapply bind_framed; [apply close_framed|exact H|]. by intros u s2 [= _ <-].
  - intros H. eapply bind_framed; [apply openSession_framed|exact H|]. intros [[p present]|err] s1; [|by intros [= _ <-]].
    clear H. intros H. eapply bind_framed; [apply (rf_session MarkConnected p)|exact H|]. clear H. intros u s2 H.
    eapply bind_framed; [apply (rf_session SnapshotSubscriptions p)|exact H|]. clear H. intros subs s3 H.
    eapply bind_framed; [apply (subscribe_all_framed p (conn_ClientID connect) subs)|exact H|]. clear H.
    intros u' s4 [= _ <-]. apply rf_registry.
Qed.

Lemma close_done_framed owner : frames R (close_done owner).
Proof.
  intros s a s'. unfold close_done. destruct (srv_owners s !! owner) as [conn|]; simpl; [|done].
  destruct (ac_done conn); [done|]. intros [= _ <-]. apply rf_registry.
Qed.

Lemma closeSession_framed owner : frames R (closeSession owner).
Proof.
  intros s a s'. unfold closeSession. destruct (srv_owners s !! owner) as [conn|]; simpl; [|done].
  destruct (srv_conns s !! ac_client conn) as [cli|]; simpl; [|done].
  destruct (bool_decide _); simpl; [|by intros H%close_done_framed].
  destruct (if cleanSession conn then _ else _) as [[u s1]|] eqn:E; simpl; [|done]. intros H%close_done_framed.
  assert (R s s1).
  { destruct (cleanSession conn); [|eapply rf_session; [|exact E]; apply _]. revert E. apply (λ m, m : frames R _). frame. }
  transitivity s1; [done|]. etransitivity; [apply rf_registry|exact H].
Qed.
#[local] Hint Resolve expire_framed reject_framed acquire_framed closeSession_framed : frame.

Lemma set_ready_framed o : frames R (set_ready o).
Proof. intros s a s'. unfold set_ready. destruct (srv_owners s !! o); simpl; [|done]. intros [= _ <-]. apply rf_registry. Qed.
Lemma begin_closing_framed now o : frames R (begin_closing now o).
Proof. intros s a s'. unfold begin_closing. destruct (srv_owners s !! o); simpl; [|done]. intros [= _ <-]. apply rf_registry. Qed.
Lemma owner_session_framed o : frames R (owner_session o).
Proof. intros s a s'. unfold owner_session. destruct (srv_owners s !! o); simpl; [|done]. by intros [= _ <-]. Qed.
Lemma complete_framed conn : frames R (λ s, Some (tt, set_group s (completeHandshake conn (srv_connections s)))).
Proof. apply counted_framed. Qed.
#[local] Hint Resolve set_ready_framed begin_closing_framed owner_session_framed complete_framed : frame.
Lemma consume_framed cancelled cli sess ep : frames R (do_consume cancelled cli sess ep).
Proof. unfold do_consume. frame. Qed.
Lemma sent_framed written cli ep : frames R (do_sent written cli ep).
Proof. unfold do_sent. frame. Qed.
Lemma wake_framed w sess ep : frames R (do_wake w sess ep).
Proof. unfold do_wake. frame. Qed.
#[local] Hint Resolve consume_framed sent_framed wake_framed : frame.

Lemma publishWill_framed clock will : frames R (publishWill clock will).
Proof. unfold publishWill. frame. Qed.
#[local] Hint Resolve publishWill_framed : frame.

(** * The steps of a connection *)

Lemma consumer_framed (m : stateptr → action consumer) o ph :
  (∀ sess, frames R (m sess)) → frames R (sess ← owner_session o; co ← m sess; mret (set_consumer co ph)).
Proof. intros Hm. apply frames_bind; [apply _|frame|intros sess]. apply frames_bind; [apply _|apply Hm|intros co]. frame. Qed.

(** The steps but those that check the credentials, make the client and read a packet. *)
Lemma phase_step_running kdf conn i ph act :
  phase_step kdf conn i ph = Some act → (∀ r, ph ≠ Handshaking r) → (∀ h, ph ≠ Authenticating h) →
  (∀ b e, i ≠ IServe b e) → frames R act.
Proof.
  intros H Hr Hh Hi. destruct i; cbn [phase_step] in H; try (destruct ph; try discriminate H; []);
    try (by edestruct Hr); try (by edestruct Hh); try (by edestruct Hi).
  - injection H as <-. unfold do_acquire. frame.
  - injection H as <-. frame.
  - injection H as <-. unfold do_greet. frame.
  - injection H as <-. unfold do_welcome. frame.
  - injection H as <-. unfold do_subscribed. frame.
  - injection H as <-. unfold do_leave. frame.
  - injection H as <-. unfold do_clean. frame.
  - destruct consuming; try discriminate H. injection H as <-. unfold do_drain. frame.
  - destruct (consumer_of ph) as [[[h o] [ep|ep|ep|]]|]; try discriminate H. injection H as <-.
    apply consumer_framed. intros sess. frame.
  - destruct (consumer_of ph) as [[[h o] [ep|ep|ep|]]|]; try discriminate H. injection H as <-. frame.
  - destruct (consumer_of ph) as [[[h o] [ep|ep|ep|]]|]; try discriminate H. injection H as <-.
    apply consumer_framed. intros sess. frame.
Qed.
End frames.

Section pausing.
Context {R : Server → Server → Prop} `{!ServerFrame R}.
#[local] Hint Resolve any_session_framed subscribe_filters_framed sendPacket_framed owner_session_framed : frame.

Lemma handlePacket_framed cli p pkt e : frames R (handlePacket cli p pkt e).
Proof.
  assert (Hor : (∃ q, pkt = PSubscribe q) ∨ ∀ q, pkt ≠ PSubscribe q) by (destruct pkt; first [by left; eexists|by right]).
  destruct Hor as [[q ->]|Hno]; [|by apply handle_running]. simpl. unfold handleSubscribe. frame.
Qed.
#[local] Hint Resolve handlePacket_framed : frame.

Lemma phase_step_framed kdf conn i ph act :
  phase_step kdf conn i ph = Some act → (∀ r, ph ≠ Handshaking r) → (∀ h, ph ≠ Authenticating h) → frames R act.
Proof.
  intros H Hr Hh.
  assert (Hor : (∃ b e, i = IServe b e) ∨ ∀ b e, i ≠ IServe b e) by (destruct i; first [by left; do 2 eexists|by right]).
  destruct Hor as [(b & e & ->)|Hi]; [|by eapply phase_step_running].
  destruct ph; try discriminate H. injection H as <-. unfold do_serve. frame.
Qed.
End pausing.

(** * Events *)

(** A relation that setting the policy and the clients keeps too, such as having the same
    settings, is kept by every event. *)
Class SystemFrame (R : Server → Server → Prop) : Prop := {
  #[global] sy_frame :: ServerFrame R;
  sf_auth s l : R s (set_auth s l);
  sf_conns s conns : R s (set_conns s conns) }.

Section events.
Context (kdf : bytes → bytes → Z → Z → result bytes) {R : Server → Server → Prop} `{!SystemFrame R}.

Lemma authenticateConnect_framed c1 c2 c3 connect : frames R (authenticateConnect kdf c1 c2 c3 connect).
Proof.
  intros s a s'. unfold authenticateConnect. destruct (srv_auth s) as [l|]; [|by intros [= _ <-]].
  destruct (Authenticate _ _ _ _ _ _) as [r l']. repeat case_match; intros [= _ <-]; apply sf_auth.
Qed.

Lemma handshake_framed r : frames R (handshake r).
Proof.
  intros s a s'. unfold handshake. destruct (DecodeWithLimit _ _) as [[[] ?]|]; intros [= _ <-]; try reflexivity. apply sf_conns.
Qed.

Lemma any_step_framed conn i ph act : phase_step kdf conn i ph = Some act → frames R act.
Proof.
  intros H. destruct ph as [r|h| | | | | | | | | |]; try (by eapply phase_step_framed); destruct i; try discriminate H; injection H as <-.
  - unfold do_handshake. destruct failed; [by apply frames_ret; apply _|].
    apply frames_bind; [apply _|apply handshake_framed|]. intros h. by apply frames_ret; apply _.
  - unfold do_authenticate. apply frames_bind; [apply _|apply authenticateConnect_framed|]. intros [who code].
    destruct (negb _); [|by apply frames_ret; apply _]. apply frames_bind; [apply _|apply reject_framed|].
    intros u. by apply frames_ret; apply _.
Qed.

Lemma exec_framed e sys sys' : sys_exec kdf e sys = Some sys' → R (sys_server sys) (sys_server sys').
Proof.
  intros Hex. destruct e as [ctxErr conn r|conn i|conn|cli set m err|cli|now].
  - cbn [sys_exec] in Hex. destruct (start _ _ _ _) as [o g]. injection Hex as <-. apply sf_group.
  - cbn [sys_exec] in Hex. apply bind_Some in Hex as (ph & _ & Hex). apply bind_Some in Hex as (act & Hact & Hex).
    apply bind_Some in Hex as ([ph' s'] & Hrun & Hex). injection Hex as <-. by eapply any_step_framed.
  - apply exec_finish_inv in Hex as (g & _ & ->). apply sf_group.
  - apply exec_write_inv in Hex as (c & w & q & c' & _ & _ & _ & ->). apply sf_conns.
  - apply exec_exit_inv in Hex as (c & c' & _ & _ & ->). apply sf_conns.
  - cbn [sys_exec] in Hex. apply bind_Some in Hex as ([u s'] & Hrun & Hex). injection Hex as <-. by eapply expire_framed.
Qed.

Lemma run_framed es sys sys' : run_events kdf es sys = Some sys' → R (sys_server sys) (sys_server sys').
Proof.
  revert sys. induction es as [|e es IH]; intros sys Hrun; cbn [run_events] in Hrun; [by injection Hrun as <-|].
  destruct (sys_enabled kdf e sys); [|discriminate Hrun]. apply bind_Some in Hrun as (sys1 & Hex & Hrun).
  transitivity (sys_server sys1); [by eapply exec_framed|by apply IH].
Qed.
End events.

(** The settings stay what they were. *)
Definition settings_kept (s s' : Server) : Prop := settings s' = settings s.

#[export] Instance settings_kept_preorder : PreOrder settings_kept.
Proof. split; [done|]. intros s1 s2 s3 H12 H23. unfold settings_kept in *. congruence. Qed.

#[export] Instance settings_frame : SystemFrame settings_kept.
Proof. by repeat split; try apply _. Qed.
