(* ===== verification/WriterWaits.v ===== *)
(** The writers of clients: in every reachable state a writer that did not return
    belongs to a connection whose handler is going to wait for it, so that no writer is
    left when no handler is. *)

From S2P Require Import Prelude Topic Wire Filters Encoder Decoder Codec CodecProofs Tree.
From S2P Require Import Broker Session SessionQueue SessionStore SessionProofs Delivery Auth AuthProofs Client.
From S2P Require Import Server Handlers Lifecycle ServerInv Ownership SystemProofs ServerTheorems HandlerProofs Frames.

Local Open Scope Z_scope.
Local Open Scope orb_scope.

(** * Definitions *)

(** The client of a connection, until its handler has waited for the writer. *)
Definition client_of (ph : phase) : option clientptr := '(h, _, _) ← view ph; Some (h_client h).

(** Every writer that did not return is waited for by a handler. *)
Definition writers_held (sys : System) : Prop :=
  ∀ cli c, srv_conns (sys_server sys) !! cli = Some c → c_writeDone c = false →
    ∃ conn ph, sys_handlers sys !! conn = Some ph ∧ client_of ph = Some cli.

(** No writer is left. *)
Definition writers_done (s : Server) : Prop := ∀ cli c, srv_conns s !! cli = Some c → c_writeDone c = true.

(** * What a step does to writers *)

(** The same clients, with the same state of their writers. *)
Definition writers_kept (s s' : Server) : Prop :=
  ∀ cli, c_writeDone <$> srv_conns s' !! cli = c_writeDone <$> srv_conns s !! cli.

#[export] Instance writers_kept_preorder : PreOrder writers_kept.
Proof. split; [done|]. intros s1 s2 s3 H12 H23 cli. by rewrite H23. Qed.

#[export] Instance writers_frame : ServerFrame writers_kept.
Proof.
  split; [apply _|done..|]. intros A f Hf s cli c Hc cli'. simpl. destruct (decide (cli' = cli)) as [->|Hne].
  - rewrite lookup_insert_eq, Hc. simpl. by rewrite writer_quiet.
  - by rewrite lookup_insert_ne.
Qed.

Lemma authenticate_writers kdf c1 c2 c3 connect : frames writers_kept (authenticateConnect kdf c1 c2 c3 connect).
Proof.
  intros s a s'. unfold authenticateConnect. destruct (srv_auth s) as [l|]; [|by intros [= _ <-]].
  destruct (Authenticate _ _ _ _ _ _) as [r l']. repeat case_match; by intros [= _ <-].
Qed.

Lemma do_authenticate_writers kdf c1 c2 c3 deadline written h :
  frames writers_kept (do_authenticate kdf c1 c2 c3 deadline written h).
Proof.
  unfold do_authenticate. apply frames_bind; [apply _|apply authenticate_writers|]. intros [who code].
  destruct (negb _); [|frame]. apply frames_bind; [apply _|apply reject_framed|]. intros u. frame.
Qed.

(** A client is made by the handler that holds it then. *)
Lemma do_handshake_client failed r s ph s' :
  do_handshake failed r s = Some (ph, s') →
  s' = s ∨ ∃ cli c, srv_conns s !! cli = None ∧ s' = set_conns s (<[cli := c]> (srv_conns s)) ∧ client_of ph = Some cli.
Proof.
  unfold do_handshake. destruct failed; [intros E; injection E as _ <-; by left|].
  intros (h & s1 & H & E)%bind_inv. injection E as <- <-. unfold handshake in H.
  destruct (DecodeWithLimit _ _) as [[[connect| | | | | | | | | |] r']|]; injection H as <- <-; [|by left..].
  right. eexists _, _. split; [apply not_elem_of_dom, is_fresh|]. by split.
Qed.

Section writers.
Context (kdf : bytes → bytes → Z → Z → result bytes).

Lemma client_set_consumer ph co : client_of (set_consumer co ph) = client_of ph.
Proof. by destruct ph. Qed.

(** A handler keeps its client until it has waited for the writer. *)
Lemma phase_step_client conn i ph act :
  phase_step kdf conn i ph = Some act → (∀ r, ph ≠ Handshaking r) → i ≠ IDrain →
  gives (λ ph', client_of ph' = client_of ph) act.
Proof.
  intros H Hr Hd. destruct i; cbn [phase_step] in H; try (destruct ph; try discriminate H; []); try (by destruct (Hr _ eq_refl)); try done.
  - injection H as <-. unfold do_authenticate. apply gives_bind. intros [who code]. by gives.
  - injection H as <-. unfold do_acquire. by gives.
  - injection H as <-. apply gives_ret. by destruct cancelled.
  - injection H as <-. unfold do_greet. gives; repeat case_match; done.
  - injection H as <-. unfold do_welcome. by gives.
  - injection H as <-. unfold do_serve, after_packet. gives; repeat case_match; done.
  - injection H as <-. unfold do_subscribed, after_packet. gives; repeat case_match; done.
  - injection H as <-. unfold do_leave. apply gives_bind. intros u. by gives.
  - injection H as <-. unfold do_clean. apply gives_bind. intros u. by gives.
  - destruct (consumer_of ph) as [[[h o] [ep|ep|ep|]]|]; try discriminate H. injection H as <-. gives. apply client_set_consumer.
  - destruct (consumer_of ph) as [[[h o] [ep|ep|ep|]]|]; try discriminate H. injection H as <-. gives. apply client_set_consumer.
  - destruct (consumer_of ph) as [[[h o] [ep|ep|ep|]]|]; try discriminate H. injection H as <-. gives. apply client_set_consumer.
Qed.

Lemma phase_step_writers conn i ph act :
  phase_step kdf conn i ph = Some act → (∀ r, ph ≠ Handshaking r) → frames writers_kept act.
Proof.
  intros H Hr. destruct ph as [r|h| | | | | | | | | |]; try (by eapply phase_step_framed).
  destruct i; try discriminate H. injection H as <-. apply do_authenticate_writers.
Qed.

(** A handler waits for its writer last. *)
Lemma drain_waits conn h o co sys :
  sys_handlers sys !! conn = Some (Draining h o co) → sys_enabled kdf (EvHandler conn IDrain) sys = true →
  ∃ c, srv_conns (sys_server sys) !! h_client h = Some c ∧ c_writeDone c = true.
Proof.
  intros Hph Hen. cbn [sys_enabled] in Hen. rewrite Hph in Hen. apply andb_true_iff in Hen as [_ Hr]. cbn [input_ready] in Hr.
  destruct (srv_conns _ !! _) as [c|]; [by exists c|discriminate Hr].
Qed.

(** A writer that runs after a step that kept the writers ran before. *)
Lemma writers_kept_back s s' cli c :
  writers_kept s s' → srv_conns s' !! cli = Some c → c_writeDone c = false →
  ∃ c0, srv_conns s !! cli = Some c0 ∧ c_writeDone c0 = false.
Proof.
  intros Hk Hc Hw. specialize (Hk cli). rewrite Hc in Hk. simpl in Hk. rewrite Hw in Hk.
  destruct (srv_conns s !! cli) as [c0|]; [|discriminate Hk]. exists c0. split; [done|]. by injection Hk.
Qed.

(** The handlers after a step of [conn] that does not end its wait. *)
Lemma held_moves sys s' conn ph ph' :
  writers_held sys → writers_kept (sys_server sys) s' → sys_handlers sys !! conn = Some ph →
  (∀ cli c, client_of ph = Some cli → srv_conns (sys_server sys) !! cli = Some c → c_writeDone c = false → client_of ph' = Some cli) →
  writers_held (mkSystem s' (<[conn := ph']> (sys_handlers sys))).
Proof.
  intros Hheld Hk Hph Hcl cli c Hc Hw. cbn [sys_server sys_handlers] in *.
  destruct (writers_kept_back _ _ cli c Hk Hc Hw) as (c0 & Hc0 & Hw0). destruct (Hheld cli c0 Hc0 Hw0) as (conn0 & ph0 & H0 & E0).
  destruct (decide (conn0 = conn)) as [->|Hne].
  - exists conn, ph'. rewrite lookup_insert_eq. split; [done|]. apply (Hcl cli c0); [congruence|exact Hc0|exact Hw0].
  - exists conn0, ph0. by rewrite lookup_insert_ne.
Qed.

Lemma handler_held conn i sys sys' :
  writers_held sys → sys_enabled kdf (EvHandler conn i) sys = true → sys_exec kdf (EvHandler conn i) sys = Some sys' →
  writers_held sys'.
Proof.
  intros Hheld Hen Hex. cbn [sys_exec] in Hex. apply bind_Some in Hex as (ph & Hph & Hex).
  apply bind_Some in Hex as (act & Hact & Hex). apply bind_Some in Hex as ([ph' s'] & Hrun & Hex). injection Hex as <-.
  assert (Hcase : (∃ r, ph = Handshaking r) ∨ ∀ r, ph ≠ Handshaking r) by (destruct ph; [left; by eexists|by right..]).
  destruct Hcase as [[r ->]|Hno].
  - destruct i; try discriminate Hact. injection Hact as <-. apply do_handshake_client in Hrun as [->|(cli & c & Hnew & -> & Hcl)].
    + by eapply held_moves.
    + intros cli' c' Hc' Hw. cbn [sys_server sys_handlers srv_conns set_conns] in *. apply lookup_insert_Some in Hc' as [[<- _]|[_ Hc']].
      * exists conn, ph'. by rewrite lookup_insert_eq.
      * destruct (Hheld cli' c' Hc' Hw) as (conn0 & ph0 & H0 & E0). exists conn0, ph0.
        rewrite lookup_insert_ne; [done|]. intros <-. rewrite Hph in H0. by injection H0 as <-.
  - pose proof (phase_step_writers conn i ph act Hact Hno _ _ _ Hrun) as Hk.
    eapply held_moves; [exact Hheld|exact Hk|exact Hph|]. intros cli c Hcl Hc Hw. assert (Hi : i = IDrain ∨ i ≠ IDrain) by (destruct i; by (left + right)).
    destruct Hi as [->|Hd].
    + destruct ph; try discriminate Hact. destruct (drain_waits conn _ _ _ sys Hph Hen) as (c' & Hc' & Hd').
      cbn in Hcl. injection Hcl as <-. congruence.
    + by rewrite (phase_step_client conn i ph act Hact Hno Hd _ _ _ Hrun).
Qed.

(** A step of the writer [cli] after which it runs only if it ran. *)
Lemma client_held sys cli c c' :
  writers_held sys → srv_conns (sys_server sys) !! cli = Some c → (c_writeDone c' = false → c_writeDone c = false) →
  writers_held (mkSystem (set_conns (sys_server sys) (<[cli := c']> (srv_conns (sys_server sys)))) (sys_handlers sys)).
Proof.
  intros Hheld Hc Hw cli' c2 Hc2 Hw2. cbn [sys_server sys_handlers srv_conns set_conns] in *.
  apply lookup_insert_Some in Hc2 as [[<- <-]|[_ Hc2]]; [|by eapply Hheld]. apply (Hheld cli c); [done|by apply Hw].
Qed.

Lemma exec_held e sys sys' :
  writers_held sys → sys_enabled kdf e sys = true → sys_exec kdf e sys = Some sys' → writers_held sys'.
Proof.
  intros Hheld Hen Hex. destruct e as [ctxErr conn r|conn i|conn|cli set n err|cli|now].
  - cbn [sys_enabled] in Hen. apply andb_prop in Hen as [Hnone _]. apply bool_decide_eq_true_1 in Hnone.
    cbn [sys_exec] in Hex. destruct (start _ _ _ _) as [o g]. injection Hex as <-. intros cli c Hc Hw. cbn [sys_server sys_handlers] in *.
    destruct (Hheld cli c Hc Hw) as (conn0 & ph0 & H0 & E0). exists conn0, ph0. split; [|done].
    destruct (decide _); [|done]. rewrite lookup_insert_ne; [done|congruence].
  - by eapply handler_held.
  - apply exec_finish_inv in Hex as (g & _ & ->). cbn [sys_enabled] in Hen. intros cli c Hc Hw. cbn [sys_server sys_handlers] in *.
    destruct (Hheld cli c Hc Hw) as (conn0 & ph0 & H0 & E0). exists conn0, ph0. split; [|done].
    rewrite lookup_delete_ne; [done|]. intros <-. rewrite H0 in Hen. destruct ph0; try discriminate Hen. discriminate E0.
  - apply exec_write_inv in Hex as (c & w & q & c' & Hc & Hn & _ & ->). apply writer_next_inv in Hn as [Hw _].
    by apply (client_held sys cli c c').
  - apply exec_exit_inv in Hex as (c & c' & Hc & Hx & ->). apply (client_held sys cli c c'); [done|done|].
    unfold writeLoop_exit, close_writeDone in Hx. destruct (c_writeDone c); [discriminate Hx|done].
  - cbn [sys_exec] in Hex. apply bind_Some in Hex as ([u s'] & Hrun & Hex). injection Hex as <-.
    pose proof (expire_framed (R := writers_kept) _ _ _ _ Hrun) as Hk. intros cli c Hc Hw. cbn [sys_server sys_handlers] in *.
    destruct (writers_kept_back _ _ cli c Hk Hc Hw) as (c0 & Hc0 & Hw0). by eapply Hheld.
Qed.

Lemma reachable_held n sys : sys_reachable kdf n sys → writers_held sys.
Proof.
  induction 1 as [sets policy b st _ _|n sys e sys' _ IH Hen Hex]; [|by eapply exec_held].
  intros cli c Hc. simpl in Hc. by rewrite lookup_empty in Hc.
Qed.

(** No writer is left once no handler is. *)
Lemma reachable_writers_done n sys : sys_reachable kdf n sys → sys_handlers sys = ∅ → writers_done (sys_server sys).
Proof.
  intros Hr He cli c Hc. apply not_false_is_true. intros Hw.
  destruct (reachable_held n sys Hr cli c Hc Hw) as (conn & ph & Hph & _). rewrite He, lookup_empty in Hph. discriminate Hph.
Qed.
End writers.
