(* ===== verification/Consumers.v ===== *)
(** The consumers of deliveries: a stored session is paused only while its own connection
    handles a SUBSCRIBE, and a consumer that waits while there is something to send, or
    will be, is woken. *)

From S2P Require Import Prelude Topic Wire Filters Encoder Decoder Codec CodecProofs Tree.
From S2P Require Import Broker Session SessionQueue SessionStore SessionProofs Delivery Auth AuthProofs Client.
From S2P Require Import Server Handlers Lifecycle ServerInv Ownership SystemProofs ServerTheorems HandlerProofs Frames WriterWaits.

Local Open Scope Z_scope.
Local Open Scope orb_scope.

(** * Definitions *)

(** No session is stored and paused that was not. *)
Definition pauses_kept (s s' : Server) : Prop := resumes (srv_sessions s) (srv_sessions s').

(** Every stored session that is paused has a connection in the handler of SUBSCRIBE. *)
Definition paused_held (sys : System) : Prop :=
  ∀ id p st, st_data (srv_sessions (sys_server sys)) !! id = Some p →
    states (srv_sessions (sys_server sys)) !! p = Some st → paused st = true →
    ∃ conn h o co q codes, sys_handlers sys !! conn = Some (Subscribing h o co q codes)
      ∧ conn_ClientID (h_connect h) = id.

(** * What a step does to pauses *)

#[export] Instance pauses_kept_preorder : PreOrder pauses_kept.
Proof. unfold pauses_kept. split; [intros s; reflexivity|]. intros s1 s2 s3 H12 H23. by etransitivity. Qed.

Lemma same_sessions s s' : srv_sessions s' = srv_sessions s → pauses_kept s s'.
Proof. unfold pauses_kept. by intros ->. Qed.

#[export] Instance pauses_frame : RunningFrame pauses_kept.
Proof.
  split; [apply _| | |intros; by apply same_sessions..].
  - intros A f Hf p s a s'. unfold on_session. destruct (call f p _) as [[a' st']|] eqn:Hc; simpl; [|done].
    intros [= _ <-]. by eapply call_resumes.
  - intros A f Hf s a s'. unfold on_store. destruct (f _) as [[a' st']|] eqn:Hc; simpl; [|done].
    intros [= _ <-]. by eapply store_resuming.
Qed.

Lemma do_authenticate_pauses kdf c1 c2 c3 deadline written h :
  frames pauses_kept (do_authenticate kdf c1 c2 c3 deadline written h).
Proof.
  unfold do_authenticate. apply frames_bind; [apply _| |intros [who code]].
  - intros s a s'. unfold authenticateConnect. destruct (srv_auth s) as [l|]; [|by intros [= _ <-]].
    destruct (Authenticate _ _ _ _ _ _) as [r l']. repeat case_match; intros [= _ <-]; by apply same_sessions.
  - destruct (negb _); [|frame]. apply frames_bind; [apply _|apply reject_framed|]. intros u. frame.
Qed.

Lemma do_handshake_pauses failed r : frames pauses_kept (do_handshake failed r).
Proof.
  intros s ph s' H. apply do_handshake_client in H as [->|(cli & c & _ & -> & _)]; by apply same_sessions.
Qed.

(** A session that is paused after SUBSCRIBE was read was before, or is the one of the
    connection, which waits for the SUBACK. *)
Lemma handlePacket_pauses cli p pkt e s out s' id p' st' :
  handlePacket cli p pkt e s = Some (out, s') →
  st_data (srv_sessions s') !! id = Some p' → states (srv_sessions s') !! p' = Some st' → paused st' = true →
  (∃ st, st_data (srv_sessions s) !! id = Some p' ∧ states (srv_sessions s) !! p' = Some st ∧ paused st = true)
  ∨ p' = p ∧ st_data (srv_sessions s) !! id = Some p' ∧ ∃ q codes, out = AwaitSubAck q codes.
Proof.
  intros H Hd Hst Hp.
  assert (Hor : (∃ q, pkt = PSubscribe q) ∨ ∀ q, pkt ≠ PSubscribe q) by (destruct pkt; first [by left; eexists|by right]).
  destruct Hor as [[q ->]|Hno].
  2: { left. exact (handle_running (R := pauses_kept) cli p pkt e Hno s out s' H id p' st' Hd Hst Hp). }
  apply bind_inv in H as ([err codes] & s5 & H & E). injection E as Eout <-.
  apply bind_inv in H as (u & s1 & H1 & H). apply on_session_inv in H1 as (x & x' & t' & Hx & E & ->).
  injection E as _ _ <-.
  assert (Hback : pauses_kept (set_sessions s (mkStore (st_data (srv_sessions s))
      (<[p := set_flow x true (changed x)]> (states (srv_sessions s))) (limits (srv_sessions s))
      (totals (srv_sessions s)))) s5 →
    p' ≠ p ∨ (∃ q codes, out = AwaitSubAck q codes) →
    (∃ st, st_data (srv_sessions s) !! id = Some p' ∧ states (srv_sessions s) !! p' = Some st ∧ paused st = true)
    ∨ p' = p ∧ st_data (srv_sessions s) !! id = Some p' ∧ ∃ q codes, out = AwaitSubAck q codes).
  { intros Hk Hwhere. destruct (Hk id p' st' Hd Hst Hp) as (y & Hd1 & Hy & Hpy). cbn [srv_sessions set_sessions st_data states] in *.
    apply lookup_insert_Some in Hy as [[<- <-]|[_ Hy]]; [|left; by exists y].
    right. destruct Hwhere as [Hne|Hout]; [by destruct Hne|done]. }
  apply bind_inv in H as (codes1 & s2 & H2 & H). apply bind_inv in H as (err1 & s3 & H3 & H).
  pose proof (subscribe_filters_framed (R := pauses_kept) _ _ _ _ _ H2) as K2.
  pose proof (sendPacket_framed (R := pauses_kept) _ _ _ _ _ _ H3) as K3.
  destruct err1 as [err1|].
  - apply bind_inv in H as (u4 & s4 & H4 & E). injection E as <- <- <-.
    pose proof (rf_session (R := pauses_kept) ResumeDelivery p _ _ _ H4) as K4. apply Hback.
    + etransitivity; [exact K2|]. by etransitivity.
    + left. intros ->. apply on_session_inv in H4 as (y & y' & t4 & _ & E & ->). injection E as _ _ <-.
      cbn [srv_sessions set_sessions states] in Hst. rewrite lookup_insert_eq in Hst. injection Hst as <-. discriminate Hp.
  - injection H as <- <- <-. apply Hback; [by etransitivity|]. right. rewrite <- Eout. by do 2 eexists.
Qed.

Section pauses.
Context (kdf : bytes → bytes → Z → Z → result bytes).

(** The handlers after a step of [conn]; [Hown] is about the sessions it held paused, or
    holds so now. *)
Lemma paused_moves sys s' conn ph ph' :
  paused_held sys → sys_handlers sys !! conn = Some ph →
  (∀ id p st', st_data (srv_sessions s') !! id = Some p → states (srv_sessions s') !! p = Some st' → paused st' = true →
     (∃ h o co q codes, ph' = Subscribing h o co q codes ∧ conn_ClientID (h_connect h) = id)
     ∨ (∀ h o co q codes, ph = Subscribing h o co q codes → conn_ClientID (h_connect h) ≠ id)
       ∧ ∃ st, st_data (srv_sessions (sys_server sys)) !! id = Some p
           ∧ states (srv_sessions (sys_server sys)) !! p = Some st ∧ paused st = true) →
  paused_held (mkSystem s' (<[conn := ph']> (sys_handlers sys))).
Proof.
  intros Hheld Hph Hown id p st' Hd Hst Hp. cbn [sys_server sys_handlers] in *.
  destruct (Hown id p st' Hd Hst Hp) as [(h & o & co & q & codes & -> & Hid)|[Hno (st & Hd0 & Hst0 & Hp0)]].
  - exists conn, h, o, co, q, codes. by rewrite lookup_insert_eq.
  - destruct (Hheld id p st Hd0 Hst0 Hp0) as (conn0 & h & o & co & q & codes & H0 & Hid).
    exists conn0, h, o, co, q, codes. split; [|exact Hid]. rewrite lookup_insert_ne; [exact H0|]. intros <-.
    rewrite Hph in H0. injection H0 as ->. by eapply Hno.
Qed.

Lemma moves_running sys s' conn ph ph' :
  paused_held sys → sys_handlers sys !! conn = Some ph → pauses_kept (sys_server sys) s' →
  (∀ h o co q codes, ph = Subscribing h o co q codes → ∃ co', ph' = Subscribing h o co' q codes) →
  paused_held (mkSystem s' (<[conn := ph']> (sys_handlers sys))).
Proof.
  intros Hheld Hph Hk Hsame. eapply paused_moves; [exact Hheld|exact Hph|]. intros id p st' Hd Hst Hp.
  assert (Hor : (∃ h o co q codes, ph = Subscribing h o co q codes ∧ conn_ClientID (h_connect h) = id)
    ∨ ∀ h o co q codes, ph = Subscribing h o co q codes → conn_ClientID (h_connect h) ≠ id).
  { destruct ph as [| | | | | | |h o co q codes| | | |]; try (right; discriminate).
    destruct (decide (conn_ClientID (h_connect h) = id)) as [E|E]; [left; by do 5 eexists|].
    right. intros h0 o0 co0 q0 codes0 Eq. by injection Eq as <- _ _ _ _. }
  destruct Hor as [(h & o & co & q & codes & E & Hid)|Hno]; [left|right; split; [exact Hno|exact (Hk id p st' Hd Hst Hp)]].
  destruct (Hsame _ _ _ _ _ E) as [co' ->]. by do 5 eexists.
Qed.

(** The session of a connection. *)
Lemma own_session n sys conn ph h o co a id p :
  sys_ok n sys → sys_handlers sys !! conn = Some ph → view ph = Some (h, Some o, co) →
  srv_owners (sys_server sys) !! o = Some a → st_data (srv_sessions (sys_server sys)) !! id = Some p →
  (p = ac_session a ↔ id = conn_ClientID (h_connect h)).
Proof.
  intros Hok Hph V Ha Hd. destruct (registered_handler _ sys conn ph h o co Hok Hph V) as (a' & st & Ha' & _ & _ & Hd' & _).
  assert (a' = a) as -> by congruence. split; [intros ->|intros ->; congruence].
  eapply data_inj; [apply (sv_store _ (sy_server _ _ Hok))|exact Hd|exact Hd'].
Qed.

Lemma serve_paused n sys conn h o co b e ph' s' :
  sys_ok n sys → paused_held sys → sys_handlers sys !! conn = Some (Serving h o co) →
  do_serve b e h o co (sys_server sys) = Some (ph', s') →
  paused_held (mkSystem s' (<[conn := ph']> (sys_handlers sys))).
Proof.
  intros Hok Hheld Hph H. unfold do_serve in H.
  assert (Hsame : s' = sys_server sys → paused_held (mkSystem s' (<[conn := ph']> (sys_handlers sys)))).
  { intros ->. by eapply moves_running; [exact Hheld|exact Hph|reflexivity|]. }
  destruct b; [apply Hsame; by injection H|]. apply bind_inv in H as (limit & s1 & E & H). injection E as <- <-.
  destruct (DecodeWithLimit _ _) as [[pkt r]|err]; [|apply Hsame; by injection H].
  apply bind_inv in H as (sess & s1 & H1 & H). unfold owner_session in H1.
  destruct (srv_owners (sys_server sys) !! o) as [a|] eqn:Ha; simpl in H1; [|discriminate H1]. injection H1 as <- <-.
  apply bind_inv in H as (out & s2 & H2 & E). injection E as <- <-.
  eapply paused_moves; [exact Hheld|exact Hph|]. intros id p st' Hd Hst Hp.
  destruct (handlePacket_pauses _ _ _ _ _ _ _ id p st' H2 Hd Hst Hp) as [Hold|(Hpa & Hd0 & q & codes & ->)]; [right; by split|].
  left. do 5 eexists. split; [reflexivity|]. symmetry. by apply (own_session n sys conn _ h o co a id p Hok Hph eq_refl Ha Hd0).
Qed.

Lemma subscribed_paused n sys conn h o co q codes written clock ph' s' :
  sys_ok n sys → paused_held sys → sys_handlers sys !! conn = Some (Subscribing h o co q codes) →
  do_subscribed written clock h o co q codes (sys_server sys) = Some (ph', s') →
  paused_held (mkSystem s' (<[conn := ph']> (sys_handlers sys))).
Proof.
  intros Hok Hheld Hph H. destruct (serving_session _ _ _ _ _ _ _ Hok Hph eq_refl) as (a & st & c & Ha & _ & Hst & _ & _ & Hc).
  apply bind_inv in H as (sess & s1 & H1 & H). unfold owner_session in H1. rewrite Ha in H1. injection H1 as <- <-.
  apply bind_inv in H as (err & s2 & H2 & E). injection E as <- <-.
  destruct (handleSubscribe_retained_inv _ _ _ _ _ _ _ _ _ st c H2 Hst Hc) as (st3 & _ & _ & Hst3 & _ & [Hp3 _] & _).
  eapply paused_moves; [exact Hheld|exact Hph|]. intros id p st' Hd Hst' Hp. right.
  destruct (handleSubscribe_retained_framed (R := pauses_kept) _ _ _ _ _ _ _ _ _ H2 id p st' Hd Hst' Hp) as (x & Hd0 & Hx & Hpx).
  split; [|by exists x]. intros h0 o0 co0 q0 codes0 E Hid. injection E as <- _ _ _ _. subst id.
  assert (p = ac_session a) as -> by by apply (own_session n sys conn _ h o co a _ p Hok Hph eq_refl Ha Hd0). congruence.
Qed.

Lemma handler_paused n conn i sys sys' :
  sys_ok n sys → paused_held sys → sys_exec kdf (EvHandler conn i) sys = Some sys' → paused_held sys'.
Proof.
  intros Hok Hheld Hex. cbn [sys_exec] in Hex. apply bind_Some in Hex as (ph & Hph & Hex).
  apply bind_Some in Hex as (act & Hact & Hex). apply bind_Some in Hex as ([ph' s'] & Hrun & Hex). injection Hex as <-.
  assert (Hco : ∀ h o co (m : stateptr → action consumer), consumer_of ph = Some (h, o, co) → (∀ sess, frames pauses_kept (m sess)) →
    act = (sess ← owner_session o; co ← m sess; mret (set_consumer co ph)) →
    paused_held (mkSystem s' (<[conn := ph']> (sys_handlers sys)))).
  { intros h o co m V Hm ->. pose proof (consumer_framed m o ph Hm _ _ _ Hrun) as Hk.
    apply bind_inv in Hrun as (sess & s1 & _ & Hrun). apply bind_inv in Hrun as (co' & s2 & _ & E). injection E as <- _.
    eapply moves_running; [exact Hheld|exact Hph|exact Hk|]. intros h0 o0 co0 q codes ->. by exists co'. }
  assert (Hrest : (∀ h o co q codes, ph ≠ Subscribing h o co q codes) → frames pauses_kept act →
    paused_held (mkSystem s' (<[conn := ph']> (sys_handlers sys)))).
  { intros Hno Hf. eapply moves_running; [exact Hheld|exact Hph|exact (Hf _ _ _ Hrun)|]. intros h o co q codes E. by destruct (Hno _ _ _ _ _ E). }
  destruct i as [failed|c1 c2 c3 dl w|ctxErr now dl w|b|dl|w cl|b e|w ck|clock|now| |b|w|w].
  12, 14: cbn [phase_step] in Hact; destruct (consumer_of ph) as [[[h o] [ep|ep|ep|]]|] eqn:V; try discriminate Hact;
    injection Hact as <-; (eapply Hco; [reflexivity| |reflexivity]); intros sess; first [apply consume_framed|apply wake_framed].
  12: { cbn [phase_step] in Hact. destruct (consumer_of ph) as [[[h o] [ep|ep|ep|]]|] eqn:V; try discriminate Hact.
    injection Hact as <-. apply bind_inv in Hrun as (co' & s1 & H1 & E). injection E as <- <-.
    eapply moves_running; [exact Hheld|exact Hph|exact (sent_framed (R := pauses_kept) _ _ _ _ _ _ H1)|].
    intros h0 o0 co0 q codes ->. by exists co'. }
  all: destruct ph as [r|h|h|h previous|h o present|h o|h o co|h o co q codes|h o co clean|h o co|h o [ep|ep|ep|]|]; try discriminate Hact.
  7: { injection Hact as <-. by eapply serve_paused. }
  7: { injection Hact as <-. by eapply subscribed_paused. }
  1: { injection Hact as <-. apply Hrest; [discriminate|apply do_handshake_pauses]. }
  1: { injection Hact as <-. apply Hrest; [discriminate|apply do_authenticate_pauses]. }
  all: apply Hrest; [discriminate|]; eapply phase_step_running; [exact Hact|discriminate..].
Qed.

Lemma exec_paused n e sys sys' :
  sys_ok n sys → paused_held sys → sys_enabled kdf e sys = true → sys_exec kdf e sys = Some sys' → paused_held sys'.
Proof.
  intros Hok Hheld Hen Hex. destruct e as [ctxErr conn r|conn i|conn|cli set m err|cli|now].
  - cbn [sys_enabled] in Hen. apply andb_prop in Hen as [Hnone _]. apply bool_decide_eq_true_1 in Hnone.
    cbn [sys_exec] in Hex. destruct (start _ _ _ _) as [out g]. injection Hex as <-. intros id p st Hd Hst Hp. cbn [sys_server sys_handlers] in *.
    destruct (Hheld id p st Hd Hst Hp) as (conn0 & h & o & co & q & codes & H0 & Hid). exists conn0, h, o, co, q, codes. split; [|exact Hid].
    destruct (decide _); [|exact H0]. rewrite lookup_insert_ne; [exact H0|congruence].
  - by eapply handler_paused.
  - apply exec_finish_inv in Hex as (g & _ & ->). cbn [sys_enabled] in Hen. intros id p st Hd Hst Hp. cbn [sys_server sys_handlers] in *.
    destruct (Hheld id p st Hd Hst Hp) as (conn0 & h & o & co & q & codes & H0 & Hid). exists conn0, h, o, co, q, codes. split; [|exact Hid].
    rewrite lookup_delete_ne; [exact H0|]. intros <-. rewrite H0 in Hen. discriminate Hen.
  - apply exec_write_inv in Hex as (c & w & q & c' & _ & _ & _ & ->). exact Hheld.
  - apply exec_exit_inv in Hex as (c & c' & _ & _ & ->). exact Hheld.
  - cbn [sys_exec] in Hex. apply bind_Some in Hex as ([u s'] & Hrun & Hex). injection Hex as <-.
    pose proof (expire_framed (R := pauses_kept) _ _ _ _ Hrun) as Hk. intros id p st Hd Hst Hp.
    destruct (Hk id p st Hd Hst Hp) as (x & Hd0 & Hx & Hpx). by eapply Hheld.
Qed.

Lemma reachable_paused n sys : sys_reachable kdf n sys → Z.of_nat n < 2 ^ 64 → paused_held sys.
Proof.
  induction 1 as [sets policy b st Hcf _|n sys e sys' Hr IH Hen Hex]; intros Hlt.
  - intros id p x Hd. destruct (cf_store _ _ _ Hcf) as [l Hl]. unfold NewWithLimits in Hl.
    destruct (Limits_Validate l); [discriminate Hl|]. injection Hl as <-. simpl in Hd. by rewrite lookup_empty in Hd.
  - eapply exec_paused; [apply (reachable_sys_ok kdf n); [exact Hr|lia]|apply IH; lia|exact Hen|exact Hex].
Qed.
End pauses.

(** A token in [changed] lets the consumer go on. *)
Lemma changed_wakes kdf sys conn ph h o ep a st :
  sys_handlers sys !! conn = Some ph → consumer_of ph = Some (h, o, Blocked ep) →
  srv_owners (sys_server sys) !! o = Some a → states (srv_sessions (sys_server sys)) !! ac_session a = Some st →
  changed st = true →
  ∃ sys', sys_enabled kdf (EvHandler conn (IWake WakeChanged)) sys = true
    ∧ sys_exec kdf (EvHandler conn (IWake WakeChanged)) sys = Some sys'
    ∧ sys_handlers sys' !! conn = Some (set_consumer (Running ep) ph).
Proof.
  intros Hph Hco Ha Hst Hch.
  assert (Hact : phase_step kdf conn (IWake WakeChanged) ph = Some (sess ← owner_session o;
    co ← do_wake WakeChanged sess ep; mret (set_consumer co ph))) by (simpl; by rewrite Hco).
  assert (Hwake : on_session receive_changed (ac_session a) (sys_server sys) = Some (changed st,
    set_sessions (sys_server sys) (mkStore (st_data (srv_sessions (sys_server sys)))
      (<[ac_session a := set_flow st (paused st) false]> (states (srv_sessions (sys_server sys))))
      (limits (srv_sessions (sys_server sys))) (totals (srv_sessions (sys_server sys))))))
    by (unfold on_session, call; by rewrite Hst).
  eexists. split_and!.
  - cbn [sys_enabled]. rewrite Hph, Hact, bool_decide_true by (by eexists). simpl. by rewrite Hco, Ha, Hst.
  - cbn [sys_exec]. rewrite Hph. cbn [mbind option_bind]. rewrite Hact. cbn [mbind option_bind].
    unfold mbind at 2, action_bind, owner_session. rewrite Ha. cbn [mbind option_bind].
    unfold mbind at 2, action_bind, do_wake. unfold mbind at 3, action_bind. rewrite Hwake. reflexivity.
  - simpl. apply lookup_insert_eq.
Qed.

(** The rest of the handler of SUBSCRIBE resumes the session, with a token in [changed]. *)
Lemma subscribed_resumes kdf n sys conn h o co q codes written clock a st :
  sys_ok (Z.of_nat n) sys → Z.of_nat n + 1 < 2 ^ 64 → sys_handlers sys !! conn = Some (Subscribing h o co q codes) →
  srv_owners (sys_server sys) !! o = Some a → states (srv_sessions (sys_server sys)) !! ac_session a = Some st →
  ∃ err sys' st', sys_enabled kdf (EvHandler conn (ISubAck written clock)) sys = true
    ∧ sys_exec kdf (EvHandler conn (ISubAck written clock)) sys = Some sys'
    ∧ sys_handlers sys' !! conn = Some (after_packet h o co err)
    ∧ states (srv_sessions (sys_server sys')) !! ac_session a = Some st' ∧ paused st' = false ∧ changed st' = true.
Proof.
  intros Hok Hlt Hph Ha Hst.
  assert (Hen : sys_enabled kdf (EvHandler conn (ISubAck written clock)) sys = true).
  { cbn [sys_enabled]. by rewrite Hph, bool_decide_true by (by eexists). }
  destruct (sys_exec_ok kdf (Z.of_nat n) sys _ ltac:(lia) Hlt Hok Hen) as (sys' & Hex & _).
  pose proof Hex as Hrun. cbn [sys_exec] in Hrun. rewrite Hph in Hrun. cbn [mbind option_bind phase_step] in Hrun.
  apply bind_Some in Hrun as ([ph' s'] & Hrun & E). injection E as <-.
  apply bind_inv in Hrun as (sess & s1 & H1 & Hrun). unfold owner_session in H1. rewrite Ha in H1. injection H1 as <- <-.
  apply bind_inv in Hrun as (err & s2 & Hrun & E). injection E as <- <-.
  destruct (handler_client (Z.of_nat n) sys conn Hok _ h (Some o) co Hph eq_refl) as [c Hc].
  destruct (handleSubscribe_retained_inv _ _ _ _ _ _ _ _ _ st c Hrun Hst Hc) as (st' & _ & _ & Hst' & _ & [Hp Hch] & _).
  exists err. eexists. exists st'. split_and!; try done. cbn [sys_handlers]. apply lookup_insert_eq.
Qed.

(** * Theorem *)

(** C21: no message is slept on: in every reachable state, when the consumer of a
    connection waits while its session has a message it may send, the channel
    [changed] holds a token, so the consumer can go on, and then it runs [Next] for
    the session's current epoch.  When nothing may be sent because the session is
    paused, the connection is in the handler of a SUBSCRIBE, waiting for its SUBACK to
    be written; whatever comes of that, the session is resumed afterwards with a token
    in [changed], for the same consumer. *)
Theorem blocked_consumer_wakes kdf n sys conn ph h o ep :
  sys_reachable kdf n sys → Z.of_nat n + 1 < 2 ^ 64 →
  sys_handlers sys !! conn = Some ph → consumer_of ph = Some (h, o, Blocked ep) →
  ∃ a st, srv_owners (sys_server sys) !! o = Some a
    ∧ states (srv_sessions (sys_server sys)) !! ac_session a = Some st ∧ epoch st = ep
    ∧ (can_send (limits (srv_sessions (sys_server sys))) st = true →
       changed st = true ∧ ∃ sys', sys_enabled kdf (EvHandler conn (IWake WakeChanged)) sys = true
         ∧ sys_exec kdf (EvHandler conn (IWake WakeChanged)) sys = Some sys'
         ∧ sys_handlers sys' !! conn = Some (set_consumer (Running ep) ph))
    ∧ (paused st = true → ∃ q codes, ph = Subscribing h o (Blocked ep) q codes
         ∧ ∀ written clock, ∃ err sys' st', sys_enabled kdf (EvHandler conn (ISubAck written clock)) sys = true
           ∧ sys_exec kdf (EvHandler conn (ISubAck written clock)) sys = Some sys'
           ∧ sys_handlers sys' !! conn = Some (after_packet h o (Blocked ep) err)
           ∧ states (srv_sessions (sys_server sys')) !! ac_session a = Some st'
           ∧ paused st' = false ∧ changed st' = true).
Proof.
  intros Hr Hlt Hph Hco. pose proof (reachable_sys_ok kdf n sys Hr ltac:(lia)) as Hok.
  destruct (registered_handler _ sys conn ph h o (Blocked ep) Hok Hph (view_consumer _ _ _ _ Hco))
    as (a & st & Ha & _ & _ & Hd & Hst & _ & _ & Hep & Hbl).
  exists a, st. split; [done|]. split; [done|]. split; [done|]. split.
  - intros Hcan. split; [exact (Hbl Hcan)|]. exact (changed_wakes kdf sys conn ph h o ep a st Hph Hco Ha Hst (Hbl Hcan)).
  - intros Hp. destruct (reachable_paused kdf n sys Hr ltac:(lia) _ _ _ Hd Hst Hp) as (conn' & h' & o' & co' & q & codes & Hph' & Hid).
    assert (conn' = conn) as ->.
    { destruct (registered_handler _ sys conn' _ h' o' co' Hok Hph' eq_refl) as (a' & _ & _ & _ & Hreg' & _).
      destruct (registered_handler _ sys conn ph h o (Blocked ep) Hok Hph (view_consumer _ _ _ _ Hco)) as (_ & _ & _ & _ & Hreg & _).
      rewrite Hid, Hreg in Hreg'. injection Hreg' as <-.
      eapply owner_unique; [exact Hok|exact Hph'|exact Hph|done|unfold phase_owner; by rewrite (view_consumer _ _ _ _ Hco)]. }
    assert (ph = Subscribing h' o' co' q codes) as -> by congruence. injection Hco as -> -> ->.
    exists q, codes. split; [done|]. intros written clock.
    by apply (subscribed_resumes kdf n sys conn h o (Blocked ep) q codes written clock a st).
Qed.

Lemma blocked_consumer_wakes_witness :
  ∃ sys sys', sys_reachable no_kdf 10 sys
    ∧ sys_exec no_kdf (EvHandler 0 (IWake WakeChanged)) sys = Some sys'.
Proof.
  destruct example_view as (sys & ph & h & o & Hrun & Hr & Hph & Hco & _).
  destruct (blocked_consumer_wakes no_kdf 10 sys 0 ph h o 1 Hr ltac:(vm_compute; reflexivity) Hph Hco)
    as (a & st & Ha & Hst & _ & Hwake & _).
  assert (Hcan : match run_events no_kdf example_events example_system with
    | Some sys => match sys_handlers sys !! 0%nat ≫= consumer_of with
                  | Some (_, o, _) =>
                      match srv_owners (sys_server sys) !! o with
                      | Some a => match states (srv_sessions (sys_server sys)) !! ac_session a with
                                  | Some st => can_send (limits (srv_sessions (sys_server sys))) st
                                  | None => false
                                  end
                      | None => false
                      end
                  | None => false
                  end
    | None => false
    end = true) by (vm_compute; reflexivity).
  rewrite Hrun, Hph in Hcan. cbn [mbind option_bind] in Hcan. rewrite Hco, Ha, Hst in Hcan.
  destruct (Hwake Hcan) as (_ & sys' & _ & Hex & _). exists sys, sys'. split; [exact Hr|exact Hex].
Defined.
