(* ===== verification/PublishProofs.v ===== *)
(** What publishing a message does to the sessions and clients of the server, and the
    RETAIN flag of the copies it sends. *)

From S2P Require Import Prelude Topic Wire Filters Encoder Decoder Codec CodecProofs Tree.
From S2P Require Import Broker Session SessionQueue SessionStore SessionProofs Delivery Auth AuthProofs Client.
From S2P Require Import Server Handlers Lifecycle ServerInv Ownership SystemProofs ServerTheorems HandlerProofs Frames.

Local Open Scope Z_scope.
Local Open Scope orb_scope.

(** * One subscriber *)

(** The session of a subscription with QoS [q] gets the message, at time [now]. *)
Definition session_effect (s : Server) (pub : PublishPacket) (q now : Z) (st st' : State) : Prop :=
  if deliveryQoS (pub_QoS pub) q =? 0 then st' = st
  else match newPublishTemplate (encodePublishFn (settings s)) (newOutboundPublish pub 1) with
       | Ok t => ∃ tot tot' r,
           Admit (raw t) (t_packetIDOffset t) now (limits (srv_sessions s)) tot st = Some (r, tot', st')
       | Error _ => st' = st
       end.

(** A client that is online gets the message at QoS 0, or is closed. *)
Definition client_effect (s : Server) (pub : PublishPacket) (c : Client) : Client :=
  match encodePublishFn (settings s) (newOutboundPublish pub 0) with
  | Ok data => match enqueue c (mkWrite data None 0) with (None, c') => c' | (Some _, c') => Close c' end
  | Error _ => c
  end.

(** The client that a subscription writes to. *)
Definition target (s : Server) (pub : PublishPacket) (sub : Subscription) : option clientptr :=
  if deliveryQoS (pub_QoS pub) (sub_QoS sub) =? 0
  then default None (online_client s (sub_ClientID sub) (sbr_ref (sub_Subscriber sub))) else None.

(** The route leads to the session of its client. *)
Definition leads (s : Server) (sub : Subscription) : Prop :=
  st_data (srv_sessions s) !! sub_ClientID sub = Some (sbr_ref (sub_Subscriber sub)) ∧ 0 <= sub_QoS sub <= 1.

Lemma deliveryQoS_small p q : 0 <= p → 0 <= q <= 1 → deliveryQoS p q = 0 ∨ deliveryQoS p q = 1.
Proof. intros Hp Hq. unfold deliveryQoS. destruct (Z.ltb_spec q p); lia. Qed.

(** What one call of the delivery function does. *)
Record delivered (s : Server) (pub : PublishPacket) (sub : Subscription) (now : Z) (s' : Server) : Prop := {
  dl_session st : states (srv_sessions s) !! sbr_ref (sub_Subscriber sub) = Some st →
    ∃ st', states (srv_sessions s') !! sbr_ref (sub_Subscriber sub) = Some st'
      ∧ session_effect s pub (sub_QoS sub) now st st';
  dl_sessions p : p ≠ sbr_ref (sub_Subscriber sub) →
    states (srv_sessions s') !! p = states (srv_sessions s) !! p;
  dl_client cli c : target s pub sub = Some cli → srv_conns s !! cli = Some c →
    srv_conns s' !! cli = Some (client_effect s pub c);
  dl_clients cli : target s pub sub ≠ Some cli → srv_conns s' !! cli = srv_conns s !! cli }.

Lemma client_effect_error s pub err c :
  encodePublishFn (settings s) (newOutboundPublish pub 0) = Error err → client_effect s pub c = c.
Proof. intros E. unfold client_effect. by rewrite E. Qed.

(** Enqueueing for a target, seen from outside. *)
Lemma enqueue_effect s pub cli c data :
  srv_conns s !! cli = Some c → encodePublishFn (settings s) (newOutboundPublish pub 0) = Ok data →
  ∃ err s1, Enqueue cli data s = Some (err, s1)
    ∧ match err with Some _ => '(_, s) ← close_client cli s1; Some s | None => Some s1 end
      = Some (set_conns s (<[cli := client_effect s pub c]> (srv_conns s))).
Proof.
  intros Hc He. unfold client_effect. rewrite He. unfold Enqueue, close_client, on_client. rewrite Hc. simpl.
  destruct (enqueue c _) as [[err|] c']; do 2 eexists; (split; [done|]); [|done].
  simpl. rewrite lookup_insert_eq. simpl. by rewrite insert_insert_eq.
Qed.

(** Nothing happens. *)
Lemma delivered_nothing s pub sub now :
  (∀ st, states (srv_sessions s) !! sbr_ref (sub_Subscriber sub) = Some st →
     session_effect s pub (sub_QoS sub) now st st) →
  (∀ cli c, target s pub sub = Some cli → client_effect s pub c = c) → delivered s pub sub now s.
Proof.
  intros Hst Hcl. split; [|done| |done].
  - intros st Hs. exists st. auto.
  - intros cli c Ht Hc. by rewrite (Hcl cli c Ht).
Qed.

Lemma deliver_delivers now pub sub cache s :
  server_ok s → leads s sub → 0 <= pub_QoS pub → cache_ok (encodePublishFn (settings s)) pub cache →
  ∃ e cache' s', deliverPublishToSubscriber now pub sub cache s = Some (e, cache', s')
    ∧ cache_ok (encodePublishFn (settings s)) pub cache' ∧ delivered s pub sub now s'.
Proof.
  intros Hok [Hget Hq] Hpq Hcache. unfold deliverPublishToSubscriber, Get. rewrite Hget.
  rewrite bool_decide_false by (intros Hne; by apply Hne).
  destruct (data_state _ _ _ (sv_store _ Hok) Hget) as (st & Hst & _).
  destruct (deliveryQoS_small _ _ Hpq Hq) as [E|E]; rewrite E; [change (0 =? 0) with true|change (1 =? 0) with false]; cbv iota.
  - assert (Hses : ∀ st, session_effect s pub (sub_QoS sub) now st st) by (intros; unfold session_effect; by rewrite E).
    destruct (online_client_ok s (sub_ClientID sub) (sbr_ref (sub_Subscriber sub)) Hok) as (on & Hon & Hcli).
    rewrite Hon. cbn [mbind option_bind].
    assert (Htarget : target s pub sub = on) by (unfold target; rewrite E, Hon; done).
    destruct on as [cli|].
    2: { exists None, cache, s. split; [done|]. split; [done|]. apply delivered_nothing; [auto|].
         intros cli c Ht. congruence. }
    destruct (cache_qos0 _ _ _ Hcache) as [E0 Hc0]. destruct (qos0Payload _ _ _) as [r cache']. simpl in E0, Hc0.
    destruct r as [data|err].
    + destruct (Hcli cli eq_refl) as (c & Hc & _).
      destruct (enqueue_effect s pub cli c data Hc (eq_sym E0)) as (err & s1 & Henq & Hrest).
      exists None, cache', (set_conns s (<[cli := client_effect s pub c]> (srv_conns s))). split.
      { rewrite Henq. cbn [mbind option_bind]. destruct err; [|congruence].
        destruct (close_client cli s1) as [[? ?]|]; simpl in *; congruence. }
      split; [done|]. split; simpl.
      * intros st0 Hst0. exists st0. auto.
      * done.
      * intros cli0 c0 Ht Hc0'. assert (cli0 = cli) as -> by congruence. rewrite lookup_insert_eq. congruence.
      * intros cli0 Ht. rewrite lookup_insert_ne; [done|]. congruence.
    + exists (Some err), cache', s. split; [done|]. split; [done|]. apply delivered_nothing; [auto|].
      intros cli0 c0 _. by apply (client_effect_error _ _ err).
  - assert (Htarget : target s pub sub = None) by (unfold target; by rewrite E).
    destruct (cache_qos1 _ _ _ Hcache) as [E1 Hc1]. destruct (qos1Template _ _ _) as [r cache']. simpl in E1, Hc1.
    destruct r as [t|err].
    + destruct (on_session_runs always (Admit (raw t) (t_packetIDOffset t) now) s _ st (sv_store _ Hok) Hst I)
        as (r & s' & Hrun & st' & t' & Hf & -> & _). rewrite Hrun. cbn [mbind option_bind].
      do 3 eexists. split; [done|]. split; [done|]. split; simpl.
      * intros st0 Hst0. assert (st0 = st) as -> by congruence. exists st'. rewrite lookup_insert_eq. split; [done|].
        unfold session_effect. rewrite E, <- E1. simpl. eauto.
      * intros p Hne. by rewrite lookup_insert_ne.
      * intros cli c Ht. congruence.
      * done.
    + exists (Some err), cache', s. split; [done|]. split; [done|]. apply delivered_nothing; [|intros; congruence].
      intros st0 _. unfold session_effect. by rewrite E, <- E1.
Qed.

(** * All subscribers *)

Section quiet.
Context (s s' : Server) (Hq : quiet s s').

Lemma target_quiet pub sub : target s' pub sub = target s pub sub.
Proof. unfold target, online_client. by rewrite (qu_clients _ _ Hq), (qu_owners _ _ Hq). Qed.

Lemma client_effect_quiet pub c : client_effect s' pub c = client_effect s pub c.
Proof. unfold client_effect. by rewrite (qu_settings _ _ Hq). Qed.

Lemma session_effect_quiet pub q now st st' : session_effect s' pub q now st st' ↔ session_effect s pub q now st st'.
Proof. unfold session_effect. by rewrite (qu_settings _ _ Hq), (sq_limits _ _ (qu_store _ _ Hq)). Qed.

Lemma leads_quiet sub : leads s sub → leads s' sub.
Proof. unfold leads. by rewrite (sq_data _ _ (qu_store _ _ Hq)). Qed.
End quiet.

(** A subscription's target has its client's name. *)
Lemma target_name s pub sub cli :
  server_ok s → target s pub sub = Some cli → ∃ c, srv_conns s !! cli = Some c ∧ c_id c = sub_ClientID sub.
Proof.
  intros Hok. unfold target. destruct (_ =? 0); [|done].
  destruct (online_client_ok s (sub_ClientID sub) (sbr_ref (sub_Subscriber sub)) Hok) as (on & -> & Hcli). simpl. auto.
Qed.

(** What a list of subscriptions of different clients does. *)
Record all_delivered (s : Server) (pub : PublishPacket) (clock : Subscription → Z) (subs : list Subscription)
    (s' : Server) : Prop := {
  ad_session sub st : sub ∈ subs → states (srv_sessions s) !! sbr_ref (sub_Subscriber sub) = Some st →
    ∃ st', states (srv_sessions s') !! sbr_ref (sub_Subscriber sub) = Some st'
      ∧ session_effect s pub (sub_QoS sub) (clock sub) st st';
  ad_sessions p : (∀ sub, sub ∈ subs → sbr_ref (sub_Subscriber sub) ≠ p) →
    states (srv_sessions s') !! p = states (srv_sessions s) !! p;
  ad_client sub cli c : sub ∈ subs → target s pub sub = Some cli → srv_conns s !! cli = Some c →
    srv_conns s' !! cli = Some (client_effect s pub c);
  ad_clients cli : (∀ sub, sub ∈ subs → target s pub sub ≠ Some cli) → srv_conns s' !! cli = srv_conns s !! cli }.

(** Subscriptions of different clients lead to different sessions and clients. *)
Lemma leads_distinct s sub1 sub2 :
  server_ok s → leads s sub1 → leads s sub2 → sub_ClientID sub1 ≠ sub_ClientID sub2 →
  sbr_ref (sub_Subscriber sub1) ≠ sbr_ref (sub_Subscriber sub2).
Proof.
  intros Hok [H1 _] [H2 _] Hne E. apply Hne. rewrite E in H1. by eapply data_inj; [apply (sv_store _ Hok)|..].
Qed.

Lemma targets_distinct s pub sub1 sub2 cli :
  server_ok s → target s pub sub1 = Some cli → target s pub sub2 = Some cli → sub_ClientID sub1 = sub_ClientID sub2.
Proof.
  intros Hok (c1 & Hc1 & E1)%target_name (c2 & Hc2 & E2)%target_name; [|done..]. congruence.
Qed.

Lemma deliver_all_delivers clock pub subs s cache err :
  server_ok s → 0 <= pub_QoS pub → Forall (leads s) subs → NoDup (sub_ClientID <$> subs) →
  cache_ok (encodePublishFn (settings s)) pub cache →
  ∃ s' cache' err', foldl (λ st sub, (deliver_to clock pub sub st).2) (Some (s, cache, err)) subs
                    = Some (s', cache', err')
    ∧ all_delivered s pub clock subs s'.
Proof.
  revert s cache err. induction subs as [|sub subs IH]; intros s cache err Hok Hpq Hl Hnd Hcache.
  { exists s, cache, err. split; [done|]. split; try done; by intros ? ? ?%elem_of_nil || intros ? ? ? ?%elem_of_nil. }
  apply Forall_cons in Hl as [Hlead Hl]. cbn [fmap list_fmap] in Hnd. apply NoDup_cons in Hnd as [Hnew Hnd].
  destruct (deliver_delivers (clock sub) pub sub cache s Hok Hlead Hpq Hcache) as (e & c1 & s1 & Hrun & Hc1 & Hdel).
  destruct (deliver_runs (clock sub) pub sub cache s Hok) as (r & s1' & Hrun' & [Hok1 Hq1] & _).
  assert (s1' = s1) as -> by congruence. clear Hrun'.
  assert (Hother : ∀ sub', sub' ∈ subs → sub_ClientID sub' ≠ sub_ClientID sub).
  { intros sub' Hin E. apply Hnew. rewrite <- E. by apply list_elem_of_fmap_2. }
  assert (Hleads : ∀ sub', sub' ∈ subs → leads s sub') by (by apply Forall_forall).
  cbn [foldl]. unfold deliver_to at 2. rewrite Hrun. cbn [snd].
  destruct (IH s1 c1 (match e with Some err => Some err | None => err end) Hok1 Hpq) as (s2 & c2 & e2 & Hfold & [A1 A2 A3 A4]);
    [eapply Forall_impl; [exact Hl|]; intros; by eapply leads_quiet|done|by rewrite (qu_settings _ _ Hq1)|].
  exists s2, c2, e2. split; [exact Hfold|]. destruct Hdel as [D1 D2 D3 D4]. split.
  - intros sub' st [->|Hin]%elem_of_cons Hst.
    + destruct (D1 st Hst) as (st' & Hst' & He). exists st'. split; [|done]. rewrite A2; [done|].
      intros sub' Hin. apply (leads_distinct s); auto.
    + rewrite <- D2 in Hst by (apply (leads_distinct s); auto).
      destruct (A1 sub' st Hin Hst) as (st' & Hst' & He). exists st'. split; [done|].
      by apply (session_effect_quiet s s1 Hq1).
  - intros p Hp. rewrite A2 by (intros sub' Hin; apply Hp; by right). apply D2. intros ->.
    by apply (Hp sub); [left|].
  - intros sub' cli c [->|Hin]%elem_of_cons Ht Hc.
    + rewrite A4; [by apply D3|]. intros sub' Hin. rewrite (target_quiet s s1 Hq1). intros Ht'.
      apply (Hother sub' Hin). exact (targets_distinct s pub sub' sub cli Hok Ht' Ht).
    + rewrite <- (client_effect_quiet s s1 Hq1). apply (A3 sub' cli c Hin); [by rewrite (target_quiet s s1 Hq1)|].
      rewrite D4; [done|]. intros Ht'. apply (Hother sub' Hin). exact (targets_distinct s pub sub' sub cli Hok Ht Ht').
  - intros cli Hcli. rewrite A4; [apply D4, Hcli; left|]. intros sub' Hin. rewrite (target_quiet s s1 Hq1).
    apply Hcli. by right.
Qed.

(** * The theorem *)

(** [q] is the highest QoS of the session's subscriptions that match the topic. *)
Definition best_match (st : State) (topic : bytes) (q : Z) : Prop :=
  (∃ f, subscriptions st !! f = Some q ∧ MatchFilter f topic = true)
  ∧ ∀ f q', subscriptions st !! f = Some q' → MatchFilter f topic = true → q' <= q.

(** The route of a session is what [Match] gives for its best subscription. *)
Lemma Match_best_match s topic id p st q :
  server_ok s → validateTopicName topic = None → st_data (srv_sessions s) !! id = Some p →
  states (srv_sessions s) !! p = Some st → best_match st topic q →
  ∃ sub, sub ∈ Match (topics (srv_broker s)) topic ∧ sub = mkSubscription id (subscriber p id) q.
Proof.
  intros Hok Ht Hid Hst [(f & Hf & Hm) Hbest].
  pose proof (ro_broker _ (sv_broker _ Hok)) as Hb. destruct (Match_routes _ topic (bo_filters _ Hb) Ht) as (_ & Hin & Hall).
  assert (Hroute : ∀ g q', subscriptions st !! g = Some q' →
    find (root (topics (srv_broker s))) (splitFilter g) id = Some (mkSubscription id (subscriber p id) q')).
  { intros g q' Hg. rewrite (sv_routes _ Hok g id). unfold session_route. rewrite Hid. simpl. rewrite Hst. simpl. by rewrite Hg. }
  assert (Hrouted : routed (topics (srv_broker s)) topic (mkSubscription id (subscriber p id) q)).
  { exists f, id. split; [by apply Hroute|]. split; [|done].
    by destruct (bo_filters _ Hb _ _ _ (Hroute f q Hf)) as (g & ->%(inj splitFilter) & Hg). }
  destruct (Hall _ Hrouted) as (sub & Hsub & Eid). exists sub. split; [done|].
  destruct (Hin sub Hsub) as [(g & c & Hg & Hv & Hmg) Hmax]. simpl in Eid.
  pose proof Hg as Hg'. rewrite (sv_routes _ Hok g c) in Hg'. unfold session_route in Hg'.
  apply bind_Some in Hg' as (p' & Hp' & (st' & Hst' & (q' & Hq' & [= <-])%bind_Some)%bind_Some). simpl in *. subst c.
  assert (p' = p) as -> by congruence. assert (st' = st) as -> by congruence.
  pose proof (Hmax _ Hrouted eq_refl) as Hle. simpl in Hle. pose proof (Hbest g q' Hq' Hmg). f_equal. lia.
Qed.

(** Everything that [Match] gives is the best subscription of a session. *)
Lemma Match_leads s topic sub :
  server_ok s → validateTopicName topic = None → sub ∈ Match (topics (srv_broker s)) topic →
  leads s sub ∧ ∃ p st, st_data (srv_sessions s) !! sub_ClientID sub = Some p ∧ states (srv_sessions s) !! p = Some st
    ∧ sub = mkSubscription (sub_ClientID sub) (subscriber p (sub_ClientID sub)) (sub_QoS sub)
    ∧ best_match st topic (sub_QoS sub).
Proof.
  intros Hok Ht Hsub. pose proof (ro_broker _ (sv_broker _ Hok)) as Hb.
  destruct (Match_routes _ topic (bo_filters _ Hb) Ht) as (_ & Hin & _).
  destruct (Hin sub Hsub) as [(g & c & Hg & Hv & Hmg) Hmax]. pose proof (ro_qos _ (sv_broker _ Hok) _ _ _ Hg) as Hq.
  rewrite (sv_routes _ Hok g c) in Hg. unfold session_route in Hg.
  apply bind_Some in Hg as (p & Hp & (st & Hst & (q & Hq' & E)%bind_Some)%bind_Some). injection E as <-. simpl in *.
  split; [by split|]. exists p, st. split_and!; try done. split; [by exists g|]. intros f q' Hf Hm.
  assert (Hroute : find (root (topics (srv_broker s))) (splitFilter f) c = Some (mkSubscription c (subscriber p c) q')).
  { rewrite (sv_routes _ Hok f c). unfold session_route. rewrite Hp. simpl. rewrite Hst. simpl. by rewrite Hf. }
  apply (Hmax (mkSubscription c (subscriber p c) q')); [|done]. exists f, c. split; [done|]. split; [|done].
  by destruct (bo_filters _ Hb _ _ _ Hroute) as (f' & ->%(inj splitFilter) & ?).
Qed.

Lemma Publish_cases {S} b pub (deliver : Subscription → S → option error * S) (st : S) :
  broker_ok b →
  let refused := pub_Retain pub && negb (bool_decide (within_limits (b_limits b) (retained_after b pub))) in
  (Publish b pub deliver st).1.1 = (if refused then Some ErrRetainedLimit else None)
  ∧ (Publish b pub deliver st).2
    = (if refused then st else foldl (λ st sub, (deliver sub st).2) st (Match (topics b) (pub_Topic pub)))
  ∧ retained (Publish b pub deliver st).1.2
    = (if pub_Retain pub && negb refused then retained_after b pub else retained b).
Proof.
  intros Hb. unfold Publish. destruct (pub_Retain pub); [|done]. rewrite updateRetained_cases by done.
  destruct (decide (within_limits _ _)) as [Hw|Hw];
    [rewrite bool_decide_true by exact Hw|rewrite bool_decide_false by exact Hw]; done.
Qed.

(** A session without a matching subscription is not led to. *)
Lemma not_led s topic id p st sub :
  server_ok s → validateTopicName topic = None → st_data (srv_sessions s) !! id = Some p →
  states (srv_sessions s) !! p = Some st → (∀ f q, subscriptions st !! f = Some q → MatchFilter f topic = false) →
  sub ∈ Match (topics (srv_broker s)) topic → sbr_ref (sub_Subscriber sub) ≠ p.
Proof.
  intros Hok Ht Hid Hst Hno Hin E.
  destruct (Match_leads s topic sub Hok Ht Hin) as [[Hd _] (p' & st' & Hp' & Hst' & _ & [(f & Hf & Hm) _])].
  rewrite E in Hd. assert (p' = p) as -> by congruence. assert (st' = st) as -> by congruence.
  rewrite (Hno f _ Hf) in Hm. discriminate Hm.
Qed.

(** A run of [publishMessage], by what [Match] gives. *)
Lemma publishMessage_run s clock pub :
  server_ok s → validateTopicName (pub_Topic pub) = None → 0 <= pub_QoS pub →
  let b := srv_broker s in
  ∃ err s', publishMessage clock pub s = Some (err, s') ∧
  if pub_Retain pub && negb (bool_decide (within_limits (b_limits b) (retained_after b pub)))
  then err = Some ErrRetainedLimit ∧ retained (srv_broker s') = retained b
    ∧ srv_sessions s' = srv_sessions s ∧ srv_conns s' = srv_conns s
  else retained (srv_broker s') = (if pub_Retain pub then retained_after b pub else retained b)
    ∧ all_delivered s pub clock (Match (topics b) (pub_Topic pub)) s'.
Proof.
  intros Hok Ht Hq b. pose proof (ro_broker _ (sv_broker _ Hok)) as Hb. fold b in Hb.
  pose proof (Publish_cases b pub (deliver_to clock pub) (Some (s, empty_cache, None)) Hb) as (E1 & E2 & E3).
  unfold publishMessage. fold b. destruct (Publish b pub _ _) as [[err b'] st']. cbn [fst snd] in E1, E2, E3.
  destruct (pub_Retain pub && negb _) eqn:Href.
  - subst err st'. do 2 eexists. split; [reflexivity|]. rewrite andb_false_r in E3. done.
  - set (subs := Match (topics b) (pub_Topic pub)) in *.
    assert (Hl : Forall (leads s) subs) by (apply Forall_forall; intros sub Hin; by eapply Match_leads).
    destruct (Match_routes (topics b) (pub_Topic pub) (bo_filters _ Hb) Ht) as (Hnd & _ & _).
    destruct (deliver_all_delivers clock pub subs s empty_cache None Hok Hq Hl Hnd) as (s1 & c1 & e1 & Hfold & [A1 A2 A3 A4]).
    { by split. }
    rewrite Hfold in E2. subst err st'. do 2 eexists. split; [reflexivity|]. cbn [srv_broker set_broker].
    rewrite andb_true_r in E3. split; [exact E3|]. by split.
Qed.

(** What a session with a matching subscription and its client get. *)
Lemma delivered_session s clock pub s' id p st q :
  server_ok s → validateTopicName (pub_Topic pub) = None →
  all_delivered s pub clock (Match (topics (srv_broker s)) (pub_Topic pub)) s' →
  st_data (srv_sessions s) !! id = Some p → states (srv_sessions s) !! p = Some st → best_match st (pub_Topic pub) q →
  (∃ st', states (srv_sessions s') !! p = Some st'
     ∧ session_effect s pub q (clock (mkSubscription id (subscriber p id) q)) st st')
  ∧ ∀ cli c, deliveryQoS (pub_QoS pub) q = 0 → online_client s id p = Some (Some cli) →
      srv_conns s !! cli = Some c → srv_conns s' !! cli = Some (client_effect s pub c).
Proof.
  intros Hok Ht [A1 A2 A3 A4] Hid Hst Hbest.
  destruct (Match_best_match s _ id p st q Hok Ht Hid Hst Hbest) as (sub & Hin & Esub).
  rewrite <- Esub. split; [by destruct (A1 sub st Hin ltac:(by rewrite Esub)) as (st' & ? & ?); subst sub; exists st'|].
  intros cli c E Hon Hc. apply (A3 sub cli c Hin); [|done]. subst sub. unfold target. simpl. by rewrite E, Hon.
Qed.

(** C8: a published message reaches exactly the sessions that subscribe to its topic.
    In every reachable state [publishMessage] returns.  A retained message that would
    exceed the limits is refused and reaches nobody.  Otherwise the retained messages
    are updated; every session with a matching subscription gets the message once, at
    the lower of the message's QoS and the highest QoS of the subscriptions that
    match: at QoS 1 it is admitted to the session's queue (under the limits), online
    or not; at QoS 0 it is enqueued for the client that is online, which is closed
    when its queue is full, and the session does not change.  Sessions with no
    matching subscription and all other clients are left as they are. *)
Theorem publishMessage_delivers kdf n sys clock pub :
  sys_reachable kdf n sys → Z.of_nat n < 2 ^ 64 → validateTopicName (pub_Topic pub) = None → 0 <= pub_QoS pub →
  let s := sys_server sys in
  let b := srv_broker s in
  ∃ err s', publishMessage clock pub s = Some (err, s') ∧
  if pub_Retain pub && negb (bool_decide (within_limits (b_limits b) (retained_after b pub)))
  then err = Some ErrRetainedLimit ∧ retained (srv_broker s') = retained b
    ∧ srv_sessions s' = srv_sessions s ∧ srv_conns s' = srv_conns s
  else retained (srv_broker s') = (if pub_Retain pub then retained_after b pub else retained b)
    ∧ (∀ id p st, st_data (srv_sessions s) !! id = Some p → states (srv_sessions s) !! p = Some st →
        (∀ q, best_match st (pub_Topic pub) q →
          (∃ st', states (srv_sessions s') !! p = Some st'
             ∧ session_effect s pub q (clock (mkSubscription id (subscriber p id) q)) st st')
          ∧ ∀ cli c, deliveryQoS (pub_QoS pub) q = 0 → online_client s id p = Some (Some cli) →
              srv_conns s !! cli = Some c → srv_conns s' !! cli = Some (client_effect s pub c))
        ∧ ((∀ f q, subscriptions st !! f = Some q → MatchFilter f (pub_Topic pub) = false) →
           states (srv_sessions s') !! p = Some st))
    ∧ (∀ cli, (∀ id p st q, st_data (srv_sessions s) !! id = Some p → states (srv_sessions s) !! p = Some st →
                 best_match st (pub_Topic pub) q → deliveryQoS (pub_QoS pub) q = 0 →
                 online_client s id p ≠ Some (Some cli)) →
        srv_conns s' !! cli = srv_conns s !! cli).
Proof.
  intros Hr Hlt Ht Hq s b. pose proof (sy_server _ _ (reachable_sys_ok kdf n sys Hr Hlt)) as Hok. fold s in Hok.
  destruct (publishMessage_run s clock pub Hok Ht Hq) as (err & s' & Hrun & H). fold b in H. exists err, s'. split; [exact Hrun|].
  destruct (pub_Retain pub && negb _); [exact H|]. destruct H as [Hret Hall]. split; [exact Hret|].
  pose proof Hall as [A1 A2 A3 A4]. split.
  - intros id p st Hid Hst. split.
    + intros q Hbest. by apply (delivered_session s clock pub s' id p st q).
    + intros Hno. rewrite A2; [done|]. intros sub Hin. by eapply not_led.
  - intros cli Hno. apply A4. intros sub Hin. unfold target. destruct (Z.eqb_spec (deliveryQoS (pub_QoS pub) (sub_QoS sub)) 0); [|done].
    destruct (Match_leads s _ sub Hok Ht Hin) as [_ (p & st & Hp & Hst & Esub & Hbest)].
    pose proof (Hno _ p st _ Hp Hst Hbest e) as Hne. rewrite Esub. simpl.
    destruct (online_client s (sub_ClientID sub) p) as [[?|]|]; simpl; congruence.
Qed.

(** A message at QoS 1 for the client of the example run. *)
Lemma publishMessage_delivers_witness :
  ∃ sys err s' st', publishMessage (λ _, 9) (mkPublish (bs "x") (bs "m") false false 1 4) (sys_server sys) = Some (err, s')
    ∧ states (srv_sessions s') !! 0%nat = Some st'.
Proof.
  destruct example_run as (sys & Hrun & Hr). exists sys.
  set (pub := mkPublish (bs "x") (bs "m") false false 1 4).
  destruct (publishMessage_delivers no_kdf 10 sys (λ _, 9) pub Hr ltac:(vm_compute; reflexivity) eq_refl ltac:(discriminate))
    as (err & s' & Hp & _ & Hses & _).
  assert (Hst : match run_events no_kdf example_events example_system with
    | Some sys => match st_data (srv_sessions (sys_server sys)) !! bs "a", states (srv_sessions (sys_server sys)) !! 0%nat with
                  | Some 0%nat, Some st => bool_decide (subscriptions st = {[bs "x" := 1]})
                  | _, _ => false
                  end
    | None => false
    end = true) by (vm_compute; reflexivity).
  rewrite Hrun in Hst.
  destruct (st_data (srv_sessions (sys_server sys)) !! bs "a") as [[|p]|] eqn:Hd; [|discriminate Hst..].
  destruct (states (srv_sessions (sys_server sys)) !! 0%nat) as [st|] eqn:Hs; [|discriminate Hst].
  apply bool_decide_eq_true_1 in Hst.
  destruct (Hses _ _ _ Hd Hs) as [Hbest _].
  assert (Hx : best_match st (bs "x") 1).
  { unfold best_match. rewrite Hst. split; [exists (bs "x"); split; reflexivity|].
    intros f q' [_ <-]%lookup_singleton_Some _. lia. }
  destruct (Hbest 1 Hx) as [(st' & Hst' & _) _]. exists err, s', st'. split; [exact Hp|exact Hst'].
Defined.

(** * The RETAIN flag of live deliveries *)

(** Whoever reads [data] off the stream decodes the message [pub] with RETAIN set. *)
Definition retained_copy (pub : PublishPacket) (data : bytes) : Prop :=
  ∀ rest e, Forall is_byte rest →
    ∃ pkt, Decode (mkReader (data ++ rest) e) = Ok (PPublish pkt, mkReader rest e)
      ∧ pub_Topic pkt = pub_Topic pub ∧ pub_Payload pkt = pub_Payload pub ∧ pub_Retain pkt = true.

(** The message can be encoded. *)
Definition sendable (pub : PublishPacket) : Prop :=
  publish_typed pub ∧ validateTopicName (pub_Topic pub) = None
  ∧ 4 + len (pub_Topic pub) + len (pub_Payload pub) <= MaxRemainingLength.

Lemma sendable_qos0 pub :
  sendable pub → pub_Retain pub = true →
  ∃ data, encodePublishPacket (newOutboundPublish pub 0) = Ok data ∧ retained_copy pub data.
Proof.
  intros ((_ & _ & Ht & Hp) & Hv & Hl) Hr. set (out := newOutboundPublish pub 0).
  assert (Hty : publish_typed out) by (split_and!; simpl; unfold is_byte; done || lia).
  assert (Hok : publishable out) by (split_and!; simpl; try done; rewrite len_publish_body; simpl; lia).
  apply (EncodePublish_accepts out Hty) in Hok as (data & Hd). exists data. split; [exact Hd|].
  intros rest e Hrest. exists out. by split; [apply EncodePublish_decodes|].
Qed.

Lemma sendable_qos1 pub :
  sendable pub → pub_Retain pub = true →
  ∃ tmpl, newPublishTemplate encodePublishPacket (newOutboundPublish pub 1) = Ok tmpl
    ∧ invalid_queued_publish (raw tmpl) (t_packetIDOffset tmpl) = false
    ∧ ∀ id replay, 0 < id < 65536 →
        ∃ data, patch (raw tmpl) (t_packetIDOffset tmpl) id replay = Some data ∧ retained_copy pub data.
Proof.
  intros (Hty & Hv & Hl) Hr. pose proof Hty as (_ & _ & Ht & Hp). set (out := qos1_packet pub false 1).
  assert (Hty1 : publish_typed out) by (split_and!; simpl; unfold is_byte; done || lia).
  assert (Hok : publishable out) by (split_and!; simpl; try done; try lia; rewrite len_publish_body; simpl; lia).
  apply (EncodePublish_accepts out Hty1) in Hok as (data & Hd).
  assert (Htm : ∃ tmpl, newPublishTemplate encodePublishPacket (newOutboundPublish pub 1) = Ok tmpl).
  { unfold newPublishTemplate, encodePublishPacket. simpl. unfold out, qos1_packet in Hd. rewrite Hd. by eexists. }
  destruct Htm as (tmpl & Htm). exists tmpl. split; [exact Htm|].
  split; [by apply (template_patches pub tmpl 1 false Hty Htm)|]. intros id replay Hid.
  destruct (template_patches pub tmpl id replay Hty Htm Hid) as (_ & d & Hd' & _ & Hdec). exists d. split; [exact Hd'|].
  intros rest e Hrest. exists (qos1_packet pub replay id). by split; [apply Hdec|].
Qed.

(** C40: a message published with RETAIN keeps the flag when it goes to the
    subscribers of the moment.  In every reachable state, publishing a message with
    RETAIN that is not refused puts on the queue of an online client with a matching
    subscription at QoS 0, if there is room, bytes that decode to the message with
    RETAIN set; at QoS 1 the session drops the message for lack of room, or has one more
    entry, which [Next] sends, for every identifier and DUP flag, as bytes that decode
    so.  MQTT 3.1.1 (3.3.1-9) asks the server to clear the flag for an established
    subscription. *)
Theorem live_delivery_keeps_retain kdf n sys clock pub id p st q :
  let s := sys_server sys in
  sys_reachable kdf n sys → Z.of_nat n < 2 ^ 64 → encodePublishFn (settings s) = encodePublishPacket →
  sendable pub → pub_Retain pub = true → within_limits (b_limits (srv_broker s)) (retained_after (srv_broker s) pub) →
  st_data (srv_sessions s) !! id = Some p → states (srv_sessions s) !! p = Some st →
  best_match st (pub_Topic pub) q →
  ∃ err s' st', publishMessage clock pub s = Some (err, s') ∧ states (srv_sessions s') !! p = Some st'
  ∧ if deliveryQoS (pub_QoS pub) q =? 0
    then ∀ cli c, online_client s id p = Some (Some cli) → srv_conns s !! cli = Some c →
      c_done c = false → len (sendQ c) < sendQ_capacity →
      ∃ c' w, srv_conns s' !! cli = Some c' ∧ sendQ c' = sendQ c ++ [w] ∧ retained_copy pub (w_data w)
    else (∃ reason, st' = set_stats (count_drop reason) st)
      ∨ ∃ m, heap st' = heap st ++ [m] ∧ entries st' = entries st ++ [length (heap st)]
          ∧ ∀ pid replay, 0 < pid < 65536 →
              ∃ data, patch (e_data m) (packetIDOffset m) pid replay = Some data ∧ retained_copy pub data.
Proof.
  intros s Hr Hlt Hfn Hsend Hret Hlim Hid Hst Hbest. pose proof Hsend as ((Hq & _) & Hv & _).
  pose proof (sy_server _ _ (reachable_sys_ok kdf n sys Hr Hlt)) as Hok. fold s in Hok.
  destruct (publishMessage_run s clock pub Hok Hv ltac:(apply Hq)) as (err & s' & Hrun & H).
  rewrite Hret, bool_decide_true in H by exact Hlim. destruct H as [_ Hall].
  destruct (delivered_session s clock pub s' id p st q Hok Hv Hall Hid Hst Hbest) as [(st' & Hst' & Heff) Hcli].
  destruct (data_state _ _ _ (sv_store _ Hok) Hid) as (st0 & Hst0 & _ & Hdel). assert (st0 = st) as -> by congruence.
  exists err, s', st'. split; [exact Hrun|]. split; [exact Hst'|].
  destruct (Z.eqb_spec (deliveryQoS (pub_QoS pub) q) 0) as [E|E].
  - intros cli c Hon Hc Hopen Hroom. exists (client_effect s pub c).
    destruct (sendable_qos0 pub Hsend Hret) as (data & Hd & Hcopy). exists (mkWrite data None 0).
    split; [by apply Hcli|]. split; [|exact Hcopy].
    unfold client_effect. rewrite Hfn, Hd. unfold enqueue. rewrite Hopen.
    by destruct (Z.ltb_spec (len (sendQ c)) sendQ_capacity); [|lia].
  - destruct (sendable_qos1 pub Hsend Hret) as (tmpl & Htm & Hinv & Hpatch).
    unfold session_effect in Heff. rewrite Hfn, Htm in Heff.
    destruct (Z.eqb_spec (deliveryQoS (pub_QoS pub) q) 0) as [|_]; [done|]. destruct Heff as (tot & tot' & r & Hadm).
    unfold Admit in Hadm. rewrite Hinv, Hdel in Hadm. cbv zeta in Hadm.
    destruct (if _ || _ then Some SessionLimit else _) as [reason|]; injection Hadm as _ _ <-; [left; by exists reason|right].
    eexists. split; [reflexivity|]. split; [reflexivity|]. exact Hpatch.
Qed.

(** The client of the example run has a subscription at QoS 1. *)
Lemma live_delivery_keeps_retain_witness :
  ∃ sys err s' st' data, publishMessage (λ _, 9) (mkPublish (bs "x") (bs "m") true false 1 4) (sys_server sys) = Some (err, s')
    ∧ states (srv_sessions s') !! 0%nat = Some st'
    ∧ ((∃ reason, ∃ st, st' = set_stats (count_drop reason) st)
       ∨ retained_copy (mkPublish (bs "x") (bs "m") true false 1 4) data).
Proof.
  destruct example_run as (sys & Hrun & Hr). exists sys.
  set (pub := mkPublish (bs "x") (bs "m") true false 1 4).
  assert (Hst : match run_events no_kdf example_events example_system with
    | Some sys => match st_data (srv_sessions (sys_server sys)) !! bs "a", states (srv_sessions (sys_server sys)) !! 0%nat with
                  | Some 0%nat, Some st => bool_decide (subscriptions st = {[bs "x" := 1]}) && bool_decide (within_limits (b_limits (srv_broker (sys_server sys))) (retained_after (srv_broker (sys_server sys)) pub))
                  | _, _ => false
                  end
    | None => false
    end = true) by (vm_compute; reflexivity).
  rewrite Hrun in Hst.
  destruct (st_data (srv_sessions (sys_server sys)) !! bs "a") as [[|p]|] eqn:Hd; [|discriminate Hst..].
  destruct (states (srv_sessions (sys_server sys)) !! 0%nat) as [st|] eqn:Hs; [|discriminate Hst].
  apply andb_true_iff in Hst as [Hst Hlim].
  apply bool_decide_eq_true_1 in Hst. apply bool_decide_eq_true_1 in Hlim.
  assert (Hx : best_match st (bs "x") 1).
  { unfold best_match. rewrite Hst. split; [exists (bs "x"); split; reflexivity|].
    intros f q' [_ <-]%lookup_singleton_Some _. lia. }
  assert (Hfn : encodePublishFn (settings (sys_server sys)) = encodePublishPacket).
  { rewrite (run_framed no_kdf (R := settings_kept) _ _ _ Hrun). reflexivity. }
  assert (Hsend : sendable pub).
  { split; [split; [split; reflexivity || (simpl; lia)|]; split; [simpl; lia|]; split; simpl; repeat constructor; lia|].
    split; [reflexivity|]. unfold MaxRemainingLength. vm_compute. discriminate. }
  destruct (live_delivery_keeps_retain no_kdf 10 sys (λ _, 9) pub _ _ st 1 Hr ltac:(vm_compute; reflexivity) Hfn Hsend eq_refl Hlim
    Hd Hs Hx) as (err & s' & st' & Hp & Hst' & [(reason & Hdrop)|(m & _ & _ & Hm)]).
  - exists err, s', st', []. split; [exact Hp|]. split; [exact Hst'|]. left. by exists reason, st.
  - destruct (Hm 7 false ltac:(lia)) as (data & _ & Hcopy). exists err, s', st', data.
    split; [exact Hp|]. split; [exact Hst'|]. by right.
Defined.
