(* ===== verification/Triples.v ===== *)
(** Partial correctness of the actions of the server: what an action does whenever it
    returns, and the packet handlers once and for all.

    The handlers are proved against an interface ([Handling]): an invariant, a relation
    between the states before and after, and what the messages, the data and the errors
    in play satisfy.  A property of the handlers is an instance of it. *)

From S2P Require Import Prelude Topic Wire Filters Encoder Decoder Codec CodecProofs Tree.
From S2P Require Import Broker Session Delivery Auth Client.
From S2P Require Import Server Handlers Lifecycle ServerInv HandlerProofs.

Local Open Scope Z_scope.
Local Open Scope orb_scope.

(** * Triples *)

Definition any {A} : A → Prop := λ _, True.

(** From a state with [I], a result of [m] satisfies [Q], [I] holds again and [R]
    relates the two states. *)
Definition triple (I : Server → Prop) (R : Server → Server → Prop) {A} (Q : A → Prop) (m : action A) : Prop :=
  ∀ s a s', I s → m s = Some (a, s') → I s' ∧ R s s' ∧ Q a.

(** Results without an error, or with one that satisfies [E]. *)
Definition err_in (E : error → Prop) (err : option error) : Prop := ∀ e, err = Some e → E e.
Definition result_in {A} (Q : A → Prop) (E : error → Prop) (r : result A) : Prop :=
  match r with Ok a => Q a | Error e => E e end.

(** The handler of a packet waits, or returned without an error or with such a one. *)
Definition handled_in (E : error → Prop) (out : handled) : Prop :=
  match out with Handled err => err_in E err | AwaitSubAck _ _ => True end.

Lemma err_in_None E : err_in E None.
Proof. intros e Hx. discriminate Hx. Qed.

Lemma err_in_Some (E : error → Prop) e : E e → err_in E (Some e).
Proof. intros He e' Hx. injection Hx as <-. exact He. Qed.

Section rules.
Context (I : Server → Prop) (R : Server → Server → Prop) `{!PreOrder R}.

Lemma triple_ret {A} (Q : A → Prop) a : Q a → triple I R Q (mret a).
Proof. intros Ha s b s' Hs E. injection E as <- <-. split; [exact Hs|]. split; [reflexivity|exact Ha]. Qed.

Lemma triple_bind {A B} (P : A → Prop) (Q : B → Prop) (m : action A) (k : A → action B) :
  triple I R P m → (∀ a, P a → triple I R Q (k a)) → triple I R Q (m ≫= k).
Proof.
  intros Hm Hk s b s' Hs (a & s1 & H1 & H2)%bind_inv. destruct (Hm s a s1 Hs H1) as (Hs1 & HR1 & Ha).
  destruct (Hk a Ha s1 b s' Hs1 H2) as (Hs2 & HR2 & Hb). split; [exact Hs2|]. split; [by transitivity s1|exact Hb].
Qed.

Lemma triple_weaken {A} (P Q : A → Prop) (m : action A) : (∀ a, P a → Q a) → triple I R P m → triple I R Q m.
Proof. intros HPQ Hm s a s' Hs H. destruct (Hm s a s' Hs H) as (? & ? & Ha). auto. Qed.

Lemma triple_any {A} (Q : A → Prop) (m : action A) : triple I R Q m → triple I R any m.
Proof. apply triple_weaken. intros a _. exact Logic.I. Qed.

Lemma triple_get {A} (Q : A → Prop) (f : Server → A) : (∀ s, I s → Q (f s)) → triple I R Q (get f).
Proof. intros Hf s a s' Hs E. injection E as <- <-. split; [exact Hs|]. split; [reflexivity|by apply Hf]. Qed.

Lemma triple_until_error {A} (E : error → Prop) (f : A → action (option error)) l :
  Forall (λ a, triple I R (err_in E) (f a)) l → triple I R (err_in E) (until_error f l).
Proof.
  induction 1 as [|a l Ha _ IH]; simpl; [apply triple_ret, err_in_None|].
  eapply triple_bind; [exact Ha|]. intros [err|] Herr; [by apply triple_ret|exact IH].
Qed.
End rules.

(** * The handlers *)

(** Methods that leave the queue of a session alone. *)
Class MethodPlain {A} (f : method A) : Prop :=
  method_plain l t s a t' s' : f l t s = Some (a, t', s') → heap s' = heap s ∧ entries s' = entries s.

Ltac plain_method :=
  intros l t s a t' s'; repeat case_match; intros; simplify_option_eq; auto.

#[export] Instance Pause_plain : MethodPlain PauseDelivery.
Proof. unfold MethodPlain, PauseDelivery. plain_method. Qed.
#[export] Instance Resume_plain : MethodPlain ResumeDelivery.
Proof. unfold MethodPlain, ResumeDelivery. plain_method. Qed.
#[export] Instance Begin_plain : MethodPlain BeginDelivery.
Proof. unfold MethodPlain, BeginDelivery. plain_method. Qed.
#[export] Instance SetSubscription_plain f q : MethodPlain (SetSubscription f q).
Proof. unfold MethodPlain, SetSubscription. plain_method. Qed.
#[export] Instance DeleteSubscription_plain f : MethodPlain (DeleteSubscription f).
Proof. unfold MethodPlain, DeleteSubscription. plain_method. Qed.
#[export] Instance MarkConnected_plain : MethodPlain MarkConnected.
Proof. unfold MethodPlain, MarkConnected. plain_method. Qed.
#[export] Instance MarkDisconnectedAt_plain at_ : MethodPlain (MarkDisconnectedAt at_).
Proof. unfold MethodPlain, MarkDisconnectedAt. plain_method. Qed.
#[export] Instance Snapshot_plain : MethodPlain SnapshotSubscriptions.
Proof. unfold MethodPlain, SnapshotSubscriptions. plain_method. Qed.
#[export] Instance receive_changed_plain : MethodPlain receive_changed.
Proof. unfold MethodPlain, receive_changed. plain_method. Qed.
#[export] Instance reads_plain {A} (g : State → A) : MethodPlain (reads g).
Proof. unfold MethodPlain, reads. plain_method. Qed.

(** The answers of the server. *)
Definition answer (pkt : Packet) : Prop :=
  match pkt with
  | PPingResp => True
  | PPubAck id | PUnsubAck id => 0 < id < 65536
  | PSubAck p => 0 < sa_PacketID p < 65536 ∧ Forall code_ok (sa_ReturnCodes p)
  | _ => False
  end.

(** What a proof about the handlers of client [cli] has to say about the operations
    they consist of.  [P] holds of the messages in play, [D] of what is sent, [T] of
    the templates that are queued, and [E] of errors. *)
Record Handling (I : Server → Prop) (R : Server → Server → Prop) (P : PublishPacket → Prop) (D : bytes → Prop)
    (T : publishTemplate → Prop) (E : error → Prop) (cli : clientptr) : Prop := {
  hd_plain {A} (f : method A) p : MethodPlain f → triple I R any (on_session f p);
  hd_admit t now p : T t → triple I R (result_in any E) (on_session (Admit (raw t) (t_packetIDOffset t) now) p);
  hd_enqueue w : D (w_data w) → triple I R (err_in E) (on_client (λ c, enqueue c w) cli);
  hd_online s id p cli' data err s' : I s → online_client s id p = Some (Some cli') → D data →
    Enqueue cli' data s = Some (err, s') → I s' ∧ R s s';
  hd_close cli' : triple I R any (close_client cli');
  hd_client_id : triple I R any (client_id cli);
  hd_routes f : (∀ b, retained (f b) = retained b) → triple I R any (on_broker f);
  hd_set_broker s s' b : I s → I s' → R s s' →
    b = srv_broker s ∨ (∃ pub, P pub ∧ b = (updateRetained (srv_broker s) pub).2) →
    I (set_broker s' b) ∧ R s' (set_broker s' b);
  hd_count : triple I R any recordAuthorizationRejection;
  hd_retained s f : I s → Forall P (RetainedMatching (srv_broker s) f);
  hd_encode s pub q : I s → P pub → q = 0 ∨ (∃ code, code_ok code ∧ q = deliveryQoS (pub_QoS pub) code) →
    result_in D E (encodePublishFn (settings s) (newOutboundPublish pub q));
  hd_template s pub q : I s → P pub →
    result_in T E (newPublishTemplate (encodePublishFn (settings s)) (newOutboundPublish pub q));
  hd_answer pkt : answer pkt → result_in D E (Encode pkt);
  hd_limit : E ErrRetainedLimit;
  hd_new msg : E (New msg) }.

Section handlers.
Context {I : Server → Prop} {R : Server → Server → Prop} `{!PreOrder R}.
Context {P : PublishPacket → Prop} {D : bytes → Prop} {T : publishTemplate → Prop} {E : error → Prop}.
Context {cli : clientptr} (H : Handling I R P D T E cli).

#[local] Abbreviation good := (err_in E).

(** ** Publishing *)

(** What the cache holds was encoded from the message in play. *)
Definition cache_good (c : publishDeliveryCache) : Prop :=
  (∀ raw, qos0 c = Some raw → D raw) ∧ (∀ t, qos1 c = Some t → T t).

Lemma qos0Payload_good s c pub : I s → P pub → cache_good c →
  let '(r, c') := qos0Payload c (encodePublishFn (settings s)) (newOutboundPublish pub 0) in
  result_in D E r ∧ cache_good c'.
Proof.
  intros Hs Hp Hc. unfold qos0Payload. destruct (qos0 c) as [raw|] eqn:Hraw; [split; [by apply Hc|exact Hc]|].
  pose proof (hd_encode _ _ _ _ _ _ _ H s pub 0 Hs Hp ltac:(by left)) as He.
  destruct (encodePublishFn _ _) as [raw|err]; (split; [exact He|]); [|exact Hc].
  split; [|apply Hc]. intros raw' Hx. injection Hx as <-. exact He.
Qed.

Lemma qos1Template_good s c pub q : I s → P pub → cache_good c →
  let '(r, c') := qos1Template c (encodePublishFn (settings s)) (newOutboundPublish pub q) in
  result_in T E r ∧ cache_good c'.
Proof.
  intros Hs Hp Hc. unfold qos1Template. destruct (qos1 c) as [t|] eqn:Ht; [split; [by apply Hc|exact Hc]|].
  pose proof (hd_template _ _ _ _ _ _ _ H s pub q Hs Hp) as He.
  destruct (newPublishTemplate _ _) as [t|err]; (split; [exact He|]); [|exact Hc].
  split; [apply Hc|]. intros t' Hx. injection Hx as <-. exact He.
Qed.

Lemma deliver_triple now pub sub cache : P pub → cache_good cache →
  triple I R (λ r, good r.1 ∧ cache_good r.2) (deliverPublishToSubscriber now pub sub cache).
Proof.
  intros Hp Hcache s [err c'] s' Hs. unfold deliverPublishToSubscriber. cbn [fst snd].
  assert (Hnil : ∀ e c0, good e → cache_good c0 → Some ((e, c0), s) = Some ((err, c'), s') →
    I s' ∧ R s s' ∧ good err ∧ cache_good c').
  { intros e c0 He Hc0 Hx. injection Hx as <- <- <-. split; [exact Hs|]. split; [reflexivity|done]. }
  destruct (Get _ _) as [p|]; [|apply Hnil; [apply err_in_None|done]].
  destruct (bool_decide _); [apply Hnil; [apply err_in_None|done]|]. cbv zeta.
  destruct (Z.eqb_spec (deliveryQoS (pub_QoS pub) (sub_QoS sub)) 0) as [->|_].
  - destruct (online_client s _ p) as [[cli'|]|] eqn:Hon; simpl; [|apply Hnil; [apply err_in_None|done]|discriminate].
    pose proof (qos0Payload_good s cache pub Hs Hp Hcache) as Hraw.
    destruct (qos0Payload _ _ _) as [[raw|e0] c0]; destruct Hraw as [Hraw Hc0];
      [|apply Hnil; [by apply err_in_Some|done]].
    destruct (Enqueue cli' raw s) as [[e1 s1]|] eqn:H1; simpl; [|discriminate].
    destruct (hd_online _ _ _ _ _ _ _ H s _ p cli' raw e1 s1 Hs Hon Hraw H1) as [Hs1 HR1]. destruct e1 as [e1|].
    + destruct (close_client cli' s1) as [[[] s2]|] eqn:H2; simpl; [|discriminate].
      destruct (hd_close _ _ _ _ _ _ _ H cli' s1 tt s2 Hs1 H2) as (Hs2 & HR2 & _).
      intros Hx. injection Hx as <- <- <-. split; [exact Hs2|]. split; [by transitivity s1|]. split; [apply err_in_None|done].
    + intros Hx. injection Hx as <- <- <-. split; [exact Hs1|]. split; [exact HR1|]. split; [apply err_in_None|done].
  - pose proof (qos1Template_good s cache pub (deliveryQoS (pub_QoS pub) (sub_QoS sub)) Hs Hp Hcache) as Hraw.
    destruct (qos1Template _ _ _) as [[t|e0] c0]; destruct Hraw as [Hraw Hc0];
      [|apply Hnil; [by apply err_in_Some|done]].
    destruct (on_session _ p s) as [[r s1]|] eqn:H1; simpl; [|discriminate].
    destruct (hd_admit _ _ _ _ _ _ _ H t now p Hraw s r s1 Hs H1) as (Hs1 & HR1 & Hr).
    intros Hx. injection Hx as <- <- <-. split; [exact Hs1|]. split; [exact HR1|]. split; [|done].
    destruct r as [r|e1]; [apply err_in_None|by apply err_in_Some].
Qed.

Lemma deliver_all_triple clock pub subs s cache err s' cache' err' :
  P pub → I s → cache_good cache → good err →
  foldl (λ st sub, (deliver_to clock pub sub st).2) (Some (s, cache, err)) subs = Some (s', cache', err') →
  I s' ∧ R s s' ∧ good err'.
Proof.
  intros Hp. revert s cache err. induction subs as [|sub subs IH]; intros s cache err Hs Hc Herr; simpl.
  - intros Hx. injection Hx as <- _ <-. split; [exact Hs|]. split; [reflexivity|exact Herr].
  - destruct (deliverPublishToSubscriber _ _ _ _ s) as [[[e1 c1] s1]|] eqn:H1; simpl.
    + destruct (deliver_triple (clock sub) pub sub cache Hp Hc s (e1, c1) s1 Hs H1) as (Hs1 & HR1 & He1 & Hc1).
      intros Hrest. destruct (IH s1 c1 (match e1 with Some err => Some err | None => err end)) as (? & HR2 & ?);
        [exact Hs1|exact Hc1|by destruct e1|exact Hrest|]. split; [done|]. split; [by transitivity s1|done].
    + assert (Hnone : foldl (λ st sub, (deliver_to clock pub sub st).2) None subs = None)
        by (clear; induction subs as [|sub subs IH]; [reflexivity|exact IH]).
      rewrite Hnone. discriminate.
Qed.

Lemma publishMessage_triple clock pub : P pub → triple I R good (publishMessage clock pub).
Proof.
  intros Hp s err s' Hs. unfold publishMessage, Publish.
  destruct (if pub_Retain pub then updateRetained (srv_broker s) pub else (None, srv_broker s)) as [e0 b] eqn:Hup.
  assert (Hb : b = srv_broker s ∨ ∃ pub, P pub ∧ b = (updateRetained (srv_broker s) pub).2).
  { destruct (pub_Retain pub); [right; exists pub; by rewrite Hup|left; by injection Hup]. }
  assert (He0 : good e0).
  { destruct (pub_Retain pub); [|injection Hup as <- _; apply err_in_None]. unfold updateRetained in Hup.
    destruct (_ && _)%bool; injection Hup as <- _; [|apply err_in_None]. apply err_in_Some, (hd_limit _ _ _ _ _ _ _ H). }
  destruct e0 as [e0|].
  - simpl. intros Hx. injection Hx as <- <-.
    destruct (hd_set_broker _ _ _ _ _ _ _ H s s b Hs Hs ltac:(reflexivity) Hb). done.
  - destruct (foldl _ _ _) as [[[s1 c1] e1]|] eqn:Hf; simpl; [|discriminate].
    apply (deliver_all_triple clock pub _ s empty_cache None) in Hf as (Hs1 & HR1 & He1);
      [|exact Hp|exact Hs|by split|apply err_in_None].
    intros Hx. injection Hx as <- <-. destruct (hd_set_broker _ _ _ _ _ _ _ H s s1 b Hs Hs1 HR1 Hb) as [Hs2 HR2].
    split; [exact Hs2|]. split; [by transitivity s1|exact He1].
Qed.

(** ** The other operations *)

Lemma good_new msg : good (Some (New msg)).
Proof. apply err_in_Some, (hd_new _ _ _ _ _ _ _ H). Qed.

Lemma canPublish_triple who name : triple I R any (canPublish who name).
Proof.
  apply (triple_bind I R any); [by apply (triple_get I R)|]. intros [l|] _; [|by apply (triple_ret I R)].
  destruct (CanPublish l who name); [by apply (triple_ret I R)|].
  apply (triple_bind I R any); [apply (hd_count _ _ _ _ _ _ _ H)|]. intros u _. by apply (triple_ret I R).
Qed.

Lemma canSubscribe_triple who f : triple I R any (canSubscribe who f).
Proof.
  apply (triple_bind I R any); [by apply (triple_get I R)|]. intros [l|] _; [|by apply (triple_ret I R)].
  apply (triple_bind I R any).
  { intros s b s' Hs. destruct (CanSubscribe l who f) as [b'|]; simpl; [|discriminate].
    intros Hx. injection Hx as _ <-. split; [exact Hs|]. split; [reflexivity|exact Logic.I]. }
  intros [|] _; [by apply (triple_ret I R)|].
  apply (triple_bind I R any); [apply (hd_count _ _ _ _ _ _ _ H)|]. intros u _. by apply (triple_ret I R).
Qed.

Lemma sendPacket_triple pkt written : answer pkt → good written → triple I R good (sendPacket cli pkt written).
Proof.
  intros Ha Hw. unfold sendPacket, sendPacketWithDeadline. pose proof (hd_answer _ _ _ _ _ _ _ H pkt Ha) as He.
  destruct (Encode pkt) as [data|err]; [|by apply (triple_ret I R), err_in_Some].
  apply (triple_bind I R good); [by apply (hd_enqueue _ _ _ _ _ _ _ H)|].
  intros [err|] Herr; by apply (triple_ret I R).
Qed.

Section session.
Context (sess : stateptr).

Lemma subscribe_one_triple sub : 0 <= wsub_QoS sub → triple I R code_ok (subscribe_one sess sub).
Proof.
  intros Hq. apply (triple_bind I R any); [apply (hd_plain _ _ _ _ _ _ _ H), _|]. intros owner _.
  apply (triple_bind I R any); [apply canSubscribe_triple|]. intros allowed _.
  destruct (negb allowed); [apply (triple_ret I R), code_refused|]. cbv zeta.
  set (qos := if 1 <? wsub_QoS sub then 1 else wsub_QoS sub).
  assert (Hqos : code_ok qos) by (left; unfold qos; destruct (Z.ltb_spec 1 (wsub_QoS sub)); lia).
  apply (triple_bind I R any); [apply (hd_plain _ _ _ _ _ _ _ H), _|]. intros [err|] _; [apply (triple_ret I R), code_refused|].
  apply (triple_bind I R any); [apply (hd_plain _ _ _ _ _ _ _ H), _|]. intros id _.
  apply (triple_bind I R any); [by apply (hd_routes _ _ _ _ _ _ _ H)|]. intros u _. by apply (triple_ret I R).
Qed.

Lemma subscribe_filters_triple subs :
  Forall (λ sub, 0 <= wsub_QoS sub) subs → triple I R (Forall code_ok) (subscribe_filters sess subs).
Proof.
  induction 1 as [|sub subs Hsub _ IH]; simpl; [apply (triple_ret I R); constructor|].
  apply (triple_bind I R code_ok); [by apply subscribe_one_triple|]. intros code Hcode.
  apply (triple_bind I R (Forall code_ok)); [exact IH|]. intros codes Hcodes. apply (triple_ret I R). by constructor.
Qed.

Lemma send_retained_triple now code pub :
  code_ok code → P pub → triple I R good (send_retained cli sess now code pub).
Proof.
  intros Hcode Hp. set (q := deliveryQoS (pub_QoS pub) code).
  apply (triple_bind I R (λ encodeFn, result_in D E (encodeFn (newOutboundPublish pub q))
    ∧ result_in T E (newPublishTemplate encodeFn (newOutboundPublish pub q)))).
  { apply (triple_get I R). intros s Hs. split; [apply (hd_encode _ _ _ _ _ _ _ H); [done|done|right; by exists code]|by apply (hd_template _ _ _ _ _ _ _ H)]. }
  intros encodeFn [He Ht]. cbv zeta. fold q. destruct (_ =? 1).
  - destruct (newPublishTemplate _ _) as [t|err]; [|by apply (triple_ret I R), err_in_Some].
    apply (triple_bind I R (result_in any E)); [by apply (hd_admit _ _ _ _ _ _ _ H)|].
    intros [r|err] Hr; apply (triple_ret I R); [apply err_in_None|by apply err_in_Some].
  - destruct (encodeFn _) as [data|err]; [|by apply (triple_ret I R), err_in_Some].
    by apply (hd_enqueue _ _ _ _ _ _ _ H).
Qed.

Lemma retained_of_triple clock granted : code_ok granted.2 → triple I R good (retained_of cli sess clock granted).
Proof.
  destruct granted as [sub code]. intros Hcode. unfold retained_of.
  destruct (code =? 128); [apply (triple_ret I R), err_in_None|].
  apply (triple_bind I R (Forall P)); [apply (triple_get I R); intros s Hs; by apply (hd_retained _ _ _ _ _ _ _ H)|].
  intros matching Hm. apply (triple_until_error I R). eapply Forall_impl; [exact Hm|].
  intros pub Hpub. by apply send_retained_triple.
Qed.

Lemma handleSubscribe_triple p :
  subscribe_ok p → triple I R (λ r, good r.1) (handleSubscribe cli sess p).
Proof.
  intros (Hid & _ & Hsubs). apply (triple_bind I R any); [apply (hd_plain _ _ _ _ _ _ _ H), _|]. intros u _.
  apply (triple_bind I R (Forall code_ok)).
  { apply subscribe_filters_triple. eapply Forall_impl; [exact Hsubs|]. intros sub [_ [Hq _]]. exact Hq. }
  intros codes Hcodes. apply (triple_bind I R good); [by apply sendPacket_triple, err_in_None|]. intros [err|] Herr.
  - apply (triple_bind I R any); [apply (hd_plain _ _ _ _ _ _ _ H), _|]. intros u' _. by apply (triple_ret I R).
  - by apply (triple_ret I R).
Qed.

Lemma handleSubscribe_retained_triple p codes written clock :
  Forall code_ok codes → good written → triple I R good (handleSubscribe_retained cli sess p codes written clock).
Proof.
  intros Hcodes Hw. apply (triple_bind I R good).
  - destruct written as [err|]; [by apply (triple_ret I R)|]. apply (triple_until_error I R).
    apply Forall_forall. intros [sub code] Hin. apply retained_of_triple.
    apply (proj1 (Forall_forall _ _) Hcodes). by apply elem_of_zip_r in Hin.
  - intros err' Herr'. apply (triple_bind I R any); [apply (hd_plain _ _ _ _ _ _ _ H), _|]. intros u' _.
    by apply (triple_ret I R).
Qed.

Lemma unsubscribe_filters_triple id filters : triple I R any (unsubscribe_filters id sess filters).
Proof.
  induction filters as [|f filters IH]; simpl; [by apply (triple_ret I R)|].
  apply (triple_bind I R any); [by apply (hd_routes _ _ _ _ _ _ _ H)|]. intros u _.
  apply (triple_bind I R any); [apply (hd_plain _ _ _ _ _ _ _ H), _|]. intros u' _. exact IH.
Qed.

Lemma handleUnsubscribe_triple p written :
  unsubscribe_ok p → good written → triple I R good (handleUnsubscribe cli sess p written).
Proof.
  intros (Hid & _) Hw. apply (triple_bind I R any); [apply (hd_client_id _ _ _ _ _ _ _ H)|]. intros id _.
  apply (triple_bind I R any); [apply unsubscribe_filters_triple|]. intros u _. by apply sendPacket_triple.
Qed.

Lemma handlePublish_triple pub written clock :
  P pub → publish_ok pub → good written → triple I R good (handlePublish cli pub written clock).
Proof.
  intros Hp (_ & _ & _ & Hid) Hw. apply (triple_bind I R good); [by apply publishMessage_triple|].
  intros [err|] Herr; [by apply (triple_ret I R)|]. destruct (Z.eqb_spec (pub_QoS pub) 1); [|by apply (triple_ret I R)].
  apply sendPacket_triple; [apply Hid; lia|exact Hw].
Qed.

Lemma handles_triple m : triple I R good m → triple I R (handled_in E) (handles m).
Proof. intros Hm. apply (triple_bind I R good); [exact Hm|]. intros err Herr. by apply (triple_ret I R). Qed.

(** The handler of any packet but PUBACK and DISCONNECT. *)
Lemma handlePacket_triple pkt e :
  packet_accepted pkt → (∀ pub, pkt = PPublish pub → P pub) → pkt ≠ PDisconnect → (∀ id, pkt ≠ PPubAck id) →
  good (env_written e) → triple I R (handled_in E) (handlePacket cli sess pkt e).
Proof.
  intros Hok Hpub Hdis Hack Hw.
  destruct pkt as [?|?|pub|id|p|?|p|?| | |]; simpl; try (apply handles_triple, (triple_ret I R), good_new); try done.
  - apply handles_triple, (triple_bind I R any); [apply (hd_plain _ _ _ _ _ _ _ H), _|]. intros owner _.
    apply (triple_bind I R any); [apply canPublish_triple|]. intros allowed _.
    destruct (negb allowed); [apply (triple_ret I R), good_new|]. apply handlePublish_triple; [by apply Hpub|exact Hok|exact Hw].
  - by destruct (Hack id).
  - apply (triple_bind I R (λ r, good r.1)); [by apply handleSubscribe_triple|]. intros [err codes] Herr.
    apply (triple_ret I R). by destruct err.
  - by apply handles_triple, handleUnsubscribe_triple.
  - by apply handles_triple, sendPacket_triple.
Qed.
End session.
End handlers.
