(* ===== verification/SecurityProofs.v ===== *)
(** Security of the whole server: no connection goes past the handshake without an
    identity of the policy that may use its client id and publish its will. *)

From S2P Require Import Prelude Topic Wire Filters Encoder Decoder Codec CodecProofs Tree.
From S2P Require Import Broker Session SessionQueue SessionStore SessionProofs Delivery Auth AuthProofs Client.
From S2P Require Import Server Handlers Lifecycle ServerInv Ownership SystemProofs ServerTheorems HandlerProofs Frames.

Local Open Scope Z_scope.
Local Open Scope orb_scope.

(** * Who changes the policy *)

Definition auth_kept (s s' : Server) : Prop := srv_auth s' = srv_auth s.

#[export] Instance auth_kept_preorder : PreOrder auth_kept.
Proof. split; [done|]. intros s1 s2 s3 H12 H23. unfold auth_kept in *. congruence. Qed.

#[export] Instance auth_frame : ServerFrame auth_kept.
Proof. split; [apply _|done..]. Qed.

Lemma handshake_auth r : frames auth_kept (handshake r).
Proof. intros s a s'. unfold handshake. destruct (DecodeWithLimit _ _) as [[[] ?]|]; by intros [= _ <-]. Qed.

Lemma do_handshake_auth failed r : frames auth_kept (do_handshake failed r).
Proof. unfold do_handshake. destruct failed; [frame|]. apply frames_bind; [apply _|apply handshake_auth|intros h; frame]. Qed.

(** * The phases *)

(** The handler of a connection that was let in, until it gave its session back. *)
Definition let_in (ph : phase) : option handler :=
  match ph with
  | Acquiring h | Awaiting h _ | Greeting h _ _ | Welcoming h _ | Serving h _ _ | Subscribing h _ _ _ _
  | Leaving h _ _ _ | Cleaning h (Some _) _ | Draining h (Some _) _ => Some h
  | _ => None
  end.

(** What a step of a connection that was let in keeps of its handler. *)
Definition same_peer (h h' : handler) : Prop :=
  h_identity h' = h_identity h ∧ h_connect h' = h_connect h.

(** [ph'] has the peer of [ph], if it was let in. *)
Definition peer_of (ph ph' : phase) : Prop := ∀ h', let_in ph' = Some h' → ∃ h, let_in ph = Some h ∧ same_peer h h'.

(** The steps of a phase but [Authenticating] keep the peer. *)
Ltac peer := gives; try (by intros h' [= <-]; eexists; split; [reflexivity|split]).

Lemma consumer_peer ph h o co co' : consumer_of ph = Some (h, o, co) → let_in (set_consumer co' ph) = let_in ph.
Proof. by destruct ph as [| | | | | | | | |? [?|] ?|? [?|] ?|]. Qed.

Section phases.
Context (kdf : bytes → bytes → Z → Z → result bytes).

(** A step of the consumer, which keeps the phase but for its part. *)
Lemma consumer_gives ph h o co (m : stateptr → action consumer) :
  consumer_of ph = Some (h, o, co) → gives (peer_of ph) (sess ← owner_session o; co' ← m sess; mret (set_consumer co' ph)).
Proof.
  intros Hc. gives. intros h' Hh. exists h'. split; [|by split]. rewrite <- Hh. symmetry. by eapply consumer_peer.
Qed.

Lemma phase_step_peer conn i ph act :
  phase_step kdf conn i ph = Some act → (∀ h, ph ≠ Authenticating h) → gives (peer_of ph) act.
Proof.
  intros H Hno. destruct i; cbn [phase_step] in H; try (destruct ph; try discriminate H; []); try (by destruct (Hno h)).
  - injection H as <-. unfold do_handshake. destruct failed; peer; [discriminate|]. destruct a; discriminate.
  - injection H as <-. unfold do_acquire. peer. discriminate.
  - injection H as <-. apply gives_ret. destruct cancelled; simpl; [discriminate|].
    by intros h' [= <-]; eexists; split; [reflexivity|split].
  - injection H as <-. unfold do_greet. peer. repeat case_match; peer.
  - injection H as <-. unfold do_welcome. peer.
  - injection H as <-. unfold do_serve, after_packet. peer. repeat case_match; peer.
  - injection H as <-. unfold do_subscribed, after_packet. peer. repeat case_match; peer.
  - injection H as <-. unfold do_leave. apply gives_bind. intros u. peer.
  - injection H as <-. unfold do_clean. apply gives_bind. intros u. peer. destruct owner; [|discriminate].
    by intros h' [= <-]; eexists; split; [reflexivity|split].
  - destruct consuming; try discriminate H. injection H as <-. unfold do_drain. apply gives_bind. intros u. peer. discriminate.
  - destruct (consumer_of ph) as [[[h o] [ep|ep|ep|]]|] eqn:Hc; try discriminate H. injection H as <-.
    by apply (consumer_gives ph h o (Running ep)).
  - destruct (consumer_of ph) as [[[h o] [ep|ep|ep|]]|] eqn:Hc; try discriminate H. injection H as <-. gives.
    intros h' Hh. exists h'. split; [|by split]. rewrite <- Hh. symmetry. by eapply consumer_peer.
  - destruct (consumer_of ph) as [[[h o] [ep|ep|ep|]]|] eqn:Hc; try discriminate H. injection H as <-.
    by apply (consumer_gives ph h o (Blocked ep)).
Qed.

Lemma phase_step_auth conn i ph act :
  phase_step kdf conn i ph = Some act → (∀ h, ph ≠ Authenticating h) → frames auth_kept act.
Proof.
  intros H Hno. destruct ph as [r| | | | | | | | | | |]; try (by eapply phase_step_framed).
  destruct i; try discriminate H. injection H as <-. apply do_handshake_auth.
Qed.
End phases.

(** * Authentication *)

(** The policy lets [identity] connect with this client id and this will. *)
Definition may_connect (l : Local) (identity : bytes) (connect : ConnectPacket) : Prop :=
  CanUseClientID l identity (conn_ClientID connect) = true
  ∧ ∀ w, conn_Will connect = Some w → CanPublish l identity (will_Topic w) = true.

(** The test of [authenticateConnect]. *)
Lemma may_connect_test l identity connect :
  negb (CanUseClientID l identity (conn_ClientID connect))
  || match conn_Will connect with Some w => negb (CanPublish l identity (will_Topic w)) | None => false end = false
  ↔ may_connect l identity connect.
Proof.
  unfold may_connect. rewrite orb_false_iff, negb_false_iff. apply and_iff_compat_l.
  destruct (conn_Will connect) as [w|]; [rewrite negb_false_iff|]; naive_solver.
Qed.

Lemma set_auth_same s l : srv_auth s = Some l → set_auth s (Some l) = s.
Proof. destruct s. simpl. by intros ->. Qed.

(** The answer to an error of [Authenticate]. *)
Lemma refused_code err (s : Server) :
  ∃ code, code ≠ ConnAckAccepted ∧ (err = ErrBusy → code = ConnAckServerUnavailable)
    ∧ match err with ErrBusy => Some (([] : bytes, ConnAckServerUnavailable), s)
      | _ => Some (([], ConnAckBadCredentials), s) end = Some (([], code), s).
Proof.
  destruct (decide (err = ErrBusy)) as [->|Hne]; [by exists ConnAckServerUnavailable|].
  exists ConnAckBadCredentials. split; [done|]. split; [done|by destruct err].
Qed.

(** C24: a CONNECT is accepted exactly when it has a user name and a password, the
    user is known, the password derives its key, the user may use the client id and
    publish to the topic of the will, a slot is free and the context lives; the
    identity is the user name.  Whatever the answer the server does not change (the
    slot is given back), and a refused connection gets no identity; it is told that
    the server is unavailable when no slot is free or the context ended. *)
Theorem authenticateConnect_exact kdf before after later connect s l :
  srv_auth s = Some l → 0 <= l_used l <= l_capacity l →
  ∃ who code, authenticateConnect kdf before after later connect s = Some ((who, code), s)
    ∧ (code = ConnAckAccepted ↔
        before = None ∧ after = None ∧ later = None ∧ l_used l < l_capacity l
        ∧ ∃ username password u, conn_Username connect = Some username ∧ conn_Password connect = Some password
          ∧ l_users l !! username = Some u
          ∧ kdf password (salt (u_hash u)) passwordIterations 32 = Ok (key (u_hash u))
          ∧ may_connect l username connect)
    ∧ (if decide (code = ConnAckAccepted) then conn_Username connect = Some who else who = [])
    ∧ (later ≠ None ∨ before = None ∧ l_used l = l_capacity l → code = ConnAckServerUnavailable).
Proof.
  intros Hl Hslots. unfold authenticateConnect. rewrite Hl.
  set (username := default [] (conn_Username connect)). set (password := default [] (conn_Password connect)).
  pose proof (Authenticate_cases kdf l before after username password Hslots) as Hauth.
  destruct (Authenticate _ _ _ _ _ _) as [r l']. destruct Hauth as (-> & Hr & Hbusy & _).
  rewrite (set_auth_same s l Hl).
  assert (Hno : ∀ e, r = Error e → ¬ ∃ u p usr, conn_Username connect = Some u ∧ conn_Password connect = Some p
    ∧ before = None ∧ after = None ∧ l_used l < l_capacity l ∧ l_users l !! u = Some usr
    ∧ kdf p (salt (u_hash usr)) passwordIterations 32 = Ok (key (u_hash usr))).
  { intros e He (u & p & usr & Hu & Hp & ? & ? & ? & ? & ?). assert (r = Ok username) by (apply Hr; unfold username, password;
      rewrite Hu, Hp; split_and!; try done; by exists usr). congruence. }
  destruct later as [e|].
  { exists [], ConnAckServerUnavailable. split; [destruct r as [|[]]; reflexivity|]. split; [|done].
    split; [discriminate|]. by intros (_ & _ & ? & _). }
  destruct r as [who|err].
  - destruct (proj1 (Hr who) eq_refl) as (-> & -> & Hfree & -> & usr & Husr & Hkey).
    destruct (conn_Username connect) as [u|] eqn:Eu, (conn_Password connect) as [p|] eqn:Ep;
      [|exists [], ConnAckBadCredentials; split; [reflexivity|]; split; [|split; [done|]];
        [split; [discriminate|]; naive_solver|intros [?|[_ ?]]; [done|lia]]..].
    simpl in *. pose proof (may_connect_test l u connect) as Htest. unfold username. destruct (_ || _).
    + exists [], ConnAckNotAuthorized. split; [reflexivity|]. split; [|split; [done|]].
      * split; [discriminate|]. intros (_ & _ & _ & _ & u' & p' & usr' & [= <-] & _ & _ & _ & Hmay).
        apply Htest in Hmay. discriminate Hmay.
      * intros [?|[_ ?]]; [done|lia].
    + exists u, ConnAckAccepted. split; [reflexivity|]. split; [|split; [done|]].
      * split; [|done]. intros _. split_and!; try done. exists u, p, usr. split_and!; try done. by apply Htest.
      * intros [?|[_ ?]]; [done|lia].
  - specialize (Hno err eq_refl). destruct (refused_code err s) as (code & Hcode & Hfull & E).
    exists [], code. split; [by rewrite <- E; destruct err|].
    split; [|split; [by rewrite decide_False|naive_solver]]. split; [done|].
    intros (? & ? & _ & ? & u & p & usr & ? & ? & ? & ? & _). destruct Hno. exists u, p, usr. done.
Qed.

Definition secret_policy : Local :=
  mkLocal {[bs "ann" := mkuser [bs "a1"] [bs "up/+"] [bs "down/#"] (mkPasswordHash [] (replicate 32 9))]} 0 4
    (mkPasswordHash [] []).

Definition ann_connects (client_id : bytes) : ConnectPacket :=
  mkConnect (bs "MQTT") 4 true 0 client_id (Some (mkWill (bs "up/x") [] 0 false)) (Some (bs "ann")) (Some (bs "pw")).

(** With her client id she is accepted, with another one she is not. *)
Lemma authenticateConnect_exact_witness :
  let kdf := λ _ _ _ _, Ok (replicate 32 9) in
  let s := set_auth (sys_server example_system) (Some secret_policy) in
  (∃ who, authenticateConnect kdf None None None (ann_connects (bs "a1")) s = Some ((who, ConnAckAccepted), s))
  ∧ ∃ who code, authenticateConnect kdf None None None (ann_connects (bs "b1")) s = Some ((who, code), s)
      ∧ code ≠ ConnAckAccepted.
Proof.
  intros kdf s. split.
  - destruct (authenticateConnect_exact kdf None None None (ann_connects (bs "a1")) s secret_policy eq_refl ltac:(simpl; lia))
      as (who & code & Hrun & Hiff & _). exists who. rewrite Hrun.
    rewrite (proj2 Hiff); [reflexivity|]. split; [reflexivity|]. split; [reflexivity|]. split; [reflexivity|].
    split; [reflexivity|]. exists (bs "ann"), (bs "pw"), (mkuser [bs "a1"] [bs "up/+"] [bs "down/#"] (mkPasswordHash [] (replicate 32 9))).
    split; [reflexivity|]. split; [reflexivity|]. split; [reflexivity|]. split; [reflexivity|].
    split; [reflexivity|]. intros w E. injection E as <-. vm_compute. reflexivity.
  - destruct (authenticateConnect_exact kdf None None None (ann_connects (bs "b1")) s secret_policy eq_refl ltac:(simpl; lia))
      as (who & code & Hrun & Hiff & _). exists who, code. split; [exact Hrun|]. intros Hacc.
    destruct (proj1 Hiff Hacc) as (_ & _ & _ & _ & u & p & usr & Eu & _ & _ & _ & [Hid _]).
    injection Eu as <-. vm_compute in Hid. discriminate Hid.
Defined.

(** * Every connection *)

(** The peer of a connection that was let in. *)
Definition authorized (policy : option Local) (identity : bytes) (connect : ConnectPacket) : Prop :=
  match policy with
  | None => identity = []
  | Some l => is_Some (l_users l !! identity) ∧ may_connect l identity connect
  end.

(** The users do not change. *)
Definition users_kept (s s' : Server) : Prop := l_users <$> srv_auth s' = l_users <$> srv_auth s.

Lemma auth_users s s' : auth_kept s s' → users_kept s s'.
Proof. intros E. unfold users_kept. by rewrite E. Qed.

Lemma authorized_kept s s' identity connect :
  users_kept s s' → authorized (srv_auth s) identity connect → authorized (srv_auth s') identity connect.
Proof.
  unfold users_kept, authorized. destruct (srv_auth s) as [l|], (srv_auth s') as [l'|]; simpl; try done.
  intros E. injection E as E. unfold may_connect, CanUseClientID, CanPublish, user_of. by rewrite E.
Qed.

(** Only a user of the policy may use a client id. *)
Lemma CanUseClientID_user l identity id : CanUseClientID l identity id = true → is_Some (l_users l !! identity).
Proof.
  unfold CanUseClientID, user_of. destruct (l_users l !! identity); [by eexists|]. simpl. discriminate.
Qed.

Lemma authenticate_inv kdf c1 c2 c3 connect s who code s' :
  authenticateConnect kdf c1 c2 c3 connect s = Some ((who, code), s') →
  users_kept s s' ∧ (code = ConnAckAccepted → authorized (srv_auth s') who connect).
Proof.
  unfold authenticateConnect, users_kept. destruct (srv_auth s) as [l|] eqn:Hl.
  - pose proof (Authenticate_users kdf l c1 c2 (default [] (conn_Username connect)) (default [] (conn_Password connect))) as Hu.
    destruct (Authenticate _ _ _ _ _ _) as [r l']. simpl in Hu. intros H.
    assert (Hno : ∀ c, c ≠ ConnAckAccepted → Some (([], c), set_auth s (Some l')) = Some ((who, code), s') →
      l_users <$> srv_auth s' = l_users <$> Some l ∧ (code = ConnAckAccepted → authorized (srv_auth s') who connect)).
    { intros c Hc E. injection E as _ <- <-. simpl. by rewrite Hu. }
    destruct r as [who'|err], c3 as [e|]; try (by apply Hno in H);
      try (by destruct err; apply Hno in H).
    destruct (conn_Username connect), (conn_Password connect); try (by apply Hno in H).
    pose proof (may_connect_test l' who' connect) as Htest.
    destruct (_ || _); [by apply Hno in H|]. injection H as <- <- <-. simpl. rewrite Hu.
    split; [done|]. intros _. assert (Hmay : may_connect l' who' connect) by by apply Htest. split; [|exact Hmay].
    destruct Hmay as [Hid _]. apply CanUseClientID_user in Hid. by rewrite Hu in Hid.
  - intros E. injection E as <- <- <-. by rewrite Hl.
Qed.

(** Every peer of a connection that was let in is authorized. *)
Definition peers_authorized (sys : System) : Prop :=
  ∀ conn ph h, sys_handlers sys !! conn = Some ph → let_in ph = Some h →
    authorized (srv_auth (sys_server sys)) (h_identity h) (h_connect h).

(** A step that keeps the users, after which [conn] is in phase [ph']. *)
Lemma peers_step sys s' conn ph' :
  peers_authorized sys → users_kept (sys_server sys) s' →
  (∀ h', let_in ph' = Some h' → authorized (srv_auth s') (h_identity h') (h_connect h')) →
  peers_authorized (mkSystem s' (<[conn := ph']> (sys_handlers sys))).
Proof.
  intros Hp Hu Hph' conn0 ph0 h Hl Hin. cbn [sys_handlers sys_server] in *.
  apply lookup_insert_Some in Hl as [[<- <-]|[_ Hl]]; [by apply Hph'|].
  eapply authorized_kept; [exact Hu|]. by eapply Hp.
Qed.

(** A step of nobody's handler. *)
Lemma peers_outside sys s' hs :
  peers_authorized sys → auth_kept (sys_server sys) s' →
  (∀ conn ph, hs !! conn = Some ph → sys_handlers sys !! conn = Some ph ∨ let_in ph = None) →
  peers_authorized (mkSystem s' hs).
Proof.
  intros Hp Hu Hhs conn ph h Hl Hin. simpl in *. rewrite Hu.
  destruct (Hhs conn ph Hl) as [Hl'|Hno]; [by eapply Hp|congruence].
Qed.

Section reachable.
Context (kdf : bytes → bytes → Z → Z → result bytes).

Lemma authenticating_step c1 c2 c3 deadline written h s ph' s' :
  do_authenticate kdf c1 c2 c3 deadline written h s = Some (ph', s') →
  users_kept s s' ∧ ∀ h', let_in ph' = Some h' → authorized (srv_auth s') (h_identity h') (h_connect h').
Proof.
  intros ([who code] & s1 & H1 & H2)%bind_inv. apply authenticate_inv in H1 as [Hu Hacc].
  destruct (Z.eqb_spec code ConnAckAccepted) as [->|Hne]; simpl in H2.
  - injection H2 as <- <-. split; [exact Hu|]. intros h' [= <-]. exact (Hacc eq_refl).
  - apply bind_inv in H2 as (u & s2 & H2 & E). injection E as <- <-. split; [|discriminate].
    unfold users_kept. rewrite (reject_framed (R := auth_kept) _ _ _ _ _ _ _ H2). exact Hu.
Qed.

Lemma handler_peers conn ph i act s ph' s' sys :
  peers_authorized sys → sys_server sys = s → sys_handlers sys !! conn = Some ph →
  phase_step kdf conn i ph = Some act → act s = Some (ph', s') →
  peers_authorized (mkSystem s' (<[conn := ph']> (sys_handlers sys))).
Proof.
  intros Hp <- Hph Hact Hrun.
  assert (Hcase : (∃ h, ph = Authenticating h) ∨ ∀ h, ph ≠ Authenticating h)
    by (destruct ph; [by right|left; by eexists|by right..]).
  destruct Hcase as [[h ->]|Hno'].
  - destruct i; try discriminate Hact. injection Hact as <-. apply authenticating_step in Hrun as [Hu Hin].
    by apply peers_step.
  - pose proof (phase_step_peer kdf conn i ph act Hact Hno' _ _ _ Hrun) as Hin.
    pose proof (auth_users _ _ (phase_step_auth kdf conn i ph act Hact Hno' _ _ _ Hrun)) as Hu.
    apply peers_step; [done|done|]. intros h' (h & Hh & E1 & E2)%Hin. rewrite E1, E2.
    eapply authorized_kept; [exact Hu|]. by eapply Hp.
Qed.

(** No event changes the users of the policy. *)
Lemma exec_users e sys sys' : sys_exec kdf e sys = Some sys' → users_kept (sys_server sys) (sys_server sys').
Proof.
  intros Hex. destruct e as [ctxErr conn r|conn i|conn|cli set m err|cli|now].
  - cbn [sys_exec] in Hex. destruct (start _ _ _ _) as [o g]. by injection Hex as <-.
  - cbn [sys_exec] in Hex. apply bind_Some in Hex as (ph & _ & Hex). apply bind_Some in Hex as (act & Hact & Hex).
    apply bind_Some in Hex as ([ph' s'] & Hrun & Hex). injection Hex as <-. cbn [sys_server].
    assert (Hcase : (∃ h, ph = Authenticating h) ∨ ∀ h, ph ≠ Authenticating h)
      by (destruct ph; [by right|left; by eexists|by right..]).
    destruct Hcase as [[h ->]|Hno].
    + destruct i; try discriminate Hact. injection Hact as <-. by apply authenticating_step in Hrun as [Hu _].
    + exact (auth_users _ _ (phase_step_auth kdf conn i ph act Hact Hno _ _ _ Hrun)).
  - by apply exec_finish_inv in Hex as (g & _ & ->).
  - by apply exec_write_inv in Hex as (c & w & q & c' & _ & _ & _ & ->).
  - by apply exec_exit_inv in Hex as (c & c' & _ & _ & ->).
  - cbn [sys_exec] in Hex. apply bind_Some in Hex as ([u s'] & Hrun & Hex). injection Hex as <-.
    apply auth_users. by eapply (expire_framed (R := auth_kept)).
Qed.

Lemma reachable_peers n sys : sys_reachable kdf n sys → peers_authorized sys.
Proof.
  induction 1 as [sets policy b st _ _|n sys e sys' _ IH Hen Hex].
  { intros conn ph h Hl. simpl in Hl. by rewrite lookup_empty in Hl. }
  destruct e as [ctxErr conn r|conn i|conn|cli set m err|cli|now]; cbn [sys_exec] in Hex.
  - destruct (start _ _ _ _) as [o g]. injection Hex as <-. apply (peers_outside sys); [done|done|].
    intros conn' ph'. destruct (decide (o = Started)); [|auto]. intros [[<- <-]|[_ ?]]%lookup_insert_Some; auto.
  - destruct (sys_handlers sys !! conn) as [ph|] eqn:Hph; simpl in Hex; [|done].
    destruct (phase_step kdf conn i ph) as [act|] eqn:Hact; simpl in Hex; [|done].
    destruct (act (sys_server sys)) as [[ph' s']|] eqn:Hrun; simpl in Hex; [|done]. injection Hex as <-.
    by eapply handler_peers.
  - apply bind_Some in Hex as (g & _ & Hex). injection Hex as <-.
    apply (peers_outside sys); [done|done|]. intros conn' ph' [_ ?]%lookup_delete_Some. auto.
  - apply (exec_write_inv kdf) in Hex as (c & w & q & c' & _ & _ & _ & ->). apply (peers_outside sys); auto; done.
  - apply (exec_exit_inv kdf) in Hex as (c & c' & _ & _ & ->). apply (peers_outside sys); auto; done.
  - destruct (expire_sessions now (sys_server sys)) as [[u s']|] eqn:Hrun; simpl in Hex; [|done]. injection Hex as <-.
    apply (peers_outside sys); [done|by eapply (expire_framed (R := auth_kept))|auto].
Qed.
End reachable.

(** C7: nobody gets in without permission: in every reachable state a connection that
    was let in (it opens, has or gives back a session) on a server with a policy has
    the identity of a user of the policy, who may use the connection's client id and
    publish to the topic of its will; without a policy it has the empty identity. *)
Theorem connections_are_authorized kdf n sys conn ph h :
  sys_reachable kdf n sys → sys_handlers sys !! conn = Some ph → let_in ph = Some h →
  match srv_auth (sys_server sys) with
  | None => h_identity h = []
  | Some l => is_Some (l_users l !! h_identity h)
      ∧ CanUseClientID l (h_identity h) (conn_ClientID (h_connect h)) = true
      ∧ ∀ w, conn_Will (h_connect h) = Some w → CanPublish l (h_identity h) (will_Topic w) = true
  end.
Proof. intros Hr. exact (reachable_peers kdf n sys Hr conn ph h). Qed.

Definition example_policy : Local :=
  match NewLocal 4 example_users with Ok l => l | Error _ => secret_policy end.

Definition secure_settings : Settings :=
  mkSettings (bs "0.0.0.0:8883") 10000000000 (Z.shiftl 1 20) 30000000000 DefaultConnectionLimits (Some (mkTLSConfig [bs "cert"] VersionTLS12)) encodePublishPacket.

(** CONNECT of "ann" with client id "a1". *)
Definition ann_stream : bytes :=
  [16; 23; 0; 4; 77; 81; 84; 84; 4; 194; 0; 0; 0; 2; 97; 49; 0; 3; 97; 110; 110; 0; 2; 112; 119].

Definition nines (password salt : bytes) (iterations length : Z) : result bytes := Ok (replicate 32 9).

Definition secure_system : System :=
  new_system secure_settings (Some example_policy)
    (mkBroker NewTree ∅ DefaultRetainedLimits (mkRetainedStats 0 0 0)) (mkStore ∅ ∅ DefaultLimits zero_snapshot).

Lemma secure_system_reachable : sys_reachable nines 0 secure_system.
Proof.
  apply sys_start; [|vm_compute; reflexivity]. split; [|by exists DefaultRetainedLimits|by exists DefaultLimits].
  intros l [= <-]. exists 4, example_users. vm_compute. reflexivity.
Qed.

Lemma connections_are_authorized_witness :
  ∃ sys h, sys_reachable nines 3 sys ∧ sys_handlers sys !! 0%nat = Some (Acquiring h)
    ∧ match srv_auth (sys_server sys) with
      | None => False
      | Some l => CanUseClientID l (h_identity h) (conn_ClientID (h_connect h)) = true
      end.
Proof.
  set (es := [EvAccept None 0 (mkReader ann_stream EOF); EvHandler 0 (IHandshake None);
              EvHandler 0 (IAuthenticate None None None 10 None)]).
  assert (Hsome : match run_events nines es secure_system with
    | Some sys => match sys_handlers sys !! 0%nat, srv_auth (sys_server sys) with
                  | Some (Acquiring _), Some _ => true | _, _ => false end
    | None => false
    end = true) by (vm_compute; reflexivity).
  destruct (run_events nines es secure_system) as [sys|] eqn:Hrun; [|discriminate Hsome].
  destruct (sys_handlers sys !! 0%nat) as [[| |h| | | | | | | | |]|] eqn:Hph; try discriminate Hsome.
  exists sys, h. pose proof (run_events_reachable nines es 0 secure_system sys secure_system_reachable Hrun) as Hr.
  split; [exact Hr|]. split; [exact Hph|].
  pose proof (connections_are_authorized nines 3 sys 0 (Acquiring h) h Hr Hph eq_refl) as Hx.
  destruct (srv_auth (sys_server sys)) as [l|]; [|discriminate Hsome]. apply Hx.
Defined.
