(* ===== verification/Shutdown.v ===== *)
(** Accepting connections and the end of [Start] (src/internal/server/server.go):
    once the context is cancelled every connection comes to its end after a bounded
    number of its steps, so that [wait] returns. *)

From S2P Require Import Prelude Topic Wire Filters Encoder Decoder Codec CodecProofs Tree.
From S2P Require Import Broker Session SessionQueue SessionStore SessionProofs Delivery Auth AuthProofs Client.
From S2P Require Import Server Handlers Lifecycle ServerInv Ownership SystemProofs ServerTheorems HandlerProofs Frames WriterWaits.

Local Open Scope Z_scope.
Local Open Scope orb_scope.

(** * Accepting *)

(** What [ln.Accept] gives: a connection with the bytes that will arrive on it, or an
    error, temporary or not. *)
Inductive accept_result :=
| Accepted (conn : netconn) (r : Reader)
| AcceptError (temporary : bool).

(** One round of [acceptConnections], with what [ctx.Err()] gives in it; the first
    part is the result of the function when it returns. *)
Definition accept_round (ctxErr : option error) (a : accept_result) (sys : System)
    : option (option error) * System :=
  match a with
  | AcceptError temporary =>
      match ctxErr with
      | Some _ => (Some None, sys)
      | None => if temporary then (None, sys) else (Some (Some (New "accept connection")), sys)
      end
  | Accepted conn r =>
      let s := sys_server sys in
      let '(o, g) := start ctxErr conn (connectionLimits (settings s)) (srv_connections s) in
      (if decide (o = Stopped) then Some None else None,
       mkSystem (set_group s g)
         (if decide (o = Started) then <[conn := Handshaking r]> (sys_handlers sys) else sys_handlers sys))
  end.

(** [acceptConnections] over what the listener gives; [None] when it did not return
    yet. *)
Fixpoint acceptConnections (rounds : list (option error * accept_result)) (sys : System)
    : option (option error) * System :=
  match rounds with
  | [] => (None, sys)
  | (ctxErr, a) :: rounds =>
      match accept_round ctxErr a sys with
      | (Some err, sys) => (Some err, sys)
      | (None, sys) => acceptConnections rounds sys
      end
  end.

(** The connections that [closeAll] closes. *)
Definition closeAll (g : connectionGroup) : list netconn := elements (dom (connections g)).

(** [wait] returns. *)
Definition wait_returns (g : connectionGroup) : bool := handlers g =? 0.

(** An accepted connection is an event of the transition system. *)
Lemma accept_round_exec kdf ctxErr conn r sys :
  sys_exec kdf (EvAccept ctxErr conn r) sys = Some (accept_round ctxErr (Accepted conn r) sys).2.
Proof. cbn [sys_exec accept_round]. by destruct (start _ _ _ _) as [o g]. Qed.

(** Nothing is started once the context is cancelled, and the loop is left. *)
Lemma accept_round_cancelled err a sys : accept_round (Some err) a sys = (Some None, sys).
Proof. destruct a, sys as [s hs]; [|reflexivity]. by destruct s. Qed.

Lemma acceptConnections_cancelled err a rounds sys :
  acceptConnections ((Some err, a) :: rounds) sys = (Some None, sys).
Proof. cbn [acceptConnections]. by rewrite accept_round_cancelled. Qed.

(** * Steps under a cancelled context *)

(** How many steps a consumer and a connection are at most from their end, once the
    context is cancelled. *)
Definition consumer_rank (co : consumer) : Z :=
  match co with Returned => 0 | Running _ => 1 | Sending _ | Blocked _ => 2 end.

Definition rank (ph : phase) : Z :=
  match ph with
  | Finished => 1
  | Draining _ _ co => 2 + consumer_rank co
  | Cleaning _ _ co => 3 + consumer_rank co
  | Leaving _ _ co _ => 4 + consumer_rank co
  | Serving _ _ co => 5 + consumer_rank co
  | Subscribing _ _ co _ _ => 6 + consumer_rank co
  | Welcoming _ _ => 7
  | Greeting _ _ _ => 8
  | Acquiring _ => 8
  | Awaiting _ _ => 9
  | Authenticating _ => 10
  | Handshaking _ => 11
  end.

Definition total_rank (sys : System) : Z := msum rank (sys_handlers sys).

Definition rank_of (conn : netconn) (sys : System) : Z := default 0 (rank <$> sys_handlers sys !! conn).

Lemma rank_bounds ph : 1 <= rank ph <= 11.
Proof. destruct ph; simpl; try lia; destruct consuming; simpl; lia. Qed.

Lemma rank_of_bounds conn sys : 0 <= rank_of conn sys <= if bool_decide (is_Some (sys_handlers sys !! conn)) then 11 else 0.
Proof.
  unfold rank_of. destruct (sys_handlers sys !! conn) as [ph|]; simpl; [|done]. pose proof (rank_bounds ph). lia.
Qed.

Lemma total_rank_nonneg sys : 0 <= total_rank sys.
Proof. apply msum_nonneg. intros k ph _. pose proof (rank_bounds ph). lia. Qed.

Lemma total_rank_size sys : total_rank sys <= 11 * msize (sys_handlers sys).
Proof.
  unfold total_rank. induction (sys_handlers sys) as [|k ph m Hk IH] using map_ind.
  - rewrite msum_empty. unfold msize. rewrite map_size_empty. lia.
  - rewrite msum_insert_None by exact Hk. unfold msize in *. rewrite map_size_insert_None by exact Hk. pose proof (rank_bounds ph). lia.
Qed.

(** The steps that can start after the context was cancelled: what looks at
    [ctx.Err()] or [ctx.Done()] first sees it.  The results of reads and writes are
    not restricted. *)
Definition cancelled_input (i : input) : bool :=
  match i with
  | IAcquire ctxErr _ _ _ => bool_decide (ctxErr ≠ None)
  | IServe cancelled _ | IConsume cancelled => cancelled
  | _ => true
  end.

Definition cancelled (e : sys_event) : bool :=
  match e with
  | EvAccept ctxErr _ _ => bool_decide (ctxErr ≠ None)
  | EvHandler _ i => cancelled_input i
  | _ => true
  end.

(** The connection that an event is a step of. *)
Definition connection_of (e : sys_event) : option netconn :=
  match e with EvHandler conn _ | EvFinish conn => Some conn | _ => None end.

Definition step_of_connection (e : sys_event) : bool :=
  match connection_of e with Some _ => true | None => false end.

(** The events of connections and their writers. *)
Definition of_connection (e : sys_event) : bool :=
  match e with EvHandler _ _ | EvFinish _ | EvExit _ => true | _ => false end.

Definition connection_steps (es : list sys_event) : Z := len (filter (λ e, step_of_connection e = true) es).

(** The steps of one of them. *)
Definition steps_of (conn : netconn) (es : list sys_event) : Z := len (filter (λ e, connection_of e = Some conn) es).

(** [m] gives only phases below [r]. *)
Definition lowers (r : Z) (m : action phase) : Prop := gives (λ ph, rank ph < r) m.

Lemma lowers_ret r ph : rank ph < r → lowers r (mret ph).
Proof. exact (gives_ret (λ ph, rank ph < r) ph). Qed.

Lemma lowers_bind {A} r (m : action A) k : (∀ a, lowers r (k a)) → lowers r (m ≫= k).
Proof. exact (gives_bind (λ ph, rank ph < r) m k). Qed.

Lemma rank_set_consumer ph h o co co' :
  consumer_of ph = Some (h, o, co) →
  rank (set_consumer co' ph) = rank ph - consumer_rank co + consumer_rank co'.
Proof.
  destruct ph as [| | | | | |h' o' c|h' o' c p codes|h' o' c b|h' [o'|] c|h' [o'|] c|]; intros E; try discriminate E;
    injection E as _ _ <-; simpl; lia.
Qed.

(** What the consumer does next lowers the rank. *)
Lemma lowers_consumer ph h o co (m : action stateptr) (k : stateptr → action consumer) :
  consumer_of ph = Some (h, o, co) →
  (∀ sess s co' s', k sess s = Some (co', s') → consumer_rank co' < consumer_rank co) →
  lowers (rank ph) (sess ← m; co' ← k sess; mret (set_consumer co' ph)).
Proof.
  intros V Hk. apply lowers_bind. intros sess s ph' s' (co' & s1 & H & E)%bind_inv. injection E as <- _.
  rewrite (rank_set_consumer ph h o co co' V). specialize (Hk _ _ _ _ H). lia.
Qed.

Lemma do_consume_cancelled cli sess ep s co s' :
  do_consume true cli sess ep s = Some (co, s') → co = Returned.
Proof. intros (closed & s1 & _ & E)%bind_inv. simpl in E. injection E as <- _. reflexivity. Qed.

Lemma do_wake_lowers w sess ep s co s' : do_wake w sess ep s = Some (co, s') → consumer_rank co < 2.
Proof.
  destruct w; simpl; intros E; [apply bind_inv in E as (u & s1 & _ & E)| |]; injection E as <- _; simpl; lia.
Qed.

Lemma do_acquire_cancelled err now deadline written h :
  lowers 8 (do_acquire (Some err) now deadline written h).
Proof.
  intros s ph s' (r & s1 & H1 & H)%bind_inv. simpl in H1. injection H1 as <- <-.
  apply bind_inv in H as (u & s2 & _ & E). injection E as <- _. simpl. lia.
Qed.

Lemma do_greet_lowers deadline h o present : lowers 8 (do_greet deadline h o present).
Proof.
  unfold do_greet. apply lowers_bind. intros ?. apply lowers_bind. intros [err|]; [apply lowers_ret; simpl; lia|].
  apply lowers_bind. intros [err|]; apply lowers_ret; simpl; lia.
Qed.

Lemma do_welcome_lowers written cleared conn h o : lowers 7 (do_welcome written cleared conn h o).
Proof.
  unfold do_welcome. destruct written as [err|]; [apply lowers_ret; simpl; lia|].
  destruct cleared as [err|]; [apply lowers_ret; simpl; lia|].
  do 4 (apply lowers_bind; intros ?). apply lowers_ret. simpl. lia.
Qed.

Lemma do_handshake_lowers failed r : lowers 11 (do_handshake failed r).
Proof.
  destruct failed as [err|]; simpl; [apply lowers_ret; simpl; lia|]. apply lowers_bind.
  intros [h|err]; apply lowers_ret; simpl; lia.
Qed.

Section ending.
Context (kdf : bytes → bytes → Z → Z → result bytes).

Lemma do_authenticate_lowers c1 c2 c3 deadline written h :
  lowers 10 (do_authenticate kdf c1 c2 c3 deadline written h).
Proof.
  apply lowers_bind. intros [who code]. destruct (negb (code =? ConnAckAccepted)).
  - apply lowers_bind. intros u. apply lowers_ret. simpl. lia.
  - apply lowers_ret. simpl. lia.
Qed.

(** Every step under a cancelled context brings its connection nearer to its end. *)
Lemma cancelled_lowers conn i ph act :
  cancelled_input i = true → phase_step kdf conn i ph = Some act → lowers (rank ph) act.
Proof.
  intros Hi Hact. destruct i as [failed|c1 c2 c3 dl w|ctxErr now dl w|b|dl|w cl|b e|w ck|clock|now| |b|w|w]; cbn in Hi.
  - destruct ph; try discriminate Hact. injection Hact as <-. apply do_handshake_lowers.
  - destruct ph; try discriminate Hact. injection Hact as <-. apply do_authenticate_lowers.
  - destruct ph; try discriminate Hact. injection Hact as <-. apply bool_decide_eq_true_1 in Hi.
    destruct ctxErr as [err|]; [apply do_acquire_cancelled|by destruct Hi].
  - destruct ph; try discriminate Hact. injection Hact as <-. apply lowers_ret. destruct b; simpl; lia.
  - destruct ph; try discriminate Hact. injection Hact as <-. apply do_greet_lowers.
  - destruct ph; try discriminate Hact. injection Hact as <-. apply do_welcome_lowers.
  - destruct ph; try discriminate Hact. injection Hact as <-. subst b. apply lowers_ret. simpl. lia.
  - destruct ph; try discriminate Hact. injection Hact as <-. do 2 (apply lowers_bind; intros ?).
    apply lowers_ret. unfold after_packet. case_match; simpl; lia.
  - destruct ph; try discriminate Hact. injection Hact as <-. apply lowers_bind. intros u. apply lowers_ret. simpl. lia.
  - destruct ph; try discriminate Hact. injection Hact as <-. do 2 (apply lowers_bind; intros ?).
    apply lowers_ret. simpl. lia.
  - destruct ph as [| | | | | | | | | |h o [| | |]|]; try discriminate Hact. injection Hact as <-.
    apply lowers_bind. intros u. apply lowers_ret. simpl. lia.
  - subst b. cbn [phase_step] in Hact. destruct (consumer_of ph) as [[[h o] [ep|ep|ep|]]|] eqn:V; try discriminate Hact.
    injection Hact as <-. apply (lowers_consumer ph h o (Running ep) _ _ V).
    intros sess s co s' ->%do_consume_cancelled. simpl. lia.
  - cbn [phase_step] in Hact. destruct (consumer_of ph) as [[[h o] [ep|ep|ep|]]|] eqn:V; try discriminate Hact.
    injection Hact as <-. intros s ph' s' (co' & s1 & H & E)%bind_inv. injection E as <- _.
    rewrite (rank_set_consumer ph h o _ co' V). unfold do_sent in H.
    destruct w; [apply bind_inv in H as (u & s2 & _ & H)|]; injection H as <- _; simpl; lia.
  - cbn [phase_step] in Hact. destruct (consumer_of ph) as [[[h o] [ep|ep|ep|]]|] eqn:V; try discriminate Hact.
    injection Hact as <-. apply (lowers_consumer ph h o (Blocked ep) _ _ V).
    intros sess s co s' H%do_wake_lowers. exact H.
Qed.

(** What an event under a cancelled context does to the handlers: the step of a
    connection lowers its rank or ends it, and no other event moves it. *)
Lemma cancelled_cases e sys sys' :
  cancelled e = true → sys_enabled kdf e sys = true → sys_exec kdf e sys = Some sys' →
  (connection_of e = None ∧ sys_handlers sys' = sys_handlers sys)
  ∨ ∃ conn ph, connection_of e = Some conn ∧ sys_handlers sys !! conn = Some ph
      ∧ ((∃ ph', sys_handlers sys' = <[conn := ph']> (sys_handlers sys) ∧ rank ph' < rank ph)
         ∨ sys_handlers sys' = delete conn (sys_handlers sys)).
Proof.
  intros He Hen Hex. destruct e as [ctxErr conn r|conn i|conn|cli set n err|cli|now]; cbn [connection_of].
  - left. split; [reflexivity|]. rewrite (accept_round_exec kdf) in Hex. apply bool_decide_eq_true_1 in He.
    destruct ctxErr as [err|]; [|by destruct He]. rewrite accept_round_cancelled in Hex.
    change (Some sys = Some sys') in Hex. congruence.
  - right. cbn [sys_exec] in Hex. apply bind_Some in Hex as (ph & Hph & Hex).
    apply bind_Some in Hex as (act & Hact & Hex). apply bind_Some in Hex as ([ph' s'] & Hrun & Hex).
    injection Hex as <-. exists conn, ph. split; [reflexivity|]. split; [exact Hph|]. left. exists ph'. split; [reflexivity|].
    exact (cancelled_lowers conn i ph act He Hact _ _ _ Hrun).
  - right. cbn [sys_enabled] in Hen. apply exec_finish_inv in Hex as (g & _ & ->).
    destruct (sys_handlers sys !! conn) as [ph|] eqn:Hph; [|discriminate Hen]. exists conn, ph. by split_and!; [..|right].
  - left. by apply exec_write_inv in Hex as (c & w & q & c' & _ & _ & _ & ->).
  - left. by apply exec_exit_inv in Hex as (c & c' & _ & _ & ->).
  - left. cbn [sys_exec] in Hex. apply bind_Some in Hex as ([u s'] & _ & Hex). by injection Hex as <-.
Qed.

(** So a step of a connection lowers the sum of the ranks, and no other raises it. *)
Lemma cancelled_exec e sys sys' :
  cancelled e = true → sys_enabled kdf e sys = true → sys_exec kdf e sys = Some sys' →
  total_rank sys' + (if step_of_connection e then 1 else 0) <= total_rank sys.
Proof.
  intros He Hen Hex. unfold total_rank, step_of_connection.
  destruct (cancelled_cases e sys sys' He Hen Hex) as [[-> ->]|(conn & ph & -> & Hph & [(ph' & -> & Hr)| ->])]; [lia|..].
  - rewrite (msum_insert_Some rank _ conn ph ph' Hph). lia.
  - rewrite (msum_delete rank _ conn ph Hph). pose proof (rank_bounds ph). lia.
Qed.

(** The rank of one connection: its own steps lower it, and others leave it. *)
Lemma cancelled_exec_one conn e sys sys' :
  cancelled e = true → sys_enabled kdf e sys = true → sys_exec kdf e sys = Some sys' →
  rank_of conn sys' + (if bool_decide (connection_of e = Some conn) then 1 else 0) <= rank_of conn sys.
Proof.
  intros He Hen Hex. unfold rank_of.
  destruct (cancelled_cases e sys sys' He Hen Hex) as [[-> ->]|(conn' & ph & -> & Hph & Hcase)]; [simpl; lia|].
  destruct (decide (conn' = conn)) as [->|Hne].
  - rewrite bool_decide_true by reflexivity. rewrite Hph. pose proof (rank_bounds ph).
    destruct Hcase as [(ph' & -> & Hr)| ->]; [rewrite lookup_insert_eq|rewrite lookup_delete_eq]; simpl; lia.
  - rewrite bool_decide_false by congruence.
    destruct Hcase as [(ph' & -> & Hr)| ->]; [rewrite lookup_insert_ne by done|rewrite lookup_delete_ne by done]; lia.
Qed.

Lemma connection_steps_cons e es :
  connection_steps (e :: es) = (if step_of_connection e then 1 else 0) + connection_steps es.
Proof.
  unfold connection_steps. destruct (step_of_connection e) eqn:E.
  - rewrite filter_cons_True by exact E. unfold len. simpl length. lia.
  - rewrite filter_cons_False by (rewrite E; discriminate). lia.
Qed.

(** So the connections make a bounded number of steps. *)
Lemma cancelled_run_bound es sys sys' :
  Forall (λ e, cancelled e = true) es → run_events kdf es sys = Some sys' →
  total_rank sys' + connection_steps es <= total_rank sys.
Proof.
  intros Hes. revert sys. induction Hes as [|e es He Hes IH]; intros sys Hrun; cbn [run_events] in Hrun.
  - injection Hrun as <-. unfold connection_steps. simpl. unfold len. simpl. lia.
  - destruct (sys_enabled kdf e sys) eqn:Hen; [|discriminate Hrun].
    apply bind_Some in Hrun as (sys1 & Hex & Hrun). specialize (IH sys1 Hrun).
    pose proof (cancelled_exec e sys sys1 He Hen Hex). rewrite connection_steps_cons. lia.
Qed.

(** Each of them at most eleven. *)
Lemma cancelled_run_one conn es sys sys' :
  Forall (λ e, cancelled e = true) es → run_events kdf es sys = Some sys' →
  rank_of conn sys' + steps_of conn es <= rank_of conn sys.
Proof.
  intros Hes. revert sys. induction Hes as [|e es He Hes IH]; intros sys Hrun; cbn [run_events] in Hrun.
  - injection Hrun as <-. unfold steps_of, len. simpl. lia.
  - destruct (sys_enabled kdf e sys) eqn:Hen; [|discriminate Hrun].
    apply bind_Some in Hrun as (sys1 & Hex & Hrun). specialize (IH sys1 Hrun).
    pose proof (cancelled_exec_one conn e sys sys1 He Hen Hex) as H1. unfold steps_of in *. rewrite filter_cons.
    destruct (decide (connection_of e = Some conn)) as [E|E]; [rewrite bool_decide_true in H1 by done|rewrite bool_decide_false in H1 by done];
      [|lia]. unfold len in *. rewrite length_cons. lia.
Qed.

(** ** A step is always possible *)

(** An input a connection takes under a cancelled context. *)
Definition ending_input (ph : phase) : option input :=
  match ph with
  | Handshaking _ => Some (IHandshake (Some EOF))
  | Authenticating _ => Some (IAuthenticate (Some EOF) None None 0 None)
  | Acquiring _ => Some (IAcquire (Some EOF) 0 0 None)
  | Awaiting _ _ => Some (IAwait true)
  | Greeting _ _ _ => Some (IGreet 0)
  | Welcoming _ _ => Some (IWelcome (Some EOF) None)
  | Serving _ _ _ => Some (IServe true (mkEnv None (λ _, 0)))
  | Subscribing _ _ _ _ _ => Some (ISubAck (Some EOF) (λ _ _, 0))
  | Leaving _ _ _ _ => Some (ILeave (λ _, 0))
  | Cleaning _ _ _ => Some (IClean 0)
  | Draining _ _ (Running _) => Some (IConsume true)
  | Draining _ _ (Sending _) => Some (ISent (Some EOF))
  | Draining _ _ (Blocked _) => Some (IWake WakeCancelled)
  | Draining _ _ Returned | Finished => None
  end.

Lemma ending_input_taken conn ph i s :
  ending_input ph = Some i → (∀ h co, ph = Draining h None co → co = Returned) →
  cancelled_input i = true ∧ is_Some (phase_step kdf conn i ph) ∧ input_ready i ph s = true.
Proof.
  intros Hi Hdr. destruct ph as [r|h|h|h previous|h o present|h o|h o co|h o co p codes|h o co clean|h o co|h o [ep|ep|ep|]|];
    try discriminate Hi; injection Hi as <-;
    try (split; [reflexivity|]; split; [eexists; reflexivity|reflexivity]).
  - destruct o as [o|]; [|discriminate (Hdr h (Running ep) eq_refl)].
    split; [reflexivity|]. split; [eexists; reflexivity|reflexivity].
  - destruct o as [o|]; [|discriminate (Hdr h (Sending ep) eq_refl)].
    split; [reflexivity|]. split; [eexists; reflexivity|reflexivity].
  - destruct o as [o|]; [|discriminate (Hdr h (Blocked ep) eq_refl)].
    split; [reflexivity|]. split; [eexists; reflexivity|reflexivity].
Qed.

(** [es] is a run under a cancelled context that nothing is accepted in. *)
Record ends (n : Z) (es : list sys_event) (sys sys' : System) : Prop := {
  en_run : run_events kdf es sys = Some sys';
  en_events : Forall (λ e, cancelled e = true ∧ of_connection e = true) es;
  en_ok : sys_ok (n + len es) sys' }.

Lemma en_cancelled n es sys sys' : ends n es sys sys' → Forall (λ e, cancelled e = true) es.
Proof. intros He. eapply Forall_impl; [exact (en_events _ _ _ _ He)|]. by intros e [? _]. Qed.

Lemma ends_nil n sys : sys_ok n sys → ends n [] sys sys.
Proof. intros Hok. split; [reflexivity|constructor|]. unfold len. simpl. by rewrite Z.add_0_r. Qed.

(** One more event in front. *)
Lemma ends_cons n e es sys sys2 :
  0 <= n → n + 1 < 2 ^ 64 → sys_ok n sys → cancelled e = true → of_connection e = true → sys_enabled kdf e sys = true →
  (∀ sys1, sys_exec kdf e sys = Some sys1 → sys_ok (n + 1) sys1 → ends (n + 1) es sys1 sys2) →
  ends n (e :: es) sys sys2.
Proof.
  intros H0 Hlt Hok He Hof Hen Hk. destruct (sys_exec_ok kdf n sys e) as (sys1 & Hex & Hok1); [exact H0|exact Hlt|exact Hok|exact Hen|].
  destruct (Hk sys1 Hex Hok1) as [Hrun Hes Hok2]. split.
  - cbn [run_events]. rewrite Hen, Hex. exact Hrun.
  - constructor; [split; [exact He|exact Hof]|exact Hes].
  - unfold len in *. rewrite length_cons, Nat2Z.inj_succ. replace (n + _) with (n + 1 + Z.of_nat (length es)) by lia. exact Hok2.
Qed.

(** One event that is a step of a connection. *)
Lemma ends_step n e sys :
  0 <= n → n + 1 < 2 ^ 64 → sys_ok n sys → cancelled e = true → step_of_connection e = true →
  sys_enabled kdf e sys = true → ∃ sys', ends n [e] sys sys' ∧ 1 <= connection_steps [e].
Proof.
  intros H0 Hlt Hok He Hs Hen. destruct (sys_exec_ok kdf n sys e H0 Hlt Hok Hen) as (sys' & Hex & Hok').
  exists sys'. split.
  - apply ends_cons; [exact H0|exact Hlt|exact Hok|exact He|by destruct e|exact Hen|]. intros sys1 Hex1 Hok1.
    assert (sys1 = sys') as -> by congruence. apply ends_nil. exact Hok1.
  - rewrite connection_steps_cons, Hs. unfold connection_steps. simpl. unfold len. simpl. lia.
Qed.

(** The last step of a handler, once its writer returned. *)
Lemma drain_ends n sys conn h o c :
  0 <= n → n + 1 < 2 ^ 64 → sys_ok n sys → sys_handlers sys !! conn = Some (Draining h o Returned) →
  srv_conns (sys_server sys) !! h_client h = Some c → c_writeDone c = true →
  ∃ sys', ends n [EvHandler conn IDrain] sys sys' ∧ 1 <= connection_steps [EvHandler conn IDrain].
Proof.
  intros H0 Hlt Hok Hph Hc Hw. apply ends_step; [exact H0|exact Hlt|exact Hok|reflexivity|reflexivity|].
  cbn [sys_enabled]. rewrite Hph. cbn [input_ready phase_step]. rewrite Hc, Hw.
  rewrite bool_decide_true by (eexists; reflexivity). reflexivity.
Qed.

(** A connection can be brought nearer to its end by at most two events. *)
Lemma connection_ends n sys conn ph :
  0 <= n → n + 2 < 2 ^ 64 → sys_ok n sys → sys_handlers sys !! conn = Some ph →
  ∃ es sys', ends n es sys sys' ∧ len es <= 2 ∧ 1 <= connection_steps es.
Proof.
  intros H0 Hlt Hok Hph. pose proof (sy_phases _ _ Hok conn _ Hph) as Hp. destruct (ending_input ph) as [i|] eqn:Hi.
  - destruct (ending_input_taken conn ph i (sys_server sys) Hi) as (Hc & Hact & Hready).
    { intros h co ->. apply (po_view _ _ Hp h None co). reflexivity. }
    destruct (ends_step n (EvHandler conn i) sys) as (sys' & Hes & Hone); [lia|lia|exact Hok|exact Hc|reflexivity| |].
    { cbn [sys_enabled]. rewrite Hph, Hready, bool_decide_true by exact Hact. reflexivity. }
    exists [EvHandler conn i], sys'. split; [exact Hes|]. split; [unfold len; simpl; lia|exact Hone].
  - destruct ph as [| | | | | | | | | |h o [| | |]|]; try discriminate Hi.
    + destruct (po_waiting _ _ Hp) as (c & Hc & Hdone). destruct (c_writeDone c) eqn:Hw.
      * destruct (drain_ends n sys conn h o c) as (sys' & Hes & Hone); [lia|lia|exact Hok|exact Hph|exact Hc|exact Hw|].
        exists [EvHandler conn IDrain], sys'. split; [exact Hes|]. split; [unfold len; simpl; lia|exact Hone].
      * assert (Hen : sys_enabled kdf (EvExit (h_client h)) sys = true).
        { cbn [sys_enabled]. rewrite Hc, Hdone, Hw. reflexivity. }
        destruct (sys_exec_ok kdf n sys (EvExit (h_client h))) as (sys1 & Hex & Hok1); [lia|lia|exact Hok|exact Hen|].
        pose proof Hex as E. apply exec_exit_inv in E as (c1 & c' & Hc1 & Hx & E). assert (c1 = c) as -> by congruence.
        rewrite (writeLoop_exit_open c Hw) in Hx. apply (inj Some) in Hx as <-.
        destruct (drain_ends (n + 1) sys1 conn h o _ ltac:(lia) ltac:(lia) Hok1
          ltac:(subst sys1; exact Hph) ltac:(subst sys1; apply lookup_insert_eq) eq_refl) as (sys2 & Hes & Hone).
        exists [EvExit (h_client h); EvHandler conn IDrain], sys2.
        split; [|split; [unfold len; simpl; lia|rewrite connection_steps_cons; simpl; lia]].
        apply ends_cons; [lia|lia|exact Hok|reflexivity|reflexivity|exact Hen|]. intros sys1' Hex' _.
        assert (sys1' = sys1) as -> by congruence. exact Hes.
    + destruct (ends_step n (EvFinish conn) sys) as (sys' & Hes & Hone); [lia|lia|exact Hok|reflexivity|reflexivity| |].
      { cbn [sys_enabled]. rewrite Hph. reflexivity. }
      exists [EvFinish conn], sys'. split; [exact Hes|]. split; [unfold len; simpl; lia|exact Hone].
Qed.

Lemma ends_app n es1 es2 sys sys1 sys2 :
  ends n es1 sys sys1 → ends (n + len es1) es2 sys1 sys2 → ends n (es1 ++ es2) sys sys2.
Proof.
  intros [Hrun1 Hes1 _] [Hrun2 Hes2 Hok2]. split.
  - by rewrite (run_events_app kdf es1 es2 sys), Hrun1.
  - apply Forall_app. split; assumption.
  - unfold len in *. rewrite length_app, Nat2Z.inj_add, Z.add_assoc. exact Hok2.
Qed.

(** All connections can be brought to their end. *)
Lemma all_end k n sys :
  total_rank sys <= Z.of_nat k → 0 <= n → n + 2 * Z.of_nat k < 2 ^ 64 → sys_ok n sys →
  ∃ es sys', ends n es sys sys' ∧ sys_handlers sys' = ∅.
Proof.
  revert n sys. induction k as [|k IH]; intros n sys Hk H0 Hlt Hok;
    destruct (decide (sys_handlers sys = ∅)) as [He|(conn & ph & Hph)%map_choose];
    try (exists [], sys; split; [apply ends_nil; exact Hok|exact He]).
  - exfalso. pose proof (msum_elem_le rank (sys_handlers sys) conn ph
      ltac:(intros c p _; pose proof (rank_bounds p); lia) Hph).
    pose proof (rank_bounds ph). unfold total_rank in Hk. lia.
  - destruct (connection_ends n sys conn ph H0 ltac:(lia) Hok Hph) as (es & sys1 & Hes & Hlen & Hone).
    pose proof (cancelled_run_bound es sys sys1 (en_cancelled _ _ _ _ Hes) (en_run _ _ _ _ Hes)).
    destruct (IH (n + len es) sys1) as (es' & sys2 & Hes' & Hempty);
      [lia|unfold len; lia|lia|exact (en_ok _ _ _ _ Hes)|].
    exists (es ++ es'), sys2. split; [by eapply ends_app|exact Hempty].
Qed.

(** What is left once no handler is: no connection, no writer, no registered client and
    no connected session. *)
Record ended (sys : System) : Prop := {
  ed_connections : connections (srv_connections (sys_server sys)) = ∅;
  ed_writers cli c : srv_conns (sys_server sys) !! cli = Some c → c_writeDone c = true;
  ed_clients : srv_clients (sys_server sys) = ∅;
  ed_sessions id p st : st_data (srv_sessions (sys_server sys)) !! id = Some p →
    states (srv_sessions (sys_server sys)) !! p = Some st → connected st = false }.

Lemma nothing_left n k sys : sys_ok n sys → sys_reachable kdf k sys → sys_handlers sys = ∅ → ended sys.
Proof.
  intros Hok Hr He.
  assert (Hcl : srv_clients (sys_server sys) = ∅).
  { apply map_empty. intros id. destruct (srv_clients (sys_server sys) !! id) as [o|] eqn:Ho; [|reflexivity].
    destruct (sv_clients _ (sy_server _ _ Hok) id o Ho) as (a & c & Ha & _ & _ & Hd).
    destruct (sy_owned _ _ Hok o a Ha Hd) as (conn & ph & Hph & _). rewrite He in Hph. discriminate Hph. }
  split; [|exact (reachable_writers_done kdf k sys Hr He)|exact Hcl|].
  - apply map_empty. intros conn. apply (gr_none _ _ _ (sy_group _ _ Hok)). rewrite He. apply lookup_empty.
  - intros id p st Hd Hst. apply not_true_is_false. rewrite (sv_connected _ (sy_server _ _ Hok) id p st Hd Hst), Hcl, lookup_empty.
    by intros [].
Qed.

Lemma wait_returns_iff n sys : sys_ok n sys →
  wait_returns (srv_connections (sys_server sys)) = true ↔ sys_handlers sys = ∅.
Proof.
  intros Hok. unfold wait_returns. rewrite (gr_handlers _ _ _ (sy_group _ _ Hok)). unfold msize.
  rewrite Z.eqb_eq, <- map_size_empty_iff. lia.
Qed.
End ending.

(** * Theorem *)

(** C6: shutting down ends: from any reachable state on, whatever the clients send and
    in whatever order the goroutines run, after the context is cancelled each open
    connection makes at most eleven more steps and none is opened, and at every point
    the remaining steps can lead to a state where [wait] returns.  It returns only when
    no handler is left; then the group has no connection, no writer of a client runs,
    no client is registered and no session is connected. *)
Theorem shutdown_completes kdf n sys es sys1 :
  sys_reachable kdf n sys → Forall (λ e, cancelled e = true) es → run_events kdf es sys = Some sys1 →
  Z.of_nat n + len es + 22 * msize (sys_handlers sys) < 2 ^ 64 →
  (∀ conn, steps_of conn es <= if bool_decide (is_Some (sys_handlers sys !! conn)) then 11 else 0)
  ∧ connection_steps es <= 11 * msize (sys_handlers sys)
  ∧ (∃ es' sys2, Forall (λ e, cancelled e = true) es' ∧ run_events kdf es' sys1 = Some sys2
       ∧ wait_returns (srv_connections (sys_server sys2)) = true)
  ∧ (wait_returns (srv_connections (sys_server sys1)) = true ↔ sys_handlers sys1 = ∅)
  ∧ (wait_returns (srv_connections (sys_server sys1)) = true →
       closeAll (srv_connections (sys_server sys1)) = []
       ∧ (∀ cli c, srv_conns (sys_server sys1) !! cli = Some c → c_writeDone c = true)
       ∧ srv_clients (sys_server sys1) = ∅
       ∧ ∀ id p st, st_data (srv_sessions (sys_server sys1)) !! id = Some p →
           states (srv_sessions (sys_server sys1)) !! p = Some st → connected st = false).
Proof.
  intros Hr Hes Hrun Hlt. pose proof (total_rank_size sys) as Hsize. pose proof (total_rank_nonneg sys1) as Hnn.
  pose proof (cancelled_run_bound kdf es sys sys1 Hes Hrun) as Hb.
  assert (0 <= connection_steps es) by (unfold connection_steps, len; lia).
  pose proof (run_events_reachable kdf es n sys sys1 Hr Hrun) as Hr1.
  assert (Hok : sys_ok (Z.of_nat n + len es) sys1).
  { unfold len in *. rewrite <- Nat2Z.inj_add. apply (reachable_sys_ok kdf); [exact Hr1|lia]. }
  pose proof (wait_returns_iff _ sys1 Hok) as Hw. split.
  { intros conn. pose proof (cancelled_run_one kdf conn es sys sys1 Hes Hrun).
    pose proof (rank_of_bounds conn sys). pose proof (rank_of_bounds conn sys1). lia. }
  split; [lia|]. split; [|split; [exact Hw|]].
  - destruct (all_end kdf (Z.to_nat (total_rank sys1)) (Z.of_nat n + len es) sys1) as (es' & sys2 & Hes' & He);
      [lia|unfold len; lia|lia|exact Hok|].
    exists es', sys2. split; [by eapply en_cancelled|]. split; [apply Hes'|]. by apply (wait_returns_iff _ sys2 (en_ok _ _ _ _ _ Hes')).
  - intros He%Hw. destruct (nothing_left _ _ _ _ Hok Hr1 He) as [Hc Hdone Hcl Hoff].
    split; [unfold closeAll; rewrite Hc; reflexivity|]. by split_and!.
Qed.

(** The context is cancelled after the events of the example: the client is told to
    leave and another connection is refused. *)
Definition shutdown_events : list sys_event :=
  [EvHandler 0 (IServe true example_env);
   EvAccept (Some EOF) 1 (mkReader example_stream EOF);
   EvHandler 0 (ILeave (λ _, 7))].

Lemma shutdown_completes_witness :
  ∃ sys sys1, run_events no_kdf example_events example_system = Some sys
    ∧ run_events no_kdf shutdown_events sys = Some sys1 ∧ msize (sys_handlers sys) = 1
    ∧ ∃ es' sys2, Forall (λ e, cancelled e = true) es' ∧ run_events no_kdf es' sys1 = Some sys2
        ∧ wait_returns (srv_connections (sys_server sys2)) = true.
Proof.
  destruct example_run as (sys & Hrun & Hr). exists sys.
  assert (Hone : match run_events no_kdf example_events example_system with
    | Some sys => msize (sys_handlers sys) =? 1 | None => false end = true) by (vm_compute; reflexivity).
  assert (Hsome : match run_events no_kdf (example_events ++ shutdown_events) example_system with
    | Some _ => true | None => false end = true) by (vm_compute; reflexivity).
  rewrite run_events_app, Hrun in Hsome. cbn [mbind option_bind] in Hsome. rewrite Hrun in Hone.
  apply Z.eqb_eq in Hone.
  destruct (run_events no_kdf shutdown_events sys) as [sys1|] eqn:Hrun1; [|discriminate Hsome].
  exists sys1. split; [exact Hrun|]. split; [reflexivity|]. split; [exact Hone|].
  assert (Hes : Forall (λ e, cancelled e = true) shutdown_events) by (repeat constructor).
  refine (proj1 (proj2 (proj2 (shutdown_completes no_kdf 10 sys shutdown_events sys1 Hr Hes Hrun1 _)))).
  rewrite Hone. reflexivity.
Defined.
