(* ===== verification/Start.v ===== *)
(** [Start] from beginning to end (src/internal/server/server.go): its own goroutine,
    the function that runs when the context is done, the expiry of sessions, and the
    connections, with the contexts they share. *)

From S2P Require Import Prelude Topic Wire Filters Encoder Decoder Codec CodecProofs Tree.
From S2P Require Import Broker Session SessionQueue SessionStore SessionProofs Delivery Auth AuthProofs Client.
From S2P Require Import Server Handlers Lifecycle Options ServerInv Ownership SystemProofs ServerTheorems HandlerProofs Frames WriterWaits Shutdown.

Local Open Scope Z_scope.
Local Open Scope orb_scope.

(** * Definitions *)

(** The goroutine of [Start]: in [acceptConnections]; in the deferred function, at
    [<-shutdownDone], [<-expiryDone] and [connections.wait]; or it returned.  From the
    first of these on [cancel] was called. *)
Inductive start_phase :=
| Accepting
| AwaitShutdown (err : option error)
| AwaitExpiry (err : option error)
| AwaitHandlers (err : option error)
| Exited (err : option error).

(** The function given to [context.AfterFunc]: it did not start, it closed the
    listener, it closed the connections and [shutdownDone]. *)
Inductive after_phase :=
| AfterIdle
| AfterListener
| AfterDone.

#[export] Instance start_phase_eq_dec : EqDecision start_phase.
Proof. solve_decision. Defined.
#[export] Instance after_phase_eq_dec : EqDecision after_phase.
Proof. solve_decision. Defined.

(** The listener: what [listenFn] was called with, and the configuration of the
    [tls.NewListener] around it. *)
Record Listener := mkListener {
  ln_network : bytes;
  ln_address : bytes;
  ln_tls : option TLSConfig }.

(** A call of [listenFn], which says whether it fails. *)
Definition listen (listenFn : bytes → bytes → option error) (network address : bytes) : result Listener :=
  match listenFn network address with
  | Some err => Error err
  | None => Ok (mkListener network address None)
  end.

(** [ctx_err] is [ctx.Err()] of the context [Start] was given, [run_done] whether the
    derived [runCtx] is done, [listening] the listener while it is open,
    [expiry_running] whether [expiryDone] is open, and [closed] are the connections that
    [closeAll] closed. *)
Record Starting := mkStarting {
  st_sys : System;
  ctx_err : option error;
  run_done : bool;
  listening : option Listener;
  after : after_phase;
  expiry_running : bool;
  closed : gset netconn;
  main : start_phase }.

(** [Start] up to its loop. *)
Definition Start_begin (s : Server) (listenFn : bytes → bytes → option error) : result Starting :=
  match Start_checks s with
  | Some err => Error err
  | None =>
      let! ln := listen listenFn (bs "tcp") (srv_addr (settings s)) in
      let ln := match tlsConfig (settings s) with
                | Some c => mkListener (ln_network ln) (ln_address ln) (Some c)
                | None => ln
                end in
      Ok (mkStarting (mkSystem s ∅) None false (Some ln) AfterIdle
            (negb (OfflineTTL (limits (srv_sessions s)) =? 0)) ∅ Accepting)
  end.

(** [SCancel]: the caller cancels the context; [SPropagate]: [runCtx], derived from it,
    is done too.  [SAccept]: a round of the loop.
    [SCloseListener] and [SCloseAll]: the function of [AfterFunc].  [SExpiryEnd]: the
    goroutine of the expiry sees that [runCtx] is done.  [SSystem]: an event of a
    connection, a writer or the ticker.  [SReturn]: the next wait of the deferred
    function ends. *)
Inductive start_event :=
| SCancel (err : error)
| SPropagate
| SAccept (a : accept_result)
| SCloseListener
| SCloseAll
| SExpiryEnd
| SSystem (e : sys_event)
| SReturn.

(** Which events of the system are left to it: connections are only accepted by the
    loop, and the ticker is read until the expiry ends.  What a handler saw of [runCtx]
    is left open, since it may have looked before that was done; [shutdown_completes]
    bounds the steps of those that look after it. *)
Definition event_open (e : sys_event) (st : Starting) : bool :=
  match e with
  | EvAccept _ _ _ => false
  | EvTick _ => expiry_running st
  | _ => true
  end.

Section start.
Context (kdf : bytes → bytes → Z → Z → result bytes).

Definition start_enabled (e : start_event) (st : Starting) : bool :=
  match e with
  | SCancel _ => bool_decide (ctx_err st = None)
  | SPropagate => negb (bool_decide (ctx_err st = None))
  | SAccept a =>
      bool_decide (main st = Accepting)
      && match a with Accepted conn r => sys_enabled kdf (EvAccept (ctx_err st) conn r) (st_sys st) | AcceptError _ => true end
  | SCloseListener => run_done st && bool_decide (after st = AfterIdle)
  | SCloseAll => bool_decide (after st = AfterListener)
  | SExpiryEnd => run_done st && expiry_running st
  | SSystem e => event_open e st && sys_enabled kdf e (st_sys st)
  | SReturn =>
      match main st with
      | AwaitShutdown _ => bool_decide (after st = AfterDone)
      | AwaitExpiry _ => negb (expiry_running st)
      | AwaitHandlers _ => wait_returns (srv_connections (sys_server (st_sys st)))
      | _ => false
      end
  end.

Definition start_exec (e : start_event) (st : Starting) : option Starting :=
  match e with
  | SCancel err =>
      Some (mkStarting (st_sys st) (Some err) (run_done st) (listening st) (after st) (expiry_running st) (closed st) (main st))
  | SPropagate =>
      Some (mkStarting (st_sys st) (ctx_err st) true (listening st) (after st) (expiry_running st) (closed st) (main st))
  | SAccept a =>
      let '(res, sys) := accept_round (ctx_err st) a (st_sys st) in
      Some (match res with
            | Some err => mkStarting sys (ctx_err st) true (listening st) (after st) (expiry_running st) (closed st) (AwaitShutdown err)
            | None => mkStarting sys (ctx_err st) (run_done st) (listening st) (after st) (expiry_running st) (closed st) (main st)
            end)
  | SCloseListener =>
      Some (mkStarting (st_sys st) (ctx_err st) (run_done st) None AfterListener (expiry_running st) (closed st) (main st))
  | SCloseAll =>
      Some (mkStarting (st_sys st) (ctx_err st) (run_done st) (listening st) AfterDone (expiry_running st)
              (closed st ∪ list_to_set (closeAll (srv_connections (sys_server (st_sys st))))) (main st))
  | SExpiryEnd =>
      Some (mkStarting (st_sys st) (ctx_err st) (run_done st) (listening st) (after st) false (closed st) (main st))
  | SSystem e =>
      sys ← sys_exec kdf e (st_sys st);
      Some (mkStarting sys (ctx_err st) (run_done st) (listening st) (after st) (expiry_running st) (closed st) (main st))
  | SReturn =>
      main' ← match main st with
              | AwaitShutdown err => Some (AwaitExpiry err)
              | AwaitExpiry err => Some (AwaitHandlers err)
              | AwaitHandlers err => Some (Exited err)
              | _ => None
              end;
      Some (mkStarting (st_sys st) (ctx_err st) (run_done st) (listening st) (after st) (expiry_running st) (closed st) main')
  end.

Fixpoint start_run (es : list start_event) (st : Starting) : option Starting :=
  match es with
  | [] => Some st
  | e :: es => if start_enabled e st then st ← start_exec e st; start_run es st else None
  end.

(** * The invariant *)

(** What the goroutine of [Start] knows: the error it is going to return is nil only if
    the context was cancelled. *)
Definition main_ok (st : Starting) : Prop :=
  match main st with
  | Accepting => True
  | AwaitShutdown err => err = None → ctx_err st ≠ None
  | AwaitExpiry err => (err = None → ctx_err st ≠ None) ∧ after st = AfterDone
  | AwaitHandlers err => (err = None → ctx_err st ≠ None) ∧ after st = AfterDone ∧ expiry_running st = false
  | Exited err => (err = None → ctx_err st ≠ None) ∧ after st = AfterDone ∧ expiry_running st = false ∧ sys_handlers (st_sys st) = ∅
  end.

Record starting_ok (n : nat) (st : Starting) : Prop := {
  sg_sys : ∃ k, (k <= n)%nat ∧ sys_reachable kdf k (st_sys st);
  sg_run : run_done st = true → ctx_err st ≠ None ∨ main st ≠ Accepting;
  sg_left : main st ≠ Accepting → run_done st = true;
  sg_after : after st ≠ AfterIdle → run_done st = true ∧ listening st = None;
  sg_closed : after st = AfterDone → ∀ conn, is_Some (sys_handlers (st_sys st) !! conn) → conn ∈ closed st;
  sg_main : main_ok st }.

(** Nothing but [EvAccept] adds a connection. *)
Lemma exec_handlers e sys sys' conn :
  match e with EvAccept _ _ _ => False | _ => True end → sys_exec kdf e sys = Some sys' →
  is_Some (sys_handlers sys' !! conn) → is_Some (sys_handlers sys !! conn).
Proof.
  intros Hne Hex. destruct e as [ctxErr conn' r|conn' i|conn'|cli set n err|cli|now]; cbn [sys_exec] in Hex; [done|..].
  - apply bind_Some in Hex as (ph & Hph & Hex). apply bind_Some in Hex as (act & _ & Hex). apply bind_Some in Hex as ([ph' s'] & _ & Hex).
    injection Hex as <-. cbn [sys_handlers]. intros [x Hx]. apply lookup_insert_Some in Hx as [[<- _]|[_ Hx]]; by eexists.
  - apply (exec_finish_inv kdf) in Hex as (g & _ & ->). cbn [sys_handlers]. intros [x Hx]. apply lookup_delete_Some in Hx as [_ Hx]. by eexists.
  - by apply (exec_write_inv kdf) in Hex as (c & w & q & c' & _ & _ & _ & ->).
  - by apply (exec_exit_inv kdf) in Hex as (c & c' & _ & _ & ->).
  - apply bind_Some in Hex as ([u s'] & _ & Hex). by injection Hex as <-.
Qed.

Lemma exec_no_handlers e sys sys' :
  match e with EvAccept _ _ _ => False | _ => True end → sys_exec kdf e sys = Some sys' →
  sys_handlers sys = ∅ → sys_handlers sys' = ∅.
Proof.
  intros Hne Hex He. apply map_empty. intros conn. destruct (sys_handlers sys' !! conn) as [ph|] eqn:Hc; [|done].
  destruct (exec_handlers e sys sys' conn Hne Hex) as [x Hx]; [by eexists|]. rewrite He in Hx. by rewrite lookup_empty in Hx.
Qed.

Ltac start_fields := cbn [st_sys ctx_err run_done listening after expiry_running closed main].

(** A round of the loop. *)
Lemma accept_ok n a st st' :
  starting_ok n st → start_enabled (SAccept a) st = true → start_exec (SAccept a) st = Some st' → starting_ok (S n) st'.
Proof.
  intros [(k & Hk & Hr) Hrun Hleft Haft Hcl Hm] [Hacc%bool_decide_eq_true_1 Hen]%andb_true_iff Hex. cbn [start_exec] in Hex.
  destruct (ctx_err st) as [err|] eqn:Hctx.
  - rewrite accept_round_cancelled in Hex. injection Hex as <-. split; start_fields; try done.
    + exists k. split; [lia|exact Hr].
    + by left.
    + intros Ha. by destruct (Haft Ha).
  - assert (Hrd : run_done st = false) by (destruct (run_done st); [by destruct (Hrun eq_refl)|done]).
    assert (Hidle : after st = AfterIdle) by (destruct (after st); [done|by destruct (Haft ltac:(done)); congruence..]).
    assert (Hsys : ∃ k, (k <= S n)%nat ∧ sys_reachable kdf k (accept_round None a (st_sys st)).2).
    { destruct a as [conn r|temp]; [|exists k; split; [lia|destruct temp; exact Hr]]. exists (S k). split; [lia|].
      eapply sys_next; [exact Hr|exact Hen|]. apply accept_round_exec. }
    destruct (accept_round None a (st_sys st)) as [[err|] sys'] eqn:Ha; injection Hex as <-;
      split; cbn; try done; rewrite ?Hidle; try done.
    + by right.
    + intros ->. destruct a as [conn r|[]]; cbn [accept_round] in Ha; [|discriminate Ha..].
      unfold start in Ha. destruct (_ || _)%bool; discriminate Ha.
    + unfold main_ok. cbn [main]. by rewrite Hacc.
Qed.

(** An event of the system. *)
Lemma system_ok n e st st' :
  starting_ok n st → start_enabled (SSystem e) st = true → start_exec (SSystem e) st = Some st' → starting_ok (S n) st'.
Proof.
  intros [(k & Hk & Hr) Hrun Hleft Haft Hcl Hm] [Hopen Hen]%andb_true_iff (sys' & Hex & E)%bind_Some. injection E as <-.
  assert (Hne : match e with EvAccept _ _ _ => False | _ => True end) by by destruct e.
  split; cbn; try done.
  - exists (S k). split; [lia|]. by eapply sys_next.
  - intros Ha conn Hc. apply (Hcl Ha). by eapply exec_handlers.
  - unfold main_ok in *. cbn [main ctx_err after expiry_running st_sys]. destruct (main st); try done.
    destruct Hm as (? & ? & ? & He). split_and!; try done. by eapply exec_no_handlers.
Qed.
Lemma start_step_ok n e st st' :
  starting_ok n st → Z.of_nat n < 2 ^ 64 → start_enabled e st = true → start_exec e st = Some st' → starting_ok (S n) st'.
Proof.
  intros Hok Hlt Hen Hex. destruct e as [err| |a| | | |e|]; [| |by eapply accept_ok| | | |by eapply system_ok|];
    destruct Hok as [(k & Hk & Hr) Hrun Hleft Haft Hcl Hm];
    (assert (Hsys : ∃ k, (k <= S n)%nat ∧ sys_reachable kdf k (st_sys st)) by (exists k; split; [lia|exact Hr]));
    cbn [start_enabled start_exec] in Hen, Hex.
  - injection Hex as <-. split; start_fields; try done; [by left|].
    unfold main_ok in *. start_fields. destruct (main st); naive_solver.
  - injection Hex as <-. apply negb_true_iff, bool_decide_eq_false in Hen. split; start_fields; try done; [by left|].
    intros Ha. by destruct (Haft Ha).
  - injection Hex as <-. apply andb_true_iff in Hen as [Hrd Hidle%bool_decide_eq_true_1]. split; start_fields; try done.
    unfold main_ok in *. start_fields. destruct (main st); try done; exfalso; rewrite Hidle in Hm; naive_solver.
  - injection Hex as <-. apply bool_decide_eq_true_1 in Hen. destruct (Haft ltac:(congruence)) as [Hrd Hli]. split; start_fields; try done.
    + intros _ conn [ph Hph]. apply elem_of_union_r, elem_of_list_to_set. unfold closeAll.
      apply elem_of_elements, elem_of_dom.
      pose proof (reachable_sys_ok kdf k _ Hr ltac:(lia)) as Hok. destruct (gr_flags _ _ _ (sy_group _ _ Hok) conn ph Hph) as (b & Hb & _). by exists b.
    + unfold main_ok in *. start_fields. destruct (main st); naive_solver.
  - injection Hex as <-. split; start_fields; try done. unfold main_ok in *. start_fields. destruct (main st); naive_solver.
  - apply bind_Some in Hex as (main' & Hmain & E). injection E as <-. unfold main_ok in Hm.
    destruct (main st) as [|err|err|err|err] eqn:Em; try discriminate Hmain; injection Hmain as <-;
      (split; start_fields; try done; [by right|intros _; by apply Hleft|unfold main_ok; start_fields]).
    + apply bool_decide_eq_true_1 in Hen. split; [exact Hm|exact Hen].
    + apply negb_true_iff in Hen. naive_solver.
    + destruct Hm as (? & ? & ?). split_and!; try done. apply (wait_returns_iff (Z.of_nat k)); [|exact Hen].
      apply (reachable_sys_ok kdf); [exact Hr|lia].
Qed.

Lemma start_run_ok es n st st' :
  starting_ok n st → Z.of_nat n + len es < 2 ^ 64 → start_run es st = Some st' → starting_ok (n + length es) st'.
Proof.
  revert n st. induction es as [|e es IH]; intros n st Hok Hlt Hrun; cbn [start_run] in Hrun.
  - injection Hrun as <-. by rewrite Nat.add_0_r.
  - unfold len in Hlt. rewrite length_cons in Hlt. destruct (start_enabled e st) eqn:Hen; [|discriminate Hrun].
    apply bind_Some in Hrun as (st1 & Hex & Hrun). replace (n + length (e :: es))%nat with (S n + length es)%nat by (simpl; lia).
    eapply IH; [|unfold len; lia|exact Hrun]. eapply start_step_ok; [exact Hok|lia|exact Hen|exact Hex].
Qed.

(** The beginning. *)
Lemma begin_inv s listenFn st :
  Start_begin s listenFn = Ok st →
  Start_checks s = None ∧ st = mkStarting (mkSystem s ∅) None false
    (Some (mkListener (bs "tcp") (srv_addr (settings s)) (tlsConfig (settings s)))) AfterIdle
    (negb (OfflineTTL (limits (srv_sessions s)) =? 0)) ∅ Accepting.
Proof.
  unfold Start_begin, listen. destruct (Start_checks s); [discriminate|]. destruct (listenFn _ _); [discriminate|]. cbn.
  intros E. injection E as <-. split; [reflexivity|]. by destruct (tlsConfig (settings s)).
Qed.

Lemma begin_ok s listenFn st : sys_reachable kdf 0 (mkSystem s ∅) → Start_begin s listenFn = Ok st → starting_ok 0 st.
Proof. intros Hr [_ ->]%begin_inv. split; start_fields; try done. by exists 0%nat. Qed.

(** The listener is the one that was made until it is closed. *)
Lemma listening_step e st st' : start_exec e st = Some st' → listening st' = listening st ∨ listening st' = None.
Proof.
  intros Hex. destruct e; cbn [start_exec] in Hex; try (injection Hex as <-; cbn [listening]; auto).
  - destruct (accept_round _ _ _) as [res sys]. injection Hex as <-. left. by destruct res.
  - apply bind_Some in Hex as (sys & _ & Hex). injection Hex as <-. by left.
  - apply bind_Some in Hex as (m & _ & Hex). injection Hex as <-. by left.
Qed.

Lemma listening_run es st st' : start_run es st = Some st' → listening st' = listening st ∨ listening st' = None.
Proof.
  revert st. induction es as [|e es IH]; intros st Hrun; cbn [start_run] in Hrun; [injection Hrun as <-; by left|].
  destruct (start_enabled e st); [|discriminate Hrun]. apply bind_Some in Hrun as (st1 & Hex & Hrun).
  destruct (IH st1 Hrun) as [-> |]; [|by right]. by apply (listening_step e).
Qed.

(** What [Start] leaves when it returned. *)
Lemma exited_ended n st err :
  starting_ok n st → Z.of_nat n < 2 ^ 64 → main st = Exited err →
  listening st = None ∧ run_done st = true ∧ expiry_running st = false ∧ sys_handlers (st_sys st) = ∅ ∧ ended (st_sys st)
  ∧ (err = None → ctx_err st ≠ None).
Proof.
  intros Hok Hlt Hm. pose proof (sg_main _ _ Hok) as Hmain. unfold main_ok in Hmain. rewrite Hm in Hmain.
  destruct Hmain as (Hnil & Ha & Hex & He). destruct (sg_after _ _ Hok ltac:(congruence)) as [Hrd Hli].
  destruct (sg_sys _ _ Hok) as (k & Hk & Hr). split_and!; try done.
  apply (nothing_left kdf (Z.of_nat k) k); [apply (reachable_sys_ok kdf); [exact Hr|lia]|exact Hr|exact He].
Qed.

(** * The end can be reached *)

Definition reaches (st st' : Starting) : Prop := ∃ es, start_run es st = Some st'.

#[local] Instance reaches_preorder : PreOrder reaches.
Proof.
  split; [by intros st; exists []|]. intros st1 st2 st3 (es1 & H1) (es2 & H2). exists (es1 ++ es2). revert st1 H1.
  induction es1 as [|e es1 IH]; intros st1 H1; cbn [start_run app] in *; [by injection H1 as ->|].
  destruct (start_enabled e st1); [|discriminate H1]. apply bind_Some in H1 as (st' & -> & H1). cbn [mbind option_bind]. by apply IH.
Qed.

Lemma reaches_step e st st' : start_enabled e st = true → start_exec e st = Some st' → reaches st st'.
Proof. intros Hen Hex. exists [e]. cbn [start_run]. by rewrite Hen, Hex. Qed.

(** The loop ends. *)
Lemma reaches_left n st :
  starting_ok n st → ctx_err st ≠ None ∨ main st ≠ Accepting →
  ∃ m, m ≠ Accepting
    ∧ reaches st (mkStarting (st_sys st) (ctx_err st) true (listening st) (after st) (expiry_running st) (closed st) m).
Proof.
  intros Hok Hc. destruct (decide (main st = Accepting)) as [Hacc|Hne].
  - destruct Hc as [Hc|]; [|done]. exists (AwaitShutdown None). split; [done|].
    apply (reaches_step (SAccept (AcceptError false))); cbn [start_enabled start_exec].
    + by rewrite bool_decide_true.
    + destruct (ctx_err st) as [err|] eqn:E; [|done]. rewrite accept_round_cancelled. reflexivity.
  - exists (main st). split; [done|]. pose proof (sg_left _ _ Hok Hne) as Hr. destruct st. cbn in Hr. subst. reflexivity.
Qed.

(** The listener and the connections are closed. *)
Lemma reaches_closed st :
  run_done st = true →
  ∃ l cl, reaches st (mkStarting (st_sys st) (ctx_err st) true l AfterDone (expiry_running st) cl (main st)).
Proof.
  intros Hr. destruct st as [sys c r l af ex cl m]. cbn in Hr. subst r. start_fields.
  assert (Hall : ∀ l, ∃ cl', reaches (mkStarting sys c true l AfterListener ex cl m) (mkStarting sys c true l AfterDone ex cl' m)).
  { intros l'. eexists. apply (reaches_step SCloseAll); [|reflexivity]. by apply bool_decide_eq_true_2. }
  destruct af.
  - destruct (Hall None) as (cl' & Hcl). exists None, cl'. etransitivity; [|exact Hcl]. by apply (reaches_step SCloseListener).
  - destruct (Hall l) as (cl' & Hcl). by exists l, cl'.
  - by exists l, cl.
Qed.

(** Events of connections go on while [Start] waits. *)
Lemma reaches_system es sys sys' st :
  run_done st = true → st_sys st = sys → Forall (λ e, cancelled e = true ∧ of_connection e = true) es →
  run_events kdf es sys = Some sys' →
  reaches st (mkStarting sys' (ctx_err st) true (listening st) (after st) (expiry_running st) (closed st) (main st)).
Proof.
  intros Hr Hsys Hes. revert st sys Hr Hsys. induction Hes as [|e es [Hc Hof] _ IH]; intros st sys Hr <- Hrun; cbn [run_events] in Hrun.
  - injection Hrun as <-. destruct st. cbn in Hr. subst. reflexivity.
  - destruct (sys_enabled kdf e (st_sys st)) eqn:Hen; [|discriminate Hrun]. apply bind_Some in Hrun as (sys1 & Hex & Hrun).
    transitivity (mkStarting sys1 (ctx_err st) (run_done st) (listening st) (after st) (expiry_running st) (closed st) (main st)).
    + apply (reaches_step (SSystem e)); cbn [start_enabled start_exec]; [|by rewrite Hex]. rewrite Hen, andb_true_r.
      by destruct e.
    + by apply (IH (mkStarting sys1 _ _ _ _ _ _ _) sys1).
Qed.

(** The deferred function comes to its end. *)
Lemma reaches_exit st :
  run_done st = true → after st = AfterDone → wait_returns (srv_connections (sys_server (st_sys st))) = true → main st ≠ Accepting →
  ∃ st' err, reaches st st' ∧ main st' = Exited err.
Proof.
  destruct st as [sys c r l af ex cl m]. start_fields. intros -> -> Hw Hm.
  set (waiting m := mkStarting sys c true l AfterDone false cl m).
  assert (Hex : reaches (mkStarting sys c true l AfterDone ex cl m) (waiting m))
    by (destruct ex; [by apply (reaches_step SExpiryEnd)|reflexivity]).
  assert (H3 : ∀ err, reaches (waiting (AwaitHandlers err)) (waiting (Exited err))) by (intros err; by apply (reaches_step SReturn)).
  assert (H2 : ∀ err, reaches (waiting (AwaitExpiry err)) (waiting (Exited err)))
    by (intros err; etransitivity; [|apply H3]; by apply (reaches_step SReturn)).
  assert (H1 : ∀ err, reaches (waiting (AwaitShutdown err)) (waiting (Exited err)))
    by (intros err; etransitivity; [|apply H2]; by apply (reaches_step SReturn)).
  destruct m as [|err|err|err|err]; [done| | | |]; exists (waiting (Exited err)), err;
    (split; [etransitivity; [exact Hex|]|reflexivity]); [apply H1|apply H2|apply H3|reflexivity].
Qed.

Lemma start_can_end n st :
  starting_ok n st → Z.of_nat n + 22 * msize (sys_handlers (st_sys st)) < 2 ^ 64 → ctx_err st ≠ None ∨ main st ≠ Accepting →
  ∃ es st' err, start_run es st = Some st' ∧ main st' = Exited err.
Proof.
  intros Hok Hlt Hc. destruct (reaches_left n st Hok Hc) as (m & Hm & H1). destruct (sg_sys _ _ Hok) as (k & Hk & Hr).
  pose proof (total_rank_size (st_sys st)) as Hsize. pose proof (total_rank_nonneg (st_sys st)) as Hnn.
  set (st1 := mkStarting _ _ _ _ _ _ _ m) in H1. destruct (reaches_closed st1 eq_refl) as (l & cl & H2).
  set (st2 := mkStarting _ _ _ _ _ _ _ _) in H2.
  destruct (all_end kdf (Z.to_nat (total_rank (st_sys st))) (Z.of_nat k) (st_sys st)) as (es & sys' & Hes & He);
    [lia|lia|lia|apply (reachable_sys_ok kdf); [exact Hr|lia]|].
  pose proof (reaches_system es (st_sys st) sys' st2 eq_refl eq_refl (en_events _ _ _ _ _ Hes) (en_run _ _ _ _ _ Hes)) as H3.
  set (st3 := mkStarting _ _ _ _ _ _ _ _) in H3.
  destruct (reaches_exit st3) as (st4 & err & H4 & Hexit); [done|done|by apply (wait_returns_iff _ sys' (en_ok _ _ _ _ _ Hes))|exact Hm|].
  assert (Hall : reaches st st4) by (etransitivity; [exact H1|]; etransitivity; [exact H2|]; by etransitivity).
  destruct Hall as (es' & Hrun). by exists es', st4, err.
Qed.
End start.

(** * Theorem *)

(** C27: [Start] ends what it began.  For a server put together with any options and any
    interleaving of its goroutines: once the function of [AfterFunc] is done every open
    connection was closed, also one that was accepted just before; when [Start] returns,
    the listener is closed, [runCtx] is done, the expiry has ended, no handler, no
    writer of a client, no connection or registered client is left, no session is
    connected, and the error is nil only if the caller cancelled the context; and from
    every state after a cancellation or a failure of the listener it can come to that. *)
Theorem start_ends_what_it_began kdf limits retained_limits sessions addr b opts listenFn st0 es st :
  NewWithLimits limits = Ok sessions → Broker_NewWithLimits retained_limits = Ok b → Forall offered opts →
  Start_begin (Server_New addr b sessions opts) listenFn = Ok st0 → start_run kdf es st0 = Some st →
  len es + 22 * msize (sys_handlers (st_sys st)) < 2 ^ 64 →
  (after st = AfterDone → ∀ conn, is_Some (connections (srv_connections (sys_server (st_sys st))) !! conn) → conn ∈ closed st)
  ∧ (∀ err, main st = Exited err →
       listening st = None ∧ run_done st = true ∧ expiry_running st = false
       ∧ sys_handlers (st_sys st) = ∅
       ∧ (∀ cli c, srv_conns (sys_server (st_sys st)) !! cli = Some c → c_writeDone c = true)
       ∧ connections (srv_connections (sys_server (st_sys st))) = ∅
       ∧ srv_clients (sys_server (st_sys st)) = ∅
       ∧ (∀ id p ss, st_data (srv_sessions (sys_server (st_sys st))) !! id = Some p →
            states (srv_sessions (sys_server (st_sys st))) !! p = Some ss → connected ss = false)
       ∧ (err = None → ctx_err st ≠ None))
  ∧ (ctx_err st ≠ None ∨ main st ≠ Accepting → ∃ es' st' err, start_run kdf es' st = Some st' ∧ main st' = Exited err).
Proof.
  intros Hst Hb Hall Hbegin Hrun Hlt. destruct (begin_inv _ _ _ Hbegin) as [Hstart _].
  pose proof (begin_ok kdf _ _ _ (started_reachable kdf _ _ _ _ _ _ Hst Hb Hall Hstart) Hbegin) as H0.
  assert (0 <= msize (sys_handlers (st_sys st))) by (unfold msize; lia).
  pose proof (start_run_ok kdf es 0 st0 st H0 ltac:(lia) Hrun) as Hok. simpl in Hok. destruct (sg_sys _ _ _ Hok) as (k & Hk & Hr).
  assert (Hsys : sys_ok (Z.of_nat k) (st_sys st)) by (apply (reachable_sys_ok kdf); [exact Hr|unfold len in Hlt; lia]).
  split_and!.
  - intros Ha conn [f Hf]. apply (sg_closed _ _ _ Hok Ha). destruct (sys_handlers (st_sys st) !! conn) as [ph|] eqn:Hc; [by eexists|].
    rewrite (gr_none _ _ _ (sy_group _ _ Hsys) conn Hc) in Hf. discriminate Hf.
  - intros err Hm. destruct (exited_ended kdf _ st err Hok ltac:(unfold len in Hlt; lia) Hm) as (Hli & Hrd & Hex & He & [Hc Hw Hcl Hs] & Hnil).
    by split_and!.
  - apply (start_can_end kdf (length es)); [exact Hok|]. exact Hlt.
Qed.

(** A connection is accepted just before the context is cancelled. *)
Definition example_start : list start_event :=
  [SAccept (Accepted 0 (mkReader example_stream EOF)); SCancel EOF; SAccept (AcceptError false); SCloseListener; SCloseAll;
   SSystem (EvHandler 0 (IHandshake (Some EOF))); SSystem (EvFinish 0); SReturn; SReturn; SReturn].

Lemma start_ends_what_it_began_witness :
  ∃ st0 st err, Start_begin (Server_New (bs "127.0.0.1:1883") (mkBroker NewTree ∅ DefaultRetainedLimits (mkRetainedStats 0 0 0))
      (mkStore ∅ ∅ DefaultLimits zero_snapshot) []) (λ _ _, None) = Ok st0
    ∧ start_run no_kdf example_start st0 = Some st ∧ main st = Exited err
    ∧ listening st = None ∧ srv_clients (sys_server (st_sys st)) = ∅ ∧ (err = None → ctx_err st ≠ None).
Proof.
  destruct (Start_begin (Server_New (bs "127.0.0.1:1883") (mkBroker NewTree ∅ DefaultRetainedLimits (mkRetainedStats 0 0 0))
      (mkStore ∅ ∅ DefaultLimits zero_snapshot) []) (λ _ _, None)) as [st0|] eqn:Hb; [|discriminate Hb].
  assert (Hx : match Start_begin (Server_New (bs "127.0.0.1:1883") (mkBroker NewTree ∅ DefaultRetainedLimits (mkRetainedStats 0 0 0))
      (mkStore ∅ ∅ DefaultLimits zero_snapshot) []) (λ _ _, None) with
    | Ok st0 => match start_run no_kdf example_start st0 with
                | Some st => match main st with Exited _ => msize (sys_handlers (st_sys st)) =? 0 | _ => false end
                | None => false end
    | Error _ => false end = true) by (vm_compute; reflexivity).
  rewrite Hb in Hx. destruct (start_run no_kdf example_start st0) as [st|] eqn:Hrun; [|discriminate Hx].
  destruct (main st) as [| | | |err] eqn:Hm; try discriminate Hx. apply Z.eqb_eq in Hx.
  destruct (start_ends_what_it_began no_kdf DefaultLimits DefaultRetainedLimits (mkStore ∅ ∅ DefaultLimits zero_snapshot)
    (bs "127.0.0.1:1883") (mkBroker NewTree ∅ DefaultRetainedLimits (mkRetainedStats 0 0 0)) [] (λ _ _, None) st0 example_start st) as (_ & Hend & _);
    [reflexivity|reflexivity|constructor|exact Hb|exact Hrun|rewrite Hx; reflexivity|].
  destruct (Hend err Hm) as (Hl & _ & _ & _ & _ & _ & Hc & _ & Hnil).
  exists st0, st, err. split_and!; [reflexivity|exact Hrun|exact Hm|exact Hl|exact Hc|exact Hnil].
Defined.
