(* ===== verification/Durable.v ===== *)
(** No message of QoS 1 is lost: what was admitted to the queue of a session stays in
    it, in order and with its identifier, until the client acknowledges it or the
    session ends (src/internal/session/, src/internal/server/server.go). *)

From S2P Require Import Prelude Topic Wire Filters Encoder Decoder Codec CodecProofs Tree.
From S2P Require Import Broker Session SessionQueue SessionStore SessionProofs Delivery Auth AuthProofs Client.
From S2P Require Import Server Handlers Lifecycle ServerInv Ownership SystemProofs ServerTheorems HandlerProofs Triples.

Local Open Scope Z_scope.
Local Open Scope orb_scope.

(** * What keeps a queue *)

(** The message of an entry stays, and so does its identifier once it has one. *)
Definition same_message (en en' : entry) : Prop :=
  e_data en' = e_data en ∧ packetIDOffset en' = packetIDOffset en ∧ accepted en' = accepted en
  ∧ (e_packetID en ≠ 0 → e_packetID en' = e_packetID en).

#[export] Instance same_message_preorder : PreOrder same_message.
Proof.
  split; [by intros en; split_and!|]. intros e1 e2 e3 (D1 & O1 & A1 & I1) (D2 & O2 & A2 & I2).
  split_and!; try congruence. intros Hne. rewrite I2; [by apply I1|]. by rewrite I1.
Qed.

(** Messages are only added, at the end. *)
Record queue_kept (st st' : State) : Prop := {
  qk_entries : ∃ new, entries st' = entries st ++ new;
  qk_heap r en : heap st !! r = Some en → ∃ en', heap st' !! r = Some en' ∧ same_message en en' }.

#[export] Instance queue_kept_preorder : PreOrder queue_kept.
Proof.
  split.
  - intros st. split; [exists []; by rewrite app_nil_r|]. intros r en Hr. by exists en.
  - intros s1 s2 s3 [(n1 & E1) H1] [(n2 & E2) H2]. split.
    + exists (n1 ++ n2). by rewrite E2, E1, app_assoc.
    + intros r en Hr. destruct (H1 r en Hr) as (en2 & Hr2 & E12). destruct (H2 r en2 Hr2) as (en3 & Hr3 & E23).
      exists en3. split; [done|]. by transitivity en2.
Qed.

Lemma plain_queue_kept st st' : heap st' = heap st → entries st' = entries st → queue_kept st st'.
Proof.
  intros Eh Ee. split; [exists []; by rewrite Ee, app_nil_r|]. intros r en Hr. exists en. by rewrite Eh.
Qed.

Class MethodKeepsQueue {A} (f : method A) : Prop :=
  method_keeps_queue l t s a t' s' : f l t s = Some (a, t', s') → queue_kept s s'.

#[export] Instance plain_keeps_queue {A} (f : method A) `{MethodPlain A f} : MethodKeepsQueue f.
Proof. intros l t s a t' s' [Eh Ee]%method_plain. by apply plain_queue_kept. Qed.

#[export] Instance Admit_keeps_queue data off now : MethodKeepsQueue (Admit data off now).
Proof.
  intros l t s r t' s'. unfold Admit. destruct (invalid_queued_publish _ _); [intros [= _ _ <-]; reflexivity|].
  destruct (deleted s); [intros [= _ _ <-]; reflexivity|]. cbv zeta.
  destruct (if _ || _ then _ else _) as [reason|]; [intros [= _ _ <-]; by apply plain_queue_kept|].
  intros [= _ _ <-]. split; [by eexists|]. intros r0 en Hr. exists en. split; [|reflexivity].
  by apply lookup_app_l_Some.
Qed.

Lemma next_unsent_lookup h ep es r m : next_unsent h ep es = Some (Some (r, m)) → h !! r = Some m.
Proof.
  induction es as [|r0 es IH]; simpl; [discriminate|]. destruct (h !! r0) as [m0|] eqn:Hr0; [|discriminate].
  destruct (_ =? _); [exact IH|]. intros [= <- <-]. exact Hr0.
Qed.

#[export] Instance Next_keeps_queue ep : MethodKeepsQueue (Next ep).
Proof.
  intros l t s d t' s'. unfold Next. destruct (_ || _)%bool; [intros [= _ _ <-]; reflexivity|].
  destruct (next_unsent (heap s) ep (entries s)) as [[[r m]|]|] eqn:Hn; simpl; [|intros [= _ _ <-]; reflexivity|discriminate].
  apply next_unsent_lookup in Hn as Hr.
  destruct (if negb _ then _ else _) as [[[[id next] infl] t1]|] eqn:Hid; simpl; [|discriminate].
  destruct (patch _ _ _ _) as [data|]; simpl; [|discriminate]. intros [= _ _ <-].
  split; [exists []; by rewrite app_nil_r|]. cbn [heap set_queue]. intros r0 en Hr0.
  destruct (decide (r0 = r)) as [->|Hne].
  - assert (en = m) as -> by congruence. eexists. rewrite list_lookup_insert_eq by (by eapply lookup_lt_Some).
    split; [reflexivity|]. split_and!; try reflexivity. cbn [e_packetID]. intros Hne.
    destruct (Z.eqb_spec (e_packetID m) 0); [done|]. simpl in Hid. congruence.
  - exists en. rewrite list_lookup_insert_ne by done. split; [exact Hr0|reflexivity].
Qed.

(** * What keeps the queues of the server *)

(** All sessions but those in [X] keep their queues. *)
Record kept_but (X : stateptr → Prop) (s s' : Server) : Prop := {
  kb_settings : settings s' = settings s;
  kb_sessions p st : states (srv_sessions s) !! p = Some st → ¬ X p →
    ∃ st', states (srv_sessions s') !! p = Some st' ∧ queue_kept st st' }.

#[export] Instance kept_but_preorder X : PreOrder (kept_but X).
Proof.
  split.
  - intros s. split; [done|]. intros p st Hst _. exists st. split; [done|reflexivity].
  - intros s1 s2 s3 [E1 H1] [E2 H2]. split; [congruence|]. intros p st Hst Hx.
    destruct (H1 p st Hst Hx) as (st2 & Hst2 & K1). destruct (H2 p st2 Hst2 Hx) as (st3 & Hst3 & K2).
    exists st3. split; [done|]. by transitivity st2.
Qed.

(** Steps that do not touch the sessions. *)
Lemma kept_but_same X s s' : settings s' = settings s → srv_sessions s' = srv_sessions s → kept_but X s s'.
Proof. intros Es Ess. split; [exact Es|]. intros p st Hst _. exists st. rewrite Ess. split; [done|reflexivity]. Qed.

#[local] Abbreviation keeping X m := (triple any (kept_but X) any m).

Lemma keeping_same {A} X (m : action A) :
  (∀ s a s', m s = Some (a, s') → settings s' = settings s ∧ srv_sessions s' = srv_sessions s) → keeping X m.
Proof.
  intros Hm s a s' _ H. destruct (Hm s a s' H) as [E1 E2]. split; [exact I|]. split; [by apply kept_but_same|exact I].
Qed.

Lemma keeping_session {A} X (f : method A) p : MethodKeepsQueue f → keeping X (on_session f p).
Proof.
  intros Hf s a s' _ (st & st' & t' & Hst & H & ->)%on_session_inv. split; [exact I|]. split; [|exact I].
  split; [done|]. intros p0 st0 Hst0 _. cbn [srv_sessions set_sessions states].
  destruct (decide (p0 = p)) as [->|Hne].
  - assert (st0 = st) as -> by congruence. exists st'. rewrite lookup_insert_eq. split; [done|]. by eapply Hf.
  - exists st0. rewrite lookup_insert_ne by done. split; [done|reflexivity].
Qed.

(** Any method, on a session in [X]. *)
Lemma keeping_session_but {A} (X : stateptr → Prop) (f : method A) p : X p → keeping X (on_session f p).
Proof.
  intros Hx s a s' _ (st & st' & t' & Hst & H & ->)%on_session_inv. split; [exact I|]. split; [|exact I].
  split; [done|]. intros p0 st0 Hst0 Hx0. cbn [srv_sessions set_sessions states].
  exists st0. rewrite lookup_insert_ne by (intros ->; by apply Hx0). split; [done|reflexivity].
Qed.

Lemma keeping_client {A} X (f : Client → A * Client) cli : keeping X (on_client f cli).
Proof.
  apply keeping_same. intros s a s'. unfold on_client. destruct (srv_conns s !! cli) as [c|]; simpl; [|discriminate].
  destruct (f c) as [a' c']. intros E. injection E as _ <-. done.
Qed.

Lemma keeping_broker X f : keeping X (on_broker f).
Proof. apply keeping_same. intros s a s' E. injection E as _ <-. done. Qed.

Lemma keeping_handling X cli : Handling any (kept_but X) any any any any cli.
Proof.
  assert (Hret : ∀ {A} (Q : A → Prop) m, (∀ a, Q a) → keeping X m → triple any (kept_but X) Q m)
    by (intros A Q m HQ Hm s a s' Hs H; destruct (Hm s a s' Hs H) as (? & ? & _); auto).
  assert (Herr : ∀ err, err_in any err) by (intros err e _; exact I).
  split; try done.
  - intros A f p Hf. apply keeping_session, _.
  - intros t now p _. apply Hret; [by intros [?|?]|]. apply keeping_session, _.
  - intros w _. apply Hret; [done|]. apply keeping_client.
  - intros s id p cli' data err s' _ _ _ H. by destruct (keeping_client X _ cli' s err s' I H) as (? & ? & _).
  - intros cli'. apply keeping_client.
  - apply keeping_client.
  - intros f _. apply keeping_broker.
  - intros s s' b _ _ _ _. split; [exact I|]. by apply kept_but_same.
  - apply keeping_same. intros s a s' E. injection E as _ <-. done.
  - intros s f _. by apply Forall_forall.
  - intros s pub q _ _ _. by destruct (encodePublishFn _ _).
  - intros s pub q _ _. by destruct (newPublishTemplate _ _).
  - intros pkt _. by destruct (Encode pkt).
Qed.

(** * Sessions that end *)

Definition store_kept (X : stateptr → Prop) (st st' : Store) : Prop :=
  ∀ p s, states st !! p = Some s → ¬ X p → ∃ s', states st' !! p = Some s' ∧ queue_kept s s'.

Lemma store_kept_refl X st : store_kept X st st.
Proof. intros p s Hp _. exists s. split; [done|reflexivity]. Qed.

Lemma store_kept_trans X st1 st2 st3 : store_kept X st1 st2 → store_kept X st2 st3 → store_kept X st1 st3.
Proof.
  intros H12 H23 p s Hp Hx. destruct (H12 p s Hp Hx) as (s2 & Hp2 & K1). destruct (H23 p s2 Hp2 Hx) as (s3 & Hp3 & K2).
  exists s3. split; [done|]. by transitivity s2.
Qed.

Lemma store_kept_insert (X : stateptr → Prop) st data p s' lim t :
  (X p ∨ states st !! p = None) → store_kept X st (mkStore data (<[p := s']> (states st)) lim t).
Proof.
  intros Hp p0 s0 Hp0 Hx. exists s0. cbn [states]. rewrite lookup_insert_ne; [split; [done|reflexivity]|].
  intros ->. destruct Hp; [done|congruence].
Qed.

Lemma kept_but_store X s s' :
  settings s' = settings s → store_kept X (srv_sessions s) (srv_sessions s') → kept_but X s s'.
Proof. intros Es Hk. split; [exact Es|exact Hk]. Qed.

Lemma deleteLocked_kept (X : stateptr → Prop) id st st' :
  (∀ p, st_data st !! id = Some p → X p) → deleteLocked id st = Some st' →
  store_kept X st st' ∧ ∀ c p, st_data st' !! c = Some p → st_data st !! c = Some p.
Proof.
  intros Hx. unfold deleteLocked. destruct (st_data st !! id) as [p|] eqn:Hid.
  - destruct (states st !! p) as [s|] eqn:Hp; simpl; [|discriminate]. intros [= <-]. split.
    + apply store_kept_insert. left. by apply Hx.
    + intros c p0. cbn [st_data]. by intros [_ ?]%lookup_delete_Some.
  - intros [= <-]. split; [apply store_kept_refl|done].
Qed.

(** The session of [id] has expired at time [now]. *)
Definition session_expired (st : Store) (now : Z) (p : stateptr) : Prop :=
  ∃ s, states st !! p = Some s ∧ expired st now s.

Lemma ExpireSession_kept id now st gone st' :
  store_ok st → ExpireSession id now st = Some (gone, st') →
  store_kept (session_expired st now) st st' ∧ ∀ c p, st_data st' !! c = Some p → st_data st !! c = Some p.
Proof.
  intros Hst. unfold ExpireSession. destruct (st_data st !! id) as [p|] eqn:Hid.
  - destruct (data_state _ _ _ Hst Hid) as (s & Hp & _).
    pose proof (expireLocked_spec id p s now st Hst Hid Hp) as He. destruct (decide (expired st now s)) as [Hyes|Hno].
    + destruct He as (t & -> & _). intros [= _ <-]. split; [apply store_kept_insert; left; by exists s|].
      intros c p0. cbn [st_data]. by intros [_ ?]%lookup_delete_Some.
    + rewrite He. intros [= _ <-]. split; [apply store_kept_refl|done].
  - simpl. intros [= _ <-]. split; [apply store_kept_refl|done].
Qed.

Lemma Expire_kept now st gone st' :
  store_ok st → Expire now st = Some (gone, st') → store_kept (session_expired st now) st st'.
Proof.
  intros Hst H. destruct (Expire_expiry now st Hst) as (gone' & st'' & H' & Hx). assert (st'' = st') as -> by congruence.
  intros p s Hp Hno. pose proof (ex_states _ _ _ _ _ Hx p) as E. rewrite Hp in E. simpl in E.
  rewrite decide_False in E; [exists s; split; [exact E|reflexivity]|].
  intros [Hin Hdel]. apply Hno. exists s. split; [done|].
  apply (ex_gone _ _ _ _ _ Hx) in Hin as (p' & s' & Hin & Hs' & Hex). apply elem_of_map_to_list in Hin.
  assert (Hd : st_data st !! st_id s = Some p) by (apply (sto_data _ Hst); eauto). congruence.
Qed.

Lemma GetOrCreateOwned_kept X id owner now st r st' :
  GetOrCreateOwned id owner now st = Some (r, st') → store_kept X st st'.
Proof.
  unfold GetOrCreateOwned. destruct (st_data st !! id) as [p|].
  - destruct (states st !! p) as [s|]; simpl; [|discriminate].
    destruct (bool_decide _); intros [= _ <-]; apply store_kept_refl.
  - destruct (_ <=? _); intros [= _ <-].
    { intros p s Hp _. exists s. split; [exact Hp|reflexivity]. }
    apply store_kept_insert. right.
    apply not_elem_of_dom. unfold new_ptr. apply is_fresh.
Qed.

(** What [openSession] may remove: the session of the client that starts clean, or
    whose session has expired. *)
Definition opened_away (connect : ConnectPacket) (now : Z) (st : Store) (p : stateptr) : Prop :=
  st_data st !! conn_ClientID connect = Some p ∧ conn_CleanSession connect = true ∨ session_expired st now p.

Lemma on_store_inv {A} (f : Store → option (A * Store)) s a s' :
  on_store f s = Some (a, s') → ∃ st', f (srv_sessions s) = Some (a, st') ∧ s' = set_sessions s st'.
Proof.
  unfold on_store. destruct (f (srv_sessions s)) as [[a0 st']|]; simpl; [|discriminate].
  intros E. injection E as <- <-. by exists st'.
Qed.

Lemma openSession_kept connect identity now s r s' :
  store_ok (srv_sessions s) → openSession connect identity now s = Some (r, s') →
  kept_but (opened_away connect now (srv_sessions s)) s s'.
Proof.
  intros Hst (gone & s1 & (st1 & H1 & ->)%on_store_inv & H)%bind_inv.
  destruct (ExpireSession_kept _ _ _ _ _ Hst H1) as [K1 D1].
  apply bind_inv in H as (u & s2 & H2 & H). apply bind_inv in H as (u' & s3 & H3 & (st4 & H4 & ->)%on_store_inv).
  assert (E2 : settings s2 = settings s ∧ srv_sessions s2 = st1).
  { destruct gone; [|injection H2 as _ <-; done]. injection H2 as _ <-. done. }
  assert (E3 : settings s3 = settings s2 ∧ store_kept (opened_away connect now (srv_sessions s)) st1 (srv_sessions s3)).
  { destruct E2 as [_ E2]. destruct (conn_CleanSession connect) eqn:Hclean; [|injection H3 as _ <-; rewrite E2; split; [done|apply store_kept_refl]].
    apply bind_inv in H3 as (u3 & s2' & E & (st3 & H3 & ->)%on_store_inv). injection E as _ <-. split; [done|].
    cbn [srv_sessions set_broker set_sessions] in *. rewrite E2 in H3.
    destruct (Delete (conn_ClientID connect) st1) as [st3'|] eqn:Hdel; simpl in H3; [|discriminate H3]. injection H3 as _ <-.
    eapply (deleteLocked_kept _ _ _ _); [|exact Hdel]. intros p Hp. left. split; [by apply D1|done]. }
  destruct E2 as [Es2 Ess2], E3 as [Es3 K3]. apply kept_but_store; [cbn [settings set_sessions]; congruence|].
  eapply store_kept_trans; [intros p st Hp Hx; apply (K1 p st Hp); intros He; apply Hx; by right|].
  eapply store_kept_trans; [exact K3|]. cbn [srv_sessions set_sessions]. by eapply GetOrCreateOwned_kept.
Qed.

Lemma subscribe_all_kept X p id subs : keeping X (subscribe_all p id subs).
Proof.
  induction subs as [|sub subs IH]; simpl; [by apply triple_ret; [apply _|]|].
  apply (triple_bind any (kept_but X) any); [apply keeping_broker|]. intros u _. exact IH.
Qed.

Lemma kept_but_registry X s cl ow : kept_but X s (set_registry s cl ow).
Proof. by apply kept_but_same. Qed.

Lemma acquireConnection_kept ctxErr connect cli identity now s r s' :
  store_ok (srv_sessions s) → acquireConnection ctxErr connect cli identity now s = Some (r, s') →
  kept_but (opened_away connect now (srv_sessions s)) s s'.
Proof.
  intros Hst. unfold acquireConnection. destruct ctxErr as [err|]; [intros [= _ <-]; reflexivity|].
  destruct (match Get _ _ with Some _ => _ | None => _ end) as [[|]|]; simpl; [intros [= _ <-]; reflexivity| |discriminate].
  set (X := opened_away connect now (srv_sessions s)). destruct (srv_clients s !! _) as [previous|].
  - destruct (srv_owners s !! previous) as [prev|]; simpl; [|discriminate].
    destruct (close_client _ _) as [[u s1]|] eqn:Hc; simpl; [|discriminate]. intros [= _ <-].
    destruct (keeping_client X (λ c, (tt, Close c)) _ _ _ _ I Hc) as (_ & K & _). etransitivity; [apply kept_but_registry|exact K].
  - destruct (openSession connect identity now s) as [[r0 s1]|] eqn:Ho; simpl; [|discriminate].
    pose proof (openSession_kept _ _ _ _ _ _ Hst Ho) as K1. destruct r0 as [[p present]|err]; [|intros [= _ <-]; exact K1].
    destruct (on_session MarkConnected p s1) as [[u s2]|] eqn:H2; simpl; [|discriminate].
    destruct (on_session SnapshotSubscriptions p s2) as [[subs s3]|] eqn:H3; simpl; [|discriminate].
    destruct (subscribe_all p _ subs s3) as [[u' s4]|] eqn:H4; simpl; [|discriminate]. intros [= _ <-].
    destruct (keeping_session X _ p _ s1 u s2 I H2) as (_ & K2 & _).
    destruct (keeping_session X _ p _ s2 subs s3 I H3) as (_ & K3 & _).
    destruct (subscribe_all_kept X _ _ _ s3 u' s4 I H4) as (_ & K4 & _).
    etransitivity; [exact K1|]. etransitivity; [exact K2|]. etransitivity; [exact K3|]. etransitivity; [exact K4|].
    apply kept_but_registry.
Qed.

Lemma unsubscribe_each_kept X ids : keeping X (unsubscribe_each ids).
Proof.
  induction ids as [|id ids IH]; simpl; [by apply (triple_ret any (kept_but X))|].
  apply (triple_bind any (kept_but X) any); [apply keeping_broker|]. intros u _. exact IH.
Qed.

Lemma expire_sessions_kept now s u s' :
  store_ok (srv_sessions s) → expire_sessions now s = Some (u, s') →
  kept_but (session_expired (srv_sessions s) now) s s'.
Proof.
  intros Hst (ids & s1 & (st1 & H1 & ->)%on_store_inv & H)%bind_inv.
  destruct (unsubscribe_each_kept (session_expired (srv_sessions s) now) ids _ _ _ I H) as (_ & K & _).
  etransitivity; [|exact K]. apply kept_but_store; [done|]. cbn [srv_sessions set_sessions]. by eapply Expire_kept.
Qed.

(** Closing a connection removes its own session, if it is clean. *)
Lemma closeSession_kept o a s u s' :
  server_ok s → srv_owners s !! o = Some a → closeSession o s = Some (u, s') →
  kept_but (λ p, cleanSession a = true ∧ ac_session a = p) s s'.
Proof.
  intros Hok Ha. unfold closeSession. rewrite Ha. cbn [mbind option_bind].
  set (X := λ p, cleanSession a = true ∧ ac_session a = p).
  destruct (srv_conns s !! ac_client a) as [c|] eqn:Hc; cbn [mbind option_bind]; [|discriminate].
  destruct (bool_decide _) eqn:Hreg; cbn [mbind option_bind].
  2: { intros (a' & _ & _ & ->)%close_done_inv. apply kept_but_registry. }
  apply bool_decide_eq_true_1 in Hreg.
  destruct (sv_clients _ Hok _ _ Hreg) as (a' & c' & Ha' & _ & _ & Hd). assert (a' = a) as -> by congruence.
  destruct (sv_owners _ Hok o a Ha Hd) as (c0 & Hc0 & _ & Hdata). assert (c0 = c) as -> by congruence.
  destruct (cleanSession a) eqn:Hclean.
  - destruct ((_ ≫= _ : action unit) s) as [[u1 s1]|] eqn:H1; cbn [mbind option_bind]; [|discriminate].
    intros (a2 & _ & _ & ->)%close_done_inv. etransitivity; [|apply kept_but_registry].
    etransitivity; [|apply kept_but_registry]. apply bind_inv in H1 as (u2 & s2 & (st2 & H2 & ->)%on_store_inv & E). injection E as _ <-.
    destruct (Delete (c_id c) (srv_sessions s)) as [st3|] eqn:Hdel; simpl in H2; [|discriminate H2]. injection H2 as _ <-.
    apply kept_but_store; [done|]. eapply (deleteLocked_kept _ _ _ _); [|exact Hdel].
    intros p Hp. split; [done|]. congruence.
  - destruct (on_session _ _ s) as [[u1 s1]|] eqn:H1; cbn [mbind option_bind]; [|discriminate].
    intros (a2 & _ & _ & ->)%close_done_inv. destruct (keeping_session X _ (ac_session a) _ s u1 s1 I H1) as (_ & K & _).
    etransitivity; [exact K|by apply kept_but_same].
Qed.

(** * The steps of a connection *)

Lemma keeping_weaken {A} (X Y : stateptr → Prop) (m : action A) : (∀ p, X p → Y p) → keeping X m → keeping Y m.
Proof.
  intros HXY Hm s a s' _ H. destruct (Hm s a s' I H) as (_ & [Es K] & _). split; [exact I|]. split; [|exact I].
  split; [exact Es|]. intros p st Hp Hy. apply (K p st Hp). intros Hx. by apply Hy, HXY.
Qed.

Lemma keeping_bind {A B} X (m : action A) (k : A → action B) : keeping X m → (∀ a, keeping X (k a)) → keeping X (m ≫= k).
Proof. intros Hm Hk. apply (triple_bind any (kept_but X) any); [exact Hm|]. intros a _. apply Hk. Qed.

Lemma keeping_ret {A} X (a : A) : keeping X (mret a).
Proof. by apply (triple_ret any (kept_but X)). Qed.

Lemma owner_session_kept X o : keeping X (owner_session o).
Proof.
  apply keeping_same. intros s a s'. unfold owner_session. destruct (srv_owners s !! o); simpl; [|discriminate].
  intros E. injection E as _ <-. done.
Qed.

Lemma send_kept X cli pkt deadline written : keeping X (sendPacketWithDeadline cli pkt deadline written).
Proof.
  unfold sendPacketWithDeadline. destruct (Encode pkt); [|apply keeping_ret].
  apply keeping_bind; [apply keeping_client|]. intros [err|]; apply keeping_ret.
Qed.

Lemma rejectConnection_kept X cli code deadline written : keeping X (rejectConnection cli code deadline written).
Proof.
  apply keeping_bind.
  - apply keeping_same. intros s a s' E. injection E as _ <-. by destruct (code =? ConnAckNotAuthorized).
  - intros u. apply keeping_bind; [apply send_kept|]. intros err. apply keeping_ret.
Qed.

Lemma handlePacket_kept cli sess pkt e :
  packet_accepted pkt → keeping (λ p, p = sess ∧ ∃ id, pkt = PPubAck id) (handlePacket cli sess pkt e).
Proof.
  intros Hok. set (X := λ p, p = sess ∧ ∃ id, pkt = PPubAck id).
  assert (Hor : pkt = PDisconnect ∨ (∃ id, pkt = PPubAck id) ∨ pkt ≠ PDisconnect ∧ ∀ id, pkt ≠ PPubAck id)
    by (destruct pkt; auto; right; try (right; split; discriminate); left; by eexists).
  destruct Hor as [E|[[id E]|[Hd Ha]]].
  - subst X. rewrite E. apply keeping_ret.
  - rewrite E. cbn [handlePacket]. apply keeping_bind; [|intros err; apply keeping_ret].
    apply keeping_bind; [|intros u; apply keeping_ret]. apply keeping_session_but. split; [done|by exists id].
  - apply (triple_any any (kept_but X) (handled_in any)), (handlePacket_triple (keeping_handling X cli)); try done.
Qed.

Lemma handleSubscribe_retained_kept X cli sess p codes written clock :
  Forall code_ok codes → keeping X (handleSubscribe_retained cli sess p codes written clock).
Proof.
  intros Hcodes. apply (triple_any any (kept_but X) (err_in any)).
  by apply (handleSubscribe_retained_triple (keeping_handling X cli)).
Qed.

(** * How messages leave *)

(** The session and the identifier of the PUBACK that event [e] handles. *)
Definition acknowledged (sys : System) (e : sys_event) : option (stateptr * Z) :=
  match e with
  | EvHandler conn (IServe false _) =>
      match sys_handlers sys !! conn with
      | Some (Serving h o _) =>
          match srv_owners (sys_server sys) !! o,
                DecodeWithLimit (h_reader h) (maxPacketSize (settings (sys_server sys))) with
          | Some a, Ok (PPubAck id, _) => Some (ac_session a, id)
          | _, _ => None
          end
      | _ => None
      end
  | _ => None
  end.

(** Event [e] ends session [p]: its client connects again, clean or after the session
    expired; a clean connection ends; or the session expires. *)
Definition ends_session (sys : System) (e : sys_event) (p : stateptr) : Prop :=
  match e with
  | EvHandler conn (IAcquire None now _ _) =>
      match sys_handlers sys !! conn with
      | Some (Acquiring h) => opened_away (h_connect h) now (srv_sessions (sys_server sys)) p
      | _ => False
      end
  | EvHandler conn IDrain =>
      match sys_handlers sys !! conn with
      | Some (Draining _ (Some o) _) =>
          match srv_owners (sys_server sys) !! o with
          | Some a => cleanSession a = true ∧ ac_session a = p
          | None => False
          end
      | _ => False
      end
  | EvTick now => session_expired (srv_sessions (sys_server sys)) now p
  | _ => False
  end.

#[export] Instance session_expired_dec st now p : Decision (session_expired st now p).
Proof.
  unfold session_expired. destruct (states st !! p) as [s|]; [|right; by intros (s & ? & _)].
  destruct (decide (expired st now s)); [left; by exists s|right; intros (s' & [= <-] & ?); done].
Defined.

#[export] Instance opened_away_dec connect now st p : Decision (opened_away connect now st p).
Proof. unfold opened_away. apply _. Defined.

#[export] Instance ends_session_dec sys e p : Decision (ends_session sys e p).
Proof. unfold ends_session. repeat case_match; apply _. Defined.

Definition spent (sys : System) (e : sys_event) (p : stateptr) : Prop :=
  ends_session sys e p ∨ fst <$> acknowledged sys e = Some p.

Section steps.
Context (kdf : bytes → bytes → Z → Z → result bytes).

Lemma do_handshake_kept X failed r : keeping X (do_handshake failed r).
Proof.
  destruct failed as [err|]; simpl; [apply keeping_ret|]. apply keeping_bind; [|intros h; apply keeping_ret].
  apply keeping_same. intros s a s'. unfold handshake.
  destruct (DecodeWithLimit _ _) as [[[] ?]|]; intros E; injection E as _ <-; done.
Qed.

Lemma do_authenticate_kept X c1 c2 c3 deadline written h :
  keeping X (do_authenticate kdf c1 c2 c3 deadline written h).
Proof.
  apply keeping_bind.
  - apply keeping_same. intros s a s'. unfold authenticateConnect.
    destruct (srv_auth s) as [l|]; [|intros E; injection E as _ <-; done].
    destruct (Authenticate _ _ _ _ _ _) as [r l']. repeat case_match; intros E; injection E as _ <-; done.
  - intros [who code]. destruct (negb _); [|apply keeping_ret].
    apply keeping_bind; [apply rejectConnection_kept|intros u; apply keeping_ret].
Qed.

Lemma do_acquire_kept ctxErr now deadline written h s ph s' :
  store_ok (srv_sessions s) → do_acquire ctxErr now deadline written h s = Some (ph, s') →
  kept_but (λ p, ctxErr = None ∧ opened_away (h_connect h) now (srv_sessions s) p) s s'.
Proof.
  intros Hst (r & s1 & H1 & H)%bind_inv. destruct ctxErr as [err|].
  - simpl in H1. injection H1 as <- <-. set (X := λ p, _).
    assert (K : keeping X (_ ← (if bool_decide (err = ErrSessionOwner)
      then rejectConnection (h_client h) ConnAckNotAuthorized deadline written else mret tt);
      mret (Cleaning h None Returned))).
    { apply keeping_bind; [|intros u; apply keeping_ret]. destruct (bool_decide _); [apply rejectConnection_kept|apply keeping_ret]. }
    by destruct (K s ph s' I H) as (_ & ? & _).
  - pose proof (acquireConnection_kept _ _ _ _ _ _ _ _ Hst H1) as K1.
    set (X := opened_away (h_connect h) now (srv_sessions s)) in *.
    assert (K2 : kept_but X s1 s').
    { destruct r as [owner present|err|previous]; [injection H as _ <-; reflexivity| |injection H as _ <-; reflexivity].
      assert (K : keeping X (_ ← (if bool_decide (err = ErrSessionOwner)
        then rejectConnection (h_client h) ConnAckNotAuthorized deadline written else mret tt);
        mret (Cleaning h None Returned))).
      { apply keeping_bind; [|intros u; apply keeping_ret]. destruct (bool_decide _); [apply rejectConnection_kept|apply keeping_ret]. }
      by destruct (K s1 ph s' I H) as (_ & ? & _). }
    destruct (transitivity K1 K2) as [Es K]. split; [exact Es|]. intros p st Hp Hx. apply (K p st Hp). intros ?. by apply Hx.
Qed.

Lemma do_greet_kept X deadline h o present : keeping X (do_greet deadline h o present).
Proof.
  unfold do_greet. apply keeping_bind; [by apply (triple_get any (kept_but X))|]. intros timeout.
  apply keeping_bind; [apply keeping_client|]. intros [err|]; [apply keeping_ret|].
  apply keeping_bind; [apply send_kept|]. intros err. apply keeping_ret.
Qed.

Lemma do_welcome_kept X written cleared conn h o : keeping X (do_welcome written cleared conn h o).
Proof.
  unfold do_welcome. destruct written; [apply keeping_ret|]. destruct cleared; [apply keeping_ret|].
  apply keeping_bind; [apply owner_session_kept|]. intros sess.
  apply keeping_bind; [apply keeping_same; intros s a s' E; injection E as _ <-; done|]. intros u.
  apply keeping_bind.
  { apply keeping_same. intros s a s'. unfold set_ready. destruct (srv_owners s !! o); simpl; [|discriminate].
    intros E. injection E as _ <-. done. }
  intros u'. apply keeping_bind; [apply keeping_session, _|]. intros ep. apply keeping_ret.
Qed.

Lemma do_leave_kept X clock h o co clean : keeping X (do_leave clock h o co clean).
Proof.
  apply keeping_bind; [|intros u; apply keeping_ret]. destruct (conn_Will _) as [will|]; [|apply keeping_ret].
  destruct clean; [apply keeping_ret|]. apply keeping_bind; [|intros err; apply keeping_ret].
  by apply (triple_any any (kept_but X) (err_in any)), (publishMessage_triple (keeping_handling X (h_client h))).
Qed.

Lemma do_clean_kept X now h o co : keeping X (do_clean now h o co).
Proof.
  apply keeping_bind.
  - destruct o as [o|]; [|apply keeping_ret]. apply keeping_same. intros s a s'. unfold begin_closing.
    destruct (srv_owners s !! o); simpl; [|discriminate]. intros E. injection E as _ <-. done.
  - intros u. apply keeping_bind; [apply keeping_client|]. intros u'. apply keeping_ret.
Qed.

Lemma do_consume_kept X cancelled cli sess ep : keeping X (do_consume cancelled cli sess ep).
Proof.
  apply keeping_bind; [apply keeping_client|]. intros closed. destruct (cancelled || closed)%bool; [apply keeping_ret|].
  apply keeping_bind; [apply keeping_session, _|]. intros [d|]; [|apply keeping_ret].
  apply keeping_bind; [apply keeping_client|]. intros [err|]; [|apply keeping_ret].
  apply keeping_bind; [apply keeping_client|]. intros u. apply keeping_ret.
Qed.

Lemma do_sent_kept X written cli ep : keeping X (do_sent written cli ep).
Proof.
  destruct written; [|apply keeping_ret]. apply keeping_bind; [apply keeping_client|]. intros u. apply keeping_ret.
Qed.

Lemma do_wake_kept X w sess ep : keeping X (do_wake w sess ep).
Proof.
  destruct w; simpl; try apply keeping_ret. apply keeping_bind; [apply keeping_session, _|]. intros b. apply keeping_ret.
Qed.

Lemma consumer_step_kept X o (k : stateptr → action consumer) ph :
  (∀ sess, keeping X (k sess)) → keeping X (sess ← owner_session o; co ← k sess; mret (set_consumer co ph)).
Proof.
  intros Hk. apply keeping_bind; [apply owner_session_kept|]. intros sess.
  apply keeping_bind; [apply Hk|]. intros co. apply keeping_ret.
Qed.

Lemma do_serve_kept n sys conn cancelled e h o co ph s' :
  sys_ok n sys → sys_handlers sys !! conn = Some (Serving h o co) →
  do_serve cancelled e h o co (sys_server sys) = Some (ph, s') →
  kept_but (λ p, fst <$> acknowledged sys (EvHandler conn (IServe cancelled e)) = Some p) (sys_server sys) s'.
Proof.
  intros Hok Hph. unfold do_serve. destruct cancelled; [intros E; injection E as _ <-; reflexivity|].
  intros (limit & s1 & E & H)%bind_inv. injection E as <- <-.
  destruct (proj1 (po_view _ _ (sy_phases _ _ Hok conn _ Hph) h (Some o) co eq_refl)) as [Hb _].
  destruct (DecodeWithLimit _ _) as [[pkt r]|err] eqn:Hdec; [|injection H as _ <-; reflexivity].
  pose proof Hdec as Hd. apply (proj1 (decode_exact _ _ _ _ Hb (sy_packets _ _ Hok))) in Hd as (data & Hpkt & _).
  apply bind_inv in H as (sess & s1 & H1 & H). apply bind_inv in H as (out & s2 & H2 & H).
  unfold owner_session in H1. destruct (srv_owners (sys_server sys) !! o) as [a|] eqn:Ha; simpl in H1; [|discriminate H1].
  injection H1 as <- <-.
  destruct (handlePacket_kept _ _ _ _ Hpkt _ _ _ I H2) as (_ & [Es K] & _).
  assert (s' = s2) as -> by (injection H as _ <-; reflexivity).
  split; [exact Es|]. intros p st Hp Hx. apply (K p st Hp). intros [-> [id ->]]. apply Hx.
  unfold acknowledged. by rewrite Hph, Ha, Hdec.
Qed.

Lemma phase_kept n sys conn i ph act ph' s' :
  sys_ok n sys → sys_handlers sys !! conn = Some ph → phase_step kdf conn i ph = Some act →
  act (sys_server sys) = Some (ph', s') → kept_but (spent sys (EvHandler conn i)) (sys_server sys) s'.
Proof.
  intros Hok Hph Hact Hrun.
  assert (Hkeep : ∀ m : action phase, act = m → keeping (spent sys (EvHandler conn i)) m → 
    kept_but (spent sys (EvHandler conn i)) (sys_server sys) s')
    by (intros m -> Hm; by destruct (Hm _ _ _ I Hrun) as (_ & ? & _)).
  destruct i as [failed|c1 c2 c3 dl w|ctxErr now dl w|b|dl|w cl|b e|w ck|clock|now| |b|w|w].
  - destruct ph; try discriminate Hact. injection Hact as <-. by eapply Hkeep, do_handshake_kept.
  - destruct ph; try discriminate Hact. injection Hact as <-. by eapply Hkeep, do_authenticate_kept.
  - destruct ph as [| |h| | | | | | | | |]; try discriminate Hact. injection Hact as <-.
    destruct (do_acquire_kept _ _ _ _ _ _ _ _ (sv_store _ (sy_server _ _ Hok)) Hrun) as [Es K].
    split; [exact Es|]. intros p st Hp Hx. apply (K p st Hp). intros [-> Ho]. apply Hx. left. simpl. by rewrite Hph.
  - destruct ph; try discriminate Hact. injection Hact as <-. by eapply Hkeep, keeping_ret.
  - destruct ph; try discriminate Hact. injection Hact as <-. by eapply Hkeep, do_greet_kept.
  - destruct ph; try discriminate Hact. injection Hact as <-. by eapply Hkeep, do_welcome_kept.
  - destruct ph as [| | | | | |h o co| | | | |]; try discriminate Hact. injection Hact as <-.
    destruct (do_serve_kept n sys conn b e h o co ph' s' Hok Hph Hrun) as [Es K].
    split; [exact Es|]. intros p st Hp Hx. apply (K p st Hp). intros Ho. apply Hx. by right.
  - destruct ph; try discriminate Hact. injection Hact as <-. eapply Hkeep; [reflexivity|].
    apply keeping_bind; [apply owner_session_kept|]. intros sess. apply keeping_bind; [|intros err; apply keeping_ret].
    apply handleSubscribe_retained_kept, (po_waiting _ _ (sy_phases _ _ Hok conn _ Hph)).
  - destruct ph; try discriminate Hact. injection Hact as <-. by eapply Hkeep, do_leave_kept.
  - destruct ph; try discriminate Hact. injection Hact as <-. by eapply Hkeep, do_clean_kept.
  - destruct ph as [| | | | | | | | | |h o [| | |]|]; try discriminate Hact. injection Hact as <-.
    apply bind_inv in Hrun as (u & s1 & H1 & E). injection E as _ <-. destruct o as [o|]; [|injection H1 as _ <-; reflexivity].
    destruct (po_view _ _ (sy_phases _ _ Hok conn _ Hph) h (Some o) Returned eq_refl) as [_ (a & st & Ha & _)].
    destruct (closeSession_kept o a _ _ _ (sy_server _ _ Hok) Ha H1) as [Es K].
    split; [exact Es|]. intros p st0 Hp Hx. apply (K p st0 Hp). intros Hc. apply Hx. left. simpl. by rewrite Hph, Ha.
  - cbn [phase_step] in Hact. destruct (consumer_of ph) as [[[h o] [ep|ep|ep|]]|]; try discriminate Hact.
    injection Hact as <-. eapply Hkeep; [reflexivity|]. apply consumer_step_kept. intros sess. apply do_consume_kept.
  - cbn [phase_step] in Hact. destruct (consumer_of ph) as [[[h o] [ep|ep|ep|]]|]; try discriminate Hact.
    injection Hact as <-. eapply Hkeep; [reflexivity|]. apply keeping_bind; [apply do_sent_kept|]. intros co. apply keeping_ret.
  - cbn [phase_step] in Hact. destruct (consumer_of ph) as [[[h o] [ep|ep|ep|]]|]; try discriminate Hact.
    injection Hact as <-. eapply Hkeep; [reflexivity|]. apply consumer_step_kept. intros sess. apply do_wake_kept.
Qed.

Lemma exec_kept n sys e sys' :
  sys_ok n sys → sys_exec kdf e sys = Some sys' →
  kept_but (spent sys e) (sys_server sys) (sys_server sys').
Proof.
  intros Hok Hex. destruct e as [ctxErr conn r|conn i|conn|cli set n' err|cli|now]; cbn [sys_exec] in Hex.
  - destruct (start _ _ _ _) as [o g]. injection Hex as <-. by apply kept_but_same.
  - apply bind_Some in Hex as (ph & Hph & Hex). apply bind_Some in Hex as (act & Hact & Hex).
    apply bind_Some in Hex as ([ph' s'] & Hrun & Hex). injection Hex as <-. by eapply phase_kept.
  - apply (exec_finish_inv kdf) in Hex as (g & _ & ->). by apply kept_but_same.
  - apply (exec_write_inv kdf) in Hex as (c & w & q & c' & _ & _ & _ & ->). by apply kept_but_same.
  - apply (exec_exit_inv kdf) in Hex as (c & c' & _ & _ & ->). by apply kept_but_same.
  - apply bind_Some in Hex as ([u s'] & Hrun & Hex). injection Hex as <-.
    destruct (expire_sessions_kept _ _ _ _ (sv_store _ (sy_server _ _ Hok)) Hrun) as [Es K].
    split; [exact Es|]. intros p st Hp Hx. apply (K p st Hp). intros He. apply Hx. by left.
Qed.
End steps.

(** * Acknowledgements *)

(** The entry that an identifier in flight refers to has that identifier. *)
Lemma inflight_entry l s id r en :
  sess_ok l s → inflight s !! id = Some r → heap s !! r = Some en → e_packetID en = id.
Proof.
  intros Hok Hi Hr. destruct (so_queue _ _ Hok) as (q & Hq & _). unfold session_queue in Hq.
  destruct (deleted s); [destruct Hq as (_ & _ & Hno); rewrite Hno in Hi; discriminate Hi|].
  destruct Hq as (sent & resend & fresh & Hrep & _).
  apply (rep_inflight _ _ _ _ Hrep) in Hi as (m & [Hin|Hin]%elem_of_app).
  - pose proof (proj1 (Forall_forall _ _) (rep_sent _ _ _ _ Hrep) _ Hin) as Hh. unfold holds in Hh. simpl in Hh.
    rewrite Hr in Hh. by injection Hh as ->.
  - destruct (proj1 (Forall_forall _ _) (rep_resend _ _ _ _ Hrep) _ Hin) as (ep & _ & Hh). unfold holds in Hh. simpl in Hh.
    rewrite Hr in Hh. by injection Hh as ->.
Qed.

Lemma sublist_remove_entry r rs es : r ∉ rs → rs `sublist_of` es → rs `sublist_of` remove_entry r es.
Proof.
  intros Hr Hs. induction Hs as [|x rs es Hs IH|x rs es Hs IH]; simpl; [constructor| |].
  - rewrite decide_False by (intros ->; apply Hr; left). apply sublist_skip, IH. intros Hx. apply Hr. by right.
  - destruct (decide (x = r)); [exact Hs|]. by apply sublist_cons, IH.
Qed.

(** The messages [ms] are in the queue of session [p], in this order; each is a
    reference and the entry it had earlier. *)
Definition queued (sys : System) (p : stateptr) (ms : list (nat * entry)) : Prop :=
  ∃ st, states (srv_sessions (sys_server sys)) !! p = Some st ∧ ms.*1 `sublist_of` entries st
    ∧ Forall (λ m, ∃ en, heap st !! m.1 = Some en ∧ same_message m.2 en) ms.

(** Event [e] ends session [p] or acknowledges one of the messages. *)
Definition spends (sys : System) (e : sys_event) (p : stateptr) (ms : list (nat * entry)) : Prop :=
  ends_session sys e p
  ∨ ∃ m st en, m ∈ ms ∧ states (srv_sessions (sys_server sys)) !! p = Some st ∧ heap st !! m.1 = Some en
      ∧ same_message m.2 en ∧ acknowledged sys e = Some (p, e_packetID en).

Lemma queue_kept_queued st st' (ms : list (nat * entry)) :
  queue_kept st st' → ms.*1 `sublist_of` entries st →
  Forall (λ m, ∃ en, heap st !! m.1 = Some en ∧ same_message m.2 en) ms →
  ms.*1 `sublist_of` entries st' ∧ Forall (λ m, ∃ en, heap st' !! m.1 = Some en ∧ same_message m.2 en) ms.
Proof.
  intros [(new & E) Hh] Hs Hms. split; [rewrite E; by apply sublist_inserts_r|].
  eapply Forall_impl; [exact Hms|]. intros m (en & Hr & Hm). destruct (Hh _ _ Hr) as (en' & Hr' & Hm').
  exists en'. split; [exact Hr'|]. by transitivity en.
Qed.

(** What the handler of PUBACK does. *)
Lemma acknowledged_exec kdf sys e sys' p id :
  acknowledged sys e = Some (p, id) → sys_exec kdf e sys = Some sys' →
  ∃ u s', on_session (Ack id) p (sys_server sys) = Some (u, s') ∧ sys_server sys' = s'.
Proof.
  intros Hack Hex. unfold acknowledged in Hack. destruct e as [|conn i| | | |]; try discriminate Hack.
  destruct i as [| | | | | |[|] env| | | | | | |]; try discriminate Hack.
  destruct (sys_handlers sys !! conn) as [[| | | | | |h o co| | | | |]|] eqn:Hph; try discriminate Hack.
  destruct (srv_owners (sys_server sys) !! o) as [a|] eqn:Ha; [|discriminate Hack].
  destruct (DecodeWithLimit (h_reader h) (maxPacketSize (settings (sys_server sys)))) as [[[] r]|] eqn:Hdec; try discriminate Hack.
  injection Hack as <- <-.
  cbn [sys_exec] in Hex. rewrite Hph in Hex. cbn [mbind option_bind phase_step] in Hex.
  apply bind_Some in Hex as ([ph s'] & Hrun & Hex). injection Hex as <-.
  apply bind_inv in Hrun as (limit & s1 & E & H). injection E as <- <-. rewrite Hdec in H.
  apply bind_inv in H as (sess & s1 & H1 & H). unfold owner_session in H1. rewrite Ha in H1. simpl in H1. injection H1 as <- <-.
  apply bind_inv in H as (out & s2 & H2 & H). apply bind_inv in H2 as (err & s3 & H2 & E). injection E as <- <-.
  apply bind_inv in H2 as (u & s4 & H2 & E). injection E as <- <-. injection H as _ <-. exists u, s4. split; [exact H2|reflexivity].
Qed.

Lemma ack_queued kdf n sys e sys' p id ms :
  sys_ok n sys → acknowledged sys e = Some (p, id) → sys_exec kdf e sys = Some sys' →
  queued sys p ms → queued sys' p ms ∨ spends sys e p ms.
Proof.
  intros Hok Hack Hex (st & Hst & Hsub & Hms).
  destruct (acknowledged_exec kdf sys e sys' p id Hack Hex) as (u & s' & Hon & Es).
  apply on_session_inv in Hon as (st0 & st' & t' & Hst0 & HA & ->). assert (st0 = st) as -> by congruence.
  pose proof (sto_sessions _ (sv_store _ (sy_server _ _ Hok)) p st Hst) as Hsess.
  assert (Hq : ∀ st1, st' = st1 → ms.*1 `sublist_of` entries st1 → heap st1 = heap st → queued sys' p ms).
  { intros st1 -> Hs1 Hh1. exists st1. rewrite Es. cbn [srv_sessions set_sessions states].
    rewrite lookup_insert_eq, Hh1. done. }
  unfold Ack in HA. destruct (inflight st !! id) as [r|] eqn:Hi; [|injection HA as _ _ E; left; by eapply Hq].
  destruct (deleted st); [injection HA as _ _ E; left; by eapply Hq|].
  destruct (heap st !! r) as [en|] eqn:Hr; simpl in HA; [|discriminate HA]. injection HA as _ _ E.
  destruct (decide (r ∈ ms.*1)) as [Hin|Hni].
  - right. right. apply list_elem_of_fmap in Hin as (m & -> & Hm).
    destruct (proj1 (Forall_forall _ _) Hms m Hm) as (en0 & Hr0 & Hsame). assert (en0 = en) as -> by congruence.
    exists m, st, en. rewrite (inflight_entry _ _ _ _ _ Hsess Hi Hr). done.
  - left. eapply Hq; [symmetry; exact E|by apply sublist_remove_entry|reflexivity].
Qed.

(** One event. *)
Lemma step_queued kdf n sys e sys' p ms :
  sys_ok n sys → sys_exec kdf e sys = Some sys' → queued sys p ms → queued sys' p ms ∨ spends sys e p ms.
Proof.
  intros Hok Hex Hq. destruct (decide (ends_session sys e p)) as [He|Hno]; [right; by left|].
  destruct (acknowledged sys e) as [[p' id]|] eqn:Hack.
  - destruct (decide (p' = p)) as [->|Hne]; [by eapply ack_queued|]. destruct Hq as (st & Hst & Hsub & Hms).
    destruct (kb_sessions _ _ _ (exec_kept kdf n sys e sys' Hok Hex) p st Hst) as (st' & Hst' & Hk).
    { intros [?|E]; [done|]. rewrite Hack in E. simpl in E. congruence. }
    left. exists st'. split; [exact Hst'|]. by eapply queue_kept_queued.
  - destruct Hq as (st & Hst & Hsub & Hms).
    destruct (kb_sessions _ _ _ (exec_kept kdf n sys e sys' Hok Hex) p st Hst) as (st' & Hst' & Hk).
    { intros [?|E]; [done|]. rewrite Hack in E. discriminate E. }
    left. exists st'. split; [exact Hst'|]. by eapply queue_kept_queued.
Qed.

(** * Theorem *)

(** C4: no message of QoS 1 is lost.  Messages that are in the queue of a session at
    some point of a run are there after any further events, in the same order, each
    with its bytes and with its packet identifier once it has one, unless one of the
    events was a PUBACK for the identifier of one of them, sent on the connection of
    that very session, or ended the session: a clean CONNECT of its client, the end of
    a clean connection, or expiry.  So no disconnection, take-over, full queue,
    failed write, other packet or other client removes a message. *)
Theorem no_message_lost kdf n sys es sys' p ms :
  sys_reachable kdf n sys → Z.of_nat n + len es < 2 ^ 64 → run_events kdf es sys = Some sys' → queued sys p ms →
  queued sys' p ms
  ∨ ∃ es1 e es2 sys1, es = es1 ++ e :: es2 ∧ run_events kdf es1 sys = Some sys1 ∧ queued sys1 p ms ∧ spends sys1 e p ms.
Proof.
  revert n sys. induction es as [|e es IH]; intros n sys Hr Hlt Hrun Hq; cbn [run_events] in Hrun.
  { injection Hrun as <-. by left. }
  destruct (sys_enabled kdf e sys) eqn:Hen; [|discriminate Hrun]. apply bind_Some in Hrun as (sys1 & Hex & Hrun).
  unfold len in Hlt. rewrite length_cons in Hlt.
  pose proof (reachable_sys_ok kdf n sys Hr ltac:(lia)) as Hok.
  destruct (step_queued kdf _ sys e sys1 p ms Hok Hex Hq) as [Hq1|Hs].
  - destruct (IH (S n) sys1 (sys_next kdf n sys e sys1 Hr Hen Hex)) as [Hq'|(es1 & e1 & es2 & sys2 & -> & Hrun1 & Hq2 & Hs)];
      [unfold len; lia|exact Hrun|exact Hq1|by left|].
    right. exists (e :: es1), e1, es2, sys2. split; [done|]. split; [|done]. cbn [run_events]. by rewrite Hen, Hex.
  - right. exists [], e, es, sys. done.
Qed.

(** The client of the example published to itself; its consumer sends the message and
    then the connection breaks. *)
Definition lost_connection : list sys_event :=
  [EvHandler 0 (IWake WakeChanged);
   EvHandler 0 (IConsume false);
   EvHandler 0 (IServe false example_env);
   EvHandler 0 (ILeave (λ _, 7))].

Lemma no_message_lost_witness :
  ∃ sys sys' en, run_events no_kdf example_events example_system = Some sys
    ∧ run_events no_kdf lost_connection sys = Some sys' ∧ queued sys 0 [(0%nat, en)]
    ∧ (queued sys' 0 [(0%nat, en)]
       ∨ ∃ es1 e es2 sys1, lost_connection = es1 ++ e :: es2 ∧ run_events no_kdf es1 sys = Some sys1
           ∧ queued sys1 0 [(0%nat, en)] ∧ spends sys1 e 0 [(0%nat, en)]).
Proof.
  destruct example_run as (sys & Hrun & Hr).
  assert (Hq : match run_events no_kdf example_events example_system with
    | Some sys => match states (srv_sessions (sys_server sys)) !! 0%nat with
                  | Some st => match heap st with [en] => bool_decide (entries st = [0%nat]) | _ => false end
                  | None => false
                  end
    | None => false
    end = true) by (vm_compute; reflexivity).
  assert (Hsome : match run_events no_kdf (example_events ++ lost_connection) example_system with
    | Some _ => true | None => false end = true) by (vm_compute; reflexivity).
  rewrite run_events_app, Hrun in Hsome. cbn [mbind option_bind] in Hsome. rewrite Hrun in Hq.
  destruct (states (srv_sessions (sys_server sys)) !! 0%nat) as [st|] eqn:Hst; [|discriminate Hq].
  destruct (heap st) as [|en [|]] eqn:Hh; try discriminate Hq. apply bool_decide_eq_true_1 in Hq.
  destruct (run_events no_kdf lost_connection sys) as [sys'|] eqn:Hrun'; [|discriminate Hsome].
  assert (Hms : queued sys 0 [(0%nat, en)]).
  { exists st. split; [exact Hst|]. split; [rewrite Hq; reflexivity|]. constructor; [|constructor].
    exists en. rewrite Hh. split; reflexivity. }
  exists sys, sys', en. split; [exact Hrun|]. split; [exact Hrun'|]. split; [exact Hms|].
  apply (no_message_lost no_kdf 10 sys lost_connection sys' 0 [(0%nat, en)] Hr); [reflexivity|exact Hrun'|exact Hms].
Defined.
