(* ===== verification/Will.v ===== *)
(** How a connection ends: [serve] reports a clean end exactly for DISCONNECT, and the
    will is published otherwise (src/internal/server/server.go). *)

From S2P Require Import Prelude Topic Wire Filters Encoder Decoder Codec CodecProofs Tree.
From S2P Require Import Broker Session SessionQueue SessionStore SessionProofs Delivery Auth AuthProofs Client.
From S2P Require Import Server Handlers Lifecycle Options ServerInv Ownership SystemProofs ServerTheorems HandlerProofs Triples.

Local Open Scope Z_scope.
Local Open Scope orb_scope.

(** * Where [errDisconnect] comes from *)

(** Not [errDisconnect]: an error of the network or of the encoder never is, since the
    variable is private to the package. *)
Definition foreign (err : option error) : Prop := err ≠ Some errDisconnect.
Definition foreign_result {A} (r : result A) : Prop := r ≠ Error errDisconnect.

Definition encoder_ok (sets : Settings) : Prop := ∀ p, foreign_result (encodePublishFn sets p).

(** ** The operations *)

Lemma Admit_foreign data off now l t s r t' s' :
  Admit data off now l t s = Some (r, t', s') → result_in any (λ e, e ≠ errDisconnect) r.
Proof.
  intros H. unfold Admit in H. repeat case_match; simplify_eq/=; try exact I; intros E; discriminate E.
Qed.

Lemma enqueue_foreign c w : err_in (λ e, e ≠ errDisconnect) (enqueue c w).1.
Proof. unfold enqueue. repeat case_match; try apply err_in_None; apply err_in_Some; intros E; discriminate E. Qed.

Lemma encodeRemainingLength_foreign n : foreign_result (encodeRemainingLength n).
Proof. unfold encodeRemainingLength. destruct (_ || _)%bool; intros E; discriminate E. Qed.

Lemma validateTopicName_foreign name : foreign (validateTopicName name).
Proof. unfold validateTopicName, validateUTF8String. repeat case_match; simplify_eq/=; intros E; discriminate E. Qed.

(** The encoder that [New] sets. *)
Lemma EncodePublish_foreign pub : foreign_result (EncodePublish pub).
Proof.
  unfold EncodePublish. do 3 (case_match; [intros E; discriminate E|]). pose proof (validateTopicName_foreign (pub_Topic pub)) as Ht.
  destruct (validateTopicName _) as [err|]; [intros [= ->]; by apply Ht|]. cbv zeta.
  case_match; [intros E; discriminate E|]. match goal with |- context [encodeRemainingLength ?n] =>
    pose proof (encodeRemainingLength_foreign n) as Hn; destruct (encodeRemainingLength n) as [l|err] end.
  - intros E. discriminate E.
  - intros [= ->]. by apply Hn.
Qed.

Lemma Encode_foreign pkt : foreign_result (Encode pkt).
Proof.
  destruct pkt; try (intros E; discriminate E); simpl.
  - unfold encodePubAck. case_match; intros E; discriminate E.
  - unfold encodeSubAck. destruct (_ <? _); [intros E; discriminate E|]. simpl.
    pose proof (encodeRemainingLength_foreign (2 + len (sa_ReturnCodes p))) as Hn.
    destruct (encodeRemainingLength _) as [l|err]; [intros E; discriminate E|intros [= ->]; by apply Hn].
Qed.

Lemma foreign_in {A} (r : result A) : foreign_result r → result_in any (λ e, e ≠ errDisconnect) r.
Proof. intros Hr. destruct r as [a|e]; [exact I|]. intros ->. by apply Hr. Qed.

Lemma newPublishTemplate_foreign encodeFn pub :
  (∀ p, foreign_result (encodeFn p)) → foreign_result (newPublishTemplate encodeFn pub).
Proof.
  intros He. unfold newPublishTemplate. destruct (negb _); [intros E; discriminate E|].
  destruct (encodeFn _) as [raw|err] eqn:E1; simpl; [intros E; discriminate E|].
  intros [= ->]. by eapply He.
Qed.

(** The settings stay, and no handler but that of DISCONNECT gives [errDisconnect]. *)
Definition same_settings (s s' : Server) : Prop := settings s' = settings s.

#[export] Instance same_settings_preorder : PreOrder same_settings.
Proof. split; [intros s; reflexivity|]. intros s1 s2 s3 H12 H23. unfold same_settings in *. congruence. Qed.

Definition encodes (s : Server) : Prop := encoder_ok (settings s).

Lemma same_encodes {A} (m : action A) Q :
  (∀ s a s', m s = Some (a, s') → same_settings s s' ∧ Q a) → triple encodes same_settings Q m.
Proof.
  intros Hm s a s' He H. destruct (Hm s a s' H) as [Es Ha]. split; [|done]. unfold encodes. by rewrite Es.
Qed.

Lemma client_settings {A} (f : Client → A * Client) cli Q :
  (∀ c, Q (f c).1) → triple encodes same_settings Q (on_client f cli).
Proof.
  intros Hf. apply same_encodes. intros s a s'. unfold on_client. destruct (srv_conns s !! cli) as [c|]; simpl; [|discriminate].
  specialize (Hf c). destruct (f c) as [a' c']. intros E. injection E as <- <-. split; [reflexivity|exact Hf].
Qed.

Lemma session_settings {A} (f : method A) p (Q : A → Prop) :
  (∀ l t s a t' s', f l t s = Some (a, t', s') → Q a) → triple encodes same_settings Q (on_session f p).
Proof.
  intros Hf. apply same_encodes. intros s a s' (st & st' & t' & _ & H & ->)%on_session_inv.
  split; [reflexivity|]. by eapply Hf.
Qed.

Lemma foreign_handling cli :
  Handling encodes same_settings any any any (λ e, e ≠ errDisconnect) cli.
Proof.
  split.
  - intros A f p _. by apply session_settings.
  - intros t now p _. apply session_settings. apply Admit_foreign.
  - intros w _. apply client_settings. intros c. apply enqueue_foreign.
  - intros s id p cli' data err s' He _ _ H.
    destruct (client_settings (λ c, enqueue c (mkWrite data None 0)) cli' any ltac:(done) s err s' He H) as (? & ? & _).
    done.
  - intros cli'. by apply client_settings.
  - by apply client_settings.
  - intros f _. apply same_encodes. intros s a s' E. injection E as _ <-. split; [reflexivity|exact I].
  - intros s s' b _ He' _ _. split; [exact He'|reflexivity].
  - apply same_encodes. intros s a s' E. injection E as _ <-. split; [reflexivity|exact I].
  - intros s f _. apply Forall_forall. intros pub _. exact I.
  - intros s pub q He _ _. apply foreign_in, He.
  - intros s pub q He _. apply foreign_in, newPublishTemplate_foreign, He.
  - intros pkt _. apply foreign_in, Encode_foreign.
  - intros E. discriminate E.
  - intros msg E. discriminate E.
Qed.

(** The handler of a packet gives [errDisconnect] only for DISCONNECT. *)
Lemma handlePacket_foreign cli sess pkt e s out s' :
  encoder_ok (settings s) → packet_accepted pkt → foreign (env_written e) →
  handlePacket cli sess pkt e s = Some (out, s') → out = Handled (Some errDisconnect) ↔ pkt = PDisconnect.
Proof.
  intros He Hpkt Hw H.
  assert (Hor : pkt = PDisconnect ∨ (∃ id, pkt = PPubAck id) ∨ pkt ≠ PDisconnect ∧ ∀ id, pkt ≠ PPubAck id)
    by (destruct pkt; auto; right; try (right; split; discriminate); left; by eexists).
  destruct Hor as [->|[[id ->]|[Hd Ha]]].
  - injection H as <- _. done.
  - apply bind_inv in H as (err & s1 & H & E). injection E as <- _.
    apply bind_inv in H as (u & s2 & _ & E). injection E as <- _. split; discriminate.
  - destruct (handlePacket_triple (foreign_handling cli) sess pkt e Hpkt ltac:(done) Hd Ha ltac:(intros e' Ew ->; by apply Hw) s out s' He H)
      as (_ & _ & Herr).
    split; [|done]. intros ->. by destruct (Herr errDisconnect eq_refl).
Qed.

Lemma handleSubscribe_retained_foreign cli sess p codes written clock s err s' :
  encoder_ok (settings s) → Forall code_ok codes → foreign written →
  handleSubscribe_retained cli sess p codes written clock s = Some (err, s') → err ≠ Some errDisconnect.
Proof.
  intros He Hcodes Hw H ->.
  destruct (handleSubscribe_retained_triple (foreign_handling cli) sess p codes written clock Hcodes
    ltac:(intros e' Ew ->; by apply Hw) s _ s' He H) as (_ & _ & Herr).
  by destruct (Herr errDisconnect eq_refl).
Qed.

(** * Leaving *)

(** The handler of a connection that is in [serve]. *)
Definition serving (ph : phase) : option handler :=
  match ph with Serving h _ _ | Subscribing h _ _ _ _ => Some h | _ => None end.

(** The packet that [serve] read last is DISCONNECT, when it makes the step [i]: it
    reads it in that step, unless it is in the handler of a SUBSCRIBE. *)
Definition disconnects (i : input) (ph : phase) (limit : Z) : bool :=
  match i, ph with
  | IServe cancelled _, Serving h _ _ =>
      negb cancelled
      && match DecodeWithLimit (h_reader h) limit with Ok (PDisconnect, _) => true | _ => false end
  | _, _ => false
  end.

(** What waiting for the write of an answer gives is not [errDisconnect]. *)
Definition foreign_input (i : input) : Prop :=
  match i with IServe _ e => foreign (env_written e) | ISubAck written _ => foreign written | _ => True end.

Lemma after_packet_leaves h o co err h' o' co' clean :
  after_packet h o co err = Leaving h' o' co' clean → h' = h ∧ clean = bool_decide (err = Some errDisconnect).
Proof.
  destruct err as [err|]; [|discriminate]. intros E. injection E as <- _ _ <-. split; [reflexivity|].
  apply bool_decide_ext. split; [by intros ->|congruence].
Qed.

Lemma do_serve_leaves cancelled e h o co s h' o' co' clean s' :
  encoder_ok (settings s) → foreign (env_written e) →
  Forall is_byte (rd_data (h_reader h)) → 0 < maxPacketSize (settings s) <= MaxPacketSize →
  do_serve cancelled e h o co s = Some (Leaving h' o' co' clean, s') →
  h_connect h' = h_connect h ∧ clean = disconnects (IServe cancelled e) (Serving h o co) (maxPacketSize (settings s)).
Proof.
  intros He Hw Hb Hmax. unfold do_serve, disconnects. destruct cancelled.
  { intros E. injection E as <- _ _ <- _. split; reflexivity. }
  intros (limit & s1 & E1 & H)%bind_inv. injection E1 as <- <-. cbn [negb andb].
  destruct (DecodeWithLimit _ _) as [[pkt r]|err] eqn:Hdec.
  2: { injection H as <- _ _ <- _. split; reflexivity. }
  apply bind_inv in H as (sess & s1 & H1 & H). apply bind_inv in H as (out & s2 & H2 & H).
  assert (Es : settings s1 = settings s).
  { unfold owner_session in H1. destruct (srv_owners s !! o); simpl in H1; [|discriminate H1]. injection H1 as _ <-. reflexivity. }
  assert (He1 : encoder_ok (settings s1)) by (rewrite Es; exact He).
  apply (proj1 (decode_exact _ _ _ _ Hb Hmax)) in Hdec as (data & Hpkt & _).
  pose proof (handlePacket_foreign (h_client h) sess pkt e s1 out s2 He1 Hpkt Hw H2) as Hiff.
  injection H as H _. destruct out as [err|p codes]; [|discriminate H].
  apply after_packet_leaves in H as [-> ->]. split; [reflexivity|].
  destruct (decide (err = Some errDisconnect)) as [->|Hne].
  - by rewrite (proj1 Hiff eq_refl).
  - rewrite bool_decide_false by exact Hne. destruct pkt; try reflexivity.
    destruct Hne. pose proof (proj2 Hiff eq_refl) as E. by injection E.
Qed.

Lemma do_subscribed_leaves written clock h o co p codes s h' o' co' clean s' :
  encoder_ok (settings s) → Forall code_ok codes → foreign written →
  do_subscribed written clock h o co p codes s = Some (Leaving h' o' co' clean, s') → h' = h ∧ clean = false.
Proof.
  intros He Hcodes Hw (sess & s1 & H1 & H)%bind_inv. apply bind_inv in H as (err & s2 & H2 & E). injection E as E _.
  assert (s1 = s) as ->.
  { unfold owner_session in H1. destruct (srv_owners s !! o); simpl in H1; [|discriminate H1]. by injection H1 as _ <-. }
  apply after_packet_leaves in E as [-> ->]. split; [reflexivity|].
  apply bool_decide_eq_false_2. by eapply handleSubscribe_retained_foreign.
Qed.

(** A step with which [serve] returns. *)
Lemma serve_returns kdf n sys conn ph h i act h' o' co' clean s' :
  sys_ok n sys → encoder_ok (settings (sys_server sys)) → foreign_input i →
  sys_handlers sys !! conn = Some ph → serving ph = Some h → phase_step kdf conn i ph = Some act →
  act (sys_server sys) = Some (Leaving h' o' co' clean, s') →
  h_connect h' = h_connect h ∧ clean = disconnects i ph (maxPacketSize (settings (sys_server sys)))
  ∧ sys_enabled kdf (EvHandler conn i) sys = true.
Proof.
  intros Hok He Hw Hph Hserv Hact Hrun.
  assert (Hen : input_ready i ph (sys_server sys) = true → sys_enabled kdf (EvHandler conn i) sys = true).
  { intros Hready. cbn [sys_enabled]. by rewrite Hph, Hready, bool_decide_true by (by eexists). }
  assert (Hco : ∀ (m : action consumer) s0,
    (co ← m; mret (set_consumer co ph)) s0 ≠ Some (Leaving h' o' co' clean, s')).
  { intros m s0 (co & s2 & _ & E)%bind_inv. injection E as E _. destruct ph; discriminate. }
  destruct ph as [| | | | | |h0 o co|h0 o co p codes| | | |]; try discriminate Hserv; injection Hserv as ->;
    destruct i as [?|? ? ? ? ?|? ? ? ?|?|?|? ?|? ?|? ?|?|?| |b|w|w]; try discriminate Hact.
  - injection Hact as <-. destruct (proj1 (po_view _ _ (sy_phases _ _ Hok conn _ Hph) h (Some o) co eq_refl)) as [Hb _].
    destruct (do_serve_leaves _ _ h o co _ h' o' co' clean s' He Hw Hb (sy_packets _ _ Hok) Hrun) as [? ?].
    split_and!; [done|done|]. by apply Hen.
  - cbn in Hact. destruct co; try discriminate Hact. injection Hact as <-.
    apply bind_inv in Hrun as (sess & s1 & _ & Hrun). by destruct (Hco _ _ Hrun).
  - cbn in Hact. destruct co; try discriminate Hact. injection Hact as <-. by destruct (Hco _ _ Hrun).
  - cbn in Hact. destruct co; try discriminate Hact. injection Hact as <-.
    apply bind_inv in Hrun as (sess & s1 & _ & Hrun). by destruct (Hco _ _ Hrun).
  - injection Hact as <-. pose proof (po_waiting _ _ (sy_phases _ _ Hok conn _ Hph)) as Hcodes.
    destruct (do_subscribed_leaves _ _ h o co p codes _ h' o' co' clean s' He Hcodes Hw Hrun) as [-> ->].
    split_and!; [done|done|]. by apply Hen.
  - cbn in Hact. destruct co; try discriminate Hact. injection Hact as <-.
    apply bind_inv in Hrun as (sess & s1 & _ & Hrun). by destruct (Hco _ _ Hrun).
  - cbn in Hact. destruct co; try discriminate Hact. injection Hact as <-. by destruct (Hco _ _ Hrun).
  - cbn in Hact. destruct co; try discriminate Hact. injection Hact as <-.
    apply bind_inv in Hrun as (sess & s1 & _ & Hrun). by destruct (Hco _ _ Hrun).
Qed.

(** A connection stays before the publication of its will until its own step. *)
Definition leaves (conn : netconn) (e : sys_event) : bool :=
  match e with EvHandler conn' (ILeave _) => bool_decide (conn' = conn) | _ => false end.

Lemma leaving_kept kdf e sys sys' conn h o co clean :
  sys_handlers sys !! conn = Some (Leaving h o co clean) → leaves conn e = false →
  sys_enabled kdf e sys = true → sys_exec kdf e sys = Some sys' →
  ∃ co', sys_handlers sys' !! conn = Some (Leaving h o co' clean).
Proof.
  intros Hph Hl Hen Hex. destruct e as [ctxErr conn' r|conn' i|conn'|cli set n err|cli|now].
  - cbn [sys_enabled] in Hen. apply andb_prop in Hen as [Hnone _]. apply bool_decide_eq_true_1 in Hnone.
    cbn [sys_exec] in Hex. destruct (start _ _ _ _) as [out g]. injection Hex as <-. exists co. cbn [sys_handlers].
    destruct (decide (out = Started)); [|exact Hph]. rewrite lookup_insert_ne by congruence. exact Hph.
  - cbn [sys_exec] in Hex. apply bind_Some in Hex as (ph & Hph' & Hex). apply bind_Some in Hex as (act & Hact & Hex).
    apply bind_Some in Hex as ([ph2 s2] & Hrun & Hex). injection Hex as <-. cbn [sys_handlers].
    destruct (decide (conn' = conn)) as [->|Hne]; [|exists co; rewrite lookup_insert_ne by exact Hne; exact Hph].
    rewrite lookup_insert_eq. assert (ph = Leaving h o co clean) as -> by congruence.
    destruct i as [?|? ? ? ? ?|? ? ? ?|?|?|? ?|? ?|? ?|?|?| |b|w|w]; try discriminate Hact.
    + cbn in Hl. rewrite bool_decide_true in Hl by reflexivity. discriminate Hl.
    + cbn in Hact. destruct co as [ep|ep|ep|]; try discriminate Hact. injection Hact as <-.
      apply bind_inv in Hrun as (sess & s3 & _ & Hrun). apply bind_inv in Hrun as (co' & s4 & _ & E).
      injection E as <- _. exists co'. reflexivity.
    + cbn in Hact. destruct co as [ep|ep|ep|]; try discriminate Hact. injection Hact as <-.
      apply bind_inv in Hrun as (co' & s4 & _ & E). injection E as <- _. exists co'. reflexivity.
    + cbn in Hact. destruct co as [ep|ep|ep|]; try discriminate Hact. injection Hact as <-.
      apply bind_inv in Hrun as (sess & s3 & _ & Hrun). apply bind_inv in Hrun as (co' & s4 & _ & E).
      injection E as <- _. exists co'. reflexivity.
  - cbn [sys_enabled] in Hen. apply exec_finish_inv in Hex as (g & _ & ->). exists co. cbn [sys_handlers].
    destruct (decide (conn' = conn)) as [->|Hne]; [rewrite Hph in Hen; discriminate Hen|].
    rewrite lookup_delete_ne by exact Hne. exact Hph.
  - apply exec_write_inv in Hex as (c & w & q & c' & _ & _ & _ & ->). exists co. exact Hph.
  - apply exec_exit_inv in Hex as (c & c' & _ & _ & ->). exists co. exact Hph.
  - cbn [sys_exec] in Hex. apply bind_Some in Hex as ([u s'] & _ & Hex). injection Hex as <-. exists co. exact Hph.
Qed.

Lemma leaving_kept_run kdf es sys sys' conn h o co clean :
  sys_handlers sys !! conn = Some (Leaving h o co clean) → Forall (λ e, leaves conn e = false) es →
  run_events kdf es sys = Some sys' →
  ∃ co', sys_handlers sys' !! conn = Some (Leaving h o co' clean).
Proof.
  intros Hph Hes. revert sys co Hph. induction Hes as [|e es He Hes IH]; intros sys co Hph Hrun; cbn [run_events] in Hrun.
  - injection Hrun as <-. exists co. exact Hph.
  - destruct (sys_enabled kdf e sys) eqn:Hen; [|discriminate Hrun]. apply bind_Some in Hrun as (sys1 & Hex & Hrun).
    destruct (leaving_kept kdf e sys sys1 conn h o co clean Hph He Hen Hex) as (co1 & Hph1).
    exact (IH sys1 co1 Hph1 Hrun).
Qed.

(** The message of [publishWill]. *)
Definition will_message (will : WillMessage) : PublishPacket :=
  mkPublish (will_Topic will) (will_Payload will) (will_Retain will) false (will_QoS will) 0.

Lemma do_leave_exact clock h o co clean s ph s' :
  do_leave clock h o co clean s = Some (ph, s') →
  ph = Cleaning h (Some o) co ∧
  match conn_Will (h_connect h) with
  | Some will => if clean then s' = s else ∃ err, publishMessage clock (will_message will) s = Some (err, s')
  | None => s' = s
  end.
Proof.
  intros (u & s1 & H1 & E)%bind_inv. injection E as <- <-. split; [reflexivity|].
  destruct (conn_Will _) as [will|]; [|injection H1 as _ <-; reflexivity].
  destruct clean; [injection H1 as _ <-; reflexivity|]. apply bind_inv in H1 as (err & s2 & H2 & E).
  injection E as _ <-. exists err. exact H2.
Qed.

(** * Theorem *)

(** C25: the will of a client is published exactly when it did not disconnect.  When
    [serve] returns for a connection, after it has read a packet or while it handles a
    SUBSCRIBE, and any steps of other goroutines follow, the deferred function returns;
    it publishes the will of the CONNECT packet, if there was one, unless the packet
    [serve] read last was DISCONNECT, and otherwise leaves the server as it is.  No
    error of a handler is taken for a DISCONNECT. *)
Theorem will_unless_disconnect kdf n sys conn ph h i sys1 h' o' co' clean es sys2 clock :
  sys_reachable kdf n sys → Z.of_nat n + len es + 2 < 2 ^ 64 →
  encoder_ok (settings (sys_server sys)) → foreign_input i →
  sys_handlers sys !! conn = Some ph → serving ph = Some h →
  sys_exec kdf (EvHandler conn i) sys = Some sys1 →
  sys_handlers sys1 !! conn = Some (Leaving h' o' co' clean) →
  run_events kdf es sys1 = Some sys2 → Forall (λ e, leaves conn e = false) es →
  ∃ sys3, sys_exec kdf (EvHandler conn (ILeave clock)) sys2 = Some sys3 ∧
  match conn_Will (h_connect h) with
  | Some will =>
      if disconnects i ph (maxPacketSize (settings (sys_server sys)))
      then sys_server sys3 = sys_server sys2
      else ∃ err, publishMessage clock (will_message will) (sys_server sys2) = Some (err, sys_server sys3)
  | None => sys_server sys3 = sys_server sys2
  end.
Proof.
  intros Hr Hlt He Hw Hph Hserv Hex Hph1 Hrun Hes.
  pose proof (reachable_sys_ok kdf n sys Hr ltac:(unfold len in Hlt; lia)) as Hok. pose proof Hex as Hstep.
  cbn [sys_exec] in Hstep. rewrite Hph in Hstep. cbn [mbind option_bind] in Hstep.
  apply bind_Some in Hstep as (act & Hact & Hstep). apply bind_Some in Hstep as ([ph1 s1] & Hserve & E). injection E as <-.
  cbn [sys_handlers] in Hph1. rewrite lookup_insert_eq in Hph1. injection Hph1 as ->.
  destruct (serve_returns kdf _ sys conn ph h i act h' o' co' clean s1 Hok He Hw Hph Hserv Hact Hserve) as (Hconn & <- & Hen).
  pose proof (sys_next kdf n sys _ _ Hr Hen Hex) as Hr1.
  pose proof (run_events_reachable kdf es (S n) _ sys2 Hr1 Hrun) as Hr2.
  destruct (leaving_kept_run kdf es _ sys2 conn h' o' co' clean (lookup_insert_eq _ _ _) Hes Hrun) as (co2 & Hph2).
  assert (Hen2 : sys_enabled kdf (EvHandler conn (ILeave clock)) sys2 = true).
  { cbn [sys_enabled]. rewrite Hph2, bool_decide_true by (eexists; reflexivity). reflexivity. }
  destruct (sys_exec_ok kdf (Z.of_nat (S n + length es)) sys2 (EvHandler conn (ILeave clock))) as (sys3 & Hex3 & _);
    [lia|unfold len in Hlt; lia|apply (reachable_sys_ok kdf); [exact Hr2|unfold len in Hlt; lia]|exact Hen2|].
  exists sys3. split; [exact Hex3|].
  cbn [sys_exec] in Hex3. rewrite Hph2 in Hex3. cbn [mbind option_bind phase_step] in Hex3.
  apply bind_Some in Hex3 as ([ph3 s3] & Hleave & Hex3). injection Hex3 as <-. cbn [sys_server].
  rewrite <- Hconn. exact (proj2 (do_leave_exact _ _ _ _ _ _ _ _ Hleave)).
Qed.

(** CONNECT of client "a" with the will "b" for the topic "w"; then the connection is
    lost. *)
Definition will_stream : bytes :=
  [16; 19; 0; 4; 77; 81; 84; 84; 4; 6; 0; 0; 0; 1; 97; 0; 1; 119; 0; 1; 98].

Definition will_events : list sys_event :=
  [EvAccept None 0 (mkReader will_stream EOF);
   EvHandler 0 (IHandshake None);
   EvHandler 0 (IAuthenticate None None None 10 None);
   EvHandler 0 (IAcquire None 5 10 None);
   EvHandler 0 (IGreet 10);
   EvHandler 0 (IWelcome None None)].

Definition will_system (fn : PublishPacket → result bytes) : System :=
  mkSystem (Server_New (bs "127.0.0.1:1883") (mkBroker NewTree ∅ DefaultRetainedLimits (mkRetainedStats 0 0 0))
    (mkStore ∅ ∅ DefaultLimits zero_snapshot) [WithPublishEncoder fn]) ∅.

Lemma will_system_reachable kdf fn : sys_reachable kdf 0 (will_system fn).
Proof.
  apply sys_start; [|reflexivity]. split; [discriminate|by exists DefaultRetainedLimits|by exists DefaultLimits].
Qed.

Lemma will_system_encoder fn :
  match run_events no_kdf will_events (will_system fn) with
  | Some sys => encodePublishFn (settings (sys_server sys))
  | None => fn
  end = fn.
Proof. vm_compute. reflexivity. Qed.

Lemma will_unless_disconnect_witness :
  ∃ sys sys1 sys2 sys3 err, run_events no_kdf will_events (will_system EncodePublish) = Some sys
    ∧ sys_exec no_kdf (EvHandler 0 (IServe false example_env)) sys = Some sys1
    ∧ run_events no_kdf [EvHandler 0 (IConsume false)] sys1 = Some sys2
    ∧ sys_exec no_kdf (EvHandler 0 (ILeave (λ _, 7))) sys2 = Some sys3
    ∧ publishMessage (λ _, 7) (mkPublish (bs "w") (bs "b") false false 0 0) (sys_server sys2)
        = Some (err, sys_server sys3).
Proof.
  assert (Hh : match run_events no_kdf will_events (will_system EncodePublish) with
    | Some sys => match sys_handlers sys !! 0%nat with
                  | Some (Serving h o co) =>
                      if disconnects (IServe false example_env) (Serving h o co) (maxPacketSize (settings (sys_server sys)))
                      then None else conn_Will (h_connect h)
                  | _ => None
                  end
    | None => None
    end = Some (mkWill (bs "w") (bs "b") 0 false)) by (vm_compute; reflexivity).
  pose proof (will_system_encoder EncodePublish) as Hs.
  assert (Hl : match run_events no_kdf will_events (will_system EncodePublish) with
    | Some sys => match sys_exec no_kdf (EvHandler 0 (IServe false example_env)) sys with
      | Some sys1 => match sys_handlers sys1 !! 0%nat with
        | Some (Leaving _ _ _ _) => match run_events no_kdf [EvHandler 0 (IConsume false)] sys1 with
                                    | Some _ => true | None => false end
        | _ => false end
      | None => false end
    | None => false end = true) by (vm_compute; reflexivity).
  destruct (run_events no_kdf will_events (will_system EncodePublish)) as [sys|] eqn:Hrun; [|discriminate Hl].
  pose proof (run_events_reachable no_kdf will_events 0 _ sys (will_system_reachable no_kdf EncodePublish) Hrun) as Hr.
  destruct (sys_handlers sys !! 0%nat) as [[| | | | | |h o co| | | | |]|] eqn:Hph; try discriminate Hh.
  destruct (sys_exec _ _ sys) as [sys1|] eqn:Hex; [|discriminate Hl].
  destruct (sys_handlers sys1 !! 0%nat) as [[| | | | | | | |h' o' co' clean| | |]|] eqn:Hph1; try discriminate Hl.
  destruct (run_events _ _ sys1) as [sys2|] eqn:Hrun1; [|discriminate Hl].
  destruct (will_unless_disconnect no_kdf 6 sys 0 (Serving h o co) h (IServe false example_env) sys1 h' o' co' clean
    [EvHandler 0 (IConsume false)] sys2 (λ _, 7) Hr) as (sys3 & Hex3 & Hwill);
    [reflexivity| |intros E; discriminate E|exact Hph|reflexivity|exact Hex|exact Hph1|exact Hrun1|repeat constructor|].
  { unfold encoder_ok. rewrite Hs. exact EncodePublish_foreign. }
  destruct (disconnects _ _ _); [discriminate Hh|]. rewrite Hh in Hwill. destruct Hwill as (err & Hwill).
  exists sys, sys1, sys2, sys3, err. split; [reflexivity|]. split; [exact Hex|]. split; [exact Hrun1|].
  split; [exact Hex3|exact Hwill].
Defined.
