(* ===== verification/Output.v ===== *)
(** What a client receives: the bytes the server writes on a connection are a sequence
    of whole packets, CONNACK first (src/internal/server/server.go). *)

From S2P Require Import Prelude Topic Wire Filters Encoder Decoder Codec CodecProofs Tree.
From S2P Require Import Broker Session SessionQueue SessionStore SessionProofs Delivery Auth AuthProofs Client.
From S2P Require Import Server Handlers Lifecycle Options ServerInv Ownership SystemProofs ServerTheorems HandlerProofs Triples.
From S2P Require Import Durable Will.

Local Open Scope Z_scope.
Local Open Scope orb_scope.

(** * The language of the server *)

Definition connack (code : Z) (data : bytes) : Prop :=
  ∃ present, Encode (PConnAck (mkConnAck present code)) = Ok data.

(** A packet that follows an accepting CONNACK. *)
Definition server_packet (data : bytes) : Prop :=
  (∃ pkt, answer pkt ∧ Encode pkt = Ok data) ∨ (∃ pub, publish_typed pub ∧ EncodePublish pub = Ok data).

Definition accepted (ds : list bytes) : Prop :=
  ∃ d rest, ds = d :: rest ∧ connack ConnAckAccepted d ∧ Forall server_packet rest.

(** What the server sends on a connection: nothing, a refusal, or an accepting CONNACK
    and packets. *)
Inductive conversation : list bytes → Prop :=
| said_nothing : conversation []
| refused code d : 0 < code <= 5 → connack code d → conversation [d]
| welcomed ds : accepted ds → conversation ds.

(** The packets [ds] were queued for client [c] so far; what went out is a prefix of
    them, and while the writer lives the rest is in its queue. *)
Record carries (c : Client) (ds : list bytes) : Prop := {
  ca_sent : sent c `prefix_of` concat ds;
  ca_queue : c_writeDone c = false → sent c ++ concat (w_data <$> sendQ c) = concat ds;
  ca_done : c_writeDone c = true → c_done c = true }.

Definition converses (c : Client) : Prop := ∃ ds, conversation ds ∧ carries c ds.
Definition silent (c : Client) : Prop := carries c [].
Definition greeted (c : Client) : Prop := ∃ ds, accepted ds ∧ carries c ds.

Lemma greeted_converses c : greeted c → converses c.
Proof. intros (ds & Ha & Hc). exists ds. split; [by apply welcomed|done]. Qed.

Lemma silent_converses c : silent c → converses c.
Proof. intros Hc. exists []. split; [constructor|done]. Qed.

(** Steps of the client that queue nothing. *)
Lemma carries_same c c' ds :
  sent c' = sent c → sendQ c' = sendQ c → (c_writeDone c' = false → c_writeDone c = false) →
  (c_writeDone c' = true → c_done c' = true) → carries c ds → carries c' ds.
Proof.
  intros Es Eq Hw Hd [H1 H2 H3]. split; rewrite ?Es, ?Eq; [exact H1| |exact Hd]. intros Hw'. by apply H2, Hw.
Qed.

Lemma Close_carries c ds : carries c ds → carries (Close c) ds.
Proof. intros Hc. by apply (carries_same c). Qed.

Lemma writeLoop_exit_carries c c' ds : c_done c = true → writeLoop_exit c = Some c' → carries c ds → carries c' ds.
Proof.
  intros Hd Hx Hc. unfold writeLoop_exit, close_writeDone in Hx. destruct (c_writeDone c); [discriminate Hx|].
  injection Hx as <-. by apply (carries_same c).
Qed.

Lemma SetWriteTimeout_carries c t ds : carries c ds → carries (SetWriteTimeout c t).2 ds.
Proof.
  intros Hc. unfold SetWriteTimeout. destruct (_ <=? _); [exact Hc|]. apply (carries_same c); try done. apply Hc.
Qed.

Lemma writer_carries c w q set n err c' ds :
  writer_next c = Some (w, q) → writeLoop_write c w q set n err = Some c' → carries c ds → carries c' ds.
Proof.
  intros [Hw Hq]%writer_next_inv. rewrite (writeLoop_write_open _ _ _ _ _ _ Hw). intros E [H1 H2 H3].
  apply (inj Some) in E as <-. specialize (H2 Hw). rewrite Hq in H2. rewrite fmap_cons in H2. simpl concat in H2.
  set (out := match set with None => take (Z.to_nat n) (w_data w) | Some _ => [] end).
  assert (Hout : out `prefix_of` w_data w) by (unfold out; destruct set; [by exists (w_data w)|apply prefix_take]).
  split; cbn [sent sendQ c_writeDone c_done].
  - fold out. rewrite <- H2. apply prefix_app. destruct Hout as [k ->]. rewrite <- app_assoc. by eexists.
  - destruct (write_error w set n err) as [e|] eqn:He; [discriminate|]. intros _. fold out.
    rewrite <- H2, <- app_assoc. do 2 f_equal. unfold out. unfold write_error in He.
    destruct set; [discriminate He|]. destruct err; [discriminate He|]. destruct (Z.eqb_spec n (len (w_data w))); [|discriminate He].
    subst n. unfold len. by rewrite Nat2Z.id, firstn_all.
  - intros ->. by rewrite orb_true_r.
Qed.

(** What [enqueue] does to a client: nothing, or it queues the write. *)
Lemma enqueue_carries c w ds :
  carries c ds →
  (enqueue c w).2 = c ∨ carries (enqueue c w).2 (ds ++ [w_data w]) ∧ c_writeDone c = false.
Proof.
  intros [H1 H2 H3]. unfold enqueue. destruct (c_done c) eqn:Hd; [by left|].
  assert (Hw : c_writeDone c = false) by (destruct (c_writeDone c); [by discriminate (H3 eq_refl)|done]).
  destruct (_ <? _); [|by left]. right. split; [|exact Hw].
  split; cbn [sent sendQ c_writeDone c_done snd].
  - rewrite concat_app. by apply prefix_app_r.
  - intros _. rewrite fmap_app, !concat_app, app_assoc, (H2 Hw). simpl. by rewrite app_nil_r.
  - rewrite Hw. discriminate.
Qed.

Lemma connack_cons code d : connack code d → ∃ b d', d = b :: d'.
Proof. intros (present & E). injection E as <-. by eexists _, _. Qed.

(** A live client that was greeted was not silent. *)
Lemma greeted_not_silent c : c_writeDone c = false → greeted c → ¬ silent c.
Proof.
  intros Hw (ds & (d & rest & -> & Hd & _) & [_ H2 _]) [_ H2' _]. specialize (H2 Hw). specialize (H2' Hw).
  rewrite H2 in H2'. apply connack_cons in Hd as (b & d' & ->). discriminate H2'.
Qed.

Lemma enqueue_greeted c w : server_packet (w_data w) → greeted c →
  greeted (enqueue c w).2 ∧ (silent c → silent (enqueue c w).2).
Proof.
  intros Hp Hg. pose proof Hg as (ds & (d & rest & -> & Hd & Hr) & Hc).
  destruct (enqueue_carries c w _ Hc) as [-> | [Hc' Hw]]; [done|]. split.
  - exists (d :: (rest ++ [w_data w])). split; [|exact Hc']. exists d, (rest ++ [w_data w]).
    split; [done|]. split; [done|]. apply Forall_app. split; [done|]. constructor; [done|constructor].
  - intros Hs. by destruct (greeted_not_silent c Hw Hg).
Qed.

(** The CONNACK to a client nothing was sent to. *)
Lemma enqueue_silent c w : silent c → (enqueue c w).2 = c ∨ carries (enqueue c w).2 [w_data w].
Proof. intros Hc. destruct (enqueue_carries c w [] Hc) as [?|[? _]]; [by left|by right]. Qed.

(** * The invariant of the server *)

(** Client [cli] was greeted. *)
Definition greets (s : Server) (cli : clientptr) : Prop := ∃ c, srv_conns s !! cli = Some c ∧ greeted c.

(** Clients stay greeted, and those that nothing was sent to stay so, but [x]. *)
Definition speaks (x : clientptr → Prop) (s s' : Server) : Prop :=
  ∀ cli c, srv_conns s !! cli = Some c → ∃ c', srv_conns s' !! cli = Some c'
    ∧ (greeted c → greeted c') ∧ (¬ x cli → silent c → silent c').

#[export] Instance speaks_preorder x : PreOrder (speaks x).
Proof.
  split; [by intros s cli c Hc; exists c|]. intros s1 s2 s3 H12 H23 cli c Hc.
  destruct (H12 cli c Hc) as (c2 & Hc2 & G1 & S1). destruct (H23 cli c2 Hc2) as (c3 & Hc3 & G2 & S2).
  exists c3. auto.
Qed.

Definition nobody : clientptr → Prop := λ _, False.

Lemma speaks_greets x s s' cli : speaks x s s' → greets s cli → greets s' cli.
Proof. intros Hs (c & Hc & Hg). destruct (Hs cli c Hc) as (c' & Hc' & G & _). exists c'. auto. Qed.

Lemma speaks_same x s s' : srv_conns s' = srv_conns s → speaks x s s'.
Proof. intros E cli c Hc. exists c. by rewrite E. Qed.

(** A template and a queue entry that hold an encoded message. *)
Definition template_good (t : publishTemplate) : Prop :=
  ∃ pub, publish_typed pub ∧ newPublishTemplate encodePublishPacket (newOutboundPublish pub 1) = Ok t.

Definition entry_good (en : entry) : Prop :=
  template_good (mkTemplate (e_data en) (packetIDOffset en)) ∧ 0 <= e_packetID en < 65536.

Record out_ok (s : Server) : Prop := {
  oo_clients cli c : srv_conns s !! cli = Some c → converses c;
  oo_ready o a : srv_owners s !! o = Some a → ready a = true → greets s (ac_client a);
  oo_queues p st : states (srv_sessions s) !! p = Some st → Forall entry_good (heap st);
  oo_retained t pub : retained (srv_broker s) !! t = Some pub → publish_typed pub;
  oo_encoder : encodePublishFn (settings s) = encodePublishPacket }.

(** A step that keeps the registry and the parts the invariant reads. *)
Lemma out_ok_speaks x s s' :
  out_ok s → speaks x s s' → settings s' = settings s → srv_owners s' = srv_owners s →
  (∀ cli c, srv_conns s' !! cli = Some c → converses c) →
  (∀ p st, states (srv_sessions s') !! p = Some st → Forall entry_good (heap st)) →
  (∀ t pub, retained (srv_broker s') !! t = Some pub → publish_typed pub) → out_ok s'.
Proof.
  intros Hok Hs Es Eo Hc Hq Hr. split; try done.
  - intros o a. rewrite Eo. intros Ha Hready. eapply speaks_greets; [exact Hs|]. by eapply oo_ready.
  - rewrite Es. apply Hok.
Qed.

(** ** Triples *)

#[local] Abbreviation speaking x Q m := (triple out_ok (speaks x) Q m).

(** Steps that change none of it. *)
Lemma speaking_same {A} x (Q : A → Prop) (m : action A) :
  (∀ s a s', m s = Some (a, s') → settings s' = settings s ∧ srv_owners s' = srv_owners s ∧ srv_conns s' = srv_conns s
     ∧ srv_sessions s' = srv_sessions s ∧ retained (srv_broker s') = retained (srv_broker s) ∧ Q a) →
  speaking x Q m.
Proof.
  intros Hm s a s' Hok H. destruct (Hm s a s' H) as (E1 & E2 & E3 & E4 & E5 & HQ).
  assert (Hsp : speaks x s s') by by apply speaks_same. split; [|done].
  apply (out_ok_speaks x s s' Hok Hsp E1 E2); rewrite ?E3, ?E4, ?E5; apply Hok.
Qed.

Lemma speaking_session {A} x (Q : A → Prop) (f : method A) p :
  (∀ l t s a t' s', f l t s = Some (a, t', s') → Forall entry_good (heap s) → Forall entry_good (heap s') ∧ Q a) →
  speaking x Q (on_session f p).
Proof.
  intros Hf s a s' Hok (st & st' & t' & Hst & H & ->)%on_session_inv.
  destruct (Hf _ _ _ _ _ _ H (oo_queues _ Hok p st Hst)) as [Hheap HQ].
  assert (Hsp : ∀ s', srv_conns s' = srv_conns s → speaks x s s') by (intros; by apply speaks_same).
  split; [|split; [by apply Hsp|exact HQ]].
  apply (out_ok_speaks x s _ Hok); try done; try apply Hok; [by apply Hsp|].
  cbn [srv_sessions set_sessions states]. intros p0 st0 [[<- <-]|[_ Hl]]%lookup_insert_Some; [exact Hheap|].
  by eapply (oo_queues _ Hok).
Qed.

Lemma plain_heap {A} (f : method A) `{MethodPlain A f} l t s a t' s' :
  f l t s = Some (a, t', s') → Forall entry_good (heap s) → Forall entry_good (heap s') ∧ any a.
Proof. intros [-> _]%method_plain. done. Qed.

(** A change of one client. *)
Lemma speaking_client x (s : Server) cli c c' :
  out_ok s → srv_conns s !! cli = Some c → converses c' → (greeted c → greeted c') →
  (¬ x cli → silent c → silent c') →
  out_ok (set_conns s (<[cli := c']> (srv_conns s))) ∧ speaks x s (set_conns s (<[cli := c']> (srv_conns s))).
Proof.
  intros Hok Hc Hconv Hg Hs.
  assert (Hsp : speaks x s (set_conns s (<[cli := c']> (srv_conns s)))).
  { intros cli0 c0 Hc0. cbn [srv_conns set_conns]. destruct (decide (cli0 = cli)) as [->|Hne].
    - assert (c0 = c) as -> by congruence. exists c'. by rewrite lookup_insert_eq.
    - exists c0. by rewrite lookup_insert_ne. }
  split; [|exact Hsp]. apply (out_ok_speaks x s _ Hok Hsp); try done; try apply Hok.
  cbn [srv_conns set_conns]. intros cli0 c0 [[_ <-]|[_ Hl]]%lookup_insert_Some; [exact Hconv|by eapply (oo_clients _ Hok)].
Qed.

Lemma on_client_inv {A} (f : Client → A * Client) cli s a s' :
  on_client f cli s = Some (a, s') →
  ∃ c, srv_conns s !! cli = Some c ∧ a = (f c).1 ∧ s' = set_conns s (<[cli := (f c).2]> (srv_conns s)).
Proof.
  unfold on_client. destruct (srv_conns s !! cli) as [c|]; simpl; [|discriminate].
  destruct (f c) as [a' c'] eqn:E. intros H. injection H as <- <-. exists c. by rewrite E.
Qed.

(** Changes of a client that queue nothing. *)
Lemma speaking_carries {A} x (Q : A → Prop) (f : Client → A * Client) cli :
  (∀ c ds, carries c ds → carries (f c).2 ds) → (∀ c, Q (f c).1) → speaking x Q (on_client f cli).
Proof.
  intros Hf HQ s a s' Hok (c & Hc & -> & ->)%on_client_inv.
  destruct (oo_clients _ Hok cli c Hc) as (ds & Hds & Hcar).
  destruct (speaking_client x s cli c (f c).2 Hok Hc) as [H1 H2]; [|intros (ds' & ? & ?)|intros _|by split].
  - exists ds. split; [done|by apply Hf].
  - exists ds'. split; [done|by apply Hf].
  - by apply Hf.
Qed.

Lemma enqueue_speaks x s cli w :
  out_ok s → greets s cli → server_packet (w_data w) →
  ∀ err s', on_client (λ c, enqueue c w) cli s = Some (err, s') → out_ok s' ∧ speaks x s s'.
Proof.
  intros Hok (c0 & Hc0 & Hg) Hp err s' (c & Hc & _ & ->)%on_client_inv. assert (c0 = c) as -> by congruence.
  destruct (enqueue_greeted c w Hp Hg) as [Hg' Hs'].
  apply (speaking_client x s cli c); try done. by apply greeted_converses.
Qed.

(** ** Encoding *)

Lemma outbound_typed pub q : publish_typed pub → is_byte q → publish_typed (newOutboundPublish pub q).
Proof. intros (_ & _ & Ht & Hp) Hq. split_and!; try done; simpl; lia. Qed.

Lemma template_of_pub pub q t :
  publish_typed pub → newPublishTemplate encodePublishPacket (newOutboundPublish pub q) = Ok t → template_good t.
Proof.
  intros Hp H. exists pub. split; [done|]. unfold newPublishTemplate in H. simpl in H.
  destruct (Z.eqb_spec q 1) as [->|]; [exact H|discriminate H].
Qed.

Lemma Admit_good t now l tot s r t' s' :
  template_good t → Admit (raw t) (t_packetIDOffset t) now l tot s = Some (r, t', s') →
  Forall entry_good (heap s) → Forall entry_good (heap s') ∧ result_in any any r.
Proof.
  intros Ht H Hh. split; [|by destruct r]. unfold Admit in H. destruct (invalid_queued_publish _ _); [by injection H as _ _ <-|].
  destruct (deleted s); [by injection H as _ _ <-|]. cbv zeta in H.
  destruct (if _ || _ then _ else _) as [reason|]; [by injection H as _ _ <-|]. injection H as _ _ <-.
  cbn [heap notifyLocked set_flow set_stats set_queue]. apply Forall_app. split; [exact Hh|].
  constructor; [|constructor]. split; [|simpl; lia]. by destruct t.
Qed.

(** What the handlers of a greeted client do. *)
Lemma speaking_handling cli :
  Handling (λ s, out_ok s ∧ greets s cli) (speaks nobody) publish_typed server_packet template_good any cli.
Proof.
  assert (Hlift : ∀ {A} (Q : A → Prop) m, speaking nobody Q m →
    triple (λ s, out_ok s ∧ greets s cli) (speaks nobody) Q m).
  { intros A Q m Hm s a s' [Hok Hg] H. destruct (Hm s a s' Hok H) as (Hok' & Hs & HQ).
    split; [split; [done|by eapply speaks_greets]|done]. }
  split.
  - intros A f p Hf. apply Hlift, speaking_session. intros *. by apply plain_heap.
  - intros t now p Ht. apply Hlift, speaking_session. intros *. by apply Admit_good.
  - intros w Hp s err s' [Hok Hg] H. destruct (enqueue_speaks nobody s cli w Hok Hg Hp err s' H) as [Hok' Hs].
    split; [split; [done|by eapply speaks_greets]|]. split; [done|by intros e _].
  - intros s id p cli' data err s' [Hok Hg] Hon Hp H. unfold online_client in Hon.
    destruct (srv_clients s !! id) as [o|]; [|discriminate Hon].
    destruct (srv_owners s !! o) as [a|] eqn:Ha; simpl in Hon; [|discriminate Hon].
    destruct (closing a || negb (ready a) || _)%bool eqn:Hb; [discriminate Hon|]. injection Hon as <-.
    apply orb_false_iff in Hb as [[_ Hready%negb_false_iff]%orb_false_iff _].
    destruct (enqueue_speaks nobody s (ac_client a) (mkWrite data None 0) Hok (oo_ready _ Hok o a Ha Hready) Hp err s' H) as [Hok' Hs].
    split; [split; [done|by eapply speaks_greets]|done].
  - intros cli'. apply Hlift, speaking_carries; [|done]. intros c ds. apply Close_carries.
  - apply Hlift, speaking_carries; done.
  - intros f Hf. apply Hlift, speaking_same. intros s a s' E. injection E as _ <-. split_and!; try done. apply Hf.
  - intros s s' b [Hok Hg] [Hok' Hg'] Hs Hb. split; [|by apply speaks_same]. split; [|exact Hg'].
    apply (out_ok_speaks nobody s' _ Hok'); try done; try apply Hok'; [by apply speaks_same|].
    destruct Hb as [->|(pub & Hp & ->)]; [apply Hok|]. cbn [srv_broker set_broker]. intros t pub'.
    unfold updateRetained. destruct (_ && _)%bool; cbn [snd retained]; [apply Hok|]. destruct (_ =? 0).
    + intros [_ ?]%lookup_delete_Some. by eapply (oo_retained _ Hok).
    + intros [[_ <-]|[_ ?]]%lookup_insert_Some; [exact Hp|by eapply (oo_retained _ Hok)].
  - apply Hlift, speaking_same. intros s a s' E. injection E as _ <-. done.
  - intros s f [Hok _]. apply Forall_fmap. apply Forall_forall. intros [t pub] Hin. simpl.
    apply list_elem_of_filter in Hin as [_ Hin]. apply elem_of_map_to_list in Hin. by eapply (oo_retained _ Hok).
  - intros s pub q [Hok _] Hp Hq. rewrite (oo_encoder _ Hok).
    destruct (encodePublishPacket (newOutboundPublish pub q)) as [d|e] eqn:E; [|done]. right.
    exists (newOutboundPublish pub q). split; [|exact E]. apply outbound_typed; [exact Hp|].
    destruct Hp as (Hqos & _). unfold is_byte in *. destruct Hq as [->|(code & Hcode & ->)]; [lia|].
    unfold deliveryQoS, code_ok in *. destruct (Z.ltb_spec code (pub_QoS pub)); lia.
  - intros s pub q [Hok _] Hp. rewrite (oo_encoder _ Hok).
    destruct (newPublishTemplate _ _) as [t|e] eqn:E; [|done]. by eapply template_of_pub.
  - intros pkt Ha. destruct (Encode pkt) as [d|e] eqn:E; [|done]. left. by exists pkt.
  - done.
  - done.
Qed.

(** ** The queue of a session *)

Lemma allocate_packetID_range infl z id : allocate_packetID infl z = Some id → 0 < id < 65536.
Proof.
  unfold allocate_packetID. generalize (S (size infl)) as fuel. intros fuel. revert z.
  induction fuel as [|fuel IH]; intros z; simpl; [discriminate|].
  destruct (infl !! increment_packetID z); [apply IH|]. intros [= <-].
  unfold increment_packetID, u16. destruct (Z.eqb_spec ((z + 1) mod 65536) 0) as [->|Hne]; [done|].
  pose proof (Z.mod_pos_bound (z + 1) 65536 ltac:(lia)). lia.
Qed.

Lemma Next_good ep l t s d t' s' :
  Next ep l t s = Some (d, t', s') → Forall entry_good (heap s) →
  Forall entry_good (heap s') ∧ (∀ d0, d = Some d0 → server_packet (Data d0)).
Proof.
  intros H Hh. unfold Next in H. destruct (_ || _)%bool; [by injection H as <- _ <-|].
  destruct (next_unsent (heap s) ep (entries s)) as [[[r m]|]|] eqn:Hn; simpl in H; [|by injection H as <- _ <-|discriminate H].
  apply next_unsent_lookup in Hn. pose proof (Forall_lookup_1 _ _ _ _ Hh Hn) as [Ht Hid0].
  destruct (if negb _ then _ else _) as [[[[id next] infl] t1]|] eqn:Hid; simpl in H; [|discriminate H].
  assert (Hrange : 0 < id < 65536).
  { destruct (Z.eqb_spec (e_packetID m) 0) as [Hz|Hnz]; simpl in Hid.
    - destruct (allocate_packetID _ _) as [id'|] eqn:Ha; simpl in Hid; [|discriminate Hid]. injection Hid as <- _ _ _.
      by eapply allocate_packetID_range.
    - injection Hid as <- _ _ _. lia. }
  destruct (patch _ _ _ _) as [data|] eqn:Hp; simpl in H; [|discriminate H]. injection H as <- _ <-.
  split.
  - cbn [heap set_queue]. apply Forall_insert; [exact Hh|]. split; [exact Ht|]. cbn [e_packetID]. lia.
  - intros d0 [= <-]. destruct Ht as (pub & Hty & Htmpl). right.
    destruct (template_patches pub _ id (negb (e_packetID m =? 0)) Hty Htmpl Hrange) as (_ & data' & Hp' & He & _).
    cbn [raw t_packetIDOffset] in Hp'. assert (data' = data) as -> by congruence.
    exists (qos1_packet pub (negb (e_packetID m =? 0)) id). split; [|exact He].
    destruct Hty as (_ & _ & ? & ?). split_and!; simpl; unfold is_byte; done || lia.
Qed.

Lemma Ack_heap id l t s a t' s' : Ack id l t s = Some (a, t', s') → heap s' = heap s.
Proof.
  unfold Ack. destruct (inflight s !! id) as [r|]; [|by intros [= _ _ <-]]. destruct (deleted s); [by intros [= _ _ <-]|].
  destruct (heap s !! r); simpl; [|discriminate]. by intros [= _ _ <-].
Qed.

(** Sessions of the second store have the entries they had in the first. *)
Definition heaps_from (st st' : Store) : Prop :=
  ∀ p s', states st' !! p = Some s' → heap s' = [] ∨ ∃ s, states st !! p = Some s ∧ heap s' = heap s.

#[export] Instance heaps_from_preorder : PreOrder heaps_from.
Proof.
  split; [intros st p s Hs; right; by exists s|]. intros st1 st2 st3 H12 H23 p s3 Hs3.
  destruct (H23 p s3 Hs3) as [?|(s2 & Hs2 & E)]; [by left|]. rewrite E. by apply H12.
Qed.

Lemma heaps_from_same st st' : states st' = states st → heaps_from st st'.
Proof. intros E p s. rewrite E. intros Hs. right. by exists s. Qed.

Lemma heaps_from_insert st data p s' lim t :
  (heap s' = [] ∨ ∃ s, states st !! p = Some s ∧ heap s' = heap s) →
  heaps_from st (mkStore data (<[p := s']> (states st)) lim t).
Proof.
  intros Hp p0 s0. cbn [states]. intros [[<- <-]|[_ Hl]]%lookup_insert_Some; [exact Hp|]. right. by exists s0.
Qed.

Lemma deleteLocked_heaps id st st' : deleteLocked id st = Some st' → heaps_from st st'.
Proof.
  unfold deleteLocked. destruct (st_data st !! id) as [p|]; [|by intros [= <-]; apply heaps_from_same].
  destruct (states st !! p) as [s|] eqn:Hp; simpl; [|discriminate]. intros [= <-].
  apply heaps_from_insert. right. by exists s.
Qed.

Lemma expireLocked_heaps p now st gone st' : expireLocked p now st = Some (gone, st') → heaps_from st st'.
Proof.
  unfold expireLocked. destruct p as [p|]; [|by intros [= _ <-]]. destruct (_ =? 0); [by intros [= _ <-]|].
  destruct (states st !! p) as [s|]; simpl; [|discriminate]. destruct (_ || _)%bool; [by intros [= _ <-]|].
  destruct (deleteLocked _ st) as [st1|] eqn:Hd; simpl; [|discriminate]. intros [= _ <-].
  transitivity st1; [by eapply deleteLocked_heaps|by apply heaps_from_same].
Qed.

Lemma Expire_heaps now st ids st' : Expire now st = Some (ids, st') → heaps_from st st'.
Proof.
  unfold Expire. destruct (_ =? 0); [by intros [= _ <-]|]. generalize (map_to_list (st_data st)) as todo.
  generalize (@nil bytes) as acc. intros acc todo. revert acc st.
  induction todo as [|[id p] todo IH]; intros acc st; cbn [Expire_loop]; [by intros [= _ <-]|].
  destruct (expireLocked (Some p) now st) as [[gone st1]|] eqn:He; cbn [mbind option_bind]; [|discriminate].
  intros H. transitivity st1; [by eapply expireLocked_heaps|by eapply IH].
Qed.

Lemma GetOrCreateOwned_heaps id owner now st r st' : GetOrCreateOwned id owner now st = Some (r, st') → heaps_from st st'.
Proof.
  unfold GetOrCreateOwned. destruct (st_data st !! id) as [p|].
  - destruct (states st !! p) as [s|]; simpl; [|discriminate]. destruct (bool_decide _); by intros [= _ <-].
  - destruct (_ <=? _); intros [= _ <-]; [by apply heaps_from_same|]. apply heaps_from_insert. by left.
Qed.

Lemma speaking_store {A} x (f : Store → option (A * Store)) :
  (∀ st a st', f st = Some (a, st') → heaps_from st st') → speaking x any (on_store f).
Proof.
  intros Hf s a s' Hok (st' & H & ->)%on_store_inv. assert (Hsp : ∀ st, speaks x s (set_sessions s st)) by (intros; by apply speaks_same).
  split; [|by split]. apply (out_ok_speaks x s _ Hok); try done; try apply Hok. cbn [srv_sessions set_sessions].
  intros p st0 Hp. destruct (Hf _ _ _ H p st0 Hp) as [->|(st1 & Hp1 & ->)]; [constructor|by eapply (oo_queues _ Hok)].
Qed.

Lemma speaking_routes x f : (∀ b, retained (f b) = retained b) → speaking x any (on_broker f).
Proof.
  intros Hf. apply speaking_same. intros s a s' E. injection E as _ <-. split_and!; try done. apply Hf.
Qed.

Lemma speaking_any {A} x (Q : A → Prop) (m : action A) : speaking x Q m → speaking x any m.
Proof. apply triple_any. Qed.

Lemma speaking_bind {A B} x (Q : B → Prop) (m : action A) (k : A → action B) :
  speaking x any m → (∀ a, speaking x Q (k a)) → speaking x Q (m ≫= k).
Proof. intros Hm Hk. apply (triple_bind out_ok (speaks x) any); [exact Hm|]. intros a _. apply Hk. Qed.

Lemma speaking_ret {A} x (Q : A → Prop) a : Q a → speaking x Q (mret a).
Proof. by apply (triple_ret out_ok (speaks x)). Qed.

Lemma openSession_speaks x connect identity now : speaking x any (openSession connect identity now).
Proof.
  apply speaking_bind; [apply speaking_store; intros st a st'; apply expireLocked_heaps|]. intros gone.
  apply speaking_bind; [destruct gone; [by apply speaking_routes|by apply speaking_ret]|]. intros u.
  apply speaking_bind.
  - destruct (conn_CleanSession connect); [|by apply speaking_ret]. apply speaking_bind; [by apply speaking_routes|].
    intros u'. apply speaking_store. intros st a st'. destruct (Delete _ st) as [st1|] eqn:Hd; simpl; [|discriminate].
    intros [= _ <-]. by eapply deleteLocked_heaps.
  - intros u'. apply speaking_store. intros st a st'. apply GetOrCreateOwned_heaps.
Qed.

(** ** The registry *)

Lemma out_ok_registry x s cl ow :
  out_ok s → (∀ o a, ow !! o = Some a → ready a = true → greets s (ac_client a)) →
  out_ok (set_registry s cl ow) ∧ speaks x s (set_registry s cl ow).
Proof.
  intros Hok Ho. split; [|by apply speaks_same]. split; try apply Hok. exact Ho.
Qed.

(** A connection is replaced by one that is not ready or was. *)
Lemma out_ok_replace x s cl o a a' :
  out_ok s → srv_owners s !! o = Some a → ac_client a' = ac_client a → (ready a' = true → ready a = true) →
  out_ok (set_registry s cl (<[o := a']> (srv_owners s))) ∧ speaks x s (set_registry s cl (<[o := a']> (srv_owners s))).
Proof.
  intros Hok Ha Ec Hr. apply out_ok_registry; [done|]. intros o0 a0 [[<- <-]|[_ Hl]]%lookup_insert_Some.
  - intros Hready. rewrite Ec. eapply (oo_ready _ Hok); [exact Ha|by apply Hr].
  - intros Hready. by apply (oo_ready _ Hok o0 a0).
Qed.

Lemma subscribe_all_speaks x p id subs : speaking x any (subscribe_all p id subs).
Proof.
  induction subs as [|sub subs IH]; simpl; [by apply speaking_ret|].
  apply speaking_bind; [by apply speaking_routes|]. intros u. exact IH.
Qed.

Lemma acquireConnection_speaks x ctxErr connect cli identity now :
  speaking x any (acquireConnection ctxErr connect cli identity now).
Proof.
  intros s r s' Hok. unfold acquireConnection. destruct ctxErr as [err|]; [by intros [= <- <-]|].
  destruct (match Get _ _ with Some _ => _ | None => _ end) as [[|]|]; cbn [mbind option_bind]; [by intros [= <- <-]| |discriminate].
  destruct (srv_clients s !! _) as [previous|].
  - destruct (srv_owners s !! previous) as [prev|] eqn:Hprev; cbn [mbind option_bind]; [|discriminate].
    set (s1 := set_registry s (srv_clients s) (<[previous := beginClosing now prev]> (srv_owners s))).
    assert (H1 : out_ok s1 ∧ speaks x s s1).
    { apply (out_ok_replace x s _ previous prev _ Hok Hprev); unfold beginClosing; by destruct (closing prev). }
    destruct H1 as [Hok1 Hs1]. destruct (close_client _ s1) as [[u s2]|] eqn:Hc; cbn [mbind option_bind]; [|discriminate].
    intros [= <- <-]. assert (Hcl : speaking x any (close_client (ac_client prev)))
      by (apply speaking_carries; [intros c ds; apply Close_carries|done]).
    destruct (Hcl s1 u s2 Hok1 Hc) as (Hok2 & Hs2 & _). split; [done|]. split; [by transitivity s1|done].
  - destruct (openSession connect identity now s) as [[r0 s1]|] eqn:Ho; cbn [mbind option_bind]; [|discriminate].
    destruct (openSession_speaks x _ _ _ s r0 s1 Hok Ho) as (Hok1 & Hs1 & _).
    destruct r0 as [[p present]|err]; [|by intros [= <- <-]].
    assert (Hrest : speaking x any (_ ← on_session MarkConnected p; subs ← on_session SnapshotSubscriptions p;
                                    subscribe_all p (conn_ClientID connect) subs)).
    { apply speaking_bind; [apply speaking_session; intros *; apply (plain_heap _)|]. intros u.
      apply speaking_bind; [apply speaking_session; intros *; apply (plain_heap _)|]. intros subs. apply subscribe_all_speaks. }
    destruct (on_session MarkConnected p s1) as [[u s2]|] eqn:H2; cbn [mbind option_bind]; [|discriminate].
    destruct (on_session SnapshotSubscriptions p s2) as [[subs s3]|] eqn:H3; cbn [mbind option_bind]; [|discriminate].
    destruct (subscribe_all p _ subs s3) as [[u' s4]|] eqn:H4; cbn [mbind option_bind]; [|discriminate]. intros [= _ <-].
    destruct (Hrest s1 u' s4 Hok1) as (Hok4 & Hs4 & _).
    { unfold mbind, action_bind. rewrite H2. simpl. rewrite H3. simpl. exact H4. }
    destruct (out_ok_registry x s4 (<[conn_ClientID connect := fresh (dom (srv_owners s4))]> (srv_clients s4))
      (<[fresh (dom (srv_owners s4)) := mkActive cli p (conn_CleanSession connect) false false 0 false]> (srv_owners s4)) Hok4) as [Hok5 Hs5].
    { intros o a [[_ <-]|[_ Hl]]%lookup_insert_Some Hready; [discriminate Hready|by apply (oo_ready _ Hok4 o a)]. }
    split; [exact Hok5|]. split; [|exact I]. etransitivity; [exact Hs1|]. etransitivity; [exact Hs4|exact Hs5].
Qed.

Lemma closeSession_speaks x o : speaking x any (closeSession o).
Proof.
  intros s u s' Hok. unfold closeSession. destruct (srv_owners s !! o) as [a|] eqn:Ha; cbn [mbind option_bind]; [|discriminate].
  destruct (srv_conns s !! ac_client a) as [c|]; cbn [mbind option_bind]; [|discriminate].
  set (body := if bool_decide _ then _ else _).
  assert (Hbody : ∀ s1, body = Some s1 → out_ok s1 ∧ speaks x s s1 ∧ srv_owners s1 = srv_owners s).
  { intros s1. unfold body. destruct (bool_decide _); [|intros [= <-]; split; [done|split; [reflexivity|done]]].
    assert (Hend : ∀ r : option (unit * Server), (∀ u1 s2, r = Some (u1, s2) → out_ok s2 ∧ speaks x s s2 ∧ srv_owners s2 = srv_owners s) →
      ('(_, s2) ← r; Some (set_registry s2 (delete (c_id c) (srv_clients s2)) (srv_owners s2))) = Some s1 →
      out_ok s1 ∧ speaks x s s1 ∧ srv_owners s1 = srv_owners s).
    { intros r Hr. destruct r as [[u1 s2]|]; cbn [mbind option_bind]; [|discriminate]. intros [= <-].
      destruct (Hr u1 s2 eq_refl) as (Hok2 & Hs2 & Eo). 
      destruct (out_ok_registry x s2 (delete (c_id c) (srv_clients s2)) (srv_owners s2) Hok2) as [Hok3 Hs3]; [apply Hok2|].
      split; [exact Hok3|]. split; [by transitivity s2|exact Eo]. }
    apply Hend. intros u1 s2. destruct (cleanSession a).
    - intros H. assert (Hm : speaking x any (_ ← on_store (λ st, st ← Delete (c_id c) st; Some (tt, st));
                                            on_broker (λ b, Broker_UnsubscribeAll b (c_id c)))).
      { apply speaking_bind; [|intros u2; by apply speaking_routes]. apply speaking_store. intros st a0 st'.
        destruct (Delete _ st) as [st1|] eqn:Hd; simpl; [|discriminate]. intros [= _ <-]. by eapply deleteLocked_heaps. }
      destruct (Hm s u1 s2 Hok H) as (? & ? & _). split; [done|]. split; [done|].
      apply bind_inv in H as (u2 & s3 & (st3 & _ & ->)%on_store_inv & E). injection E as _ <-. reflexivity.
    - intros H. assert (Hm : speaking x any (on_session (MarkDisconnectedAt (disconnectedAt a)) (ac_session a)))
        by (apply speaking_session; intros *; apply (plain_heap _)).
      destruct (Hm s u1 s2 Hok H) as (? & ? & _). split; [done|]. split; [done|].
      apply on_session_inv in H as (? & ? & ? & _ & _ & ->). reflexivity. }
  destruct body as [s1|]; cbn [mbind option_bind]; [|discriminate]. destruct (Hbody s1 eq_refl) as (Hok1 & Hs1 & Eo).
  intros (a' & Ha' & _ & ->)%close_done_inv. rewrite <- Eo in Ha. assert (a' = a) as -> by congruence.
  destruct (out_ok_replace x s1 (srv_clients s1) o a (mkActive (ac_client a) (ac_session a) (cleanSession a) (closing a)
    (ready a) (disconnectedAt a) true) Hok1 Ha eq_refl ltac:(done)) as [Hok2 Hs2].
  split; [exact Hok2|]. split; [by transitivity s1|exact I].
Qed.

Lemma expire_sessions_speaks x now : speaking x any (expire_sessions now).
Proof.
  apply speaking_bind; [apply speaking_store; intros st a st'; apply Expire_heaps|]. intros ids.
  induction ids as [|id ids IH]; simpl; [by apply speaking_ret|].
  apply speaking_bind; [by apply speaking_routes|]. intros u. exact IH.
Qed.

(** ** CONNACK *)

(** Nothing was sent to client [cli]. *)
Definition unheard (s : Server) (cli : clientptr) : Prop := ∃ c, srv_conns s !! cli = Some c ∧ silent c.

Lemma speaks_unheard x s s' cli : speaks x s s' → ¬ x cli → unheard s cli → unheard s' cli.
Proof. intros Hs Hx (c & Hc & Hu). destruct (Hs cli c Hc) as (c' & Hc' & _ & S). exists c'. auto. Qed.

Lemma send_connack s cli present code deadline written err s' :
  out_ok s → unheard s cli → 0 <= code <= 5 →
  sendPacketWithDeadline cli (PConnAck (mkConnAck present code)) deadline written s = Some (err, s') →
  out_ok s' ∧ speaks (eq cli) s s' ∧ srv_owners s' = srv_owners s
  ∧ (err = None → code = ConnAckAccepted → greets s' cli).
Proof.
  intros Hok (c & Hc & Hu) Hcode H. unfold sendPacketWithDeadline in H.
  destruct (Encode (PConnAck (mkConnAck present code))) as [data|e] eqn:He; [|discriminate He].
  assert (Hack : connack code data) by by exists present.
  apply bind_inv in H as (err0 & s1 & (c0 & Hc0 & Eerr & ->)%on_client_inv & H). assert (c0 = c) as -> by congruence.
  assert (s' = set_conns s (<[cli := (enqueue c (mkWrite data (Some 0%nat) deadline)).2]> (srv_conns s))) as ->
    by (destruct err0; injection H as _ <-; reflexivity).
  set (c' := (enqueue c (mkWrite data (Some 0%nat) deadline)).2) in *.
  assert (Hc' : c' = c ∨ carries c' [data]) by exact (enqueue_silent c (mkWrite data (Some 0%nat) deadline) Hu).
  assert (Hsay : conversation [data] ∧ (code = ConnAckAccepted → accepted [data])).
  { assert (Hacc : code = ConnAckAccepted → accepted [data]) by (intros ->; by exists data, []).
    split; [|exact Hacc]. destruct (decide (code = 0)) as [->|]; [by apply welcomed, Hacc|]. by apply (refused code); [lia|]. }
  destruct Hsay as [Hconv Hacc].
  destruct (speaking_client (eq cli) s cli c c' Hok Hc) as [Hok' Hs'].
  - destruct Hc' as [->|Hcar]; [by apply silent_converses|by exists [data]].
  - intros Hg. destruct (enqueue_carries c (mkWrite data (Some 0%nat) deadline) [] Hu) as [E|[_ Hw]].
    + unfold c'. rewrite E. exact Hg.
    + by destruct (greeted_not_silent c Hw Hg).
  - intros Hn. by destruct Hn.
  - split; [exact Hok'|]. split; [exact Hs'|]. split; [reflexivity|]. intros -> ->.
    exists c'. cbn [srv_conns set_conns]. rewrite lookup_insert_eq. split; [reflexivity|].
    exists [data]. split; [by apply Hacc|]. destruct Hc' as [E|Hcar]; [|exact Hcar]. exfalso.
    destruct err0 as [e|]; [discriminate H|]. unfold enqueue in Eerr, E. subst c'. unfold enqueue in E.
    destruct (c_done c); [discriminate Eerr|]. destruct (_ <? _); [|discriminate Eerr]. simpl in E.
    apply (f_equal (length ∘ sendQ)) in E. simpl in E. rewrite length_app in E. simpl in E. lia.
Qed.

(** * What clients send *)

Definition will_typed (connect : ConnectPacket) : Prop :=
  ∀ w, conn_Will connect = Some w → publish_typed (will_message w).

Lemma field_bytes f rest : Forall is_byte (field f ++ rest) → Forall is_byte f ∧ Forall is_byte rest.
Proof. intros [H ?]%Forall_app. split; [|done]. unfold field in H. by apply Forall_app in H as [_ ?]. Qed.

Lemma decoded_typed pkt data :
  packet_accepted pkt → wire pkt data → Forall is_byte data →
  (∀ pub, pkt = PPublish pub → publish_typed pub) ∧ (∀ c, pkt = PConnect c → will_typed c).
Proof.
  intros Hok (ds & _ & _ & ->) [_ [_ Hb]%Forall_app]%Forall_cons. split.
  - intros pub ->. simpl in Hb, Hok. unfold publish_body in Hb. apply field_bytes in Hb as [Ht Hb].
    apply Forall_app in Hb as [_ Hp]. destruct Hok as (_ & Hq & H0 & Hid).
    assert (0 <= pub_PacketID pub < 65536)
      by (destruct (decide (pub_QoS pub = 0)) as [E|E]; [destruct (H0 E); lia|specialize (Hid ltac:(lia)); lia]).
    split_and!; try done; unfold is_byte; lia.
  - intros c -> w Hw. simpl in Hb, Hok. unfold connect_body in Hb.
    apply field_bytes in Hb as [_ Hb]. do 3 apply Forall_app in Hb as [_ Hb]. apply field_bytes in Hb as [_ Hb].
    rewrite Hw in Hb. simpl in Hb. rewrite <- !app_assoc in Hb. apply field_bytes in Hb as [Ht Hb]. apply field_bytes in Hb as [Hp _].
    destruct Hok as (_ & _ & _ & _ & _ & Hwill & _). destruct (Hwill w Hw) as (_ & _ & Hq).
    split_and!; try done; simpl; unfold is_byte; lia.
Qed.

(** * The invariant of the system *)

(** Nothing is sent on a connection before its CONNACK, and what its handler and its
    consumer send comes after an accepting one. *)
Definition phase_out (s : Server) (ph : phase) : Prop :=
  (∀ h o co, view ph = Some (h, o, co) → will_typed (h_connect h))
  ∧ match ph with
    | Authenticating h | Acquiring h | Awaiting h _ | Greeting h _ _ => unheard s (h_client h)
    | Welcoming h _ | Serving h _ _ | Subscribing h _ _ _ _ | Leaving h _ _ _ => greets s (h_client h)
    | Cleaning h _ co | Draining h _ co => co ≠ Returned → greets s (h_client h)
    | Handshaking _ | Finished => True
    end.

Record sys_out (sys : System) : Prop := {
  so_server : out_ok (sys_server sys);
  so_phases conn ph : sys_handlers sys !! conn = Some ph → phase_out (sys_server sys) ph }.

(** The client of a connection. *)
Definition own (ph : phase) (cli : clientptr) : Prop := ∃ h o co, view ph = Some (h, o, co) ∧ h_client h = cli.

Lemma phase_out_speaks x s s' ph :
  speaks x s s' → (∀ cli, own ph cli → ¬ x cli) → phase_out s ph → phase_out s' ph.
Proof.
  intros Hs Hx [Hw Hph]. split; [exact Hw|].
  destruct ph; try exact I; try (eapply speaks_unheard; [exact Hs|apply Hx; by do 3 eexists|exact Hph]);
    try (eapply speaks_greets; [exact Hs|exact Hph]); intros Hco; (eapply speaks_greets; [exact Hs|by apply Hph]).
Qed.

(** What a step of a connection has to show. *)
Definition step_out (ph : phase) (s : Server) (ph' : phase) (s' : Server) : Prop :=
  out_ok s' ∧ speaks (own ph) s s' ∧ phase_out s' ph'.

Lemma step_out_exec n sys conn ph ph' s' :
  sys_ok n sys → sys_out sys → sys_handlers sys !! conn = Some ph → step_out ph (sys_server sys) ph' s' →
  sys_out (mkSystem s' (<[conn := ph']> (sys_handlers sys))).
Proof.
  intros Hok Hout Hph (Hs' & Hsp & Hph'). split; [exact Hs'|]. cbn [sys_server sys_handlers].
  intros conn2 ph2 [[_ <-]|[Hne Hph2]]%lookup_insert_Some; [exact Hph'|].
  eapply phase_out_speaks; [exact Hsp| |by eapply (so_phases _ Hout)].
  intros cli (h2 & o2 & co2 & V2 & E2) (h1 & o1 & co1 & V1 & E1). apply Hne.
  eapply (sy_distinct _ _ Hok); [exact Hph|exact Hph2|exact V1|exact V2|congruence].
Qed.

(** Other events. *)
Lemma sys_out_speaks sys s' hs :
  sys_out sys → out_ok s' → speaks nobody (sys_server sys) s' →
  (∀ conn ph, hs !! conn = Some ph → sys_handlers sys !! conn = Some ph ∨ view ph = None) →
  sys_out (mkSystem s' hs).
Proof.
  intros Hout Hs' Hsp Hhs. split; [exact Hs'|]. cbn [sys_server sys_handlers]. intros conn ph Hph.
  destruct (Hhs conn ph Hph) as [H|H].
  - eapply phase_out_speaks; [exact Hsp|intros cli _ []|by eapply (so_phases _ Hout)].
  - split; [intros h o co E; congruence|]. destruct ph; try discriminate H; exact I.
Qed.

(** ** The steps of a connection *)

Lemma speaks_mono (x y : clientptr → Prop) s s' : (∀ cli, x cli → y cli) → speaks x s s' → speaks y s s'.
Proof. intros Hxy Hs cli c Hc. destruct (Hs cli c Hc) as (c' & ? & ? & S). exists c'. split_and!; auto. Qed.

Section steps.
Context (kdf : bytes → bytes → Z → Z → result bytes).

Lemma authenticateConnect_codes x c1 c2 c3 connect :
  speaking x (λ r, 0 <= r.2 <= 5) (authenticateConnect kdf c1 c2 c3 connect).
Proof.
  apply speaking_same. intros s [who code] s'. unfold authenticateConnect.
  destruct (srv_auth s) as [l|]; [|intros E; injection E as _ <- <-; split_and!; try done].
  destruct (Authenticate _ _ _ _ _ _) as [r l'].
  repeat case_match; intros E; injection E as _ <- <-; split_and!; done.
Qed.

Lemma rejectConnection_out s cli code deadline written u s' :
  out_ok s → unheard s cli → 0 <= code <= 5 → rejectConnection cli code deadline written s = Some (u, s') →
  out_ok s' ∧ speaks (eq cli) s s'.
Proof.
  intros Hok Hu Hcode H. unfold rejectConnection in H. apply bind_inv in H as (u1 & s1 & H1 & H).
  apply bind_inv in H as (err & s2 & H2 & E). injection E as _ <-.
  assert (Hcount : speaking nobody any (λ s, Some (tt, if code =? ConnAckNotAuthorized then count_auth s 0 1 else count_auth s 1 0))).
  { apply speaking_same. intros s0 a s0' E. injection E as _ <-. by destruct (code =? ConnAckNotAuthorized). }
  destruct (Hcount s u1 s1 Hok H1) as (Hok1 & Hs1 & _).
  assert (Hu1 : unheard s1 cli) by (eapply speaks_unheard; [exact Hs1|intros []|exact Hu]).
  destruct (send_connack s1 cli false code deadline written err s2 Hok1 Hu1 Hcode H2) as (Hok2 & Hs2 & _).
  split; [exact Hok2|]. etransitivity; [|exact Hs2]. eapply speaks_mono; [|exact Hs1]. intros ? [].
Qed.

Lemma do_handshake_out n sys conn r failed ph' s' :
  sys_ok n sys → sys_out sys → sys_handlers sys !! conn = Some (Handshaking r) →
  do_handshake failed r (sys_server sys) = Some (ph', s') → step_out (Handshaking r) (sys_server sys) ph' s'.
Proof.
  intros Hok Hout Hph H. pose proof (so_server _ Hout) as Hs.
  assert (Hsame : ph' = Finished → s' = sys_server sys → step_out (Handshaking r) (sys_server sys) ph' s').
  { intros -> ->. split; [exact Hs|]. split; [reflexivity|]. split; [by intros h o co E|exact I]. }
  unfold do_handshake in H. destruct failed as [err|]; [injection H as <- <-; by apply Hsame|].
  apply bind_inv in H as (hr & s1 & H1 & E). unfold handshake in H1.
  pose proof (po_reader _ _ (sy_phases _ _ Hok conn _ Hph) r eq_refl) as Hb.
  destruct (DecodeWithLimit r _) as [[pkt r']|err] eqn:Hdec; [|injection H1 as <- <-; injection E as <- <-; by apply Hsame].
  destruct pkt as [connect| | | | | | | | | |]; try (injection H1 as <- <-; injection E as <- <-; by apply Hsame).
  apply (proj1 (decode_exact _ _ _ _ Hb (sy_packets _ _ Hok))) in Hdec as (data & Hpkt & Hwire & _ & [Et _]).
  rewrite Et in Hb. apply Forall_app in Hb as [Hbd _].
  pose proof (proj2 (decoded_typed _ _ Hpkt Hwire Hbd) connect eq_refl) as Hwill.
  set (cli := fresh (dom (srv_conns (sys_server sys)))) in *.
  assert (Hnew : srv_conns (sys_server sys) !! cli = None) by (unfold cli; apply not_elem_of_dom, is_fresh).
  injection H1 as <- <-. injection E as <- <-. set (c := Client_New (conn_ClientID connect)).
  assert (Hc : silent c) by (split; [by exists []|done|done]).
  set (s1 := set_conns _ _).
  assert (Hsp : speaks (own (Handshaking r)) (sys_server sys) s1).
  { intros cli0 c0 Hc0. exists c0. cbn [srv_conns set_conns s1]. unfold s1. cbn [srv_conns set_conns].
    rewrite lookup_insert_ne by congruence. done. }
  split.
  - apply (out_ok_speaks (own (Handshaking r)) (sys_server sys) s1 Hs Hsp); try done; try apply Hs.
    unfold s1. cbn [srv_conns set_conns].
    intros cli0 c0 [[_ <-]|[_ Hl]]%lookup_insert_Some; [by apply silent_converses|by eapply (oo_clients _ Hs)].
  - split; [exact Hsp|]. split; [intros h o co E; injection E as <- _ _; exact Hwill|].
    exists c. unfold s1. cbn [srv_conns set_conns h_client]. by rewrite lookup_insert_eq.
Qed.

(** A step after which the connection only has to close. *)
Lemma leaves_out ph s s' h :
  (∃ o co, view ph = Some (h, o, co)) → will_typed (h_connect h) → out_ok s' → speaks (eq (h_client h)) s s' →
  step_out ph s (Cleaning h None Returned) s'.
Proof.
  intros (o & co & V) Hw Hok Hs. split; [exact Hok|]. split.
  - eapply speaks_mono; [|exact Hs]. intros cli <-. by exists h, o, co.
  - split; [intros h' o' co' E; by injection E as <- _ _|]. intros Hne. by destruct Hne.
Qed.

Lemma do_authenticate_out sys conn h c1 c2 c3 deadline written ph' s' :
  sys_out sys → sys_handlers sys !! conn = Some (Authenticating h) →
  do_authenticate kdf c1 c2 c3 deadline written h (sys_server sys) = Some (ph', s') →
  step_out (Authenticating h) (sys_server sys) ph' s'.
Proof.
  intros Hout Hph ([who code] & s1 & H1 & H)%bind_inv. pose proof (so_server _ Hout) as Hs.
  destruct (so_phases _ Hout conn _ Hph) as [Hw Hu]. specialize (Hw h None Returned eq_refl).
  destruct (authenticateConnect_codes nobody c1 c2 c3 (h_connect h) _ _ _ Hs H1) as (Hs1 & Hsp1 & Hcode). simpl in Hcode.
  assert (Hu1 : unheard s1 (h_client h)) by (eapply speaks_unheard; [exact Hsp1|intros []|exact Hu]).
  destruct (negb _).
  - apply bind_inv in H as (u & s2 & H2 & E). injection E as <- <-.
    destruct (rejectConnection_out _ _ _ _ _ _ _ Hs1 Hu1 Hcode H2) as [Hs2 Hsp2].
    apply leaves_out; [by do 2 eexists|exact Hw|exact Hs2|].
    etransitivity; [|exact Hsp2]. eapply speaks_mono; [|exact Hsp1]. intros ? [].
  - injection H as <- <-. split; [exact Hs1|]. split; [eapply speaks_mono; [|exact Hsp1]; intros ? []|].
    split; [intros h' o' co' E; injection E as <- _ _; exact Hw|exact Hu1].
Qed.

Lemma do_acquire_out sys conn h ctxErr now deadline written ph' s' :
  sys_out sys → sys_handlers sys !! conn = Some (Acquiring h) →
  do_acquire ctxErr now deadline written h (sys_server sys) = Some (ph', s') →
  step_out (Acquiring h) (sys_server sys) ph' s'.
Proof.
  intros Hout Hph (r & s1 & H1 & H)%bind_inv. pose proof (so_server _ Hout) as Hs.
  destruct (so_phases _ Hout conn _ Hph) as [Hw Hu]. specialize (Hw h None Returned eq_refl).
  destruct (acquireConnection_speaks nobody _ _ _ _ _ _ _ _ Hs H1) as (Hs1 & Hsp1 & _).
  assert (Hu1 : unheard s1 (h_client h)) by (eapply speaks_unheard; [exact Hsp1|intros []|exact Hu]).
  assert (Hsp1' : ∀ x, speaks x (sys_server sys) s1) by (intros x; eapply speaks_mono; [|exact Hsp1]; intros ? []).
  destruct r as [owner present|err|previous].
  - injection H as <- <-. split; [exact Hs1|]. split; [apply Hsp1'|].
    split; [intros h' o' co' E; injection E as <- _ _; exact Hw|exact Hu1].
  - apply bind_inv in H as (u & s2 & H2 & E). injection E as <- <-.
    destruct (bool_decide _).
    + destruct (rejectConnection_out s1 (h_client h) ConnAckNotAuthorized _ _ _ _ Hs1 Hu1 ltac:(unfold ConnAckNotAuthorized; lia) H2) as [Hs2 Hsp2].
      apply leaves_out; [by do 2 eexists|exact Hw|exact Hs2|]. etransitivity; [apply Hsp1'|exact Hsp2].
    + injection H2 as _ <-. apply leaves_out; [by do 2 eexists|exact Hw|exact Hs1|apply Hsp1'].
  - injection H as <- <-. split; [exact Hs1|]. split; [apply Hsp1'|].
    split; [intros h' o' co' E; injection E as <- _ _; exact Hw|exact Hu1].
Qed.

Lemma speaking_step ph s ph' s' :
  out_ok s' → speaks nobody s s' → phase_out s' ph' → step_out ph s ph' s'.
Proof. intros H1 H2 H3. split; [exact H1|]. split; [eapply speaks_mono; [|exact H2]; intros ? []|exact H3]. Qed.

(** A step to a phase of the same handler that asks no more of its client. *)
Lemma phase_out_next s ph ph' :
  phase_out s ph → (∀ h o co, view ph' = Some (h, o, co) → ∃ h0 o0 co0, view ph = Some (h0, o0, co0)
    ∧ h_client h = h_client h0 ∧ h_connect h = h_connect h0) →
  (∀ h o co, view ph = Some (h, o, co) → match ph' with
    | Authenticating _ | Acquiring _ | Awaiting _ _ | Greeting _ _ _ => unheard s (h_client h)
    | Welcoming _ _ | Serving _ _ _ | Subscribing _ _ _ _ _ | Leaving _ _ _ _ => greets s (h_client h)
    | Cleaning _ _ co | Draining _ _ co => co ≠ Returned → greets s (h_client h)
    | Handshaking _ | Finished => True end) → phase_out s ph'.
Proof.
  intros [Hw _] Hv Hp. split.
  - intros h o co V. destruct (Hv h o co V) as (h0 & o0 & co0 & V0 & _ & ->). by eapply Hw.
  - destruct ph'; try exact I; destruct (Hv _ _ _ eq_refl) as (h0 & o0 & co0 & V0 & -> & _); by apply (Hp h0 o0 co0).
Qed.

(** What [do_welcome] does when CONNACK was sent. *)
Lemma welcome_finish_out conn h o a s2 ph' s' :
  out_ok s2 → srv_owners s2 !! o = Some a → ac_client a = h_client h → greets s2 (h_client h) →
  (_ ← (λ s, Some (tt, set_group s (completeHandshake conn (srv_connections s))));
   _ ← set_ready o;
   epoch ← on_session BeginDelivery (ac_session a);
   mret (Serving h o (Running epoch))) s2 = Some (ph', s') →
  ∃ ep, ph' = Serving h o (Running ep) ∧ out_ok s' ∧ speaks nobody s2 s' ∧ greets s' (h_client h).
Proof.
  intros Hs2 Ha Hcl Hgreet H. apply bind_inv in H as (u & s3 & E & H). injection E as _ <-.
  apply bind_inv in H as (u' & s4 & H4 & H). apply bind_inv in H as (ep & s5 & H5 & E). injection E as <- <-.
  unfold set_ready in H4. cbn [srv_owners set_group] in H4. rewrite Ha in H4. simpl in H4. injection H4 as _ <-.
  set (s3 := set_group s2 _) in *.
  assert (H3 : out_ok s3 ∧ speaks nobody s2 s3) by (split; [by split; apply Hs2|by apply speaks_same]). destruct H3 as [Hs3 Hsp3].
  set (a' := mkActive _ _ _ _ _ _ _) in *.
  destruct (out_ok_registry nobody s3 (srv_clients s3) (<[o := a']> (srv_owners s3)) Hs3) as [Hs4 Hsp4].
  { intros o0 a0 [[_ <-]|[_ Hl]]%lookup_insert_Some Hready; [|by apply (oo_ready _ Hs3 o0 a0)].
    unfold a'. cbn [ac_client]. rewrite Hcl. eapply speaks_greets; [exact Hsp3|exact Hgreet]. }
  assert (Hbegin : speaking nobody any (on_session BeginDelivery (ac_session a)))
    by (apply speaking_session; intros *; apply (plain_heap _)).
  destruct (Hbegin _ _ _ Hs4 H5) as (Hs5 & Hsp5 & _).
  assert (Hsp : speaks nobody s2 s5) by (etransitivity; [exact Hsp3|]; etransitivity; [exact Hsp4|exact Hsp5]).
  exists ep. split; [reflexivity|]. split; [exact Hs5|]. split; [exact Hsp|]. by eapply speaks_greets.
Qed.

Lemma do_greet_out sys conn h o present deadline ph' s' :
  sys_out sys → sys_handlers sys !! conn = Some (Greeting h o present) →
  do_greet deadline h o present (sys_server sys) = Some (ph', s') →
  step_out (Greeting h o present) (sys_server sys) ph' s'.
Proof.
  intros Hout Hph H. pose proof (so_server _ Hout) as Hs.
  destruct (so_phases _ Hout conn _ Hph) as [Hw Hu]. specialize (Hw h (Some o) Returned eq_refl).
  apply bind_inv in H as (timeout & s1 & E & H). injection E as <- <-. apply bind_inv in H as (err & s1 & H1 & H).
  assert (Hset : speaking nobody any (on_client (λ c, SetWriteTimeout c (srv_writeTimeout (settings (sys_server sys)))) (h_client h)))
    by (apply speaking_carries; [intros c ds; apply SetWriteTimeout_carries|done]).
  destruct (Hset _ _ _ Hs H1) as (Hs1 & Hsp1 & _).
  assert (Hu1 : unheard s1 (h_client h)) by (eapply speaks_unheard; [exact Hsp1|intros []|exact Hu]).
  assert (Hsp1' : speaks (eq (h_client h)) (sys_server sys) s1) by (eapply speaks_mono; [|exact Hsp1]; intros ? []).
  assert (Hquit : ∀ s2, out_ok s2 → speaks (eq (h_client h)) (sys_server sys) s2 →
    step_out (Greeting h o present) (sys_server sys) (Cleaning h (Some o) Returned) s2).
  { intros s2 Hs2 Hsp2. split; [exact Hs2|]. split; [eapply speaks_mono; [|exact Hsp2]; intros cli <-; by do 3 eexists|].
    split; [intros h' o' co' E; by injection E as <- _ _|]. intros Hne. by destruct Hne. }
  destruct err as [err|]; [injection H as <- <-; by apply Hquit|].
  apply bind_inv in H as (err & s2 & H2 & E). injection E as <- <-.
  destruct (send_connack s1 (h_client h) present ConnAckAccepted deadline None err s2 Hs1 Hu1 ltac:(unfold ConnAckAccepted; lia) H2)
    as (Hs2 & Hsp2 & _ & Hgreet).
  assert (Hsp2' : speaks (eq (h_client h)) (sys_server sys) s2) by (by transitivity s1).
  destruct err as [err|]; [by apply Hquit|]. split; [exact Hs2|].
  split; [eapply speaks_mono; [|exact Hsp2']; intros cli <-; by do 3 eexists|].
  split; [intros h' o' co' E; by injection E as <- _ _|by apply Hgreet].
Qed.

Lemma do_welcome_out n sys conn h o written cleared ph' s' :
  sys_ok n sys → sys_out sys → sys_handlers sys !! conn = Some (Welcoming h o) →
  do_welcome written cleared conn h o (sys_server sys) = Some (ph', s') →
  step_out (Welcoming h o) (sys_server sys) ph' s'.
Proof.
  intros Hok Hout Hph H. pose proof (so_server _ Hout) as Hs.
  destruct (so_phases _ Hout conn _ Hph) as [Hw Hg]. specialize (Hw h (Some o) Returned eq_refl).
  destruct (proj2 (po_view _ _ (sy_phases _ _ Hok conn _ Hph) h (Some o) Returned eq_refl)) as (a & st & Ha & _ & Hcl & _).
  assert (Hquit : step_out (Welcoming h o) (sys_server sys) (Cleaning h (Some o) Returned) (sys_server sys)).
  { apply speaking_step; [exact Hs|reflexivity|]. split; [intros h' o' co' E; by injection E as <- _ _|].
    intros Hne. by destruct Hne. }
  unfold do_welcome in H. destruct written as [err|]; [by injection H as <- <-|].
  destruct cleared as [err|]; [by injection H as <- <-|].
  apply bind_inv in H as (sess & s1 & H1 & H). unfold owner_session in H1. rewrite Ha in H1. injection H1 as <- <-.
  destruct (welcome_finish_out conn h o a _ ph' s' Hs Ha Hcl Hg H) as (ep & -> & Hs5 & Hsp5 & Hg5).
  apply speaking_step; [exact Hs5|exact Hsp5|]. split; [intros h' o' co' E; by injection E as <- _ _|exact Hg5].
Qed.

(** What the handler of a packet does for a greeted client. *)
Lemma handlePacket_out cli sess pkt e s out s' :
  packet_accepted pkt → (∀ pub, pkt = PPublish pub → publish_typed pub) → out_ok s → greets s cli →
  handlePacket cli sess pkt e s = Some (out, s') → out_ok s' ∧ speaks nobody s s'.
Proof.
  intros Hpkt Hpub Hok Hg H.
  assert (Hor : pkt = PDisconnect ∨ (∃ id, pkt = PPubAck id) ∨ pkt ≠ PDisconnect ∧ ∀ id, pkt ≠ PPubAck id)
    by (destruct pkt; auto; right; try (right; split; discriminate); left; by eexists).
  destruct Hor as [->|[[id ->]|[Hd Ha]]].
  - injection H as _ <-. split; [exact Hok|reflexivity].
  - assert (Hack : speaking nobody any (handles (handlePubAck sess id))).
    { apply speaking_bind; [|intros err; by apply speaking_ret]. apply speaking_bind; [|intros u; by apply speaking_ret].
      apply speaking_session. intros l t st a t' st' ->%Ack_heap. done. }
    destruct (Hack s out s' Hok H) as (? & ? & _). done.
  - destruct (handlePacket_triple (speaking_handling cli) sess pkt e Hpkt Hpub Hd Ha ltac:(done) s out s' (conj Hok Hg) H)
      as ([? _] & ? & _). done.
Qed.

(** A step of [serve] that went as far as the end of a handler. *)
Lemma after_packet_out ph s h h' o co err s' :
  phase_out s' ph → view ph = Some (h, Some o, co) → greets s' (h_client h) →
  h_client h' = h_client h → h_connect h' = h_connect h →
  out_ok s' → speaks nobody s s' → step_out ph s (after_packet h' o co err) s'.
Proof.
  intros Hpo V Hg Ec Ek Hok Hsp. destruct err as [err|]; (apply speaking_step; [exact Hok|exact Hsp|]);
    (apply (phase_out_next _ _ _ Hpo); intros h0 o0 co0 E; [injection E as <- _ _; by exists h, (Some o), co|]);
    rewrite V in E; by injection E as <- _ _.
Qed.

Lemma do_serve_out n sys conn h o co cancelled e ph' s' :
  sys_ok n sys → sys_out sys → sys_handlers sys !! conn = Some (Serving h o co) →
  do_serve cancelled e h o co (sys_server sys) = Some (ph', s') → step_out (Serving h o co) (sys_server sys) ph' s'.
Proof.
  intros Hok Hout Hph H. pose proof (so_server _ Hout) as Hs. pose proof (so_phases _ Hout conn _ Hph) as Hpo.
  destruct (proj1 (po_view _ _ (sy_phases _ _ Hok conn _ Hph) h (Some o) co eq_refl)) as [Hb _].
  assert (Hquit : step_out (Serving h o co) (sys_server sys) (Leaving h o co false) (sys_server sys)).
  { apply speaking_step; [exact Hs|reflexivity|]. apply (phase_out_next _ _ _ Hpo); [|intros h0 o0 co0 E; injection E as <- _ _; apply Hpo].
    intros h0 o0 co0 E. injection E as <- _ _. by exists h, (Some o), co. }
  unfold do_serve in H. destruct cancelled; [injection H as <- <-; exact Hquit|].
  apply bind_inv in H as (limit & s1 & E & H). injection E as <- <-.
  destruct (DecodeWithLimit _ _) as [[pkt r]|err] eqn:Hdec; [|injection H as <- <-; exact Hquit].
  apply (proj1 (decode_exact _ _ _ _ Hb (sy_packets _ _ Hok))) in Hdec as (data & Hpkt & Hwire & _ & [Et _]).
  rewrite Et in Hb. apply Forall_app in Hb as [Hbd _].
  pose proof (proj1 (decoded_typed _ _ Hpkt Hwire Hbd)) as Hpub.
  apply bind_inv in H as (sess & s1 & H1 & H). apply bind_inv in H as (out & s2 & H2 & E). injection E as <- <-.
  assert (s1 = sys_server sys) as ->.
  { unfold owner_session in H1. destruct (srv_owners (sys_server sys) !! o); simpl in H1; [|discriminate H1]. by injection H1 as _ <-. }
  destruct (handlePacket_out _ _ _ _ _ _ _ Hpkt Hpub Hs (proj2 Hpo) H2) as [Hs2 Hsp2].
  assert (Hpo2 : phase_out s2 (Serving h o co)) by (eapply phase_out_speaks; [exact Hsp2|intros cli _ []|exact Hpo]).
  destruct out as [err|p codes]; [by apply (after_packet_out _ _ h); [|reflexivity|apply Hpo2|..]|].
  apply speaking_step; [exact Hs2|exact Hsp2|].
  apply (phase_out_next _ _ _ Hpo2); intros h0 o0 co0 E; injection E as <- _ _; [|apply Hpo2]. by exists h, (Some o), co.
Qed.

Lemma do_subscribed_out n sys conn h o co p codes written clock ph' s' :
  sys_ok n sys → sys_out sys → sys_handlers sys !! conn = Some (Subscribing h o co p codes) →
  do_subscribed written clock h o co p codes (sys_server sys) = Some (ph', s') →
  step_out (Subscribing h o co p codes) (sys_server sys) ph' s'.
Proof.
  intros Hok Hout Hph (sess & s1 & H1 & H)%bind_inv. apply bind_inv in H as (err & s2 & H2 & E). injection E as <- <-.
  pose proof (so_server _ Hout) as Hs. pose proof (so_phases _ Hout conn _ Hph) as Hpo.
  assert (s1 = sys_server sys) as ->.
  { unfold owner_session in H1. destruct (srv_owners (sys_server sys) !! o); simpl in H1; [|discriminate H1]. by injection H1 as _ <-. }
  destruct (handleSubscribe_retained_triple (speaking_handling (h_client h)) sess p codes written clock
    (po_waiting _ _ (sy_phases _ _ Hok conn _ Hph)) ltac:(done) _ err s2 (conj Hs (proj2 Hpo)) H2) as ([Hs2 _] & Hsp2 & _).
  assert (Hpo2 : phase_out s2 (Subscribing h o co p codes)) by (eapply phase_out_speaks; [exact Hsp2|intros cli _ []|exact Hpo]).
  by apply (after_packet_out _ _ h); [|reflexivity|apply Hpo2|..].
Qed.

Lemma do_leave_out sys conn clock h o co clean ph' s' :
  sys_out sys → sys_handlers sys !! conn = Some (Leaving h o co clean) →
  do_leave clock h o co clean (sys_server sys) = Some (ph', s') →
  step_out (Leaving h o co clean) (sys_server sys) ph' s'.
Proof.
  intros Hout Hph H. pose proof (so_server _ Hout) as Hs. pose proof (so_phases _ Hout conn _ Hph) as Hpo.
  destruct (do_leave_exact _ _ _ _ _ _ _ _ H) as [-> Hwill].
  assert (Hs' : out_ok s' ∧ speaks nobody (sys_server sys) s').
  { destruct (conn_Will (h_connect h)) as [will|] eqn:Hw; [|subst s'; split; [exact Hs|reflexivity]].
    destruct clean; [subst s'; split; [exact Hs|reflexivity]|]. destruct Hwill as (err & Hp).
    destruct (publishMessage_triple (speaking_handling (h_client h)) clock (will_message will)
      (proj1 Hpo h (Some o) co eq_refl will Hw) _ _ _ (conj Hs (proj2 Hpo)) Hp) as ([? _] & ? & _). done. }
  destruct Hs' as [Hs' Hsp]. apply speaking_step; [exact Hs'|exact Hsp|].
  assert (Hpo2 : phase_out s' (Leaving h o co clean)) by (eapply phase_out_speaks; [exact Hsp|intros cli _ []|exact Hpo]).
  apply (phase_out_next _ _ _ Hpo2); intros h0 o0 co0 E; injection E as <- _ _; [by exists h, (Some o), co|].
  intros _. apply Hpo2.
Qed.

Lemma do_clean_out sys conn now h o co ph' s' :
  sys_out sys → sys_handlers sys !! conn = Some (Cleaning h o co) →
  do_clean now h o co (sys_server sys) = Some (ph', s') → step_out (Cleaning h o co) (sys_server sys) ph' s'.
Proof.
  intros Hout Hph H. pose proof (so_server _ Hout) as Hs. pose proof (so_phases _ Hout conn _ Hph) as Hpo.
  unfold do_clean in H. apply bind_inv in H as (u & s1 & H1 & H). apply bind_inv in H as (u' & s2 & H2 & E). injection E as <- <-.
  assert (H1' : out_ok s1 ∧ speaks nobody (sys_server sys) s1).
  { destruct o as [o|]; [|injection H1 as _ <-; split; [exact Hs|reflexivity]]. unfold begin_closing in H1.
    destruct (srv_owners (sys_server sys) !! o) as [a|] eqn:Ha; simpl in H1; [|discriminate H1]. injection H1 as _ <-.
    apply (out_ok_replace nobody _ _ o a _ Hs Ha); unfold beginClosing; by destruct (closing a). }
  destruct H1' as [Hs1 Hsp1].
  assert (Hcl : speaking nobody any (close_client (h_client h)))
    by (apply speaking_carries; [intros c ds; apply Close_carries|done]).
  destruct (Hcl s1 u' s2 Hs1 H2) as (Hs2 & Hsp2 & _).
  assert (Hsp : speaks nobody (sys_server sys) s2) by (by transitivity s1).
  apply speaking_step; [exact Hs2|exact Hsp|]. eapply phase_out_speaks in Hpo; [|exact Hsp|intros cli _ []].
  apply (phase_out_next _ _ _ Hpo); intros h0 o0 co0 E; injection E as <- _ _; [by exists h, o, co|]. apply Hpo.
Qed.

Lemma do_drain_out sys conn h o ph' s' :
  sys_out sys → sys_handlers sys !! conn = Some (Draining h o Returned) →
  do_drain o (sys_server sys) = Some (ph', s') → step_out (Draining h o Returned) (sys_server sys) ph' s'.
Proof.
  intros Hout Hph H. pose proof (so_server _ Hout) as Hs. unfold do_drain in H.
  apply bind_inv in H as (u & s1 & H1 & E). injection E as <- <-.
  assert (Hm : speaking nobody any (match o with Some o => closeSession o | None => mret tt end))
    by (destruct o; [apply closeSession_speaks|by apply speaking_ret]).
  destruct (Hm _ _ _ Hs H1) as (Hs1 & Hsp1 & _). apply speaking_step; [exact Hs1|exact Hsp1|].
  split; [intros h0 o0 co0 E; discriminate E|exact I].
Qed.

(** The consumer. *)
Lemma consumer_greeted s ph h o co :
  phase_out s ph → consumer_of ph = Some (h, o, co) → co ≠ Returned → greets s (h_client h).
Proof.
  intros [_ Hp] V Hco. destruct ph as [| | | | | | | | |h' [o'|] co'|h' [o'|] co'|]; try discriminate V;
    injection V as <- <- <-; try exact Hp; by apply Hp.
Qed.

Lemma set_consumer_out s ph h o co co' :
  phase_out s ph → consumer_of ph = Some (h, o, co) → co ≠ Returned → phase_out s (set_consumer co' ph).
Proof.
  intros Hp V Hco. pose proof (consumer_greeted s ph h o co Hp V Hco) as Hg.
  destruct ph as [| | | | | | | | |h' [o'|] c|h' [o'|] c|]; try discriminate V; injection V as <- <- <-;
    (split; [intros hh oo cc E; injection E as <- _ _; by eapply (proj1 Hp)|]); try exact Hg; by intros _.
Qed.

Lemma do_consume_speaks cancelled cli sess ep :
  triple (λ s, out_ok s ∧ greets s cli) (speaks nobody) any (do_consume cancelled cli sess ep).
Proof.
  assert (Hlift : ∀ {A} (Q : A → Prop) m, speaking nobody Q m →
    triple (λ s, out_ok s ∧ greets s cli) (speaks nobody) Q m).
  { intros A Q m Hm s a s' [Hok Hg] H. destruct (Hm s a s' Hok H) as (Hok' & Hs & HQ).
    split; [split; [done|by eapply speaks_greets]|done]. }
  set (J := λ s, out_ok s ∧ greets s cli) in *.
  apply (triple_bind J (speaks nobody) any); [apply Hlift, speaking_carries; done|]. intros closed _.
  destruct (cancelled || closed)%bool; [by apply (triple_ret J (speaks nobody))|].
  apply (triple_bind J (speaks nobody) (λ d, ∀ d0, d = Some d0 → server_packet (Data d0))).
  { apply Hlift, speaking_session. apply Next_good. }
  intros [d|] Hd; [|by apply (triple_ret J (speaks nobody))].
  apply (triple_bind J (speaks nobody) any).
  { apply (triple_any J (speaks nobody) (err_in any)). apply (hd_enqueue _ _ _ _ _ _ _ (speaking_handling cli)). by apply Hd. }
  intros [err|] _; [|by apply (triple_ret J (speaks nobody))].
  apply (triple_bind J (speaks nobody) any); [apply (hd_close _ _ _ _ _ _ _ (speaking_handling cli))|].
  intros u _. by apply (triple_ret J (speaks nobody)).
Qed.

Lemma do_sent_speaks written cli ep :
  triple (λ s, out_ok s ∧ greets s cli) (speaks nobody) any (do_sent written cli ep).
Proof.
  destruct written; [|by apply (triple_ret _ (speaks nobody))].
  apply (triple_bind _ (speaks nobody) any); [apply (hd_close _ _ _ _ _ _ _ (speaking_handling cli))|].
  intros u _. by apply (triple_ret _ (speaks nobody)).
Qed.

Lemma consumer_moves_out sys conn ph h o co (m : action consumer) ph' s' :
  sys_out sys → sys_handlers sys !! conn = Some ph → consumer_of ph = Some (h, o, co) → co ≠ Returned →
  triple (λ s, out_ok s ∧ greets s (h_client h)) (speaks nobody) any m →
  (co' ← m; mret (set_consumer co' ph)) (sys_server sys) = Some (ph', s') → step_out ph (sys_server sys) ph' s'.
Proof.
  intros Hout Hph V Hco Hm H. pose proof (so_server _ Hout) as Hs. pose proof (so_phases _ Hout conn _ Hph) as Hpo.
  pose proof (consumer_greeted _ _ _ _ _ Hpo V Hco) as Hg.
  apply bind_inv in H as (co' & s2 & H2 & E). injection E as <- <-.
  destruct (Hm _ _ _ (conj Hs Hg) H2) as ([Hs2 _] & Hsp & _). apply speaking_step; [exact Hs2|exact Hsp|].
  eapply phase_out_speaks in Hpo; [|exact Hsp|intros cli _ []]. by eapply set_consumer_out.
Qed.

Lemma consumer_step_out sys conn ph h o co (k : stateptr → action consumer) ph' s' :
  sys_out sys → sys_handlers sys !! conn = Some ph → consumer_of ph = Some (h, o, co) → co ≠ Returned →
  (∀ sess, triple (λ s, out_ok s ∧ greets s (h_client h)) (speaks nobody) any (k sess)) →
  (sess ← owner_session o; co' ← k sess; mret (set_consumer co' ph)) (sys_server sys) = Some (ph', s') →
  step_out ph (sys_server sys) ph' s'.
Proof.
  intros Hout Hph V Hco Hk H. apply bind_inv in H as (sess & s1 & H1 & H).
  assert (s1 = sys_server sys) as ->.
  { unfold owner_session in H1. destruct (srv_owners (sys_server sys) !! o); simpl in H1; [|discriminate H1]. by injection H1 as _ <-. }
  by eapply (consumer_moves_out sys conn ph h o co (k sess)).
Qed.

Lemma phase_step_out n sys conn i ph act ph' s' :
  sys_ok n sys → sys_out sys → sys_handlers sys !! conn = Some ph → phase_step kdf conn i ph = Some act →
  act (sys_server sys) = Some (ph', s') → step_out ph (sys_server sys) ph' s'.
Proof.
  intros Hok Hout Hph Hact Hrun. destruct i as [failed|c1 c2 c3 dl w|ctxErr now dl w|b|dl|w cl|b e|w ck|clock|now| |b|w|w].
  - destruct ph; try discriminate Hact. injection Hact as <-. by eapply do_handshake_out.
  - destruct ph; try discriminate Hact. injection Hact as <-. by eapply do_authenticate_out.
  - destruct ph; try discriminate Hact. injection Hact as <-. by eapply do_acquire_out.
  - destruct ph as [| | |h previous| | | | | | | |]; try discriminate Hact. injection Hact as <-.
    injection Hrun as <- <-. pose proof (so_phases _ Hout conn _ Hph) as Hpo.
    apply speaking_step; [apply Hout|reflexivity|]. apply (phase_out_next _ _ _ Hpo).
    + intros h0 o0 co0 E. exists h, None, Returned. destruct b; injection E as <- _ _; done.
    + intros h0 o0 co0 E. injection E as <- _ _. destruct b; simpl; [intros Hne; by destruct Hne|apply Hpo].
  - destruct ph; try discriminate Hact. injection Hact as <-. by eapply do_greet_out.
  - destruct ph; try discriminate Hact. injection Hact as <-. by eapply do_welcome_out.
  - destruct ph; try discriminate Hact. injection Hact as <-. by eapply do_serve_out.
  - destruct ph; try discriminate Hact. injection Hact as <-. by eapply do_subscribed_out.
  - destruct ph; try discriminate Hact. injection Hact as <-. by eapply do_leave_out.
  - destruct ph; try discriminate Hact. injection Hact as <-. by eapply do_clean_out.
  - destruct ph as [| | | | | | | | | |h o [| | |]|]; try discriminate Hact. injection Hact as <-. by eapply do_drain_out.
  - cbn [phase_step] in Hact. destruct (consumer_of ph) as [[[h o] [ep|ep|ep|]]|] eqn:V; try discriminate Hact.
    injection Hact as <-. eapply consumer_step_out; [exact Hout|exact Hph|exact V|discriminate| |exact Hrun].
    intros sess. apply do_consume_speaks.
  - cbn [phase_step] in Hact. destruct (consumer_of ph) as [[[h o] [ep|ep|ep|]]|] eqn:V; try discriminate Hact.
    injection Hact as <-. eapply consumer_moves_out; [exact Hout|exact Hph|exact V|discriminate| |exact Hrun].
    apply do_sent_speaks.
  - cbn [phase_step] in Hact. destruct (consumer_of ph) as [[[h o] [ep|ep|ep|]]|] eqn:V; try discriminate Hact.
    injection Hact as <-. eapply consumer_step_out; [exact Hout|exact Hph|exact V|discriminate| |exact Hrun].
    intros sess. destruct w; simpl; try by apply (triple_ret _ (speaks nobody)).
    apply (triple_bind _ (speaks nobody) any); [apply (hd_plain _ _ _ _ _ _ _ (speaking_handling (h_client h))), _|].
    intros u _. by apply (triple_ret _ (speaks nobody)).
Qed.

Lemma exec_out n sys e sys' :
  sys_ok n sys → sys_out sys → sys_enabled kdf e sys = true → sys_exec kdf e sys = Some sys' → sys_out sys'.
Proof.
  intros Hok Hout Hen Hex. pose proof (so_server _ Hout) as Hs.
  destruct e as [ctxErr conn r|conn i|conn|cli set n' err|cli|now]; cbn [sys_exec] in Hex.
  - destruct (start _ _ _ _) as [o g]. injection Hex as <-. apply (sys_out_speaks sys); [exact Hout| |by apply speaks_same|].
    + split; apply Hs.
    + intros conn0 ph Hph. destruct (decide (o = Started)); [|by left].
      apply lookup_insert_Some in Hph as [[_ <-]|[_ Hph]]; [by right|by left].
  - apply bind_Some in Hex as (ph & Hph & Hex). apply bind_Some in Hex as (act & Hact & Hex).
    apply bind_Some in Hex as ([ph' s'] & Hrun & Hex). injection Hex as <-.
    eapply step_out_exec; [exact Hok|exact Hout|exact Hph|]. by eapply phase_step_out.
  - apply (exec_finish_inv kdf) in Hex as (g & _ & ->). apply (sys_out_speaks sys); [exact Hout| |by apply speaks_same|].
    + split; apply Hs.
    + intros conn0 ph [_ Hph]%lookup_delete_Some. by left.
  - apply (exec_write_inv kdf) in Hex as (c & w & q & c' & Hc & Hn & Hw & ->).
    assert (Hcar : ∀ ds, carries c ds → carries c' ds) by (intros ds; by eapply writer_carries).
    destruct (oo_clients _ Hs cli c Hc) as (ds & Hds & Hcds).
    destruct (speaking_client nobody _ cli c c' Hs Hc) as [Hs' Hsp];
      [exists ds; split; [exact Hds|by apply Hcar]|intros (ds' & ? & ?); exists ds'; split; [done|by apply Hcar]|intros _; apply Hcar|].
    apply (sys_out_speaks sys); [exact Hout|exact Hs'|exact Hsp|]. by left.
  - apply (exec_exit_inv kdf) in Hex as (c & c' & Hc & Hx & ->). cbn [sys_enabled] in Hen. rewrite Hc in Hen.
    apply andb_true_iff in Hen as [Hd _].
    assert (Hcar : ∀ ds, carries c ds → carries c' ds) by (intros ds; by apply writeLoop_exit_carries).
    destruct (oo_clients _ Hs cli c Hc) as (ds & Hds & Hcds).
    destruct (speaking_client nobody _ cli c c' Hs Hc) as [Hs' Hsp];
      [exists ds; split; [exact Hds|by apply Hcar]|intros (ds' & ? & ?); exists ds'; split; [done|by apply Hcar]|intros _; apply Hcar|].
    apply (sys_out_speaks sys); [exact Hout|exact Hs'|exact Hsp|]. by left.
  - apply bind_Some in Hex as ([u s'] & Hrun & Hex). injection Hex as <-.
    destruct (expire_sessions_speaks nobody now _ _ _ Hs Hrun) as (Hs' & Hsp & _).
    apply (sys_out_speaks sys); [exact Hout|exact Hs'|exact Hsp|]. by left.
Qed.

Lemma start_out sets policy b st :
  configured policy b st → encodePublishFn sets = encodePublishPacket → sys_out (new_system sets policy b st).
Proof.
  intros [_ (lb & Hb) (ls & Hst)] He. split; [split|].
  - intros cli c Hc. discriminate Hc.
  - intros o a Ha. discriminate Ha.
  - unfold NewWithLimits in Hst. destruct (Limits_Validate ls); [discriminate Hst|]. injection Hst as <-. intros p s Hp. discriminate Hp.
  - unfold Broker_NewWithLimits in Hb. destruct (RetainedLimits_Validate lb); [discriminate Hb|]. injection Hb as <-. intros t pub Ht. discriminate Ht.
  - exact He.
  - intros conn ph Hph. discriminate Hph.
Qed.

Lemma reachable_out n sys :
  sys_reachable kdf n sys → Z.of_nat n < 2 ^ 64 → encodePublishFn (settings (sys_server sys)) = encodePublishPacket →
  sys_out sys.
Proof.
  induction 1 as [sets policy b st Hcfg _|n sys e sys' Hr IH Hen Hex]; intros Hlt He; [by apply start_out|].
  pose proof (reachable_sys_ok kdf n sys Hr ltac:(lia)) as Hok.
  eapply exec_out; [exact Hok| |exact Hen|exact Hex]. apply IH; [lia|].
  rewrite <- (kb_settings _ _ _ (exec_kept kdf _ sys e sys' Hok Hex)). exact He.
Qed.
End steps.

(** * Theorem *)

(** C5: everything the server writes on a connection is typed MQTT output.  In every
    reachable state of the system, the bytes written to a client so far are a prefix
    of the encodings of a sequence of whole packets: none at all, or one CONNACK with
    a refusing code and nothing after it, or a CONNACK that accepts followed by
    encodings of PUBLISH, SUBACK, UNSUBACK, PUBACK and PINGRESP packets only.  While
    the connection's writer runs, the bytes written and the queue together are exactly
    those encodings.  So no packet is split, interleaved or dropped, nothing precedes
    CONNACK and nothing follows a refusal, for any interleaving of the handlers,
    consumers, publishers and writers. *)
Theorem output_conforms kdf n sys cli c :
  sys_reachable kdf n sys → Z.of_nat n < 2 ^ 64 → encodePublishFn (settings (sys_server sys)) = encodePublishPacket →
  srv_conns (sys_server sys) !! cli = Some c →
  ∃ ds, conversation ds ∧ sent c `prefix_of` concat ds
    ∧ (c_writeDone c = false → sent c ++ concat (w_data <$> sendQ c) = concat ds).
Proof.
  intros Hr Hlt He Hc. destruct (reachable_out kdf n sys Hr Hlt He) as [Hs _].
  destruct (oo_clients _ Hs cli c Hc) as (ds & Hds & [Hsent Hq _]). by exists ds.
Qed.

(** A client that connected, and its CONNACK. *)
Lemma output_conforms_witness :
  ∃ sys cli c, run_events no_kdf will_events (will_system encodePublishPacket) = Some sys
    ∧ srv_conns (sys_server sys) !! cli = Some c ∧ sent c ++ concat (w_data <$> sendQ c) ≠ []
    ∧ ∃ ds, conversation ds ∧ sent c `prefix_of` concat ds
        ∧ (c_writeDone c = false → sent c ++ concat (w_data <$> sendQ c) = concat ds).
Proof.
  pose proof (will_system_encoder encodePublishPacket) as Hs.
  assert (Hc : match run_events no_kdf will_events (will_system encodePublishPacket) with
    | Some sys => match srv_conns (sys_server sys) !! 0%nat with
                  | Some c => negb (bool_decide (sent c ++ concat (w_data <$> sendQ c) = [])) | None => false end
    | None => false end = true) by (vm_compute; reflexivity).
  destruct (run_events no_kdf will_events (will_system encodePublishPacket)) as [sys|] eqn:Hrun; [|discriminate Hc].
  pose proof (run_events_reachable no_kdf will_events 0 _ sys (will_system_reachable no_kdf encodePublishPacket) Hrun) as Hr.
  destruct (srv_conns (sys_server sys) !! 0%nat) as [c|] eqn:Hcli; [|discriminate Hc].
  exists sys, 0%nat, c. split; [reflexivity|]. split; [exact Hcli|].
  split; [by apply negb_true_iff, bool_decide_eq_false in Hc|].
  apply (output_conforms no_kdf _ sys 0%nat c Hr); [reflexivity|exact Hs|exact Hcli].
Defined.
