(* ===== verification/Pool.v ===== *)
(** The pools of reused memory: the slices of subscriptions of [Tree.Match]
    (src/internal/topic/pool.go, tree.go and src/internal/broker/broker.go) and the
    buffers of [encodePublishPacket] (src/internal/server/server.go).

    Goroutines share both pools, so the memory is explicit here: arrays and buffers
    are cells of a heap, and a step of one goroutine may write to cells that others
    refer to.  Nobody may notice; the rest of the development uses the pure functions
    [Match], [Publish] and [encodePublishPacket]. *)

From S2P Require Import Prelude Topic Wire Filters Tree Broker Encoder Delivery.

Local Open Scope Z_scope.
Local Open Scope orb_scope.

(** * Exclusive use *)

(** [holds k r]: goroutine [k] uses object [r].  What is in the pool is there once and
    not in use, and nothing is used by two. *)
Record exclusive (pool : list nat) (holds : nat → nat → Prop) : Prop := {
  ex_pool : NoDup pool;
  ex_free k r : holds k r → r ∉ pool;
  ex_holder k k' r : holds k r → holds k' r → k = k' }.

(** A step of goroutine [k], which takes objects out of the pool, puts one it uses
    there, or uses objects that nobody used. *)
Lemma exclusive_step k (pool pool' : list nat) (holds holds' : nat → nat → Prop) :
  exclusive pool holds → NoDup pool' → (∀ r, r ∈ pool' → r ∈ pool ∨ holds k r) →
  (∀ k' r, k' ≠ k → holds' k' r → holds k' r) →
  (∀ r, holds' k r → (r ∉ pool') ∧ (∀ k', k' ≠ k → ¬ holds k' r)) → exclusive pool' holds'.
Proof.
  intros [_ Hfree Hone] Hnd Hpool Hother Hmine. split; [exact Hnd| |].
  - intros k' r Hr. destruct (decide (k' = k)) as [->|Hne]; [by apply Hmine|].
    pose proof (Hother k' r Hne Hr) as Hh. intros [Hin|Hin]%Hpool; [by eapply Hfree|]. by apply Hne, (Hone k' k r).
  - intros k1 k2 r H1 H2. destruct (decide (k1 = k)) as [->|N1], (decide (k2 = k)) as [->|N2]; [done| | |].
    + destruct (Hmine r H1) as [_ Hno]. by destruct (Hno k2 N2 (Hother k2 r N2 H2)).
    + destruct (Hmine r H2) as [_ Hno]. by destruct (Hno k1 N1 (Hother k1 r N1 H1)).
    + by apply (Hone k1 k2 r); apply Hother.
Qed.

(** Element [i] of a list of distinct objects, and the others. *)
Lemma delete_others {A} (f : A → nat) (l : list A) i x :
  l !! i = Some x → NoDup (f <$> l) →
  NoDup (f <$> delete i l) ∧ (f x ∉ (f <$> delete i l)) ∧ (∀ y, y ∈ delete i l → y ∈ l).
Proof.
  intros Hi Hnd. rewrite (delete_take_drop l i). rewrite <- (take_drop_middle l i x Hi) in Hnd at 1.
  rewrite fmap_app, fmap_cons in Hnd. apply NoDup_app in Hnd as (H1 & H2 & [H3 H4]%NoDup_cons). rewrite fmap_app. split_and!.
  - apply NoDup_app. split_and!; [exact H1| |exact H4]. intros r Hr Hr'. apply (H2 r Hr). by right.
  - intros [Hr|Hr]%elem_of_app; [|done]. apply (H2 _ Hr). left.
  - intros y [Hy|Hy]%elem_of_app.
    + apply list_elem_of_lookup in Hy as (j & Hj). apply lookup_take_Some in Hj as [Hj _]. by eapply list_elem_of_lookup_2.
    + apply list_elem_of_lookup in Hy as (j & Hj). rewrite lookup_drop in Hj. by eapply list_elem_of_lookup_2.
Qed.

(** [Publish] without an error visits the matching subscriptions. *)
Lemma Publish_visits {S} b pub deliver (s0 : S) b' s' :
  Publish b pub deliver s0 = (None, b', s') →
  s' = foldl (λ s sub, (deliver sub s).2) s0 (Match (topics b) (pub_Topic pub)).
Proof.
  unfold Publish, updateRetained. destruct (pub_Retain pub); [|by intros [= _ <-]].
  destruct (_ && _)%bool; [done|]. by intros [= _ <-].
Qed.

(** * The slices of subscriptions *)

Module Subs.
(** Array [s_arr] up to [s_len].  The length of an array is its capacity; an element
    that was never written, the zero value, is [None]. *)
Record slice := mkSlice {
  s_arr : nat;
  s_len : nat }.

Abbreviation slice_memory := (gmap nat (list (option Subscription))).

(** [append(s, x)]: it writes to the array while there is room, and to a new one with
    the old elements otherwise; [newcap] is the capacity Go gives to that. *)
Definition append_sub (m : slice_memory) (s : slice) (x : Subscription) (newcap : nat) : option (slice_memory * slice) :=
  cells ← m !! s_arr s;
  if (s_len s <? length cells)%nat
  then Some (<[s_arr s := <[s_len s := Some x]> cells]> m, mkSlice (s_arr s) (S (s_len s)))
  else
    let r := fresh (dom m) in
    Some (<[r := take (s_len s) cells ++ Some x :: replicate (newcap - S (s_len s)) None]> m, mkSlice r (S (s_len s))).

(** [s[i]]; none is a panic. *)
Definition index_sub (m : slice_memory) (s : slice) (i : nat) : option (option Subscription) :=
  if (i <? s_len s)%nat then cells ← m !! s_arr s; cells !! i else None.

(** A call of [Broker.Publish]: it is in the loop of [Match] with subscriptions still
    to append_sub, in its own loop at index_sub [i], or it returned. *)
Inductive publish_phase :=
| Matching (s : slice) (todo : list Subscription)
| Delivering (s : slice) (i : nat)
| Published.

(** [matched] are the values of the map of [Match], in the order it ranges over them;
    [delivered] are the arguments of [deliver] so far. *)
Record publisher := mkPublisher {
  matched : list Subscription;
  at_ : publish_phase;
  delivered : list (option Subscription) }.

(** [subsPool] and the calls of [Publish] of all goroutines. *)
Record slices_state := mkSlices {
  arrays : slice_memory;
  subsPool : list slice;
  publishers : gmap nat publisher }.

Definition no_slices : slices_state := mkSlices ∅ [] ∅.

Inductive publish_event :=
| EMatch (k : nat) (from : option nat) (t : Tree) (topic : bytes)
| EAppend (k : nat) (newcap : nat)
| ERange (k : nat)
| EDeliver (k : nat)
| EPutSubs (k : nat)
| EDropSlice (i : nat).

(** The capacity of the slices that [New] of the pool makes, and the largest capacity
    that goes back to it. *)
Definition new_capacity : nat := 16.
Definition max_pooled : Z := 1024.

(** [subsPool.Get]: an element of the pool, or what [New] makes. *)
Definition subsPool_Get (from : option nat) (st : slices_state) : option (slice * slice_memory * list slice) :=
  match from with
  | Some i => s ← subsPool st !! i; Some (s, arrays st, delete i (subsPool st))
  | None =>
      let r := fresh (dom (arrays st)) in
      Some (mkSlice r 0, <[r := replicate new_capacity None]> (arrays st), subsPool st)
  end.

(** [PutSubs]. *)
Definition PutSubs (s : slice) (st : slices_state) : option (list slice) :=
  cells ← arrays st !! s_arr s;
  Some (if max_pooled <? len cells then subsPool st else mkSlice (s_arr s) 0 :: subsPool st).

Definition set_publisher (k : nat) (p : publisher) (st : slices_state) : slices_state :=
  mkSlices (arrays st) (subsPool st) (<[k := p]> (publishers st)).

(** The events that can happen. *)
Definition publish_enabled (e : publish_event) (st : slices_state) : bool :=
  match e with
  | EMatch k from _ _ =>
      bool_decide (publishers st !! k = None)
      && match from with Some i => bool_decide (i < length (subsPool st))%nat | None => true end
  | EAppend k _ => match at_ <$> publishers st !! k with Some (Matching _ (_ :: _)) => true | _ => false end
  | ERange k => match at_ <$> publishers st !! k with Some (Matching _ []) => true | _ => false end
  | EDeliver k => match at_ <$> publishers st !! k with Some (Delivering s i) => (i <? s_len s)%nat | _ => false end
  | EPutSubs k => match at_ <$> publishers st !! k with Some (Delivering s i) => negb (i <? s_len s)%nat | _ => false end
  | EDropSlice i => bool_decide (i < length (subsPool st))%nat
  end.

(** An event; none is a panic.  The garbage collector may drop what is in the pool. *)
Definition publish_exec (e : publish_event) (st : slices_state) : option slices_state :=
  match e with
  | EMatch k from t topic =>
      '(s, m, pool) ← subsPool_Get from st;
      let subs := Match t topic in
      Some (mkSlices m pool (<[k := mkPublisher subs (Matching (mkSlice (s_arr s) 0) subs) []]> (publishers st)))
  | EAppend k newcap =>
      p ← publishers st !! k;
      match at_ p with
      | Matching s (x :: todo) =>
          '(m, s) ← append_sub (arrays st) s x newcap;
          Some (mkSlices m (subsPool st) (<[k := mkPublisher (matched p) (Matching s todo) (delivered p)]> (publishers st)))
      | _ => None
      end
  | ERange k =>
      p ← publishers st !! k;
      match at_ p with
      | Matching s [] => Some (set_publisher k (mkPublisher (matched p) (Delivering s 0) (delivered p)) st)
      | _ => None
      end
  | EDeliver k =>
      p ← publishers st !! k;
      match at_ p with
      | Delivering s i =>
          sub ← index_sub (arrays st) s i;
          Some (set_publisher k (mkPublisher (matched p) (Delivering s (S i)) (delivered p ++ [sub])) st)
      | _ => None
      end
  | EPutSubs k =>
      p ← publishers st !! k;
      match at_ p with
      | Delivering s _ =>
          pool ← PutSubs s st;
          Some (mkSlices (arrays st) pool (<[k := mkPublisher (matched p) Published (delivered p)]> (publishers st)))
      | _ => None
      end
  | EDropSlice i => Some (mkSlices (arrays st) (delete i (subsPool st)) (publishers st))
  end.

(** A run of the goroutines and the collector. *)
Fixpoint publish_run (es : list publish_event) (st : slices_state) : option slices_state :=
  match es with
  | [] => Some st
  | e :: es => if publish_enabled e st then st ← publish_exec e st; publish_run es st else None
  end.

(** ** The invariant *)

(** The slice that a publisher uses. *)
Definition slice_of (p : publisher) : option slice :=
  match at_ p with Matching s _ | Delivering s _ => Some s | Published => None end.

Definition uses_slice (st : slices_state) (k r : nat) : Prop :=
  ∃ p s, publishers st !! k = Some p ∧ slice_of p = Some s ∧ s_arr s = r.

(** Slice [s] has the elements [xs]. *)
Definition has_elements (m : slice_memory) (s : slice) (xs : list Subscription) : Prop :=
  ∃ cells, m !! s_arr s = Some cells ∧ s_len s = length xs ∧ (Some <$> xs) `prefix_of` cells.

Definition publisher_ok (m : slice_memory) (p : publisher) : Prop :=
  match at_ p with
  | Matching s todo => ∃ xs, matched p = xs ++ todo ∧ has_elements m s xs ∧ delivered p = []
  | Delivering s i =>
      has_elements m s (matched p) ∧ (i <= length (matched p))%nat ∧ delivered p = Some <$> take i (matched p)
  | Published => delivered p = Some <$> matched p
  end.

Record slices_ok (st : slices_state) : Prop := {
  sl_exclusive : exclusive (s_arr <$> subsPool st) (uses_slice st);
  sl_pool s : s ∈ subsPool st → ∃ cells, arrays st !! s_arr s = Some cells ∧ len cells <= max_pooled;
  sl_publishers k p : publishers st !! k = Some p → publisher_ok (arrays st) p }.
Lemma has_arrays m m' s xs : m' !! s_arr s = m !! s_arr s → has_elements m s xs → has_elements m' s xs.
Proof. intros E (cells & Hc & ?). exists cells. by rewrite E. Qed.

(** A publisher reads no array but its own. *)
Lemma publisher_ok_arrays m m' p :
  (∀ s, slice_of p = Some s → m' !! s_arr s = m !! s_arr s) → publisher_ok m p → publisher_ok m' p.
Proof.
  unfold slice_of, publisher_ok. destruct (at_ p) as [s todo|s i|]; intros Hs; [|intros (? & ?)|done].
  - intros (xs & ? & Hh & ?). exists xs. split_and!; try done. eapply has_arrays; [by apply Hs|done].
  - split; [|done]. eapply has_arrays; [by apply Hs|done].
Qed.

Lemma has_empty m s cells : m !! s_arr s = Some cells → has_elements m (mkSlice (s_arr s) 0) [].
Proof. intros Hc. exists cells. split_and!; [done|done|apply prefix_nil]. Qed.

(** [append_sub] adds an element, to the same array or to a new one. *)
Lemma append_has m s xs x newcap :
  has_elements m s xs → ∃ m' s', append_sub m s x newcap = Some (m', s') ∧ has_elements m' s' (xs ++ [x])
    ∧ (s_arr s' = s_arr s ∨ s_arr s' ∉ dom m) ∧ ∀ r, r ≠ s_arr s' → m' !! r = m !! r.
Proof.
  intros (cells & Hc & Hl & [rest Hp]). unfold append_sub. rewrite Hc. cbn [mbind option_bind].
  assert (Hlen : length cells = (length xs + length rest)%nat) by (rewrite Hp, length_app, length_fmap; done).
  assert (Hx : Some <$> (xs ++ [x]) = (Some <$> xs) ++ [Some x]) by by rewrite fmap_app.
  destruct (Nat.ltb_spec (s_len s) (length cells)) as [Hroom|Hfull]; eexists _, _; (split; [reflexivity|]); cbn [s_arr s_len].
  - split; [|split; [by left|intros r Hne; by rewrite lookup_insert_ne by congruence]].
    destruct rest as [|y rest]; [simpl in *; lia|]. exists ((Some <$> xs) ++ Some x :: rest). split_and!.
    + cbn [s_arr]. rewrite lookup_insert_eq, Hp, Hl, <- (length_fmap Some xs), insert_app_r_alt, Nat.sub_diag by lia. reflexivity.
    + rewrite length_app. simpl. lia.
    + rewrite Hx. exists rest. by rewrite <- app_assoc.
  - split; [|split; [right; apply is_fresh|intros r Hne; by rewrite lookup_insert_ne by congruence]].
    eexists. cbn [s_arr s_len]. split_and!; [by rewrite lookup_insert_eq|rewrite length_app; simpl; lia|].
    rewrite Hp, Hl, <- (length_fmap Some xs), take_app_length, Hx. eexists. by rewrite <- app_assoc.
Qed.

Lemma index_has m s xs i x : has_elements m s xs → xs !! i = Some x → index_sub m s i = Some (Some x).
Proof.
  intros (cells & Hc & Hl & [rest Hp]) Hi. unfold index_sub. rewrite Hc, Hl. pose proof (lookup_lt_Some _ _ _ Hi).
  destruct (Nat.ltb_spec i (length xs)); [|lia]. cbn [mbind option_bind]. rewrite Hp, lookup_app_l by (rewrite length_fmap; lia).
  by rewrite list_lookup_fmap, Hi.
Qed.

(** The arrays in use exist. *)
Lemma holds_array st k r : slices_ok st → uses_slice st k r → is_Some (arrays st !! r).
Proof.
  intros Hok (p & s & Hp & Hs & <-). pose proof (sl_publishers _ Hok k p Hp) as Ho. unfold slice_of, publisher_ok in *.
  destruct (at_ p) as [s' todo|s' i|]; try discriminate Hs; injection Hs as ->.
  - destruct Ho as (xs & _ & (cells & Hc & _) & _). by exists cells.
  - destruct Ho as ((cells & Hc & _) & _). by exists cells.
Qed.

(** A step of goroutine [k] that changes no array of another. *)
Lemma slices_ok_step st k p m pool :
  slices_ok st → publisher_ok m p →
  (∀ r, r ∈ (s_arr <$> subsPool st) ∨ (∃ k', k' ≠ k ∧ uses_slice st k' r) → m !! r = arrays st !! r) →
  exclusive (s_arr <$> pool) (uses_slice (mkSlices m pool (<[k := p]> (publishers st)))) →
  (∀ s, s ∈ pool → s ∈ subsPool st ∨ ∃ cells, m !! s_arr s = Some cells ∧ len cells <= max_pooled) →
  slices_ok (mkSlices m pool (<[k := p]> (publishers st))).
Proof.
  intros Hok Hp Hm Hex Hpool. split; [exact Hex| |]; cbn [arrays subsPool publishers].
  - intros s [Hs|Hs]%Hpool; [|exact Hs]. destruct (sl_pool _ Hok s Hs) as (cells & Hc & Hlen). exists cells.
    split; [|exact Hlen]. rewrite Hm; [exact Hc|]. left. by apply list_elem_of_fmap_2.
  - intros k' p' [[<- <-]|[Hne Hp']]%lookup_insert_Some; [exact Hp|].
    eapply publisher_ok_arrays; [|by eapply (sl_publishers _ Hok)]. intros s Hs. apply Hm. right. exists k'.
    split; [done|]. by exists p', s.
Qed.

(** What the others use stays. *)
Lemma holds_move st k p m pool k' r :
  k' ≠ k → uses_slice (mkSlices m pool (<[k := p]> (publishers st))) k' r → uses_slice st k' r.
Proof. intros Hne (p' & s & Hp & Hs). cbn [publishers] in Hp. rewrite lookup_insert_ne in Hp by done. by exists p', s. Qed.

Lemma holds_self st k p m pool r :
  uses_slice (mkSlices m pool (<[k := p]> (publishers st))) k r → ∃ s, slice_of p = Some s ∧ s_arr s = r.
Proof. intros (p' & s & Hp & Hs). cbn [publishers] in Hp. rewrite lookup_insert_eq in Hp. injection Hp as <-. by exists s. Qed.
Lemma pool_array st r : slices_ok st → r ∈ (s_arr <$> subsPool st) → is_Some (arrays st !! r).
Proof. intros Hok (s & -> & Hs)%list_elem_of_fmap. destruct (sl_pool _ Hok s Hs) as (cells & Hc & _). by exists cells. Qed.

(** Arrays that exist keep their elements, so does everybody who uses them. *)
Lemma slices_ok_step_new st k p m pool :
  slices_ok st → publisher_ok m p → (∀ r, is_Some (arrays st !! r) → m !! r = arrays st !! r) →
  exclusive (s_arr <$> pool) (uses_slice (mkSlices m pool (<[k := p]> (publishers st)))) →
  (∀ s, s ∈ pool → s ∈ subsPool st ∨ ∃ cells, m !! s_arr s = Some cells ∧ len cells <= max_pooled) →
  slices_ok (mkSlices m pool (<[k := p]> (publishers st))).
Proof.
  intros Hok Hp Hm. apply slices_ok_step; [exact Hok|exact Hp|]. intros r [Hr|(k' & _ & Hr)]; apply Hm.
  - by apply pool_array.
  - by eapply holds_array.
Qed.

Lemma fresh_unused st :
  slices_ok st → (fresh (dom (arrays st)) ∉ (s_arr <$> subsPool st)) ∧ (∀ k, ¬ uses_slice st k (fresh (dom (arrays st)))).
Proof.
  intros Hok. pose proof (is_fresh (dom (arrays st))) as Hf. rewrite not_elem_of_dom in Hf.
  split; [intros Hr%(pool_array st _ Hok)|intros k Hr%(holds_array st k _ Hok)]; rewrite Hf in Hr; by destruct Hr.
Qed.

(** What [Get] gives nobody uses. *)
Lemma pool_Get_ok from st s m pool :
  slices_ok st → subsPool_Get from st = Some (s, m, pool) →
  has_elements m (mkSlice (s_arr s) 0) [] ∧ NoDup (s_arr <$> pool) ∧ (s_arr s ∉ (s_arr <$> pool))
  ∧ (∀ s', s' ∈ pool → s' ∈ subsPool st) ∧ (∀ k, ¬ uses_slice st k (s_arr s))
  ∧ (∀ r, is_Some (arrays st !! r) → m !! r = arrays st !! r).
Proof.
  intros Hok. unfold subsPool_Get. destruct from as [i|]; [destruct (subsPool st !! i) as [s0|] eqn:Hi; [|discriminate]|];
    intros [= <- <- <-].
  - destruct (delete_others s_arr _ i s0 Hi (ex_pool _ _ (sl_exclusive _ Hok))) as (Hnd & Hni & Hin).
    pose proof (list_elem_of_lookup_2 _ _ _ Hi) as Hs0. destruct (sl_pool _ Hok s0 Hs0) as (cells & Hc & _).
    split_and!; try done; [by eapply has_empty|]. intros k Hk. apply (ex_free _ _ (sl_exclusive _ Hok) k _ Hk).
    by apply list_elem_of_fmap_2.
  - destruct (fresh_unused st Hok) as [Hf1 Hf2]. cbn [s_arr]. split_and!; try done.
    + eexists. cbn [s_arr s_len]. split_and!; [by rewrite lookup_insert_eq|done|apply prefix_nil].
    + apply (ex_pool _ _ (sl_exclusive _ Hok)).
    + intros r [cells Hr]. rewrite lookup_insert_ne; [done|]. intros <-.
      by apply (is_fresh (dom (arrays st))), elem_of_dom_2 with cells.
Qed.

(** A publisher that keeps its array, or takes a new one, or gives it back. *)
Lemma exclusive_publisher st k p m pool :
  slices_ok st → NoDup (s_arr <$> pool) → (∀ r, r ∈ (s_arr <$> pool) → r ∈ (s_arr <$> subsPool st) ∨ uses_slice st k r) →
  (∀ s, slice_of p = Some s → (s_arr s ∉ (s_arr <$> pool)) ∧ ∀ k', k' ≠ k → ¬ uses_slice st k' (s_arr s)) →
  exclusive (s_arr <$> pool) (uses_slice (mkSlices m pool (<[k := p]> (publishers st)))).
Proof.
  intros Hok Hnd Hpool Hp. eapply (exclusive_step k); [apply (sl_exclusive _ Hok)|exact Hnd|exact Hpool| |].
  - intros k' r Hne. by apply holds_move.
  - intros r (s & Hs & <-)%holds_self. by apply Hp.
Qed.

(** The array of a publisher is its own. *)
Lemma own_array st k p s :
  slices_ok st → publishers st !! k = Some p → slice_of p = Some s →
  (s_arr s ∉ (s_arr <$> subsPool st)) ∧ (∀ k', k' ≠ k → ¬ uses_slice st k' (s_arr s)).
Proof.
  intros Hok Hp Hs. assert (Hk : uses_slice st k (s_arr s)) by by exists p, s.
  split; [by apply (ex_free _ _ (sl_exclusive _ Hok) k)|]. intros k' Hne Hk'. by apply Hne, (ex_holder _ _ (sl_exclusive _ Hok) k' k (s_arr s)).
Qed.

Lemma set_publisher_ok st k p p' :
  slices_ok st → publishers st !! k = Some p → slice_of p' = slice_of p → publisher_ok (arrays st) p' → slices_ok (set_publisher k p' st).
Proof.
  intros Hok Hp Hs Hp'. apply slices_ok_step_new; [exact Hok|exact Hp'|done| |by left].
  apply exclusive_publisher; [exact Hok|apply (ex_pool _ _ (sl_exclusive _ Hok))|by left|].
  rewrite Hs. intros s Hs'. by eapply own_array.
Qed.

Lemma publish_get_ok st k from t topic :
  slices_ok st → publish_enabled (EMatch k from t topic) st = true → ∃ st', publish_exec (EMatch k from t topic) st = Some st' ∧ slices_ok st'.
Proof.
  intros Hok [Hk%bool_decide_eq_true_1 Hfrom]%andb_true_iff. cbn [publish_exec].
  assert (Hget : ∃ s m pool, subsPool_Get from st = Some (s, m, pool)).
  { unfold subsPool_Get. destruct from as [i|]; [|by do 3 eexists]. apply bool_decide_eq_true_1, lookup_lt_is_Some in Hfrom as [s Hs].
    rewrite Hs. by do 3 eexists. }
  destruct Hget as (s & m & pool & Hget). rewrite Hget. cbn [mbind option_bind]. eexists. split; [reflexivity|].
  destruct (pool_Get_ok _ _ _ _ _ Hok Hget) as (Hh & Hnd & Hni & Hsub & Hno & Hm).
  apply slices_ok_step_new; [exact Hok| |exact Hm| |by left; apply Hsub].
  - exists []. split_and!; [done|exact Hh|done].
  - apply exclusive_publisher; [exact Hok|exact Hnd| |].
    + intros r (s' & -> & Hs')%list_elem_of_fmap. left. apply list_elem_of_fmap_2. by apply Hsub.
    + intros s' [= <-]. split; [exact Hni|]. intros k' _. apply Hno.
Qed.

Lemma publish_append_ok st k newcap :
  slices_ok st → publish_enabled (EAppend k newcap) st = true → ∃ st', publish_exec (EAppend k newcap) st = Some st' ∧ slices_ok st'.
Proof.
  intros Hok Hen. cbn [publish_enabled publish_exec] in *. destruct (publishers st !! k) as [p|] eqn:Hp; [|discriminate Hen].
  cbn [fmap option_fmap option_map mbind option_bind] in *. pose proof (sl_publishers _ Hok k p Hp) as Ho.
  destruct (at_ p) as [s [|x todo]| |] eqn:Hat; try discriminate Hen. unfold publisher_ok in Ho. rewrite Hat in Ho.
  destruct Ho as (xs & Hxs & Hh & Hd). destruct (append_has _ _ _ x newcap Hh) as (m & s' & Happ & Hh' & Hs' & Hm).
  rewrite Happ. cbn [mbind option_bind]. eexists. split; [reflexivity|].
  assert (Hown : (s_arr s' ∉ (s_arr <$> subsPool st)) ∧ ∀ k', k' ≠ k → ¬ uses_slice st k' (s_arr s')).
  { destruct Hs' as [->|Hnew]; [apply (own_array st k p); try done; unfold slice_of; by rewrite Hat|].
    rewrite not_elem_of_dom in Hnew. split; [intros Hr%(pool_array st _ Hok)|intros k' _ Hr%(holds_array st k' _ Hok)];
      rewrite Hnew in Hr; by destruct Hr. }
  apply slices_ok_step; [exact Hok| | | |by left].
  - exists (xs ++ [x]). cbn [matched delivered]. rewrite <- app_assoc. done.
  - intros r Hr. apply Hm. intros ->. destruct Hown as [Hn1 Hn2]. destruct Hr as [Hr|(k' & Hne & Hr)]; [done|by apply (Hn2 k')].
  - apply exclusive_publisher; [exact Hok|apply (ex_pool _ _ (sl_exclusive _ Hok))|by left|]. by intros s0 [= <-].
Qed.

Lemma publish_range_ok st k :
  slices_ok st → publish_enabled (ERange k) st = true → ∃ st', publish_exec (ERange k) st = Some st' ∧ slices_ok st'.
Proof.
  intros Hok Hen. cbn [publish_enabled publish_exec] in *. destruct (publishers st !! k) as [p|] eqn:Hp; [|discriminate Hen].
  cbn [fmap option_fmap option_map mbind option_bind] in *. pose proof (sl_publishers _ Hok k p Hp) as Ho.
  destruct (at_ p) as [s [|x todo]| |] eqn:Hat; try discriminate Hen. unfold publisher_ok in Ho. rewrite Hat in Ho.
  destruct Ho as (xs & Hxs & Hh & Hd). eexists. split; [reflexivity|]. eapply set_publisher_ok; [exact Hok|exact Hp| |].
  - unfold slice_of. by rewrite Hat.
  - rewrite app_nil_r in Hxs. split_and!; cbn [matched delivered]; [by rewrite Hxs|lia|done].
Qed.

Lemma publish_deliver_ok st k :
  slices_ok st → publish_enabled (EDeliver k) st = true → ∃ st', publish_exec (EDeliver k) st = Some st' ∧ slices_ok st'.
Proof.
  intros Hok Hen. cbn [publish_enabled publish_exec] in *. destruct (publishers st !! k) as [p|] eqn:Hp; [|discriminate Hen].
  cbn [fmap option_fmap option_map mbind option_bind] in *. pose proof (sl_publishers _ Hok k p Hp) as Ho.
  destruct (at_ p) as [|s i|] eqn:Hat; try discriminate Hen. unfold publisher_ok in Ho. rewrite Hat in Ho.
  destruct Ho as (Hh & Hi & Hd). pose proof Hh as (_ & _ & Hl & _). apply Nat.ltb_lt in Hen. rewrite Hl in Hen.
  apply lookup_lt_is_Some in Hen as [x Hx]. rewrite (index_has _ _ _ _ _ Hh Hx). cbn [mbind option_bind].
  eexists. split; [reflexivity|]. eapply set_publisher_ok; [exact Hok|exact Hp| |].
  - unfold slice_of. by rewrite Hat.
  - split_and!; cbn [matched delivered]; [exact Hh|by apply lookup_lt_Some in Hx|].
    rewrite Hd, (take_S_r _ _ _ Hx), fmap_app. done.
Qed.

Lemma publish_put_ok st k :
  slices_ok st → publish_enabled (EPutSubs k) st = true → ∃ st', publish_exec (EPutSubs k) st = Some st' ∧ slices_ok st'.
Proof.
  intros Hok Hen. cbn [publish_enabled publish_exec] in *. destruct (publishers st !! k) as [p|] eqn:Hp; [|discriminate Hen].
  cbn [fmap option_fmap option_map mbind option_bind] in *. pose proof (sl_publishers _ Hok k p Hp) as Ho.
  destruct (at_ p) as [|s i|] eqn:Hat; try discriminate Hen. unfold publisher_ok in Ho. rewrite Hat in Ho.
  destruct Ho as (Hh & Hi & Hd). pose proof Hh as (cells & Hc & Hl & _).
  apply negb_true_iff, Nat.ltb_ge in Hen. rewrite Hl in Hen. unfold PutSubs. rewrite Hc. cbn [mbind option_bind].
  eexists. split; [reflexivity|].
  assert (Hs : slice_of p = Some s) by (unfold slice_of; by rewrite Hat). destruct (own_array st k p s Hok Hp Hs) as [Hni _].
  pose proof (ex_pool _ _ (sl_exclusive _ Hok)) as Hnd.
  apply slices_ok_step_new; [exact Hok| |done| |].
  - unfold publisher_ok. cbn [at_ delivered matched]. rewrite Hd. by rewrite take_ge by lia.
  - apply exclusive_publisher; [exact Hok| | |discriminate].
    + destruct (_ <? _); [exact Hnd|]. cbn [fmap list_fmap s_arr]. by constructor.
    + intros r. destruct (_ <? _); [by left|]. cbn [fmap list_fmap s_arr]. intros [->|Hr]%elem_of_cons; [|by left].
      right. by exists p, s.
  - intros s0. destruct (Z.ltb_spec max_pooled (len cells)) as [|Hle]; [by left|].
    intros [->|Hs0]%elem_of_cons; [|by left]. right. by exists cells.
Qed.

Lemma publish_collect_ok st i :
  slices_ok st → publish_enabled (EDropSlice i) st = true → slices_ok (mkSlices (arrays st) (delete i (subsPool st)) (publishers st)).
Proof.
  intros Hok [s Hi]%bool_decide_eq_true_1%lookup_lt_is_Some.
  destruct (delete_others s_arr _ i s Hi (ex_pool _ _ (sl_exclusive _ Hok))) as (Hnd & _ & Hin).
  split; cbn [arrays subsPool publishers]; [|intros s0 Hs0; by apply (sl_pool _ Hok), Hin|apply (sl_publishers _ Hok)].
  split; [exact Hnd| |apply (ex_holder _ _ (sl_exclusive _ Hok))].
  intros k r Hr (s0 & -> & Hs0)%list_elem_of_fmap. apply (ex_free _ _ (sl_exclusive _ Hok) k _ Hr).
  apply list_elem_of_fmap_2. by apply Hin.
Qed.

Lemma publish_exec_ok e st : slices_ok st → publish_enabled e st = true → ∃ st', publish_exec e st = Some st' ∧ slices_ok st'.
Proof.
  intros Hok Hen. destruct e as [k from t topic|k newcap|k|k|k|i];
    [by apply publish_get_ok|by apply publish_append_ok|by apply publish_range_ok|by apply publish_deliver_ok|by apply publish_put_ok|].
  eexists. split; [reflexivity|]. by apply publish_collect_ok.
Qed.

Lemma no_slices_ok : slices_ok no_slices.
Proof.
  split; [split; [constructor|by intros k r (p & s & Hp & _)|by intros k k' r (p & s & Hp & _)]| |].
  - intros s Hs. by apply not_elem_of_nil in Hs.
  - intros k p Hp. discriminate Hp.
Qed.

Lemma publish_run_ok es st st' : slices_ok st → publish_run es st = Some st' → slices_ok st'.
Proof.
  revert st. induction es as [|e es IH]; intros st Hok Hrun; cbn [publish_run] in Hrun; [by injection Hrun as <-|].
  destruct (publish_enabled e st) eqn:Hen; [|discriminate Hrun]. destruct (publish_exec_ok e st Hok Hen) as (st1 & Hex & Hok1).
  rewrite Hex in Hrun. by eapply IH.
Qed.

(** A call keeps what it matched. *)
Definition has_matched (st : slices_state) (k : nat) (subs : list Subscription) : Prop :=
  ∃ p, publishers st !! k = Some p ∧ matched p = subs.

Lemma matches_insert m pool ps k p k' subs :
  (k' = k → matched p = subs) → (k' ≠ k → ∃ p', ps !! k' = Some p' ∧ matched p' = subs) →
  has_matched (mkSlices m pool (<[k := p]> ps)) k' subs.
Proof.
  intros Hself Hother. unfold has_matched. cbn [publishers]. destruct (decide (k' = k)) as [->|Hne].
  - exists p. rewrite lookup_insert_eq. auto.
  - rewrite lookup_insert_ne by done. auto.
Qed.

Lemma exec_matches e st st' k subs :
  publish_enabled e st = true → publish_exec e st = Some st' → has_matched st k subs → has_matched st' k subs.
Proof.
  intros Hen Hex (p & Hp & Hm). destruct e as [k0 from t topic|k0 newcap|k0|k0|k0|i]; cbn [publish_enabled publish_exec] in Hen, Hex.
  - apply bind_Some in Hex as ([[s m] pool] & _ & Hex). injection Hex as <-. apply andb_true_iff in Hen as [Hk%bool_decide_eq_true_1 _].
    apply matches_insert; [intros ->; congruence|by exists p].
  - apply bind_Some in Hex as (p0 & Hp0 & Hex). destruct (at_ p0) as [s [|x todo]| |]; try discriminate Hex.
    apply bind_Some in Hex as ([m s'] & _ & Hex). injection Hex as <-.
    apply matches_insert; [intros ->; simpl; congruence|by exists p].
  - apply bind_Some in Hex as (p0 & Hp0 & Hex). destruct (at_ p0) as [s [|x todo]| |]; try discriminate Hex. injection Hex as <-.
    apply matches_insert; [intros ->; simpl; congruence|by exists p].
  - apply bind_Some in Hex as (p0 & Hp0 & Hex). destruct (at_ p0) as [|s j|]; try discriminate Hex.
    apply bind_Some in Hex as (sub & _ & Hex). injection Hex as <-.
    apply matches_insert; [intros ->; simpl; congruence|by exists p].
  - apply bind_Some in Hex as (p0 & Hp0 & Hex). destruct (at_ p0) as [|s j|]; try discriminate Hex.
    apply bind_Some in Hex as (pool & _ & Hex). injection Hex as <-.
    apply matches_insert; [intros ->; simpl; congruence|by exists p].
  - injection Hex as <-. by exists p.
Qed.

Lemma run_matches es st st' k subs : publish_run es st = Some st' → has_matched st k subs → has_matched st' k subs.
Proof.
  revert st. induction es as [|e es IH]; intros st Hrun Hm; cbn [publish_run] in Hrun; [by injection Hrun as <-|].
  destruct (publish_enabled e st) eqn:Hen; [|discriminate Hrun]. apply bind_Some in Hrun as (st1 & Hex & Hrun).
  eapply IH; [exact Hrun|]. by eapply exec_matches.
Qed.

(** A call that started has the subscriptions of the tree it loaded. *)
Lemma run_started es st st' k from t topic :
  publish_run es st = Some st' → EMatch k from t topic ∈ es → has_matched st' k (Match t topic).
Proof.
  revert st. induction es as [|e es IH]; intros st Hrun Hin; [by apply not_elem_of_nil in Hin|]. cbn [publish_run] in Hrun.
  destruct (publish_enabled e st) eqn:Hen; [|discriminate Hrun]. apply bind_Some in Hrun as (st1 & Hex & Hrun).
  apply elem_of_cons in Hin as [<-|Hin]; [|by eapply IH]. eapply run_matches; [exact Hrun|]. cbn [publish_exec] in Hex.
  apply bind_Some in Hex as ([[s m] pool] & _ & Hex). injection Hex as <-.
  apply matches_insert; [done|intros Hne; by destruct Hne].
Qed.

(** What a call delivered so far. *)
Lemma delivered_prefix m p :
  publisher_ok m p → ∃ subs, delivered p = Some <$> subs ∧ subs `prefix_of` matched p ∧ (at_ p = Published → subs = matched p).
Proof.
  unfold publisher_ok. destruct (at_ p) as [s todo|s i|].
  - intros (xs & _ & _ & ->). exists []. split_and!; [done|apply prefix_nil|done].
  - intros (_ & _ & ->). exists (take i (matched p)). split_and!; [done|apply prefix_take|done].
  - intros ->. by exists (matched p).
Qed.

(** Event of a call [Hp] that is in phase [Hat]. *)
Ltac open_call Hp Hat :=
  cbn [publish_enabled publish_exec]; rewrite Hp; cbn [fmap option_fmap option_map mbind option_bind]; rewrite Hat.

(** How many steps a call has to go. *)
Definition remaining (p : publisher) : nat :=
  match at_ p with
  | Matching _ todo => length (matched p) + length todo + 2
  | Delivering _ i => S (length (matched p) - i)
  | Published => 0
  end.

Lemma publish_progress st k p :
  slices_ok st → publishers st !! k = Some p → at_ p ≠ Published →
  ∃ e st' p', publish_enabled e st = true ∧ publish_exec e st = Some st' ∧ publishers st' !! k = Some p' ∧ (remaining p' < remaining p)%nat.
Proof.
  intros Hok Hp Hne. pose proof (sl_publishers _ Hok k p Hp) as Ho. unfold publisher_ok in Ho.
  assert (Hgo : ∀ e, publish_enabled e st = true →
    (∀ st', publish_exec e st = Some st' → ∃ p', publishers st' !! k = Some p' ∧ (remaining p' < remaining p)%nat) →
    ∃ e st' p', publish_enabled e st = true ∧ publish_exec e st = Some st' ∧ publishers st' !! k = Some p' ∧ (remaining p' < remaining p)%nat).
  { intros e Hen Hex. destruct (publish_exec_ok e st Hok Hen) as (st' & Hst' & _). destruct (Hex st' Hst') as (p' & ? & ?).
    by exists e, st', p'. }
  unfold remaining in *. destruct (at_ p) as [s [|x todo]|s i|] eqn:Hat; [| | |by destruct Hne].
  - apply (Hgo (ERange k)); open_call Hp Hat; [done|].
    intros st' [= <-]. eexists. split; [apply lookup_insert_eq|]. simpl. lia.
  - apply (Hgo (EAppend k 0)); open_call Hp Hat; [done|].
    intros st' ([m s'] & _ & [= <-])%bind_Some. eexists. split; [apply lookup_insert_eq|]. simpl. lia.
  - destruct Ho as ((cells & _ & Hl & _) & Hi & _). destruct (Nat.ltb_spec i (s_len s)) as [Hlt|Hge].
    + apply (Hgo (EDeliver k)); open_call Hp Hat; [by apply Nat.ltb_lt|].
      intros st' (sub & _ & [= <-])%bind_Some. eexists. split; [apply lookup_insert_eq|]. simpl. lia.
    + apply (Hgo (EPutSubs k)); open_call Hp Hat; [by apply negb_true_iff, Nat.ltb_ge|].
      intros st' (pool & _ & [= <-])%bind_Some. eexists. split; [apply lookup_insert_eq|]. simpl. lia.
Qed.

(** ** Theorem *)

(** C28: publishing with pooled slices is publishing.  Whatever calls of
    [Broker.Publish] run at the same time, in any interleaving of their appends, reads
    and returns of slices to [subsPool], with any choice of the pool and any capacity
    of grown arrays: no index is out of range; each call gives [deliver] a prefix of
    the subscriptions its tree has for the topic, none twice, changed or empty; a call
    that returned gave it all of them, so that it did what [Publish] does, and one that
    did not can always make a step towards it; and no array in the pool is longer than 1024 elements or in use. *)
Theorem pooled_publish_refines es st k from b pub :
  publish_run es no_slices = Some st → EMatch k from (topics b) (pub_Topic pub) ∈ es →
  (∀ e, publish_enabled e st = true → is_Some (publish_exec e st))
  ∧ (∀ s, s ∈ subsPool st → (∃ cells, arrays st !! s_arr s = Some cells ∧ len cells <= 1024) ∧ ∀ k', ¬ uses_slice st k' (s_arr s))
  ∧ ∃ p subs, publishers st !! k = Some p ∧ delivered p = Some <$> subs
    ∧ subs `prefix_of` Match (topics b) (pub_Topic pub)
    ∧ (at_ p = Published → ∀ S deliver (s0 : S) b' s', Publish b pub deliver s0 = (None, b', s') →
         s' = foldl (λ s sub, (deliver sub s).2) s0 subs)
    ∧ (at_ p ≠ Published → ∃ e st' p', publish_enabled e st = true ∧ publish_exec e st = Some st'
         ∧ publishers st' !! k = Some p' ∧ (remaining p' < remaining p)%nat).
Proof.
  intros Hrun Hin. pose proof (publish_run_ok _ _ _ no_slices_ok Hrun) as Hok. split_and!.
  - intros e Hen. destruct (publish_exec_ok e st Hok Hen) as (st' & Hex & _). by exists st'.
  - intros s Hs. split; [by apply (sl_pool _ Hok)|]. intros k' Hk'. apply (ex_free _ _ (sl_exclusive _ Hok) k' _ Hk').
    by apply list_elem_of_fmap_2.
  - destruct (run_started _ _ _ _ _ _ _ Hrun Hin) as (p & Hp & Hm).
    destruct (delivered_prefix _ _ (sl_publishers _ Hok k p Hp)) as (subs & Hd & Hpre & Hall). rewrite Hm in Hpre, Hall.
    exists p, subs. split_and!; try done; [|by apply publish_progress]. intros Hret S deliver s0 b' s' Hpub. rewrite (Hall Hret).
    apply Publish_visits in Hpub. exact Hpub.
Qed.

(** Two calls, the second of which gets the slice of the first, while a third reads
    its own. *)
Definition example_tree : Tree :=
  Tree.Subscribe (Tree.Subscribe NewTree (bs "a") (mkSubscription (bs "c1") (mkSubscriber 0 (bs "c1")) 0))
    (bs "+") (mkSubscription (bs "c2") (mkSubscriber 1 (bs "c2")) 1).

Definition example_publishes : list publish_event :=
  [EMatch 0 None example_tree (bs "a"); EMatch 1 None example_tree (bs "b"); EAppend 0 0; EAppend 1 0; ERange 1; EAppend 0 0;
   ERange 0; EDeliver 0; EDeliver 0; EPutSubs 0; EMatch 2 (Some 0%nat) example_tree (bs "a"); EAppend 2 0; EDeliver 1; EPutSubs 1].

Lemma pooled_publish_refines_witness :
  ∃ st p subs, publish_run example_publishes no_slices = Some st ∧ publishers st !! 0%nat = Some p ∧ at_ p = Published
    ∧ delivered p = Some <$> subs ∧ subs = Match example_tree (bs "a") ∧ length subs = 2%nat.
Proof.
  set (b := mkBroker example_tree ∅ DefaultRetainedLimits (mkRetainedStats 0 0 0)).
  set (pub := mkPublish (bs "a") (bs "x") false false 0 0).
  assert (Hx : match publish_run example_publishes no_slices with
    | Some st => match publishers st !! 0%nat with Some p => match at_ p with Published => true | _ => false end | None => false end
    | None => false end = true) by (vm_compute; reflexivity).
  destruct (publish_run example_publishes no_slices) as [st|] eqn:Hrun; [|discriminate Hx].
  destruct (pooled_publish_refines example_publishes st 0 None b pub Hrun) as (_ & _ & p & subs & Hp & Hd & _ & Hret & _); [left|].
  rewrite Hp in Hx. destruct (at_ p) eqn:Hat; try discriminate Hx.
  assert (Hsubs : subs = Match example_tree (bs "a")).
  { pose proof (Hret eq_refl _ (λ sub st, (None, st ++ [sub])) [] b _ eq_refl) as E. cbn [snd] in E.
    assert (Hf : ∀ (l acc : list Subscription), foldl (λ st sub, st ++ [sub]) acc l = acc ++ l).
    { induction l as [|x l IH]; intros acc; simpl; [by rewrite app_nil_r|]. by rewrite IH, <- app_assoc. }
    rewrite !Hf in E. exact (eq_sym E). }
  exists st, p, subs. split_and!; [done|exact Hp|exact Hat|exact Hd|exact Hsubs|]. rewrite Hsubs. vm_compute. reflexivity.
Defined.
End Subs.

(** * The buffers of [encodePublishPacket] *)

Module Buffers.
(** A call of [encodePublishPacket]: it has a buffer from the pool, it reset it, it is
    in [EncodePublish] with pieces left to write, it has its result and the deferred
    [Put] is to come, or it returned. *)
Inductive encode_phase :=
| Got (r : nat)
| Clear (r : nat)
| Writing (r : nat) (todo : list bytes)
| Putting (r : nat) (res : result bytes)
| Returned (res : result bytes).

Record call := mkCall {
  c_pub : PublishPacket;
  c_at : encode_phase }.

(** The contents of all buffers, [publishEncodeBufferPool], and the calls of all
    goroutines. *)
Record buffers_state := mkBuffers {
  buffers : gmap nat bytes;
  bufferPool : list nat;
  calls : gmap nat call }.

Definition no_buffers : buffers_state := mkBuffers ∅ [] ∅.

(** [EEncode]: [EncodePublish] passed its checks and is going to write these pieces. *)
Inductive encode_event :=
| EGet (k : nat) (from : option nat) (pub : PublishPacket)
| EReset (k : nat)
| EEncode (k : nat) (pieces : list bytes)
| EFail (k : nat)
| EWrite (k : nat)
| ECopy (k : nat)
| EPut (k : nat)
| EDropBuffer (i : nat).

(** [publishEncodeBufferPool.Get]. *)
Definition bufferPool_Get (from : option nat) (st : buffers_state) : option (nat * gmap nat bytes * list nat) :=
  match from with
  | Some i => r ← bufferPool st !! i; Some (r, buffers st, delete i (bufferPool st))
  | None =>
      let r := fresh (dom (buffers st)) in
      Some (r, <[r := []]> (buffers st), bufferPool st)
  end.

Definition phase_of (k : nat) (st : buffers_state) : option encode_phase := c_at <$> calls st !! k.

Definition encode_enabled (e : encode_event) (st : buffers_state) : bool :=
  match e with
  | EGet k from _ =>
      bool_decide (calls st !! k = None)
      && match from with Some i => bool_decide (i < length (bufferPool st))%nat | None => true end
  | EReset k => match phase_of k st with Some (Got _) => true | _ => false end
  | EEncode k pieces =>
      match calls st !! k with
      | Some (mkCall pub (Clear _)) => match EncodePublish pub with Ok data => bool_decide (concat pieces = data) | Error _ => false end
      | _ => false
      end
  | EFail k =>
      match calls st !! k with
      | Some (mkCall pub (Clear _)) => match EncodePublish pub with Ok _ => false | Error _ => true end
      | _ => false
      end
  | EWrite k => match phase_of k st with Some (Writing _ (_ :: _)) => true | _ => false end
  | ECopy k => match phase_of k st with Some (Writing _ []) => true | _ => false end
  | EPut k => match phase_of k st with Some (Putting _ _) => true | _ => false end
  | EDropBuffer i => bool_decide (i < length (bufferPool st))%nat
  end.

Definition goes_to (k : nat) (c : call) (w : encode_phase) (m : gmap nat bytes) (pool : list nat) (st : buffers_state) : option buffers_state :=
  Some (mkBuffers m pool (<[k := mkCall (c_pub c) w]> (calls st))).

(** An event; none is a nil dereference. *)
Definition encode_exec (e : encode_event) (st : buffers_state) : option buffers_state :=
  let m := buffers st in
  let pool := bufferPool st in
  match e with
  | EGet k from pub => '(r, m, pool) ← bufferPool_Get from st; goes_to k (mkCall pub (Got r)) (Got r) m pool st
  | EReset k =>
      c ← calls st !! k;
      match c_at c with Got r => _ ← m !! r; goes_to k c (Clear r) (<[r := []]> m) pool st | _ => None end
  | EEncode k pieces =>
      c ← calls st !! k;
      match c_at c with Clear r => goes_to k c (Writing r pieces) m pool st | _ => None end
  | EFail k =>
      c ← calls st !! k;
      match c_at c, EncodePublish (c_pub c) with Clear r, Error err => goes_to k c (Putting r (Error err)) m pool st | _, _ => None end
  | EWrite k =>
      c ← calls st !! k;
      match c_at c with
      | Writing r (piece :: todo) => old ← m !! r; goes_to k c (Writing r todo) (<[r := old ++ piece]> m) pool st
      | _ => None
      end
  | ECopy k =>
      c ← calls st !! k;
      match c_at c with Writing r [] => data ← m !! r; goes_to k c (Putting r (Ok data)) m pool st | _ => None end
  | EPut k =>
      c ← calls st !! k;
      match c_at c with Putting r res => goes_to k c (Returned res) m (r :: pool) st | _ => None end
  | EDropBuffer i => Some (mkBuffers m (delete i pool) (calls st))
  end.

Fixpoint encode_run (es : list encode_event) (st : buffers_state) : option buffers_state :=
  match es with
  | [] => Some st
  | e :: es => if encode_enabled e st then st ← encode_exec e st; encode_run es st else None
  end.

(** ** The invariant *)

Definition buffer_of (w : encode_phase) : option nat :=
  match w with Got r | Clear r | Writing r _ | Putting r _ => Some r | Returned _ => None end.

Definition uses_buffer (st : buffers_state) (k r : nat) : Prop := phase_of k st ≫= buffer_of = Some r.

(** What a call knows about its buffer and its result. *)
Definition call_ok (m : gmap nat bytes) (c : call) : Prop :=
  match c_at c with
  | Got r => is_Some (m !! r)
  | Clear r => m !! r = Some []
  | Writing r todo => ∃ data written, EncodePublish (c_pub c) = Ok data ∧ m !! r = Some written ∧ data = written ++ concat todo
  | Putting r res => is_Some (m !! r) ∧ res = encodePublishPacket (c_pub c)
  | Returned res => res = encodePublishPacket (c_pub c)
  end.

Record buffers_ok (st : buffers_state) : Prop := {
  bf_exclusive : exclusive (bufferPool st) (uses_buffer st);
  bf_pool r : r ∈ bufferPool st → is_Some (buffers st !! r);
  bf_calls k c : calls st !! k = Some c → call_ok (buffers st) c }.

Lemma call_ok_buffers m m' c :
  (∀ r, buffer_of (c_at c) = Some r → m' !! r = m !! r) → call_ok m c → call_ok m' c.
Proof.
  unfold call_ok. destruct (c_at c) as [r|r|r todo|r res|res]; cbn [buffer_of]; intros E; rewrite ?(E r eq_refl); done.
Qed.

Lemma holds_buffer st k r : buffers_ok st → uses_buffer st k r → is_Some (buffers st !! r).
Proof.
  intros Hok Hh. unfold uses_buffer, phase_of in Hh. destruct (calls st !! k) as [c|] eqn:Hc; [|discriminate Hh]. cbn in Hh.
  pose proof (bf_calls _ Hok k c Hc) as Ho. unfold call_ok in Ho. destruct (c_at c); try discriminate Hh; injection Hh as ->;
    [exact Ho|by eexists| |by destruct Ho]. destruct Ho as (data & written & _ & Hm & _). by exists written.
Qed.

(** Call [k] goes on: it changes no buffer but its own. *)
Lemma goes_to_ok st k c w m pool st' :
  buffers_ok st → goes_to k c w m pool st = Some st' → call_ok m (mkCall (c_pub c) w) →
  (∀ r, r ∈ bufferPool st ∨ (∃ k', k' ≠ k ∧ uses_buffer st k' r) → m !! r = buffers st !! r) →
  NoDup pool → (∀ r, r ∈ pool → (r ∈ bufferPool st ∨ uses_buffer st k r) ∧ is_Some (m !! r)) →
  (∀ r, buffer_of w = Some r → (r ∉ pool) ∧ (∀ k', k' ≠ k → ¬ uses_buffer st k' r)) → buffers_ok st'.
Proof.
  intros Hok [= <-] Hc Hm Hnd Hpool Hw. split; cbn [buffers bufferPool calls].
  - eapply (exclusive_step k); [apply (bf_exclusive _ Hok)|exact Hnd|intros r Hr; by apply Hpool| |].
    + intros k' r Hne Hr. unfold uses_buffer, phase_of in *. cbn [calls] in Hr. by rewrite lookup_insert_ne in Hr.
    + intros r Hr. apply Hw. unfold uses_buffer, phase_of in Hr. cbn [calls] in Hr. rewrite lookup_insert_eq in Hr. exact Hr.
  - intros r Hr. by apply Hpool.
  - intros k' c' [[<- <-]|[Hne Hc']]%lookup_insert_Some; [exact Hc|].
    eapply call_ok_buffers; [|by eapply (bf_calls _ Hok)]. intros r Hr. apply Hm. right. exists k'. split; [done|].
    unfold uses_buffer, phase_of. by rewrite Hc'.
Qed.

(** The buffer of a call is its own. *)
Lemma own_buffer st k c r :
  buffers_ok st → calls st !! k = Some c → buffer_of (c_at c) = Some r →
  is_Some (buffers st !! r) ∧ (r ∉ bufferPool st) ∧ (∀ k', k' ≠ k → ¬ uses_buffer st k' r).
Proof.
  intros Hok Hc Hr. assert (Hk : uses_buffer st k r) by (unfold uses_buffer, phase_of; by rewrite Hc). split_and!.
  - by eapply holds_buffer.
  - by apply (ex_free _ _ (bf_exclusive _ Hok) k).
  - intros k' Hne Hk'. by apply Hne, (ex_holder _ _ (bf_exclusive _ Hok) k' k r).
Qed.

(** It keeps its buffer, with new contents. *)
Lemma keeps_ok st k c w r data st' :
  buffers_ok st → calls st !! k = Some c → buffer_of (c_at c) = Some r → buffer_of w = Some r →
  goes_to k c w (<[r := data]> (buffers st)) (bufferPool st) st = Some st' →
  call_ok (<[r := data]> (buffers st)) (mkCall (c_pub c) w) → buffers_ok st'.
Proof.
  intros Hok Hc Hr Hw Hgo Hcall. destruct (own_buffer st k c r Hok Hc Hr) as (_ & Hn1 & Hn2).
  eapply goes_to_ok; [exact Hok|exact Hgo|exact Hcall| |apply (ex_pool _ _ (bf_exclusive _ Hok))| |].
  - intros r' Hr'. rewrite lookup_insert_ne; [done|]. intros <-. destruct Hr' as [|(k' & Hne & Hk')]; [done|by apply (Hn2 k')].
  - intros r' Hr'. split; [by left|]. rewrite lookup_insert_ne by (by intros <-). by apply (bf_pool _ Hok).
  - intros r' Hr'. assert (r' = r) as -> by congruence. done.
Qed.

Lemma moves_ok st k c w r :
  buffers_ok st → calls st !! k = Some c → buffer_of (c_at c) = Some r → buffer_of w = Some r →
  call_ok (buffers st) (mkCall (c_pub c) w) →
  ∃ st', goes_to k c w (buffers st) (bufferPool st) st = Some st' ∧ buffers_ok st'.
Proof.
  intros Hok Hc Hr Hw Hcall. eexists. split; [reflexivity|]. destruct (own_buffer st k c r Hok Hc Hr) as ([data Hd] & _).
  eapply (keeps_ok st k c w r data); [exact Hok|exact Hc|exact Hr|exact Hw| |]; rewrite (insert_id _ _ _ Hd); [reflexivity|exact Hcall].
Qed.

Lemma encode_get_ok st k from pub :
  buffers_ok st → encode_enabled (EGet k from pub) st = true → ∃ st', encode_exec (EGet k from pub) st = Some st' ∧ buffers_ok st'.
Proof.
  intros Hok [_ Hfrom]%andb_true_iff. cbn [encode_exec].
  assert (Hget : ∃ r m pool, bufferPool_Get from st = Some (r, m, pool) ∧ is_Some (m !! r) ∧ NoDup pool ∧ (r ∉ pool)
    ∧ (∀ r', r' ∈ pool → r' ∈ bufferPool st) ∧ (∀ k', ¬ uses_buffer st k' r) ∧ (∀ r', is_Some (buffers st !! r') → m !! r' = buffers st !! r')).
  { unfold bufferPool_Get. destruct from as [i|].
    - apply bool_decide_eq_true_1, lookup_lt_is_Some in Hfrom as [r Hi]. rewrite Hi. cbn [mbind option_bind].
      pose proof (ex_pool _ _ (bf_exclusive _ Hok)) as Hnd. rewrite <- (list_fmap_id (bufferPool st)) in Hnd.
      destruct (delete_others id _ i r Hi Hnd) as (H1 & H2 & H3). rewrite list_fmap_id in H1, H2.
      pose proof (list_elem_of_lookup_2 _ _ _ Hi) as Hin.
      exists r, (buffers st), (delete i (bufferPool st)). split_and!; try done; [by apply (bf_pool _ Hok)|].
      intros k' Hk'. by apply (ex_free _ _ (bf_exclusive _ Hok) k' r Hk').
    - set (r := fresh (dom (buffers st))). assert (Hf : buffers st !! r = None) by (apply not_elem_of_dom, is_fresh).
      exists r, (<[r := []]> (buffers st)), (bufferPool st).
      assert (Hno : ¬ is_Some (buffers st !! r)) by (rewrite Hf; by intros [? [=]]).
      split_and!; try done; [rewrite lookup_insert_eq; by eexists|apply (ex_pool _ _ (bf_exclusive _ Hok))| | |].
      + intros Hr. by apply Hno, (bf_pool _ Hok).
      + intros k' Hr. by apply Hno, (holds_buffer st k').
      + intros r' Hr. rewrite lookup_insert_ne; [done|]. by intros <-. }
  destruct Hget as (r & m & pool & -> & Hr & Hnd & Hni & Hsub & Hno & Hm). cbn [mbind option_bind]. eexists.
  split; [reflexivity|]. eapply goes_to_ok; [exact Hok|reflexivity|exact Hr| |exact Hnd| |].
  - intros r' [Hr'|(k' & _ & Hr')]; apply Hm; [by apply (bf_pool _ Hok)|by eapply holds_buffer].
  - intros r' Hr'. split; [left; by apply Hsub|]. rewrite Hm; by apply (bf_pool _ Hok), Hsub.
  - intros r' [= <-]. split; [exact Hni|]. intros k' _. apply Hno.
Qed.

(** The call of an event that can happen. *)
Lemma phase_call st k w : phase_of k st = Some w → ∃ pub, calls st !! k = Some (mkCall pub w).
Proof. unfold phase_of. destruct (calls st !! k) as [[pub w']|]; [|discriminate]. intros [= <-]. by exists pub. Qed.

Lemma encode_put_ok st k r res pub :
  buffers_ok st → calls st !! k = Some (mkCall pub (Putting r res)) → ∃ st', encode_exec (EPut k) st = Some st' ∧ buffers_ok st'.
Proof.
  intros Hok Hc. cbn [encode_exec]. rewrite Hc. eexists. split; [reflexivity|].
  destruct (own_buffer st k _ r Hok Hc eq_refl) as (Hd & Hn1 & _). destruct (bf_calls _ Hok k _ Hc) as [_ Hres].
  eapply goes_to_ok; [exact Hok|reflexivity|exact Hres|done| | |by intros r'].
  - constructor; [exact Hn1|apply (ex_pool _ _ (bf_exclusive _ Hok))].
  - intros r' [->|Hr']%elem_of_cons; [|split; [by left|by apply (bf_pool _ Hok)]].
    split; [right; unfold uses_buffer, phase_of; by rewrite Hc|exact Hd].
Qed.

Lemma encode_write_ok st k r todo pub :
  buffers_ok st → calls st !! k = Some (mkCall pub (Writing r todo)) →
  ∃ st', encode_exec (match todo with [] => ECopy k | _ => EWrite k end) st = Some st' ∧ buffers_ok st'.
Proof.
  intros Hok Hc. destruct (bf_calls _ Hok k _ Hc) as (data & written & He & Hw & Hd). cbn [c_pub] in He.
  destruct todo as [|piece todo]; cbn [encode_exec]; rewrite Hc; cbn [mbind option_bind c_at c_pub]; rewrite Hw; cbn [mbind option_bind].
  - eapply (moves_ok st k _ _ r Hok Hc); [done|done|]. split; [by exists written|]. cbn [c_pub]. unfold encodePublishPacket.
    rewrite He, Hd. cbn [concat]. by rewrite app_nil_r.
  - eexists. split; [reflexivity|]. eapply (keeps_ok st k _ _ r (written ++ piece) _ Hok Hc); [done| |reflexivity|]; [done|].
    exists data, (written ++ piece). rewrite lookup_insert_eq. split_and!; [exact He|done|]. rewrite Hd. cbn [concat]. by rewrite app_assoc.
Qed.

Lemma encode_clear_ok st k r pub :
  buffers_ok st → calls st !! k = Some (mkCall pub (Clear r)) →
  match EncodePublish pub with
  | Ok data => ∀ pieces, concat pieces = data → ∃ st', encode_exec (EEncode k pieces) st = Some st' ∧ buffers_ok st'
  | Error _ => ∃ st', encode_exec (EFail k) st = Some st' ∧ buffers_ok st'
  end.
Proof.
  intros Hok Hc. pose proof (bf_calls _ Hok k _ Hc) as Hr. unfold call_ok in Hr. cbn [c_at] in Hr.
  destruct (EncodePublish pub) as [data|err] eqn:He; [intros pieces Hp|]; cbn [encode_exec]; rewrite Hc; cbn [mbind option_bind c_at c_pub];
    [|rewrite He]; eapply (moves_ok st k _ _ r Hok Hc); try done.
  exists data, []. by split_and!.
Qed.

Lemma encode_collect_ok st i : buffers_ok st → encode_enabled (EDropBuffer i) st = true → ∃ st', encode_exec (EDropBuffer i) st = Some st' ∧ buffers_ok st'.
Proof.
  intros Hok [r Hi]%bool_decide_eq_true_1%lookup_lt_is_Some. eexists. split; [reflexivity|].
  pose proof (ex_pool _ _ (bf_exclusive _ Hok)) as Hnd. rewrite <- (list_fmap_id (bufferPool st)) in Hnd.
  destruct (delete_others id _ i r Hi Hnd) as (H1 & _ & H3). rewrite list_fmap_id in H1.
  split; cbn [buffers bufferPool calls]; [|intros r' Hr'; by apply (bf_pool _ Hok), H3|apply (bf_calls _ Hok)].
  split; [exact H1| |apply (ex_holder _ _ (bf_exclusive _ Hok))].
  intros k r' Hr Hin. by apply (ex_free _ _ (bf_exclusive _ Hok) k _ Hr), H3.
Qed.

Lemma encode_exec_ok e st : buffers_ok st → encode_enabled e st = true → ∃ st', encode_exec e st = Some st' ∧ buffers_ok st'.
Proof.
  intros Hok Hen. destruct e as [k from pub|k|k pieces|k|k|k|k|i]; [by apply encode_get_ok| | | | | | |by apply encode_collect_ok]; cbn [encode_enabled] in Hen.
  - destruct (phase_of k st) as [[r| | | |]|] eqn:Hp; try discriminate Hen. apply phase_call in Hp as (pub & Hc).
    destruct (bf_calls _ Hok k _ Hc) as [old Hold]. cbn [encode_exec]. rewrite Hc. cbn [mbind option_bind c_at]. rewrite Hold. eexists.
    split; [reflexivity|]. eapply (keeps_ok st k _ _ r [] _ Hok Hc); [done| |reflexivity|]; [done|]. unfold call_ok. cbn [c_at].
    by rewrite lookup_insert_eq.
  - destruct (calls st !! k) as [[pub [|r| | |]]|] eqn:Hc; try discriminate Hen. pose proof (encode_clear_ok st k r pub Hok Hc) as Hx.
    destruct (EncodePublish pub); [|discriminate Hen]. apply bool_decide_eq_true_1 in Hen. by apply Hx.
  - destruct (calls st !! k) as [[pub [|r| | |]]|] eqn:Hc; try discriminate Hen. pose proof (encode_clear_ok st k r pub Hok Hc) as Hx.
    destruct (EncodePublish pub); [discriminate Hen|exact Hx].
  - destruct (phase_of k st) as [[| |r [|piece todo]| |]|] eqn:Hp; try discriminate Hen. apply phase_call in Hp as (pub & Hc).
    exact (encode_write_ok st k r _ pub Hok Hc).
  - destruct (phase_of k st) as [[| |r [|piece todo]| |]|] eqn:Hp; try discriminate Hen. apply phase_call in Hp as (pub & Hc).
    exact (encode_write_ok st k r _ pub Hok Hc).
  - destruct (phase_of k st) as [[| | |r res|]|] eqn:Hp; try discriminate Hen. apply phase_call in Hp as (pub & Hc).
    by eapply encode_put_ok.
Qed.

Lemma no_buffers_ok : buffers_ok no_buffers.
Proof.
  split; [split; [constructor|by intros k r Hr|by intros k k' r Hr]| |].
  - intros r Hr. by apply not_elem_of_nil in Hr.
  - intros k c Hc. discriminate Hc.
Qed.

Lemma encode_run_ok es st st' : buffers_ok st → encode_run es st = Some st' → buffers_ok st'.
Proof.
  revert st. induction es as [|e es IH]; intros st Hok Hrun; cbn [encode_run] in Hrun; [by injection Hrun as <-|].
  destruct (encode_enabled e st) eqn:Hen; [|discriminate Hrun]. destruct (encode_exec_ok e st Hok Hen) as (st1 & Hex & Hok1).
  rewrite Hex in Hrun. by eapply IH.
Qed.

(** The call goes to phase [w]. *)
Lemma goes_to_phase st k c w m pool st' : goes_to k c w m pool st = Some st' → calls st' !! k = Some (mkCall (c_pub c) w).
Proof. intros [= <-]. cbn [calls]. by rewrite lookup_insert_eq. Qed.

(** A call that did not return has a next step. *)
Lemma call_progress st k c :
  buffers_ok st → calls st !! k = Some c → (∀ res, c_at c ≠ Returned res) →
  ∃ e st' w, encode_enabled e st = true ∧ encode_exec e st = Some st' ∧ calls st' !! k = Some (mkCall (c_pub c) w) ∧ w ≠ c_at c.
Proof.
  intros Hok Hc Hne. destruct c as [pub w]. cbn [c_at c_pub] in *.
  assert (Hgo : ∀ e w', encode_enabled e st = true → (∀ st', encode_exec e st = Some st' → calls st' !! k = Some (mkCall pub w')) → w' ≠ w →
    ∃ e st' w', encode_enabled e st = true ∧ encode_exec e st = Some st' ∧ calls st' !! k = Some (mkCall pub w') ∧ w' ≠ w).
  { intros e w' Hen Hex Hw. destruct (encode_exec_ok e st Hok Hen) as (st' & Hst' & _). exists e, st', w'. split_and!; auto. }
  assert (Hp : phase_of k st = Some w) by (unfold phase_of; by rewrite Hc).
  pose proof (bf_calls _ Hok k _ Hc) as Hcall. unfold call_ok in Hcall. cbn [c_at c_pub] in Hcall.
  destruct w as [r|r|r [|piece todo]|r res|res]; [| | | | |by destruct (Hne res)].
  - apply (Hgo (EReset k) (Clear r)); [cbn [encode_enabled]; by rewrite Hp| |done]. intros st'. cbn [encode_exec]. rewrite Hc. cbn [mbind option_bind c_at].
    destruct Hcall as [old ->]. apply goes_to_phase.
  - destruct (EncodePublish pub) as [data|err] eqn:He.
    + apply (Hgo (EEncode k [data]) (Writing r [data])); [|intros st'; cbn [encode_exec]; rewrite Hc; apply goes_to_phase|done].
      cbn [encode_enabled]. rewrite Hc, He. apply bool_decide_eq_true_2. apply app_nil_r.
    + apply (Hgo (EFail k) (Putting r (Error err))); [cbn [encode_enabled]; by rewrite Hc, He| |done]. intros st'. cbn [encode_exec].
      rewrite Hc. cbn [mbind option_bind c_at c_pub]. rewrite He. apply goes_to_phase.
  - destruct Hcall as (data & written & _ & Hm & _).
    apply (Hgo (ECopy k) (Putting r (Ok written))); [cbn [encode_enabled]; by rewrite Hp| |done]. intros st'. cbn [encode_exec].
    rewrite Hc. cbn [mbind option_bind c_at]. rewrite Hm. apply goes_to_phase.
  - destruct Hcall as (data & written & _ & Hm & _).
    apply (Hgo (EWrite k) (Writing r todo)); [cbn [encode_enabled]; by rewrite Hp| |].
    + intros st'. cbn [encode_exec]. rewrite Hc. cbn [mbind option_bind c_at]. rewrite Hm. apply goes_to_phase.
    + intros E. injection E as E. apply (f_equal length) in E. simpl in E. lia.
  - apply (Hgo (EPut k) (Returned res)); [cbn [encode_enabled]; by rewrite Hp|intros st'; cbn [encode_exec]; rewrite Hc; apply goes_to_phase|done].
Qed.

(** ** Theorem *)

(** Encoding into pooled buffers is encoding.  Whatever calls of
    [encodePublishPacket] run at the same time, in any interleaving of the writes of
    their packets, with any choice of the pool and any cutting into writes: no event
    panics, a call that returned has the result of the pure function that the rest of
    the development uses, error or bytes, and a call that did not return can go on. *)
Theorem pooled_encode_refines es st k c :
  encode_run es no_buffers = Some st → calls st !! k = Some c →
  (∀ e, encode_enabled e st = true → is_Some (encode_exec e st))
  ∧ match c_at c with
    | Returned res => res = encodePublishPacket (c_pub c)
    | w => ∃ e st' w', encode_enabled e st = true ∧ encode_exec e st = Some st' ∧ calls st' !! k = Some (mkCall (c_pub c) w') ∧ w' ≠ w
    end.
Proof.
  intros Hrun Hc. pose proof (encode_run_ok _ _ _ no_buffers_ok Hrun) as Hok. split.
  - intros e Hen. destruct (encode_exec_ok e st Hok Hen) as (st' & Hex & _). by exists st'.
  - pose proof (bf_calls _ Hok k c Hc) as Hcall. pose proof (call_progress st k c Hok Hc) as Hgo. unfold call_ok in Hcall.
    destruct (c_at c); [by apply Hgo..|exact Hcall].
Qed.

(** Two calls: the second one takes the buffer of the first, whose result stays. *)
Definition example_pub (payload : string) : PublishPacket := mkPublish (bs "a") (bs payload) false false 0 0.

Definition example_encodes : list encode_event :=
  [EGet 0 None (example_pub "x"); EReset 0; EEncode 0 [[48; 4]; [0; 1; 97; 120]]; EGet 1 None (example_pub "y"); EWrite 0; EReset 1;
   EWrite 0; ECopy 0; EPut 0; EGet 2 (Some 0%nat) (example_pub "z"); EReset 2].

Lemma pooled_encode_refines_witness :
  ∃ st c res, encode_run example_encodes no_buffers = Some st ∧ calls st !! 0%nat = Some c ∧ c_at c = Returned res
    ∧ res = encodePublishPacket (c_pub c).
Proof.
  assert (Hx : match encode_run example_encodes no_buffers with
    | Some st => match calls st !! 0%nat with Some c => match c_at c with Returned _ => true | _ => false end | None => false end
    | None => false end = true) by (vm_compute; reflexivity).
  destruct (encode_run example_encodes no_buffers) as [st|] eqn:Hrun; [|discriminate Hx].
  destruct (calls st !! 0%nat) as [c|] eqn:Hc; [|discriminate Hx].
  pose proof (proj2 (pooled_encode_refines example_encodes st 0 c Hrun Hc)) as Hres.
  destruct (c_at c) as [| | | |res] eqn:Hat; try discriminate Hx. exists st, c, res. by split_and!.
Defined.
End Buffers.
