(* ===== verification/TreeHeap.v ===== *)
(** The trie as the source has it: nodes in memory that refer to each other and are
    changed in place (src/internal/topic/tree.go).  Every operation is shown to do
    what the operation of [Tree] does to the tree of values that a pointer stands
    for, and to write to no node but those of its own tree. *)

From S2P Require Import Prelude Topic Wire Filters Tree.

Local Open Scope Z_scope.
Local Open Scope orb_scope.

(** * Definitions *)

(** The struct [node]; its maps are part of it, since nothing else refers to them. *)
Record hnode := mkHNode {
  h_children : gmap bytes nat;
  h_subs : gmap bytes Subscription }.

Abbreviation node_heap := (gmap nat hnode).

(** A new node with empty maps. *)
Definition h_new (h : node_heap) : nat * node_heap :=
  let p := fresh (dom h) in (p, <[p := mkHNode ∅ ∅]> h).

Definition set_child (l : bytes) (q : nat) (hn : hnode) : hnode := mkHNode (<[l := q]> (h_children hn)) (h_subs hn).
Definition drop_child (l : bytes) (hn : hnode) : hnode := mkHNode (delete l (h_children hn)) (h_subs hn).
Definition with_subs (sb : gmap bytes Subscription) (hn : hnode) : hnode := mkHNode (h_children hn) sb.

(** The loop of [Subscribe]; [cur] is its variable.  [None] is a nil dereference. *)
Fixpoint h_subscribe (levels : list bytes) (sub : Subscription) (cur : nat) (h : node_heap) : option node_heap :=
  n ← h !! cur;
  match levels with
  | [] => Some (<[cur := with_subs (<[sub_ClientID sub := sub]> (h_subs n)) n]> h)
  | lvl :: levels =>
      match h_children n !! lvl with
      | Some child => h_subscribe levels sub child h
      | None =>
          let '(child, h) := h_new h in
          h_subscribe levels sub child (<[cur := set_child lvl child n]> h)
      end
  end.

(** [len(child.children) == 0 && len(child.subs) == 0]. *)
Definition h_leafless (hn : hnode) : bool := (msize (h_children hn) =? 0) && (msize (h_subs hn) =? 0).

(** What [unsubscribe] and [unsubscribeAll] do after the call on a child. *)
Definition h_prune (lvl : bytes) (n child : nat) (h : node_heap) : option node_heap :=
  c ← h !! child;
  if h_leafless c then hn ← h !! n; Some (<[n := drop_child lvl hn]> h) else Some h.

Fixpoint h_unsubscribe (levels : list bytes) (clientID : bytes) (n : nat) (h : node_heap) : option node_heap :=
  hn ← h !! n;
  match levels with
  | [] => Some (<[n := with_subs (delete clientID (h_subs hn)) hn]> h)
  | lvl :: levels =>
      match h_children hn !! lvl with
      | None => Some h
      | Some child => h ← h_unsubscribe levels clientID child h; h_prune lvl n child h
      end
  end.

(** The loops over [n.children]; [order] is the order Go ranges over a map. *)
Section order.
Context (order : gmap bytes nat → list (bytes * nat)).

Fixpoint h_unsubscribeAll (fuel : nat) (clientID : bytes) (n : nat) (h : node_heap) : option node_heap :=
  match fuel with
  | O => None
  | S fuel =>
      hn ← h !! n;
      foldl (λ acc lc, h ← acc; h ← h_unsubscribeAll fuel clientID lc.2 h; h_prune lc.1 n lc.2 h)
        (Some (<[n := with_subs (delete clientID (h_subs hn)) hn]> h)) (order (h_children hn))
  end.

(** [clone]: the new node comes first and gets its children one by one, then the
    subscriptions. *)
Fixpoint h_clone (fuel : nat) (n : nat) (h : node_heap) : option (nat * node_heap) :=
  match fuel with
  | O => None
  | S fuel =>
      hn ← h !! n;
      let '(nn, h) := h_new h in
      h ← foldl (λ acc kv, h ← acc; '(c, h) ← h_clone fuel kv.2 h; m ← h !! nn; Some (<[nn := set_child kv.1 c m]> h))
            (Some h) (order (h_children hn));
      m ← h !! nn;
      Some (nn, <[nn := with_subs (h_subs hn) m]> h)
  end.
End order.

(** [match]; [n] none is the nil node. *)
Fixpoint h_match (fuel : nat) (h : node_heap) (n : option nat) (topic : bytes) (idx : nat)
    (out : gmap bytes Subscription) : option (gmap bytes Subscription) :=
  match fuel, n with
  | O, _ | _, None => Some out
  | S fuel, Some p =>
      n ← h !! p;
      let add_hash out :=
        match h_children n !! lv_hash with
        | Some q => m ← h !! q; Some (addAll out (h_subs m))
        | None => Some out
        end in
      if (length topic <? idx)%nat then add_hash (addAll out (h_subs n))
      else
        let next := level_end (drop idx topic) idx in
        let level := take (next - idx) (drop idx topic) in
        let nextIdx := S next in
        out ← h_match fuel h (h_children n !! level) topic nextIdx out;
        if (idx =? 0)%nat && starts_with dollar topic then Some out
        else out ← h_match fuel h (h_children n !! lv_plus) topic nextIdx out; add_hash out
  end.

(** * Trees in memory *)

(** Node [r] is in the part of the memory that [p] leads to. *)
Inductive reach (h : node_heap) : nat → nat → Prop :=
| reach_here p : reach h p p
| reach_child p hn l q r : h !! p = Some hn → h_children hn !! l = Some q → reach h q r → reach h p r.

(** Pointer [p] stands for the tree [n]: its nodes are there, and no node is reached in
    two ways. *)
Inductive stands_for (h : node_heap) : nat → node → Prop :=
| stands p hn ch :
    h !! p = Some hn →
    (∀ l, is_Some (h_children hn !! l) ↔ is_Some (ch !! l)) →
    (∀ l q c, h_children hn !! l = Some q → ch !! l = Some c → stands_for h q c) →
    (∀ l q, h_children hn !! l = Some q → ¬ reach h q p) →
    (∀ l l' q q' r, h_children hn !! l = Some q → h_children hn !! l' = Some q' →
       reach h q r → reach h q' r → l = l') →
    stands_for h p (Node ch (h_subs hn)).

(** ** The frame *)

Lemma reach_trans h p q r : reach h p q → reach h q r → reach h p r.
Proof. induction 1; [done|]. intros Hr. eapply reach_child; eauto. Qed.

(** Memories that agree on the part of [p]. *)
Definition agree (h h' : node_heap) (p : nat) : Prop := ∀ r, reach h p r → h' !! r = h !! r.

Lemma agree_child h h' p hn l q :
  agree h h' p → h !! p = Some hn → h_children hn !! l = Some q → agree h h' q.
Proof. intros Ha Hp Hl r Hr. apply Ha. by eapply reach_child. Qed.

Lemma agree_reach h h' p r : agree h h' p → reach h p r ↔ reach h' p r.
Proof.
  intros Ha. split; intros Hr.
  - induction Hr as [|p hn l q r Hp Hl Hr IH]; [constructor|]. eapply reach_child; [|exact Hl|apply IH; by eapply agree_child].
    rewrite Ha; [done|constructor].
  - induction Hr as [|p hn l q r Hp Hl Hr IH]; [constructor|]. rewrite Ha in Hp by constructor.
    eapply reach_child; [done|exact Hl|]. apply IH. by eapply agree_child.
Qed.

Lemma stands_agree h h' p n : stands_for h p n → agree h h' p → stands_for h' p n.
Proof.
  induction 1 as [p hn ch Hp Hdom Hch IH Hself Hdisj]. intros Ha.
  assert (Hp' : h' !! p = Some hn) by (rewrite Ha; [done|constructor]).
  assert (Hr : ∀ l q r, h_children hn !! l = Some q → reach h' q r → reach h q r).
  { intros l q r Hl Hr. apply (agree_reach h h'); [by eapply agree_child|done]. }
  apply stands; [done|done| | |].
  - intros l q c Hl Hc. eapply IH; [done|done|]. by eapply agree_child.
  - intros l q Hl Hq. by eapply Hself, Hr.
  - intros l l' q q' r Hl Hl' H1 H2. eapply Hdisj; eauto.
Qed.

(** What is reached exists. *)
Lemma stands_reach h p n r : stands_for h p n → reach h p r → ∃ m, stands_for h r m.
Proof.
  induction 1 as [p hn ch Hp Hdom Hch IH Hself Hdisj]. intros Hr. inversion Hr as [|p' hn' l q r' Hp' Hl Hr']; subst.
  - exists (Node ch (h_subs hn)). by apply stands.
  - assert (hn' = hn) as -> by congruence. destruct (proj1 (Hdom l)) as [c Hc]; [by eexists|]. by eapply IH.
Qed.

Lemma stands_lookup h p n : stands_for h p n → is_Some (h !! p).
Proof. intros []. by eexists. Qed.

Lemma stands_reach_dom h p n r : stands_for h p n → reach h p r → is_Some (h !! r).
Proof. intros Hs Hr. destruct (stands_reach h p n r Hs Hr) as (m & Hm). by eapply stands_lookup. Qed.

(** The parts of the definition. *)
Lemma stands_inv h p ch sb :
  stands_for h p (Node ch sb) →
  ∃ hn, h !! p = Some hn ∧ h_subs hn = sb ∧ (∀ l, is_Some (h_children hn !! l) ↔ is_Some (ch !! l))
    ∧ (∀ l q c, h_children hn !! l = Some q → ch !! l = Some c → stands_for h q c)
    ∧ (∀ l q, h_children hn !! l = Some q → ¬ reach h q p)
    ∧ (∀ l l' q q' r, h_children hn !! l = Some q → h_children hn !! l' = Some q' → reach h q r → reach h q' r → l = l').
Proof. intros Hs. inversion Hs as [p' hn ch' H1 H2 H3 H4 H5]; subst. by exists hn. Qed.

Lemma stands_child h p ch sb hn l q :
  stands_for h p (Node ch sb) → h !! p = Some hn → h_children hn !! l = Some q → ∃ c, ch !! l = Some c ∧ stands_for h q c.
Proof.
  intros (hn' & Hp & _ & Hdom & Hch & _)%stands_inv Hp' Hl. assert (hn' = hn) as -> by congruence.
  destruct (proj1 (Hdom l)) as [c Hc]; [by eexists|]. exists c. split; [done|]. by eapply Hch.
Qed.

(** The node [p] gets new fields; the trees of its children are apart. *)
Lemma stands_set h p hn ch :
  (∀ l, is_Some (h_children hn !! l) ↔ is_Some (ch !! l)) →
  (∀ l q c, h_children hn !! l = Some q → ch !! l = Some c → stands_for h q c) →
  (∀ l q, h_children hn !! l = Some q → ¬ reach h q p) →
  (∀ l l' q q' r, h_children hn !! l = Some q → h_children hn !! l' = Some q' → reach h q r → reach h q' r → l = l') →
  stands_for (<[p := hn]> h) p (Node ch (h_subs hn)).
Proof.
  intros Hdom Hch Hself Hdisj.
  assert (Ha : ∀ l q, h_children hn !! l = Some q → agree h (<[p := hn]> h) q).
  { intros l q Hl r Hr. rewrite lookup_insert_ne; [done|]. intros <-. by eapply Hself. }
  assert (Hr : ∀ l q r, h_children hn !! l = Some q → reach (<[p := hn]> h) q r → reach h q r).
  { intros l q r Hl. by apply (agree_reach h (<[p := hn]> h)), (Ha l). }
  apply stands; [by rewrite lookup_insert_eq|done| | |].
  - intros l q c Hl Hc. eapply stands_agree; [by eapply Hch|by eapply Ha].
  - intros l q Hl Hq. by eapply Hself, Hr.
  - intros l l' q q' r Hl Hl' H1 H2. eapply Hdisj; eauto.
Qed.

(** * Changes in place *)

(** The memory [h'] is [h] after a change of the tree of [p], which is [n] now: nodes
    outside it are as they were, and it has no nodes but its own and new ones. *)
Record edited (h h' : node_heap) (p : nat) (n : node) : Prop := {
  ed_tree : stands_for h' p n;
  ed_frame r : is_Some (h !! r) → ¬ reach h p r → h' !! r = h !! r;
  ed_own r : reach h' p r → reach h p r ∨ h !! r = None;
  ed_dom r : is_Some (h !! r) → is_Some (h' !! r) }.

Lemma edited_refl h p n : stands_for h p n → edited h h p n.
Proof. intros Hs. split; [done|done|by left|done]. Qed.

Lemma edited_trans h1 h2 h3 p n2 n3 : edited h1 h2 p n2 → edited h2 h3 p n3 → edited h1 h3 p n3.
Proof.
  intros [_ F12 O12 D12] [T3 F23 O23 D23]. split; [exact T3| | |by intros r Hr; apply D23, D12].
  - intros r Hr Hn. rewrite F23; [by apply F12|by apply D12|]. intros [Hr2|Hr2]%O12; [done|]. rewrite Hr2 in Hr. by destruct Hr.
  - intros r [Hr|Hr]%O23; [by apply O12|]. right. destruct (h1 !! r) eqn:E; [|done].
    destruct (D12 r) as [x Hx]; [by eexists|congruence].
Qed.

(** Trees that share nothing with [p] stay. *)
Lemma edited_other h h' p n q m :
  edited h h' p n → stands_for h q m → (∀ r, reach h q r → ¬ reach h p r) → agree h h' q ∧ stands_for h' q m.
Proof.
  intros He Hq Hdis. assert (Ha : agree h h' q).
  { intros r Hr. apply (ed_frame _ _ _ _ He); [by eapply stands_reach_dom|by apply Hdis]. }
  split; [exact Ha|by eapply stands_agree].
Qed.

(** Node [p] gets other subscriptions or loses children. *)
Lemma edit_node h p hn hn' ch ch' sb :
  stands_for h p (Node ch sb) → h !! p = Some hn →
  (∀ l q, h_children hn' !! l = Some q → h_children hn !! l = Some q) →
  (∀ l, is_Some (h_children hn' !! l) ↔ is_Some (ch' !! l)) → (∀ l c, ch' !! l = Some c → ch !! l = Some c) →
  edited h (<[p := hn']> h) p (Node ch' (h_subs hn')).
Proof.
  intros Hs Hp Hsub Hdom' Hsub'. pose proof Hs as (hn0 & Hp0 & _ & Hdom & Hch & Hself & Hdisj)%stands_inv.
  assert (hn0 = hn) as -> by congruence.
  assert (Ht : stands_for (<[p := hn']> h) p (Node ch' (h_subs hn'))).
  { apply stands_set; [done|eauto..]. }
  split; [exact Ht| | |].
  - intros r _ Hr. rewrite lookup_insert_ne; [done|]. intros <-. apply Hr. constructor.
  - intros r Hr. left. inversion Hr as [|p' hn2 l q r' Hp2 Hl Hr2]; subst; [constructor|].
    rewrite lookup_insert_eq in Hp2. injection Hp2 as <-. apply Hsub in Hl.
    eapply reach_child; [exact Hp|exact Hl|]. eapply agree_reach; [|exact Hr2].
    intros x Hx. rewrite lookup_insert_ne; [done|]. intros <-. by eapply Hself.
  - intros r Hr. destruct (decide (r = p)) as [->|Hne]; [rewrite lookup_insert_eq; by eexists|by rewrite lookup_insert_ne].
Qed.

Lemma edit_subs h p hn ch sb sb' :
  stands_for h p (Node ch sb) → h !! p = Some hn → edited h (<[p := with_subs sb' hn]> h) p (Node ch sb').
Proof.
  intros Hs Hp. eapply (edit_node h p hn (with_subs sb' hn)); [exact Hs|exact Hp|done| |done].
  pose proof Hs as (hn0 & Hp0 & _ & Hdom & _)%stands_inv. assert (hn0 = hn) as -> by congruence. exact Hdom.
Qed.

Lemma edit_drop h p hn ch sb l :
  stands_for h p (Node ch sb) → h !! p = Some hn → edited h (<[p := drop_child l hn]> h) p (Node (delete l ch) sb).
Proof.
  intros Hs Hp. pose proof Hs as (hn0 & Hp0 & <- & Hdom & _)%stands_inv. assert (hn0 = hn) as -> by congruence.
  eapply (edit_node h p hn (drop_child l hn)); [exact Hs|exact Hp| | |]; cbn [h_children drop_child].
  - by intros l' q [_ ?]%lookup_delete_Some.
  - intros l'. rewrite !lookup_delete. case_decide; [by split; intros [? [=]]|apply Hdom].
  - by intros l' c [_ ?]%lookup_delete_Some.
Qed.

(** A tree that shares nothing with [p] becomes a child of it. *)
Lemma attach h p hn ch sb l q c :
  stands_for h p (Node ch sb) → h !! p = Some hn → h_children hn !! l = None → stands_for h q c →
  (∀ r, reach h q r → ¬ reach h p r) →
  stands_for (<[p := set_child l q hn]> h) p (Node (<[l := c]> ch) sb)
  ∧ ∀ r, reach (<[p := set_child l q hn]> h) p r → reach h p r ∨ reach h q r.
Proof.
  intros Hs Hp Hnone Hq Hdis. pose proof Hs as (hn0 & Hp0 & <- & Hdom & Hch & Hself & Hdisj)%stands_inv.
  assert (hn0 = hn) as -> by congruence.
  assert (Hchild : ∀ l' q', h_children (set_child l q hn) !! l' = Some q' → (l' = l ∧ q' = q) ∨ (l' ≠ l ∧ h_children hn !! l' = Some q')).
  { cbn [h_children set_child]. intros l' q' [[<- <-]|[? ?]]%lookup_insert_Some; auto. }
  assert (Hnp : ¬ reach h q p) by (intros Hr; apply (Hdis p Hr); constructor).
  split.
  - apply (stands_set h p (set_child l q hn)).
    + intros l'. cbn [h_children set_child]. rewrite !lookup_insert. case_decide; [by split; eexists|apply Hdom].
    + intros l' q' c' [[-> ->]|[Hne Hl']]%Hchild.
      * rewrite lookup_insert_eq. by intros [= <-].
      * rewrite lookup_insert_ne by done. by apply Hch.
    + intros l' q' [[-> ->]|[Hne Hl']]%Hchild; [done|by eapply Hself].
    + intros l1 l2 q1 q2 r [[-> ->]|[N1 H1]]%Hchild [[-> ->]|[N2 H2]]%Hchild R1 R2; [done| | |by eapply Hdisj].
      * destruct (Hdis r R1). by eapply reach_child.
      * destruct (Hdis r R2). by eapply reach_child.
  - intros r Hr. inversion Hr as [|p' hn2 l' q' r' Hp2 Hl Hr2]; subst; [left; constructor|].
    rewrite lookup_insert_eq in Hp2. injection Hp2 as <-.
    assert (Ha : ∀ x, ¬ reach h x p → reach (<[p := set_child l q hn]> h) x r → reach h x r).
    { intros x Hx. apply agree_reach. intros y Hy. rewrite lookup_insert_ne; [done|]. by intros <-. }
    apply Hchild in Hl as [[-> ->]|[Hne Hl]]; [right; by apply Ha|]. left. eapply reach_child; [exact Hp|exact Hl|].
    apply Ha; [by eapply Hself|done].
Qed.

(** A change of a child is a change of its parent. *)
Lemma edit_child h h' p hn ch sb l q c' :
  stands_for h p (Node ch sb) → h !! p = Some hn → h_children hn !! l = Some q → edited h h' q c' →
  edited h h' p (Node (<[l := c']> ch) sb) ∧ h' !! p = Some hn.
Proof.
  intros Hs Hp Hl He. pose proof Hs as (hn0 & Hp0 & <- & Hdom & Hch & Hself & Hdisj)%stands_inv.
  assert (hn0 = hn) as -> by congruence.
  assert (Hp' : h' !! p = Some hn) by (rewrite (ed_frame _ _ _ _ He); [done|by eexists|by eapply Hself]).
  assert (Hother : ∀ l2 q2, l2 ≠ l → h_children hn !! l2 = Some q2 → agree h h' q2).
  { intros l2 q2 Hne Hl2. destruct (stands_child h p ch (h_subs hn) hn l2 q2 Hs Hp Hl2) as (c2 & _ & Hc2).
    apply (edited_other h h' q c' q2 c2 He Hc2). intros r R2 R. apply Hne. by eapply Hdisj. }
  assert (Hback : ∀ l2 q2 r, l2 ≠ l → h_children hn !! l2 = Some q2 → reach h' q2 r → reach h q2 r).
  { intros l2 q2 r Hne Hl2. apply agree_reach. by eapply Hother. }
  assert (Hin : ∀ l2 q2 r, l2 ≠ l → h_children hn !! l2 = Some q2 → reach h' q2 r → is_Some (h !! r)).
  { intros l2 q2 r Hne Hl2 Hr. destruct (stands_child h p ch (h_subs hn) hn l2 q2 Hs Hp Hl2) as (c2 & _ & Hc2).
    exact (stands_reach_dom _ _ _ _ Hc2 (Hback _ _ _ Hne Hl2 Hr)). }
  split; [|exact Hp']. split.
  - apply stands; [exact Hp'| | | |].
    + intros l2. rewrite lookup_insert. case_decide as E; [|apply Hdom]. subst l2. rewrite Hl. by split; eexists.
    + intros l2 q2 c2 Hl2. rewrite lookup_insert. case_decide as E.
      * subst l2. intros [= <-]. assert (q2 = q) as -> by congruence. apply He.
      * intros Hc2. exact (stands_agree _ _ _ _ (Hch _ _ _ Hl2 Hc2) (Hother _ _ (not_eq_sym E) Hl2)).
    + intros l2 q2 Hl2 Hr. destruct (decide (l2 = l)) as [->|Hne]; [|exact (Hself _ _ Hl2 (Hback _ _ _ Hne Hl2 Hr))].
      assert (q2 = q) as -> by congruence. apply (ed_own _ _ _ _ He) in Hr as [Hr|Hr]; [by eapply Hself|congruence].
    + intros l1 l2 q1 q2 r H1 H2 R1 R2. destruct (decide (l1 = l)) as [->|N1], (decide (l2 = l)) as [->|N2]; [done| | |].
      * assert (q1 = q) as -> by congruence. destruct (Hin _ _ _ N2 H2 R2) as [x Hx].
        apply (ed_own _ _ _ _ He) in R1 as [R1|R1]; [|congruence]. exact (Hdisj _ _ _ _ _ Hl H2 R1 (Hback _ _ _ N2 H2 R2)).
      * assert (q2 = q) as -> by congruence. destruct (Hin _ _ _ N1 H1 R1) as [x Hx].
        apply (ed_own _ _ _ _ He) in R2 as [R2|R2]; [|congruence]. exact (Hdisj _ _ _ _ _ H1 Hl (Hback _ _ _ N1 H1 R1) R2).
      * exact (Hdisj _ _ _ _ _ H1 H2 (Hback _ _ _ N1 H1 R1) (Hback _ _ _ N2 H2 R2)).
  - intros r Hd Hr. apply (ed_frame _ _ _ _ He); [done|]. intros Hq. apply Hr. by eapply reach_child.
  - intros r Hr. inversion Hr as [|p' hn2 l2 q2 r' Hp2 Hl2 Hr2]; subst; [left; constructor|].
    assert (hn2 = hn) as -> by congruence. destruct (decide (l2 = l)) as [->|Hne].
    + assert (q2 = q) as -> by congruence. apply (ed_own _ _ _ _ He) in Hr2 as [Hr2|Hr2]; [|by right].
      left. by eapply reach_child.
    + left. exact (reach_child _ _ _ _ _ _ Hp Hl2 (Hback _ _ _ Hne Hl2 Hr2)).
  - apply He.
Qed.

(** * The operations *)

(** A new node is an empty tree. *)
Lemma new_tree h :
  let q := fresh (dom h) in
  h !! q = None ∧ stands_for (<[q := mkHNode ∅ ∅]> h) q empty_node ∧ ∀ r, reach (<[q := mkHNode ∅ ∅]> h) q r → r = q.
Proof.
  intros q. assert (Hq : h !! q = None) by (unfold q; apply not_elem_of_dom, is_fresh). split; [exact Hq|].
  assert (Hl : <[q := mkHNode ∅ ∅]> h !! q = Some (mkHNode ∅ ∅)) by by rewrite lookup_insert_eq. split.
  - apply (stands _ q (mkHNode ∅ ∅) ∅); [exact Hl|..]; cbn [h_children].
    + intros l. rewrite !lookup_empty. by split; intros [? [=]].
    + intros l q' c. by rewrite lookup_empty.
    + intros l q'. by rewrite lookup_empty.
    + intros l l' q1 q2 r. by rewrite lookup_empty.
  - intros r Hr. inversion Hr as [|p' hn l q' r' Hp Hc Hr']; subst; [done|]. rewrite Hl in Hp. injection Hp as <-.
    cbn [h_children] in Hc. by rewrite lookup_empty in Hc.
Qed.

(** Allocation leaves a tree alone. *)
Lemma agree_new h p n hn : stands_for h p n → agree h (<[fresh (dom h) := hn]> h) p.
Proof.
  intros Hs r Hr. rewrite lookup_insert_ne; [done|]. intros <-. destruct (stands_reach_dom _ _ _ _ Hs Hr) as [x Hx].
  by apply (is_fresh (dom h)), elem_of_dom_2 with x.
Qed.

(** A new child. *)
Lemma edit_new_child h p hn ch sb l :
  stands_for h p (Node ch sb) → h !! p = Some hn → h_children hn !! l = None →
  let q := fresh (dom h) in
  edited h (<[p := set_child l q hn]> (<[q := mkHNode ∅ ∅]> h)) p (Node (<[l := empty_node]> ch) sb).
Proof.
  intros Hs Hp Hl q. destruct (new_tree h) as (Hq & Ht & Hreach). fold q in Hq, Ht, Hreach.
  pose proof (agree_new h p _ (mkHNode ∅ ∅) Hs) as Ha. fold q in Ha.
  assert (Hqp : q ≠ p) by (intros ->; congruence). set (h1 := <[q := mkHNode ∅ ∅]> h) in *.
  assert (Hdis : ∀ r, reach h1 q r → ¬ reach h1 p r).
  { intros r ->%Hreach Hr. apply (agree_reach h h1 p q Ha) in Hr. destruct (stands_reach_dom _ _ _ _ Hs Hr) as [x Hx]. congruence. }
  assert (Hp1 : h1 !! p = Some hn) by (unfold h1; by rewrite lookup_insert_ne).
  destruct (attach h1 p hn ch sb l q empty_node (stands_agree _ _ _ _ Hs Ha) Hp1 Hl Ht Hdis) as [Hs' Hr'].
  split; [exact Hs'| | |].
  - intros r [x Hx] Hr. rewrite lookup_insert_ne by (intros <-; apply Hr; constructor). unfold h1.
    by rewrite lookup_insert_ne by (intros <-; congruence).
  - intros r [Hr| ->%Hreach]%Hr'; [left; by apply (agree_reach h h1 p r Ha)|by right].
  - intros r [x Hx]. destruct (decide (r = p)) as [->|Hne]; [rewrite lookup_insert_eq; by eexists|].
    rewrite lookup_insert_ne by done. unfold h1. rewrite lookup_insert_ne by (intros <-; congruence). by eexists.
Qed.

Lemma h_subscribe_edits levels sub cur h n :
  stands_for h cur n → ∃ h', h_subscribe levels sub cur h = Some h' ∧ edited h h' cur (subscribe levels sub n).
Proof.
  revert cur h n. induction levels as [|lvl levels IH]; intros cur h [ch sb] Hs;
    pose proof Hs as (hn & Hp & Esb & Hdom & Hch & _)%stands_inv; cbn [h_subscribe]; rewrite Hp; cbn [mbind option_bind].
  - eexists. split; [reflexivity|]. rewrite Esb. by eapply edit_subs.
  - cbn [subscribe children subs]. destruct (h_children hn !! lvl) as [q|] eqn:Hl.
    + destruct (stands_child _ _ _ _ _ _ _ Hs Hp Hl) as (c & Hc & Hsc). rewrite Hc. cbn [default].
      destruct (IH q h c Hsc) as (h' & -> & He). exists h'. split; [reflexivity|].
      by apply (edit_child h h' cur hn ch sb lvl q _ Hs Hp Hl He).
    + assert (ch !! lvl = None) as ->.
      { destruct (ch !! lvl) eqn:E; [|done]. destruct (proj2 (Hdom lvl)) as [x Hx]; [by eexists|congruence]. }
      cbn [default h_new]. pose proof (edit_new_child h cur hn ch sb lvl Hs Hp Hl) as He1. cbn zeta in He1.
      set (q := fresh (dom h)) in *. set (h1 := <[cur := set_child lvl q hn]> _) in *.
      assert (Hp1 : h1 !! cur = Some (set_child lvl q hn)) by (unfold h1; by rewrite lookup_insert_eq).
      assert (Hl1 : h_children (set_child lvl q hn) !! lvl = Some q) by (cbn [h_children set_child]; by rewrite lookup_insert_eq).
      destruct (stands_child _ _ _ _ _ _ _ (ed_tree _ _ _ _ He1) Hp1 Hl1) as (c & Hc & Hsc).
      rewrite lookup_insert_eq in Hc. injection Hc as <-.
      destruct (IH q h1 empty_node Hsc) as (h2 & Hrun & He2). exists h2. split; [exact Hrun|].
      eapply edited_trans; [exact He1|].
      destruct (edit_child h1 h2 cur _ _ sb lvl q _ (ed_tree _ _ _ _ He1) Hp1 Hl1 He2) as [He _].
      by rewrite insert_insert_eq in He.
Qed.

(** The test of [unsubscribe] reads the node. *)
Lemma leafless_stands h q c hn : stands_for h q c → h !! q = Some hn → h_leafless hn = is_leafless c.
Proof.
  intros Hs Hq. destruct c as [ch sb]. pose proof Hs as (hn' & Hq' & <- & Hdom & _)%stands_inv. assert (hn' = hn) as -> by congruence.
  unfold h_leafless, is_leafless. cbn [children subs]. f_equal. unfold msize.
  replace (size (h_children hn)) with (size ch); [done|]. rewrite <- !size_dom. f_equal. apply set_eq. intros l.
  rewrite !elem_of_dom. symmetry. apply Hdom.
Qed.

(** A child was changed and is dropped if it is empty. *)
Lemma prune_edits h h' p hn ch sb l q c' :
  stands_for h p (Node ch sb) → h !! p = Some hn → h_children hn !! l = Some q → edited h h' q c' →
  ∃ h'', h_prune l p q h' = Some h''
    ∧ edited h h'' p (Node (if is_leafless c' then delete l ch else <[l := c']> ch) sb)
    ∧ ∃ hn', h'' !! p = Some hn' ∧ (∀ l', l' ≠ l → h_children hn' !! l' = h_children hn !! l').
Proof.
  intros Hs Hp Hl He. destruct (edit_child h h' p hn ch sb l q c' Hs Hp Hl He) as [He' Hp'].
  unfold h_prune. destruct (stands_lookup _ _ _ (ed_tree _ _ _ _ He)) as [hq Hq]. rewrite Hq. cbn [mbind option_bind].
  rewrite (leafless_stands _ _ _ _ (ed_tree _ _ _ _ He) Hq). destruct (is_leafless c').
  - rewrite Hp'. cbn [mbind option_bind]. eexists. split; [reflexivity|]. split.
    + pose proof (edit_drop h' p hn (<[l := c']> ch) sb l (ed_tree _ _ _ _ He') Hp') as Hd. rewrite delete_insert_eq in Hd.
      by eapply edited_trans.
    + exists (drop_child l hn). rewrite lookup_insert_eq. split; [done|]. intros l' Hne. cbn [h_children drop_child]. by rewrite lookup_delete_ne.
  - exists h'. split; [reflexivity|]. split; [exact He'|]. by exists hn.
Qed.

Lemma h_unsubscribe_edits levels id p h n :
  stands_for h p n → ∃ h', h_unsubscribe levels id p h = Some h' ∧ edited h h' p (unsubscribe levels id n).
Proof.
  revert p h n. induction levels as [|lvl levels IH]; intros p h [ch sb] Hs;
    pose proof Hs as (hn & Hp & Esb & Hdom & Hch & _)%stands_inv; cbn [h_unsubscribe]; rewrite Hp; cbn [mbind option_bind].
  - eexists. split; [reflexivity|]. rewrite Esb. by eapply edit_subs.
  - cbn [unsubscribe children subs]. destruct (h_children hn !! lvl) as [q|] eqn:Hl.
    + destruct (stands_child _ _ _ _ _ _ _ Hs Hp Hl) as (c & Hc & Hsc). rewrite Hc.
      destruct (IH q h c Hsc) as (h1 & -> & He). cbn [mbind option_bind].
      destruct (prune_edits h h1 p hn ch sb lvl q _ Hs Hp Hl He) as (h2 & Hrun & He2 & _). exists h2. split; [exact Hrun|].
      by destruct (is_leafless _).
    + assert (ch !! lvl = None) as ->.
      { destruct (ch !! lvl) eqn:E; [|done]. destruct (proj2 (Hdom lvl)) as [x Hx]; [by eexists|congruence]. }
      exists h. split; [reflexivity|]. by apply edited_refl.
Qed.

(** ** Operations that visit the whole tree *)

(** [fuel] is more than the levels of the tree. *)
Definition shallow (fuel : nat) (n : node) : Prop := ∀ path, is_Some (node_at path n) → (length path < fuel)%nat.

Lemma shallow_child fuel n l c : shallow (S fuel) n → children n !! l = Some c → shallow fuel c.
Proof.
  intros Hs Hl path Hp. assert (length (l :: path) < S fuel)%nat; [|simpl in *; lia].
  apply Hs. cbn [node_at]. by rewrite Hl.
Qed.

(** As many nodes are reached as a path has, so the size of the memory is fuel enough. *)
Lemma path_nodes h p n path :
  stands_for h p n → is_Some (node_at path n) →
  ∃ X : gset nat, X ⊆ dom h ∧ (∀ r, r ∈ X → reach h p r) ∧ size X = S (length path).
Proof.
  revert p n. induction path as [|l path IH]; intros p [ch sb] Hs Hpath;
    pose proof Hs as (hn & Hp & _ & Hdom & Hch & Hself & _)%stands_inv.
  - exists {[p]}. split_and!; [|intros r ->%elem_of_singleton; constructor|apply size_singleton].
    intros r ->%elem_of_singleton. by apply elem_of_dom_2 with hn.
  - cbn [node_at children] in Hpath. destruct (ch !! l) as [c|] eqn:Hc; [|by destruct Hpath].
    destruct (proj2 (Hdom l)) as [q Hq]; [by eexists|]. destruct (IH q c (Hch l q c Hq Hc) Hpath) as (X & Hsub & Hr & Hsize).
    exists ({[p]} ∪ X). split_and!.
    + intros r [->%elem_of_singleton|Hin]%elem_of_union; [by apply elem_of_dom_2 with hn|by apply Hsub].
    + intros r [->%elem_of_singleton|Hin]%elem_of_union; [constructor|]. eapply reach_child; [exact Hp|exact Hq|by apply Hr].
    + rewrite size_union by (apply disjoint_singleton_l; intros Hin; by eapply Hself, Hr).
      rewrite size_singleton, Hsize. done.
Qed.

Lemma stands_shallow h p n : stands_for h p n → shallow (size h) n.
Proof.
  intros Hs path Hp. destruct (path_nodes h p n path Hs Hp) as (X & Hsub & _ & Hsize).
  apply subseteq_size in Hsub. rewrite size_dom in Hsub. lia.
Qed.

Section order.
Context (order : gmap bytes nat → list (bytes * nat)).
Context (order_perm : ∀ m, order m ≡ₚ map_to_list m).

(** The loop of [unsubscribeAll] on values, for the keys in some order. *)
Definition prune_key (id : bytes) (ch : gmap bytes node) (l : bytes) : gmap bytes node :=
  match ch !! l with
  | Some c => let c' := unsubscribeAll id c in if is_leafless c' then delete l ch else <[l := c']> ch
  | None => ch
  end.

Definition prune_keys (id : bytes) (ks : list bytes) (ch : gmap bytes node) : gmap bytes node :=
  foldl (prune_key id) ch ks.

Lemma prune_keys_lookup id ks ch l :
  NoDup ks → prune_keys id ks ch !! l =
    if decide (l ∈ ks) then ch !! l ≫= (λ c, let c' := unsubscribeAll id c in if is_leafless c' then None else Some c') else ch !! l.
Proof.
  revert ch. induction ks as [|k ks IH]; intros ch; [done|]. intros [Hk Hnd]%NoDup_cons.
  change (prune_keys id (k :: ks) ch) with (prune_keys id ks (prune_key id ch k)). rewrite (IH _ Hnd).
  destruct (decide (l = k)) as [->|Hne].
  - rewrite decide_False by done. rewrite decide_True by left. unfold prune_key.
    destruct (ch !! k) as [c|] eqn:Hc; [|by rewrite Hc].
    cbn [mbind option_bind]. cbv zeta. destruct (is_leafless _); [apply lookup_delete_eq|apply lookup_insert_eq].
  - assert (E : prune_key id ch k !! l = ch !! l).
    { unfold prune_key. destruct (ch !! k) as [c|]; [|done]. cbv zeta.
      destruct (is_leafless _); [by apply lookup_delete_ne|by apply lookup_insert_ne]. }
    rewrite E. destruct (decide (l ∈ ks)); [rewrite decide_True by by right|rewrite decide_False]; [done|done|].
    by intros [?|?]%elem_of_cons.
Qed.

(** The keys of the children of a node in memory are those of the tree. *)
Lemma order_keys h p ch sb hn :
  stands_for h p (Node ch sb) → h !! p = Some hn →
  NoDup (order (h_children hn)).*1 ∧ (∀ l, l ∈ (order (h_children hn)).*1 ↔ is_Some (ch !! l))
  ∧ (∀ l q, (l, q) ∈ order (h_children hn) → h_children hn !! l = Some q).
Proof.
  intros (hn' & Hp' & _ & Hdom & _)%stands_inv Hp. assert (hn' = hn) as -> by congruence.
  pose proof (order_perm (h_children hn)) as Ho. split_and!.
  - rewrite Ho. apply NoDup_fst_map_to_list.
  - intros l. rewrite <- Hdom, Ho, list_elem_of_fmap. split.
    + intros ([k q] & -> & Hin%elem_of_map_to_list). by exists q.
    + intros [q Hq]. exists (l, q). split; [done|by apply elem_of_map_to_list].
  - intros l q. rewrite Ho. apply elem_of_map_to_list.
Qed.

Lemma prune_loop id (f : nat → node_heap → option node_heap) todo h p hn ch sb :
  (∀ l q h c, (l, q) ∈ todo → ch !! l = Some c → stands_for h q c → ∃ h', f q h = Some h' ∧ edited h h' q (unsubscribeAll id c)) →
  NoDup todo.*1 → stands_for h p (Node ch sb) → h !! p = Some hn → (∀ l q, (l, q) ∈ todo → h_children hn !! l = Some q) →
  ∃ h', foldl (λ acc lc, h ← acc; h ← f lc.2 h; h_prune lc.1 p lc.2 h) (Some h) todo = Some h'
    ∧ edited h h' p (Node (prune_keys id todo.*1 ch) sb).
Proof.
  revert h hn ch. induction todo as [|[l q] todo IH]; intros h hn ch Hf Hnd Hs Hp Hin.
  { exists h. split; [reflexivity|]. by apply edited_refl. }
  rewrite fmap_cons in Hnd. apply NoDup_cons in Hnd as [Hl Hnd]. cbn [fst] in Hl.
  assert (Hlq : h_children hn !! l = Some q) by (apply Hin; left).
  destruct (stands_child _ _ _ _ _ _ _ Hs Hp Hlq) as (c & Hc & Hsc).
  destruct (Hf l q h c ltac:(left) Hc Hsc) as (h1 & H1 & He1).
  destruct (prune_edits h h1 p hn ch sb l q _ Hs Hp Hlq He1) as (h2 & H2 & He2 & hn2 & Hp2 & Hch2).
  set (ch2 := if is_leafless (unsubscribeAll id c) then delete l ch else <[l := unsubscribeAll id c]> ch) in *.
  assert (Hne : ∀ l' q', (l', q') ∈ todo → l' ≠ l).
  { intros l' q' Hin' ->. apply Hl. apply list_elem_of_fmap. by exists (l, q'). }
  assert (Ech : ∀ l', l' ≠ l → ch2 !! l' = ch !! l').
  { intros l' Hn. unfold ch2. destruct (is_leafless _); [by apply lookup_delete_ne|by apply lookup_insert_ne]. }
  destruct (IH h2 hn2 ch2) as (h3 & H3 & He3); [|exact Hnd|apply He2|exact Hp2| |].
  - intros l' q' h' c' Hin'. rewrite Ech by by eapply Hne. intros Hc'. eapply Hf; [by right|exact Hc'].
  - intros l' q' Hin'. rewrite Hch2 by by eapply Hne. apply Hin. by right.
  - exists h3. split.
    + cbn [foldl fst snd]. change (Some h ≫= _) with (h ← f q h; h_prune l p q h). rewrite H1. cbn [mbind option_bind]. by rewrite H2.
    + change (prune_keys id ((l, q) :: todo).*1 ch) with (prune_keys id todo.*1 (prune_key id ch l)).
      unfold prune_key. rewrite Hc. by eapply edited_trans.
Qed.

Lemma h_unsubscribeAll_edits fuel id p h n :
  stands_for h p n → shallow fuel n →
  ∃ h', h_unsubscribeAll order fuel id p h = Some h' ∧ edited h h' p (unsubscribeAll id n).
Proof.
  revert p h n. induction fuel as [|fuel IH]; intros p h [ch sb] Hs Hfuel.
  { specialize (Hfuel [] ltac:(by eexists)). simpl in Hfuel. lia. }
  pose proof Hs as (hn & Hp & Esb & _)%stands_inv. cbn [h_unsubscribeAll]. rewrite Hp. cbn [mbind option_bind].
  pose proof (edit_subs h p hn ch sb (delete id (h_subs hn)) Hs Hp) as He. set (h1 := <[p := _]> h) in *.
  assert (Hp1 : h1 !! p = Some (with_subs (delete id (h_subs hn)) hn)) by (unfold h1; by rewrite lookup_insert_eq).
  destruct (order_keys _ _ _ _ _ Hs Hp) as (Hnd & Hkeys & Hin).
  destruct (prune_loop id (h_unsubscribeAll order fuel id) (order (h_children hn)) h1 p
    (with_subs (delete id (h_subs hn)) hn) ch (delete id (h_subs hn))) as (h2 & H2 & He2).
  - intros l q h' c _ Hc Hsc. apply IH; [exact Hsc|]. by eapply shallow_child.
  - exact Hnd.
  - apply He.
  - exact Hp1.
  - intros l q Hlq. by apply Hin.
  - exists h2. split; [exact H2|]. cbn [unsubscribeAll]. rewrite Esb in He, He2.
    replace (omap _ ch) with (prune_keys id (order (h_children hn)).*1 ch); [by eapply edited_trans|].
    apply map_eq. intros l. rewrite (prune_keys_lookup id _ ch l Hnd), lookup_omap.
    destruct (decide (l ∈ _)) as [Hl|Hl]; [done|]. rewrite Hkeys in Hl. by destruct (ch !! l); [destruct Hl|].
Qed.

(** The loop of [clone] on values. *)
Definition copy_key (ch acc : gmap bytes node) (l : bytes) : gmap bytes node :=
  match ch !! l with Some c => <[l := c]> acc | None => acc end.

Definition copy_keys (ch : gmap bytes node) (ks : list bytes) (acc : gmap bytes node) : gmap bytes node :=
  foldl (copy_key ch) acc ks.

Lemma copy_keys_lookup ch ks acc l :
  NoDup ks → copy_keys ch ks acc !! l = if decide (l ∈ ks ∧ is_Some (ch !! l)) then ch !! l else acc !! l.
Proof.
  revert acc. induction ks as [|k ks IH]; intros acc.
  { intros _. rewrite decide_False; [done|]. by intros [?%not_elem_of_nil _]. }
  intros [Hk Hnd]%NoDup_cons. change (copy_keys ch (k :: ks) acc) with (copy_keys ch ks (copy_key ch acc k)).
  rewrite (IH _ Hnd). unfold copy_key. destruct (decide (l ∈ ks ∧ _)) as [[Hin Hl]|Hno].
  - rewrite decide_True; [done|]. split; [by right|done].
  - destruct (decide (l = k)) as [->|Hne].
    + destruct (ch !! k) as [c|] eqn:Hc.
      * rewrite decide_True by (split; [left|by eexists]). by rewrite lookup_insert_eq.
      * rewrite decide_False; [done|]. by intros [_ [? [=]]].
    + rewrite decide_False; [destruct (ch !! k); [by rewrite lookup_insert_ne|done]|].
      intros [[?|?]%elem_of_cons ?]; [done|]. by apply Hno.
Qed.

(** A copy of [p] is a tree of new nodes; nothing is written. *)
Record cloned (h h' : node_heap) (q : nat) (n : node) : Prop := {
  cl_tree : stands_for h' q n;
  cl_new r : reach h' q r → h !! r = None;
  cl_old r : is_Some (h !! r) → h' !! r = h !! r }.

Lemma agree_old h h' p n : stands_for h p n → (∀ r, is_Some (h !! r) → h' !! r = h !! r) → agree h h' p.
Proof. intros Hs Hold r Hr. apply Hold. by eapply stands_reach_dom. Qed.

Lemma clone_loop (f : nat → node_heap → option (nat * node_heap)) todo h0 h nn m ch acc :
  (∀ l q h, (l, q) ∈ todo → (∀ r, is_Some (h0 !! r) → h !! r = h0 !! r) →
     ∃ c q' h', ch !! l = Some c ∧ f q h = Some (q', h') ∧ cloned h h' q' c) →
  NoDup todo.*1 → stands_for h nn (Node acc ∅) → h !! nn = Some m →
  (∀ r, is_Some (h0 !! r) → h !! r = h0 !! r) → (∀ r, reach h nn r → h0 !! r = None) →
  (∀ l q, (l, q) ∈ todo → h_children m !! l = None) →
  ∃ h', foldl (λ acc kv, h ← acc; '(c, h) ← f kv.2 h; m ← h !! nn; Some (<[nn := set_child kv.1 c m]> h)) (Some h) todo = Some h'
    ∧ cloned h0 h' nn (Node (copy_keys ch todo.*1 acc) ∅).
Proof.
  revert h m acc. induction todo as [|[l q] todo IH]; intros h m acc Hf Hnd Hs Hm Hold Hnew Hnone.
  { exists h. split; [reflexivity|]. by split. }
  rewrite fmap_cons in Hnd. apply NoDup_cons in Hnd as [Hl Hnd]. cbn [fst] in Hl.
  destruct (Hf l q h ltac:(left) Hold) as (c & q' & h1 & Hc & H1 & [Ht1 Hn1 Ho1]).
  pose proof (agree_old h h1 nn _ Hs Ho1) as Ha.
  assert (Hm1 : h1 !! nn = Some m) by (rewrite Ha; [done|constructor]).
  assert (Hdis : ∀ r, reach h1 q' r → ¬ reach h1 nn r).
  { intros r Hr1 Hr2. apply (agree_reach h h1 nn r Ha) in Hr2. destruct (stands_reach_dom _ _ _ _ Hs Hr2) as [x Hx].
    rewrite (Hn1 r Hr1) in Hx. discriminate Hx. }
  destruct (attach h1 nn m acc ∅ l q' c (stands_agree _ _ _ _ Hs Ha) Hm1 (Hnone l q ltac:(left)) Ht1 Hdis) as [Hs2 Hr2].
  set (h2 := <[nn := set_child l q' m]> h1) in *.
  assert (Hnn0 : h0 !! nn = None) by (apply Hnew; constructor).
  destruct (IH h2 (set_child l q' m) (<[l := c]> acc)) as (h3 & H3 & Hcl); [|exact Hnd|exact Hs2|by apply lookup_insert_eq|..].
  - intros l' q2 h' Hin. apply Hf. by right.
  - intros r [x Hx]. unfold h2. rewrite lookup_insert_ne by (intros <-; congruence).
    rewrite Ho1; [by apply Hold; eexists|]. rewrite Hold; by eexists.
  - intros r [Hr|Hr]%Hr2; [apply Hnew; by apply (agree_reach h h1 nn r Ha)|].
    destruct (h0 !! r) as [x|] eqn:Hx; [|done]. pose proof (Hn1 r Hr) as E. rewrite Hold in E by (by eexists). congruence.
  - intros l' q2 Hin. cbn [h_children set_child]. rewrite lookup_insert_ne; [by eapply Hnone; right|].
    intros <-. apply Hl. apply list_elem_of_fmap. by exists (l, q2).
  - exists h3. split.
    + cbn [foldl fst snd]. change (Some h ≫= _) with ('(c, h) ← f q h; m ← h !! nn; Some (<[nn := set_child l c m]> h)).
      rewrite H1. cbn [mbind option_bind]. rewrite Hm1. exact H3.
    + change (copy_keys ch ((l, q) :: todo).*1 acc) with (copy_keys ch todo.*1 (copy_key ch acc l)).
      unfold copy_key. by rewrite Hc.
Qed.

Lemma h_clone_cloned fuel p h n :
  stands_for h p n → shallow fuel n → ∃ q h', h_clone order fuel p h = Some (q, h') ∧ cloned h h' q (clone n).
Proof.
  rewrite clone_id. revert p h n. induction fuel as [|fuel IH]; intros p h [ch sb] Hs Hfuel.
  { specialize (Hfuel [] ltac:(by eexists)). simpl in Hfuel. lia. }
  pose proof Hs as (hn & Hp & Esb & _)%stands_inv. cbn [h_clone]. rewrite Hp. cbn [mbind option_bind h_new].
  destruct (new_tree h) as (Hq & Ht & Hreach). set (nn := fresh (dom h)) in *. set (h1 := <[nn := mkHNode ∅ ∅]> h) in *.
  destruct (order_keys _ _ _ _ _ Hs Hp) as (Hnd & Hkeys & Hin).
  assert (Hold : ∀ r, is_Some (h !! r) → h1 !! r = h !! r).
  { intros r [x Hx]. unfold h1. rewrite lookup_insert_ne; [done|]. intros <-. congruence. }
  destruct (clone_loop (h_clone order fuel) (order (h_children hn)) h h1 nn (mkHNode ∅ ∅) ch ∅) as (h2 & H2 & Hcl).
  - intros l q h' Hlq Hold'. pose proof (Hin l q Hlq) as Hl. destruct (stands_child _ _ _ _ _ _ _ Hs Hp Hl) as (c & Hc & Hsc).
    destruct (IH q h' c) as (q' & h2 & Hrun & Hcl).
    + eapply stands_agree; [exact Hsc|]. by eapply agree_old.
    + by eapply shallow_child.
    + by exists c, q', h2.
  - exact Hnd.
  - exact Ht.
  - unfold h1. by rewrite lookup_insert_eq.
  - exact Hold.
  - by intros r ->%Hreach.
  - intros l q _. apply lookup_empty.
  - rewrite H2. cbn [mbind option_bind]. destruct Hcl as [Ht2 Hn2 Ho2]. destruct (stands_lookup _ _ _ Ht2) as [m Hm]. rewrite Hm.
    cbn [mbind option_bind]. eexists _, _. split; [reflexivity|].
    pose proof (edit_subs h2 nn m _ _ (h_subs hn) Ht2 Hm) as He. rewrite Esb in He |- *.
    replace (copy_keys ch (order (h_children hn)).*1 ∅) with ch in He.
    + split; [apply He| |].
      * intros r [Hr|Hr]%(ed_own _ _ _ _ He); [by apply Hn2|]. destruct (h !! r) as [x|] eqn:Hx; [|done].
        rewrite Ho2 in Hr by (by eexists). congruence.
      * intros r [x Hx]. rewrite lookup_insert_ne by (intros <-; congruence). apply Ho2. by eexists.
    + apply map_eq. intros l. rewrite (copy_keys_lookup _ _ _ _ Hnd). destruct (decide _) as [|Hno]; [done|].
      rewrite lookup_empty. destruct (ch !! l) eqn:Hc; [|done]. destruct Hno. split; [|by eexists].
      apply Hkeys. by rewrite Hc; eexists.
Qed.
End order.

(** ** Matching *)

Lemma h_match_node fuel h p n topic idx out :
  match p, n with Some p, Some n => stands_for h p n | None, None => True | _, _ => False end →
  h_match fuel h p topic idx out = Some (match_node fuel n topic idx out).
Proof.
  revert p n idx out. induction fuel as [|fuel IH]; intros p n idx out Hs; [done|].
  destruct p as [p|], n as [[ch sb]|]; try done.
  pose proof Hs as (hn & Hp & Esb & Hdom & Hch & _)%stands_inv. cbn [h_match match_node]. rewrite Hp. cbn [mbind option_bind children subs].
  assert (Hchild : ∀ l, match h_children hn !! l, ch !! l with Some p, Some n => stands_for h p n | None, None => True | _, _ => False end).
  { intros l. destruct (h_children hn !! l) as [q|] eqn:Hq, (ch !! l) as [c|] eqn:Hc; [by eapply Hch| | |done].
    - destruct (proj1 (Hdom l)) as [x Hx]; [by eexists|congruence].
    - destruct (proj2 (Hdom l)) as [x Hx]; [by eexists|congruence]. }
  assert (Hhash : ∀ out, match h_children hn !! lv_hash with Some q => m ← h !! q; Some (addAll out (h_subs m)) | None => Some out end
    = Some (match ch !! lv_hash with Some h => addAll out (subs h) | None => out end)).
  { intros o. specialize (Hchild lv_hash). destruct (h_children hn !! lv_hash) as [q|], (ch !! lv_hash) as [[cch csb]|]; try done.
    apply stands_inv in Hchild as (m & Hm & <- & _). by rewrite Hm. }
  rewrite Esb. destruct (length topic <? idx)%nat; [apply Hhash|]. cbv zeta.
  rewrite (IH _ _ _ _ (Hchild _)). cbn [mbind option_bind]. destruct (_ && _)%bool; [done|].
  rewrite (IH _ _ _ _ (Hchild _)). cbn [mbind option_bind]. apply Hhash.
Qed.
