(* ===== verification/Snapshots.v ===== *)
(** The broker as goroutines share it (src/internal/broker/broker.go): two mutexes,
    two atomic values, the nodes of the trie and the maps of retained messages in
    memory.  Every statement of [Subscribe], [Unsubscribe], [UnsubscribeAll],
    [Publish], [updateRetained], [RetainedMatching] and [Snapshot] that touches
    shared memory is a step of its own, and the steps of all calls interleave.

    The operations of [Broker] are the specification: a call of the interleaved
    broker has the effect and the result of its operation at one moment between its
    beginning and its end.  [Publish] of a message to retain has two such moments,
    one for [updateRetained] and one for the tree it matches. *)

From S2P Require Import Prelude Topic Wire Filters Tree Broker TreeHeap.

Local Open Scope Z_scope.
Local Open Scope orb_scope.

(** * Definitions *)

(** The calls that replace the tree. *)
Inductive tree_update :=
| UpSubscribe (filter : bytes) (qos : Z) (sub : Subscriber)
| UpUnsubscribe (filter clientID : bytes)
| UpUnsubscribeAll (clientID : bytes).

Inductive broker_call :=
| CallUpdate (u : tree_update)
| CallPublish (pub : PublishPacket)
| CallRetained (filter : bytes)
| CallSnapshot.

(** What a call gives back; for [Publish] the subscriptions it delivers to. *)
Inductive broker_output :=
| OutDone
| OutError (err : error)
| OutSubs (subs : list Subscription)
| OutMessages (msgs : list PublishPacket)
| OutStats (s : RetainedStats).

(** The statement a call is at, with its local variables. *)
Inductive broker_phase :=
| TLock (u : tree_update)
| TLoad (u : tree_update)
| TClone (u : tree_update) (oldTree : nat)
| TEdit (u : tree_update) (newTree : nat)
| TStore (u : tree_update) (newTree : nat)
| TUnlock
| RLock (pub : PublishPacket)
| RLoad (pub : PublishPacket)
| RCheck (pub : PublishPacket) (oldMap : nat)
| RCopy (pub : PublishPacket) (oldMap : nat) (delta : Z)
| REdit (pub : PublishPacket) (newMap : nat) (delta : Z)
| RStore (pub : PublishPacket) (newMap : nat) (delta : Z)
| RMessages (pub : PublishPacket) (newMap : nat) (delta : Z)
| RBytes (pub : PublishPacket) (delta : Z)
| RUnlock (pub : PublishPacket) (err : option error)
| PLoad (pub : PublishPacket)
| PMatch (pub : PublishPacket) (tree : nat)
| MLoad (filter : bytes)
| MRange (filter : bytes) (retained : nat)
| SLock
| SRead
| SUnlock (s : RetainedStats)
| Returned (out : broker_output)
| Panicked.

Abbreviation retained_map := (gmap bytes PublishPacket).

(** The struct [Broker] with the memory behind its pointers and the calls in
    progress.  A retained message is not changed once it is in a map, so maps hold
    the messages themselves.  A mutex is the call that holds it. *)
Record SharedBroker := mkShared {
  sh_nodes : gmap nat hnode;
  sh_maps : gmap nat retained_map;
  sh_topicsMu : option nat;
  sh_topics : nat;
  sh_retainedMu : option nat;
  sh_retained : nat;
  sh_limits : RetainedLimits;
  sh_stats : RetainedStats;
  sh_calls : gmap nat broker_phase }.

Definition set_calls (c : gmap nat broker_phase) (s : SharedBroker) : SharedBroker :=
  mkShared (sh_nodes s) (sh_maps s) (sh_topicsMu s) (sh_topics s) (sh_retainedMu s) (sh_retained s) (sh_limits s) (sh_stats s) c.
Definition goto (k : nat) (p : broker_phase) (s : SharedBroker) : SharedBroker := set_calls (<[k := p]> (sh_calls s)) s.
Definition set_nodes (h : gmap nat hnode) (s : SharedBroker) : SharedBroker :=
  mkShared h (sh_maps s) (sh_topicsMu s) (sh_topics s) (sh_retainedMu s) (sh_retained s) (sh_limits s) (sh_stats s) (sh_calls s).
Definition set_maps (m : gmap nat retained_map) (s : SharedBroker) : SharedBroker :=
  mkShared (sh_nodes s) m (sh_topicsMu s) (sh_topics s) (sh_retainedMu s) (sh_retained s) (sh_limits s) (sh_stats s) (sh_calls s).
Definition set_topicsMu (o : option nat) (s : SharedBroker) : SharedBroker :=
  mkShared (sh_nodes s) (sh_maps s) o (sh_topics s) (sh_retainedMu s) (sh_retained s) (sh_limits s) (sh_stats s) (sh_calls s).
Definition store_topics (p : nat) (s : SharedBroker) : SharedBroker :=
  mkShared (sh_nodes s) (sh_maps s) (sh_topicsMu s) p (sh_retainedMu s) (sh_retained s) (sh_limits s) (sh_stats s) (sh_calls s).
Definition set_retainedMu (o : option nat) (s : SharedBroker) : SharedBroker :=
  mkShared (sh_nodes s) (sh_maps s) (sh_topicsMu s) (sh_topics s) o (sh_retained s) (sh_limits s) (sh_stats s) (sh_calls s).
Definition store_retained (m : nat) (s : SharedBroker) : SharedBroker :=
  mkShared (sh_nodes s) (sh_maps s) (sh_topicsMu s) (sh_topics s) (sh_retainedMu s) m (sh_limits s) (sh_stats s) (sh_calls s).
Definition set_stats_to (x : RetainedStats) (s : SharedBroker) : SharedBroker :=
  mkShared (sh_nodes s) (sh_maps s) (sh_topicsMu s) (sh_topics s) (sh_retainedMu s) (sh_retained s) (sh_limits s) x (sh_calls s).

(** [newBytes], [newBytes - oldBytes] and the test of [updateRetained]. *)
Definition new_bytes (pub : PublishPacket) : Z := if 0 <? len (pub_Payload pub) then retained_size pub else 0.
Definition old_bytes (m : retained_map) (pub : PublishPacket) : Z :=
  match m !! pub_Topic pub with Some old => retained_size old | None => 0 end.
Definition retain_refused (l : RetainedLimits) (st : RetainedStats) (m : retained_map) (pub : PublishPacket) : bool :=
  (0 <? len (pub_Payload pub))
  && ((match m !! pub_Topic pub with Some _ => false | None => true end && (MaxMessages l <=? msize m))
      || (MaxBytes l - (RetainedBytes st - old_bytes m pub) <? new_bytes pub)).
(** What it does to the copy of the map. *)
Definition edit_map (pub : PublishPacket) (m : retained_map) : retained_map :=
  if len (pub_Payload pub) =? 0 then delete (pub_Topic pub) m else <[pub_Topic pub := retained_copy pub]> m.

Definition matching_messages (filter : bytes) (m : retained_map) : list PublishPacket :=
  (base.filter (λ kv, MatchFilter filter kv.1 = true) (map_to_list m)).*2.

(** The first statement of a call. *)
Definition call_start (c : broker_call) : broker_phase :=
  match c with
  | CallUpdate u => TLock u
  | CallPublish pub => if pub_Retain pub then RLock pub else PLoad pub
  | CallRetained filter => MLoad filter
  | CallSnapshot => SLock
  end.

Section order.
Context (order : gmap bytes nat → list (bytes * nat)).

(** The change of the copied tree. *)
Definition h_update (u : tree_update) (newTree : nat) (h : gmap nat hnode) : option (gmap nat hnode) :=
  match u with
  | UpSubscribe filter qos sub => h_subscribe (splitFilter filter) (mkSubscription (ID sub) sub qos) newTree h
  | UpUnsubscribe filter clientID => h_unsubscribe (splitFilter filter) clientID newTree h
  | UpUnsubscribeAll clientID => h_unsubscribeAll order (size h) clientID newTree h
  end.

(** The next statement of call [k]; [None] when it has to wait for a mutex, has
    returned or does not exist. *)
Definition shared_step (k : nat) (s : SharedBroker) : option SharedBroker :=
  p ← sh_calls s !! k;
  match p with
  | TLock u => match sh_topicsMu s with None => Some (set_topicsMu (Some k) (goto k (TLoad u) s)) | Some _ => None end
  | TLoad u => Some (goto k (TClone u (sh_topics s)) s)
  | TClone u old =>
      Some (match h_clone order (size (sh_nodes s)) old (sh_nodes s) with
            | Some (q, h) => set_nodes h (goto k (TEdit u q) s)
            | None => goto k Panicked s
            end)
  | TEdit u new =>
      Some (match h_update u new (sh_nodes s) with
            | Some h => set_nodes h (goto k (TStore u new) s)
            | None => goto k Panicked s
            end)
  | TStore _ new => Some (store_topics new (goto k TUnlock s))
  | TUnlock => Some (set_topicsMu None (goto k (Returned OutDone) s))
  | RLock pub => match sh_retainedMu s with None => Some (set_retainedMu (Some k) (goto k (RLoad pub) s)) | Some _ => None end
  | RLoad pub => Some (goto k (RCheck pub (sh_retained s)) s)
  | RCheck pub old =>
      Some (match sh_maps s !! old with
            | Some m =>
                let st := sh_stats s in
                if retain_refused (sh_limits s) st m pub
                then set_stats_to (mkRetainedStats (RetainedMessages st) (RetainedBytes st) (u64 (RetainedRejections st + 1)))
                       (goto k (RUnlock pub (Some ErrRetainedLimit)) s)
                else goto k (RCopy pub old (new_bytes pub - old_bytes m pub)) s
            | None => goto k Panicked s
            end)
  | RCopy pub old delta =>
      Some (match sh_maps s !! old with
            | Some m => let q := fresh (dom (sh_maps s)) in set_maps (<[q := m]> (sh_maps s)) (goto k (REdit pub q delta) s)
            | None => goto k Panicked s
            end)
  | REdit pub new delta =>
      Some (match sh_maps s !! new with
            | Some m => set_maps (<[new := edit_map pub m]> (sh_maps s)) (goto k (RStore pub new delta) s)
            | None => goto k Panicked s
            end)
  | RStore pub new delta => Some (store_retained new (goto k (RMessages pub new delta) s))
  | RMessages pub new delta =>
      Some (match sh_maps s !! new with
            | Some m => let st := sh_stats s in
                set_stats_to (mkRetainedStats (msize m) (RetainedBytes st) (RetainedRejections st)) (goto k (RBytes pub delta) s)
            | None => goto k Panicked s
            end)
  | RBytes pub delta =>
      let st := sh_stats s in
      Some (set_stats_to (mkRetainedStats (RetainedMessages st) (RetainedBytes st + delta) (RetainedRejections st))
              (goto k (RUnlock pub None) s))
  | RUnlock pub err =>
      Some (set_retainedMu None (goto k match err with Some e => Returned (OutError e) | None => PLoad pub end s))
  | PLoad pub => Some (goto k (PMatch pub (sh_topics s)) s)
  | PMatch pub tree =>
      Some (goto k match h_match (match_fuel (pub_Topic pub)) (sh_nodes s) (Some tree) (pub_Topic pub) 0 ∅ with
                   | Some out => Returned (OutSubs (map_to_list out).*2)
                   | None => Panicked
                   end s)
  | MLoad filter => Some (goto k (MRange filter (sh_retained s)) s)
  | MRange filter m =>
      Some (goto k match sh_maps s !! m with Some m => Returned (OutMessages (matching_messages filter m)) | None => Panicked end s)
  | SLock => match sh_retainedMu s with None => Some (set_retainedMu (Some k) (goto k SRead s)) | Some _ => None end
  | SRead => Some (goto k (SUnlock (sh_stats s)) s)
  | SUnlock st => Some (set_retainedMu None (goto k (Returned (OutStats st)) s))
  | Returned _ | Panicked => None
  end.
End order.

(** [NewWithLimits]. *)
Definition shared_new (l : RetainedLimits) : result SharedBroker :=
  match RetainedLimits_Validate l with
  | Some err => Error err
  | None =>
      let '(p, h) := h_new ∅ in
      Ok (mkShared h {[ 0%nat := ∅ ]} None p None 0%nat l (mkRetainedStats 0 0 0) ∅)
  end.

(** ** Executions *)

(** Calls begin and end at any time; that is what the callers see. *)
Inductive broker_event :=
| EvCall (k : nat) (c : broker_call)
| EvStep (k : nat)
| EvReturn (k : nat).

Inductive visible :=
| Invoke (k : nat) (c : broker_call)
| Respond (k : nat) (out : broker_output).

Definition shared_exec (order : gmap bytes nat → list (bytes * nat)) (e : broker_event) (s : SharedBroker)
    : option (SharedBroker * list visible) :=
  match e with
  | EvCall k c => match sh_calls s !! k with None => Some (goto k (call_start c) s, [Invoke k c]) | Some _ => None end
  | EvStep k => s ← shared_step order k s; Some (s, [])
  | EvReturn k =>
      match sh_calls s !! k with
      | Some (Returned out) => Some (set_calls (delete k (sh_calls s)) s, [Respond k out])
      | _ => None
      end
  end.

Fixpoint run_visible {S E} (exec : E → S → option (S * list visible)) (es : list E) (s : S) : option (S * list visible) :=
  match es with
  | [] => Some (s, [])
  | e :: es => '(s, tr) ← exec e s; '(s, tr') ← run_visible exec es s; Some (s, tr ++ tr')
  end.

(** ** The specification *)

Inductive atomic_phase :=
| ACalled (c : broker_call)
| AMatching (pub : PublishPacket)
| ADone (out : broker_output).

(** A broker as [Broker] has it, and the calls on it. *)
Record AtomicBroker := mkAtomic {
  at_broker : Broker;
  at_calls : gmap nat atomic_phase }.

Definition apply_update (u : tree_update) (b : Broker) : Broker :=
  match u with
  | UpSubscribe filter qos sub => Broker_Subscribe b filter qos sub
  | UpUnsubscribe filter clientID => Broker_Unsubscribe b filter clientID
  | UpUnsubscribeAll clientID => Broker_UnsubscribeAll b clientID
  end.

(** The moment of a call. *)
Definition atomic_step (k : nat) (a : AtomicBroker) : option AtomicBroker :=
  p ← at_calls a !! k;
  let b := at_broker a in
  let next b p := Some (mkAtomic b (<[k := p]> (at_calls a))) in
  match p with
  | ACalled (CallUpdate u) => next (apply_update u b) (ADone OutDone)
  | ACalled (CallPublish pub) =>
      let '(err, b) := updateRetained b pub in
      next b match err with Some e => ADone (OutError e) | None => AMatching pub end
  | AMatching pub => next b (ADone (OutSubs (Match (topics b) (pub_Topic pub))))
  | ACalled (CallRetained filter) => next b (ADone (OutMessages (RetainedMatching b filter)))
  | ACalled CallSnapshot => next b (ADone (OutStats (Broker_Snapshot b)))
  | ADone _ => None
  end.

Definition atomic_start (c : broker_call) : atomic_phase :=
  match c with
  | CallPublish pub => if pub_Retain pub then ACalled c else AMatching pub
  | _ => ACalled c
  end.

Definition atomic_exec (e : broker_event) (a : AtomicBroker) : option (AtomicBroker * list visible) :=
  match e with
  | EvCall k c =>
      match at_calls a !! k with
      | None => Some (mkAtomic (at_broker a) (<[k := atomic_start c]> (at_calls a)), [Invoke k c])
      | Some _ => None
      end
  | EvStep k => a ← atomic_step k a; Some (a, [])
  | EvReturn k =>
      match at_calls a !! k with
      | Some (ADone out) => Some (mkAtomic (at_broker a) (delete k (at_calls a)), [Respond k out])
      | _ => None
      end
  end.

(** * What a shared broker stands for *)

(** Between its two mutex operations. *)
Definition in_topics (p : broker_phase) : bool :=
  match p with TLoad _ | TClone _ _ | TEdit _ _ | TStore _ _ | TUnlock => true | _ => false end.
Definition in_retained (p : broker_phase) : bool :=
  match p with
  | RLoad _ | RCheck _ _ | RCopy _ _ _ | REdit _ _ _ | RStore _ _ _ | RMessages _ _ _ | RBytes _ _ | RUnlock _ _ | SRead | SUnlock _ => true
  | _ => false
  end.

(** The mutex is held by the one call that is inside. *)
Definition guards (mu : option nat) (inside : broker_phase → bool) (calls : gmap nat broker_phase) : Prop :=
  ∀ k, mu = Some k ↔ ∃ p, calls !! k = Some p ∧ inside p = true.

(** Trees and maps in use: the current one and those that a call has loaded. *)
Definition tree_in_use (s : SharedBroker) (q : nat) : Prop :=
  q = sh_topics s ∨ ∃ k pub, sh_calls s !! k = Some (PMatch pub q).
Definition map_in_use (s : SharedBroker) (m : nat) : Prop :=
  m = sh_retained s ∨ ∃ k filter, sh_calls s !! k = Some (MRange filter m).

(** The copy a call is working on. *)
Definition tree_of (p : broker_phase) : option nat := match p with TEdit _ q | TStore _ q => Some q | _ => None end.
Definition map_of (p : broker_phase) : option nat := match p with REdit _ m _ | RStore _ m _ => Some m | _ => None end.

Definition apart_trees (h : gmap nat hnode) (p q : nat) : Prop := ∀ r, reach h p r → ¬ reach h q r.

(** A call and its specification. *)
Definition call_matches (s : SharedBroker) (b : Broker) (p : broker_phase) (a : atomic_phase) : Prop :=
  let updating pub := a = ACalled (CallPublish pub) ∧ pub_Retain pub = true in
  let accepted pub delta := retain_refused (b_limits b) (b_stats b) (retained b) pub = false
    ∧ delta = new_bytes pub - old_bytes (retained b) pub in
  match p with
  | TLock u | TLoad u => a = ACalled (CallUpdate u)
  | TClone u old => a = ACalled (CallUpdate u) ∧ old = sh_topics s
  | TEdit u new => a = ACalled (CallUpdate u) ∧ stands_for (sh_nodes s) new (root (topics b))
  | TStore u new => a = ACalled (CallUpdate u) ∧ stands_for (sh_nodes s) new (root (topics (apply_update u b)))
  | TUnlock => a = ADone OutDone
  | RLock pub | RLoad pub => updating pub
  | RCheck pub old => updating pub ∧ old = sh_retained s
  | RCopy pub old delta => updating pub ∧ old = sh_retained s ∧ accepted pub delta
  | REdit pub new delta => updating pub ∧ sh_maps s !! new = Some (retained b) ∧ accepted pub delta
  | RStore pub new delta => updating pub ∧ sh_maps s !! new = Some (edit_map pub (retained b)) ∧ accepted pub delta
  | RMessages pub new delta => a = AMatching pub ∧ new = sh_retained s
  | RBytes pub delta => a = AMatching pub
  | RUnlock pub err => a = match err with Some e => ADone (OutError e) | None => AMatching pub end
  | PLoad pub => a = AMatching pub
  | PMatch pub q => ∃ n, stands_for (sh_nodes s) q n ∧ a = ADone (OutSubs (Match (mkTree n) (pub_Topic pub)))
  | MLoad filter => a = ACalled (CallRetained filter)
  | MRange filter q => ∃ m, sh_maps s !! q = Some m ∧ a = ADone (OutMessages (matching_messages filter m))
  | SLock | SRead => a = ACalled CallSnapshot
  | SUnlock st => a = ADone (OutStats st)
  | Returned out => a = ADone out
  | Panicked => False
  end.

(** The statistics once the call that holds the mutex is done with them. *)
Definition stats_due (m : retained_map) (p : option broker_phase) (st : RetainedStats) : RetainedStats :=
  match p with
  | Some (RMessages _ _ delta) => mkRetainedStats (msize m) (RetainedBytes st + delta) (RetainedRejections st)
  | Some (RBytes _ delta) => mkRetainedStats (RetainedMessages st) (RetainedBytes st + delta) (RetainedRejections st)
  | _ => st
  end.

Definition holder (mu : option nat) (calls : gmap nat broker_phase) : option broker_phase := mu ≫= λ k, calls !! k.

Record implements (s : SharedBroker) (a : AtomicBroker) : Prop := {
  re_tree : stands_for (sh_nodes s) (sh_topics s) (root (topics (at_broker a)));
  re_map : sh_maps s !! sh_retained s = Some (retained (at_broker a));
  re_limits : b_limits (at_broker a) = sh_limits s;
  re_stats : b_stats (at_broker a) = stats_due (retained (at_broker a)) (holder (sh_retainedMu s) (sh_calls s)) (sh_stats s);
  re_calls k : match sh_calls s !! k, at_calls a !! k with
               | Some p, Some c => call_matches s (at_broker a) p c
               | None, None => True
               | _, _ => False
               end;
  re_topicsMu : guards (sh_topicsMu s) in_topics (sh_calls s);
  re_retainedMu : guards (sh_retainedMu s) in_retained (sh_calls s);
  re_copy k p q q' : sh_calls s !! k = Some p → tree_of p = Some q → tree_in_use s q' → apart_trees (sh_nodes s) q q';
  re_new_map k p m m' : sh_calls s !! k = Some p → map_of p = Some m → map_in_use s m' → m ≠ m' }.

(** ** Steps that leave the memory and the broker alone *)

Lemma guards_stay mu inside calls k p p' :
  guards mu inside calls → calls !! k = Some p → inside p' = inside p → guards mu inside (<[k := p']> calls).
Proof.
  intros Hg Hk He k'. rewrite (Hg k'), lookup_insert. destruct (decide (k = k')) as [<-|Hne]; [|done].
  split; intros (p1 & H1 & H2); eexists; (split; [done|congruence]).
Qed.

Lemma guards_call mu inside calls k p' :
  guards mu inside calls → calls !! k = None → inside p' = false → guards mu inside (<[k := p']> calls).
Proof.
  intros Hg Hk He k'. rewrite (Hg k'), lookup_insert. destruct (decide (k = k')) as [<-|Hne]; [|done].
  split; intros (p1 & H1 & H2); congruence.
Qed.

Lemma guards_return mu inside calls k p :
  guards mu inside calls → calls !! k = Some p → inside p = false → guards mu inside (delete k calls).
Proof.
  intros Hg Hk He k'. rewrite (Hg k'), lookup_delete. destruct (decide (k = k')) as [<-|Hne]; [|done].
  split; intros (p1 & H1 & H2); congruence.
Qed.

Lemma guards_lock inside calls k p' : guards None inside calls → inside p' = true → guards (Some k) inside (<[k := p']> calls).
Proof.
  intros Hg He k'. rewrite lookup_insert. destruct (decide (k = k')) as [<-|Hne].
  - split; [intros _; by eexists|done].
  - pose proof (Hg k') as Hk. split; [by intros [=]|]. intros Hp. apply Hk in Hp. discriminate Hp.
Qed.

Lemma guards_unlock mu inside calls k p p' :
  guards mu inside calls → calls !! k = Some p → inside p = true → inside p' = false → guards None inside (<[k := p']> calls).
Proof.
  intros Hg Hk Hi He k'. assert (mu = Some k) as -> by (apply Hg; by exists p).
  split; [by intros [=]|]. rewrite lookup_insert. destruct (decide (k = k')) as [<-|Hne].
  - intros (p1 & [= <-] & H2). congruence.
  - intros Hp. apply Hg in Hp. congruence.
Qed.

(** One call at most is inside. *)
Lemma guards_others mu inside calls k p :
  guards mu inside calls → calls !! k = Some p → inside p = true → ∀ k' p', k' ≠ k → calls !! k' = Some p' → inside p' = false.
Proof.
  intros Hg Hk Hi k' p' Hne Hk'. apply not_true_is_false. intros Hi'.
  assert (H1 : mu = Some k) by (apply Hg; by exists p). assert (H2 : mu = Some k') by (apply Hg; by exists p'). congruence.
Qed.

Definition settled (p : broker_phase) : Prop := match p with RMessages _ _ _ | RBytes _ _ => False | _ => True end.

Lemma stats_settled m p st : settled p → stats_due m (Some p) st = st.
Proof. by destruct p. Qed.

(** A call that is not at the statistics moves on, locks or unlocks. *)
Lemma stats_move m st mu mu' calls k p p' :
  calls !! k = Some p → settled p → settled p' →
  (mu' = mu ∨ (mu = None ∧ mu' = Some k) ∨ (mu = Some k ∧ mu' = None)) →
  stats_due m (holder mu' (<[k := p']> calls)) st = stats_due m (holder mu calls) st.
Proof.
  intros Hk Hp Hp' Hmu. destruct Hmu as [->|[[-> ->]|[-> ->]]]; cbn [holder mbind option_bind].
  - destruct mu as [k1|]; [|done]. cbn [holder mbind option_bind]. rewrite lookup_insert. destruct (decide (k = k1)) as [<-|]; [|done].
    by rewrite Hk, !stats_settled.
  - by rewrite lookup_insert_eq, stats_settled.
  - by rewrite Hk, stats_settled.
Qed.

Lemma calls_move s a s' a' k p' c' :
  implements s a → sh_calls s' = <[k := p']> (sh_calls s) → at_calls a' = <[k := c']> (at_calls a) →
  call_matches s' (at_broker a') p' c' →
  (∀ k1 p1 c1, k1 ≠ k → sh_calls s !! k1 = Some p1 → call_matches s (at_broker a) p1 c1 → call_matches s' (at_broker a') p1 c1) →
  ∀ k1, match sh_calls s' !! k1, at_calls a' !! k1 with
        | Some p, Some c => call_matches s' (at_broker a') p c
        | None, None => True
        | _, _ => False
        end.
Proof.
  intros Hr -> -> Hp Ho k1. rewrite !lookup_insert. destruct (decide (k = k1)) as [<-|Hne]; [exact Hp|].
  pose proof (re_calls _ _ Hr k1) as Hk. destruct (sh_calls s !! k1) as [p1|] eqn:E, (at_calls a !! k1) as [c1|]; try done.
  by apply (Ho k1).
Qed.

Lemma implements_quiet s a k p p' c' mu1 mu2 a' :
  implements s a → sh_calls s !! k = Some p →
  at_broker a' = at_broker a → at_calls a' = <[k := c']> (at_calls a) →
  call_matches s (at_broker a) p' c' → settled p → settled p' →
  guards mu1 in_topics (<[k := p']> (sh_calls s)) → guards mu2 in_retained (<[k := p']> (sh_calls s)) →
  (mu2 = sh_retainedMu s ∨ (sh_retainedMu s = None ∧ mu2 = Some k) ∨ (sh_retainedMu s = Some k ∧ mu2 = None)) →
  tree_of p' = None → map_of p' = None →
  match p' with PMatch _ q => q = sh_topics s | MRange _ m => m = sh_retained s | _ => True end →
  implements (set_retainedMu mu2 (set_topicsMu mu1 (goto k p' s))) a'.
Proof.
  intros Hr Hk Hb Hc Hok Hset Hset' Hg1 Hg2 Hmu Ht Hm Huse. pose proof Hr as [Htree Hmap Hlim Hst Hcalls _ _ Hcopy Hnew].
  split; cbn [sh_nodes sh_maps sh_topics sh_retained sh_limits sh_stats sh_calls sh_topicsMu sh_retainedMu set_retainedMu set_topicsMu goto set_calls];
    rewrite ?Hb; try assumption.
  - rewrite (stats_move _ _ (sh_retainedMu s) mu2 _ k p p') by done. exact Hst.
  - pose proof (calls_move s a (goto k p' s) a' k p' c' Hr eq_refl Hc) as Hmove. rewrite Hb in Hmove. apply Hmove; [exact Hok|]. by intros.
  - intros k1 p1 q q'. rewrite lookup_insert_Some. intros [[<- <-]|[Hne Hk1]] Hq Hq'; [congruence|].
    eapply Hcopy; [exact Hk1|exact Hq|]. destruct Hq' as [->|(k2 & pub & Hk2)]; [by left|].
    cbn [sh_calls set_retainedMu set_topicsMu goto set_calls] in Hk2. apply lookup_insert_Some in Hk2 as [[<- ->]|[_ Hk2]]; [left; exact Huse|right; by exists k2, pub].
  - intros k1 p1 q q'. rewrite lookup_insert_Some. intros [[<- <-]|[Hne Hk1]] Hq Hq'; [congruence|].
    eapply Hnew; [exact Hk1|exact Hq|]. destruct Hq' as [->|(k2 & f & Hk2)]; [by left|].
    cbn [sh_calls set_retainedMu set_topicsMu goto set_calls] in Hk2. apply lookup_insert_Some in Hk2 as [[<- ->]|[_ Hk2]]; [left; exact Huse|right; by exists k2, f].
Qed.

(** ** Steps that write *)

Lemma apply_update_topics u b b' : topics b' = topics b → topics (apply_update u b') = topics (apply_update u b).
Proof.
  intros H. destruct u; cbn [apply_update]; unfold Broker_Subscribe, Broker_Unsubscribe, Broker_UnsubscribeAll, set_topics; cbn [topics];
    by rewrite H.
Qed.

Lemma apply_update_rest u b :
  retained (apply_update u b) = retained b ∧ b_limits (apply_update u b) = b_limits b ∧ b_stats (apply_update u b) = b_stats b.
Proof. by destruct u. Qed.

(** What the other calls rely on. *)
Lemma others_ok s s' b b' k p c :
  call_matches s b p c → sh_calls s !! k = Some p →
  (in_topics p = true → sh_nodes s' = sh_nodes s ∧ sh_topics s' = sh_topics s ∧ topics b' = topics b) →
  (in_retained p = true → sh_maps s' = sh_maps s ∧ sh_retained s' = sh_retained s ∧ retained b' = retained b
     ∧ b_limits b' = b_limits b ∧ b_stats b' = b_stats b) →
  (∀ q, tree_in_use s q → agree (sh_nodes s) (sh_nodes s') q) →
  (∀ q m, map_in_use s q → sh_maps s !! q = Some m → sh_maps s' !! q = Some m) → call_matches s' b' p c.
Proof.
  intros Hok Hk Ht Hret Hagree Hmaps. destruct p; cbn [call_matches in_topics in_retained] in *; try exact Hok.
  - destruct (Ht eq_refl) as (_ & -> & _). exact Hok.
  - destruct (Ht eq_refl) as (-> & _ & ->). exact Hok.
  - destruct (Ht eq_refl) as (-> & _ & Hb). by rewrite (apply_update_topics u b b' Hb).
  - destruct (Hret eq_refl) as (_ & -> & _). exact Hok.
  - destruct (Hret eq_refl) as (_ & -> & -> & -> & ->). exact Hok.
  - destruct (Hret eq_refl) as (-> & _ & -> & -> & ->). exact Hok.
  - destruct (Hret eq_refl) as (-> & _ & -> & -> & ->). exact Hok.
  - destruct (Hret eq_refl) as (_ & -> & _). exact Hok.
  - destruct Hok as (n & Hs & Hc). exists n. split; [|exact Hc]. eapply stands_agree; [exact Hs|]. apply Hagree. right. by eexists _, _.
  - destruct Hok as (m & Hm & Hc). exists m. split; [|exact Hc]. apply Hmaps; [|exact Hm]. right. by eexists _, _.
Qed.

(** What a step of call [k] does not do is to change the phase of another, or to make
    trees or maps shared that were not. *)
Lemma in_use_tree s s' k p' q :
  sh_calls s' = <[k := p']> (sh_calls s) → (∀ pub q, p' ≠ PMatch pub q) → tree_in_use s' q → q = sh_topics s' ∨ tree_in_use s q.
Proof.
  intros Hc Hp [->|(k1 & pub & Hk)]; [by left|right]. rewrite Hc in Hk. apply lookup_insert_Some in Hk as [[_ ->]|[_ Hk]].
  - by destruct (Hp pub q).
  - right. by exists k1, pub.
Qed.

Lemma in_use_map s s' k p' q :
  sh_calls s' = <[k := p']> (sh_calls s) → (∀ f q, p' ≠ MRange f q) → map_in_use s' q → q = sh_retained s' ∨ map_in_use s q.
Proof.
  intros Hc Hp [->|(k1 & f & Hk)]; [by left|right]. rewrite Hc in Hk. apply lookup_insert_Some in Hk as [[_ ->]|[_ Hk]].
  - by destruct (Hp f q).
  - right. by exists k1, f.
Qed.

Lemma tree_of_inside p q : tree_of p = Some q → in_topics p = true.
Proof. by destruct p. Qed.
Lemma map_of_inside p q : map_of p = Some q → in_retained p = true.
Proof. by destruct p. Qed.

(** The call that holds [topicsMu] works on its copy of the tree. *)
Lemma implements_nodes s a k p p' c q h :
  implements s a → sh_calls s !! k = Some p → at_calls a !! k = Some c →
  in_topics p = true → in_topics p' = true → tree_of p' = Some q →
  (∀ q', tree_in_use s q' → agree (sh_nodes s) h q') → (∀ q', tree_in_use s q' → apart_trees h q q') →
  call_matches (set_nodes h (goto k p' s)) (at_broker a) p' c → implements (set_nodes h (goto k p' s)) a.
Proof.
  intros Hr Hk Hc Hin Hin' Hq Hagree Hapart Hok. pose proof Hr as [Htree Hmap Hlim Hst Hcalls Hg1 Hg2 Hcopy Hnew].
  assert (Hnp : (∀ pub q, p' ≠ PMatch pub q) ∧ (∀ f q, p' ≠ MRange f q) ∧ settled p' ∧ in_retained p' = false ∧ map_of p' = None)
    by (by destruct p').
  assert (Hp : settled p ∧ in_retained p = false) by (by destruct p).
  destruct Hnp as (Hn1 & Hn2 & Hset' & Hir' & Hmo). destruct Hp as [Hset Hir].
  assert (Hother : ∀ k1 p1, k1 ≠ k → sh_calls s !! k1 = Some p1 → in_topics p1 = false) by exact (guards_others _ _ _ _ _ Hg1 Hk Hin).
  split; cbn [sh_nodes sh_maps sh_topics sh_retained sh_limits sh_stats sh_calls sh_topicsMu sh_retainedMu set_nodes goto set_calls]; try assumption.
  - eapply stands_agree; [exact Htree|]. apply Hagree. by left.
  - rewrite (stats_move _ _ (sh_retainedMu s) (sh_retainedMu s) _ k p p'); auto.
  - apply (calls_move s a (set_nodes h (goto k p' s)) a k p' c Hr eq_refl); [by rewrite insert_id|exact Hok|].
    intros k1 p1 c1 Hne Hk1 Hok1. eapply others_ok; [exact Hok1|exact Hk1| |auto|auto|auto].
    rewrite (Hother k1 p1 Hne Hk1). discriminate.
  - by apply guards_stay with p; [..|congruence].
  - by apply guards_stay with p; [..|congruence].
  - intros k1 p1 q1 q'. rewrite lookup_insert_Some. intros [[<- <-]|[Hne Hk1]] Hq1 Hu.
    + assert (q1 = q) as -> by congruence. apply (in_use_tree s) with (k := k) (p' := p') in Hu as [->|Hu]; [|by apply Hapart|done..].
      apply Hapart. by left.
    + apply tree_of_inside in Hq1. rewrite (Hother k1 p1) in Hq1; done.
  - intros k1 p1 m m'. rewrite lookup_insert_Some. intros [[<- <-]|[Hne Hk1]] Hm Hu; [congruence|].
    eapply Hnew; [exact Hk1|exact Hm|]. apply (in_use_map s) with (k := k) (p' := p') in Hu as [->|Hu]; [by left|done..].
Qed.

(** The call that holds [topicsMu] stores its copy. *)
Lemma implements_store s a k u q c :
  implements s a → sh_calls s !! k = Some (TStore u q) → at_calls a !! k = Some c → call_matches s (at_broker a) (TStore u q) c →
  implements (store_topics q (goto k TUnlock s))
    (mkAtomic (apply_update u (at_broker a)) (<[k := ADone OutDone]> (at_calls a))).
Proof.
  intros Hr Hk Hc [_ Hs]. pose proof Hr as [Htree Hmap Hlim Hst Hcalls Hg1 Hg2 Hcopy Hnew].
  destruct (apply_update_rest u (at_broker a)) as (E1 & E2 & E3).
  assert (Hother : ∀ k1 p1, k1 ≠ k → sh_calls s !! k1 = Some p1 → in_topics p1 = false)
    by exact (guards_others _ _ _ _ _ Hg1 Hk eq_refl).
  split; cbn [at_broker at_calls sh_nodes sh_maps sh_topics sh_retained sh_limits sh_stats sh_calls sh_topicsMu sh_retainedMu store_topics goto set_calls];
    rewrite ?E1, ?E2, ?E3; try assumption.
  - rewrite (stats_move _ _ (sh_retainedMu s) (sh_retainedMu s) _ k (TStore u q) TUnlock); auto; done.
  - refine (calls_move s a (store_topics q (goto k TUnlock s)) (mkAtomic (apply_update u (at_broker a)) (<[k := ADone OutDone]> (at_calls a)))
      k TUnlock (ADone OutDone) Hr _ _ _ _); [reflexivity..|].
    intros k1 p1 c1 Hne Hk1 Hok1. eapply others_ok; [exact Hok1|exact Hk1| |intros _; auto|by intros ? ? ?|auto].
    rewrite (Hother k1 p1 Hne Hk1). discriminate.
  - by apply guards_stay with (TStore u q).
  - by apply guards_stay with (TStore u q).
  - intros k1 p1 q1 q'. rewrite lookup_insert_Some. intros [[<- <-]|[Hne Hk1]] Hq1 Hu; [discriminate Hq1|].
    apply tree_of_inside in Hq1. rewrite (Hother k1 p1) in Hq1; done.
  - intros k1 p1 m m'. rewrite lookup_insert_Some. intros [[<- <-]|[Hne Hk1]] Hm Hu; [discriminate Hm|].
    eapply Hnew; [exact Hk1|exact Hm|]. apply (in_use_map s) with (k := k) (p' := TUnlock) in Hu as [->|Hu]; [by left|done..].
Qed.

(** The call that holds [retainedMu] works on its copy of the map, stores it and keeps
    the statistics. *)
Lemma implements_retained s a k p p' c' maps cur st b :
  let s' := set_stats_to st (store_retained cur (set_maps maps (goto k p' s))) in
  implements s a → sh_calls s !! k = Some p → in_retained p = true → in_retained p' = true →
  topics b = topics (at_broker a) → maps !! cur = Some (retained b) → b_limits b = sh_limits s →
  b_stats b = stats_due (retained b) (Some p') st →
  (∀ m x, map_in_use s m → sh_maps s !! m = Some x → maps !! m = Some x) →
  (∀ m m', map_of p' = Some m → m' = cur ∨ map_in_use s m' → m ≠ m') →
  call_matches s' b p' c' → implements s' (mkAtomic b (<[k := c']> (at_calls a))).
Proof.
  intros s' Hr Hk Hin Hin' Htop Hcur Hlim' Hst' Hmaps Hfresh Hok. pose proof Hr as [Htree Hmap Hlim Hst Hcalls Hg1 Hg2 Hcopy Hnew].
  assert (Hnp : (∀ pub q, p' ≠ PMatch pub q) ∧ (∀ f q, p' ≠ MRange f q) ∧ in_topics p' = false ∧ tree_of p' = None) by (by destruct p').
  destruct Hnp as (Hn1 & Hn2 & Hit' & Hto). assert (Hit : in_topics p = false) by (by destruct p).
  assert (Hmu : sh_retainedMu s = Some k) by (apply Hg2; by exists p).
  assert (Hother : ∀ k1 p1, k1 ≠ k → sh_calls s !! k1 = Some p1 → in_retained p1 = false)
    by exact (guards_others _ _ _ _ _ Hg2 Hk Hin).
  split; unfold s'; cbn [at_broker at_calls sh_nodes sh_maps sh_topics sh_retained sh_limits sh_stats sh_calls sh_topicsMu sh_retainedMu
    set_stats_to store_retained set_maps goto set_calls]; rewrite ?Htop; try assumption.
  - rewrite Hmu. cbn [holder mbind option_bind]. by rewrite lookup_insert_eq.
  - refine (calls_move s a s' (mkAtomic b (<[k := c']> (at_calls a))) k p' c' Hr _ _ _ _); [reflexivity..|exact Hok|].
    intros k1 p1 c1 Hne Hk1 Hok1. eapply others_ok; [exact Hok1|exact Hk1|intros _; by rewrite <-Htop| |by intros ? ? ?|exact Hmaps].
    rewrite (Hother k1 p1 Hne Hk1). discriminate.
  - by apply guards_stay with p; [..|congruence].
  - by apply guards_stay with p; [..|congruence].
  - intros k1 p1 q1 q'. rewrite lookup_insert_Some. intros [[<- <-]|[Hne Hk1]] Hq1 Hu; [congruence|].
    eapply Hcopy; [exact Hk1|exact Hq1|]. apply (in_use_tree s) with (k := k) (p' := p') in Hu as [->|Hu]; [by left|done..].
  - intros k1 p1 m m'. rewrite lookup_insert_Some. intros [[<- <-]|[Hne Hk1]] Hm Hu.
    + apply (Hfresh _ _ Hm). by apply (in_use_map s) with (k := k) (p' := p') in Hu as [->|Hu]; [left|right|..].
    + apply map_of_inside in Hm. rewrite (Hother k1 p1) in Hm; done.
Qed.

(** ** Every step is a step of the specification, or none *)

Lemma same_calls {A} (m : gmap nat A) k c : m !! k = Some c → m = <[k := c]> m.
Proof. intros H. by rewrite insert_id. Qed.

Lemma run_visible_app {S E} (exec : E → S → option (S * list visible)) es1 es2 s tr1 tr2 s1 s2 :
  run_visible exec es1 s = Some (s1, tr1) → run_visible exec es2 s1 = Some (s2, tr2) →
  run_visible exec (es1 ++ es2) s = Some (s2, tr1 ++ tr2).
Proof.
  revert s tr1. induction es1 as [|e es1 IH]; intros s tr1 H1 H2; cbn [run_visible app] in *.
  { by injection H1 as -> <-. }
  destruct (exec e s) as [[s' tr]|]; [|discriminate H1]. cbn [mbind option_bind] in *.
  destruct (run_visible exec es1 s') as [[s'' tr']|] eqn:Hr; [|discriminate H1]. injection H1 as -> <-.
  rewrite (IH s' tr' Hr H2). by rewrite <-app_assoc.
Qed.

Section steps.
Context (order : gmap bytes nat → list (bytes * nat)) (order_perm : ∀ m, order m ≡ₚ map_to_list m).

Lemma h_update_edits u p h b :
  stands_for h p (root (topics b)) →
  ∃ h', h_update order u p h = Some h' ∧ edited h h' p (root (topics (apply_update u b))).
Proof.
  intros Hs. destruct u; cbn [h_update apply_update]; unfold Broker_Subscribe, Broker_Unsubscribe, Broker_UnsubscribeAll, set_topics, Clone;
    cbn [topics Subscribe Unsubscribe UnsubscribeAll root]; rewrite clone_id.
  - by apply h_subscribe_edits.
  - by apply h_unsubscribe_edits.
  - exact (h_unsubscribeAll_edits order order_perm (size h) clientID p h _ Hs (stands_shallow h p _ Hs)).
Qed.

Lemma copy_tree h p n :
  stands_for h p n → ∃ q h', h_clone order (size h) p h = Some (q, h') ∧ cloned h h' q n.
Proof.
  intros Hs. destruct (h_clone_cloned order order_perm (size h) p h n Hs (stands_shallow h p n Hs)) as (q & h' & H & Hc).
  rewrite clone_id in Hc. by exists q, h'.
Qed.

(** Trees in use are trees. *)
Lemma tree_in_use_stands s a q : implements s a → tree_in_use s q → ∃ n, stands_for (sh_nodes s) q n.
Proof.
  intros Hr [->|(k & pub & Hk)]; [eexists; apply Hr|].
  pose proof (re_calls _ _ Hr k) as Hok. rewrite Hk in Hok. destruct (at_calls a !! k); [|done]. destruct Hok as (n & Hs & _). by exists n.
Qed.

Lemma map_in_use_exists s a m : implements s a → map_in_use s m → is_Some (sh_maps s !! m).
Proof.
  intros Hr [->|(k & f & Hk)]; [rewrite (re_map _ _ Hr); by eexists|].
  pose proof (re_calls _ _ Hr k) as Hok. rewrite Hk in Hok. destruct (at_calls a !! k); [|done]. destruct Hok as (x & Hs & _). by exists x.
Qed.

(** Copies do not touch the trees in use. *)
Lemma cloned_in_use s a q h n :
  implements s a → cloned (sh_nodes s) h q n →
  ∀ q', tree_in_use s q' → agree (sh_nodes s) h q' ∧ apart_trees h q q'.
Proof.
  intros Hr [Ht Hn Ho] q' Hu. destruct (tree_in_use_stands s a q' Hr Hu) as (m & Hs).
  pose proof (agree_old _ _ _ _ Hs Ho) as Ha. split; [exact Ha|]. intros r Hq Hq'.
  apply (agree_reach _ _ _ _ Ha) in Hq'. destruct (stands_reach_dom _ _ _ _ Hs Hq') as [x Hx]. rewrite (Hn r Hq) in Hx. discriminate Hx.
Qed.

Lemma edited_in_use s a k p q h n :
  implements s a → sh_calls s !! k = Some p → tree_of p = Some q → edited (sh_nodes s) h q n →
  ∀ q', tree_in_use s q' → agree (sh_nodes s) h q' ∧ apart_trees h q q'.
Proof.
  intros Hr Hk Hq He q' Hu. destruct (tree_in_use_stands s a q' Hr Hu) as (m & Hs).
  pose proof (re_copy _ _ Hr k p q q' Hk Hq Hu) as Hap.
  destruct (edited_other _ _ _ _ _ _ He Hs) as [Ha _]; [by intros r Hr' Hr''; eapply Hap; [exact Hr''|exact Hr']|].
  split; [exact Ha|]. intros r [Hr1|Hr1]%(ed_own _ _ _ _ He) Hr2; apply (agree_reach _ _ _ _ Ha) in Hr2; [by apply (Hap r Hr1)|].
  destruct (stands_reach_dom _ _ _ _ Hs Hr2) as [x Hx]. rewrite Hr1 in Hx. discriminate Hx.
Qed.

Lemma updateRetained_check b pub :
  updateRetained b pub =
  if retain_refused (b_limits b) (b_stats b) (retained b) pub
  then (Some ErrRetainedLimit, mkBroker (topics b) (retained b) (b_limits b)
          (mkRetainedStats (RetainedMessages (b_stats b)) (RetainedBytes (b_stats b)) (u64 (RetainedRejections (b_stats b) + 1))))
  else (None, mkBroker (topics b) (edit_map pub (retained b)) (b_limits b)
          (mkRetainedStats (msize (edit_map pub (retained b))) (RetainedBytes (b_stats b) + (new_bytes pub - old_bytes (retained b) pub))
             (RetainedRejections (b_stats b)))).
Proof. reflexivity. Qed.

(** A step from [p] keeps the relation. *)
Definition simulates (p : broker_phase) : Prop :=
  ∀ s a k c s', implements s a → sh_calls s !! k = Some p → at_calls a !! k = Some c → call_matches s (at_broker a) p c →
  shared_step order k s = Some s' → ∃ a', (a' = a ∨ atomic_step k a = Some a') ∧ implements s' a'.

Ltac start_step :=
  intros s a k c s' Hr Hk Hc Hok Hstep; unfold shared_step in Hstep; rewrite Hk in Hstep; cbn [mbind option_bind] in Hstep.

Lemma clone_sim u q : simulates (TClone u q).
Proof.
  start_step. destruct Hok as [Hac ->]. destruct (copy_tree _ _ _ (re_tree _ _ Hr)) as (q' & h & E & Hcl). rewrite E in Hstep.
  injection Hstep as <-. exists a. split; [by left|]. pose proof (cloned_in_use s a q' h _ Hr Hcl) as Hu.
  eapply (implements_nodes s a k _ (TEdit u q') c q' h Hr Hk Hc); [reflexivity..|by intros; apply Hu|by intros; apply Hu|].
  split; [exact Hac|]. apply Hcl.
Qed.

Lemma edit_sim u q : simulates (TEdit u q).
Proof.
  start_step. destruct Hok as [Hac Hs]. destruct (h_update_edits u _ _ _ Hs) as (h & E & He). rewrite E in Hstep.
  injection Hstep as <-. exists a. split; [by left|]. pose proof (edited_in_use s a k _ q h _ Hr Hk eq_refl He) as Hu.
  eapply (implements_nodes s a k _ (TStore u q) c q h Hr Hk Hc); [reflexivity..|by intros; apply Hu|by intros; apply Hu|].
  split; [exact Hac|]. apply He.
Qed.

Lemma store_sim u q : simulates (TStore u q).
Proof.
  start_step. injection Hstep as <-. eexists. split; [right|by eapply implements_store].
  unfold atomic_step. rewrite Hc. destruct Hok as [-> _]. reflexivity.
Qed.

(** ** The steps under [retainedMu] that write or refuse *)

Lemma held_stats s a k p :
  implements s a → sh_calls s !! k = Some p → in_retained p = true →
  b_stats (at_broker a) = stats_due (retained (at_broker a)) (Some p) (sh_stats s).
Proof.
  intros Hr Hk Hi. rewrite (re_stats _ _ Hr). assert (sh_retainedMu s = Some k) as -> by (apply (re_retainedMu _ _ Hr); by exists p).
  cbn [holder mbind option_bind]. by rewrite Hk.
Qed.

(** A step that the specification does not see. *)
Lemma retained_same s a k p c p' maps cur st :
  implements s a → sh_calls s !! k = Some p → at_calls a !! k = Some c → in_retained p = true → in_retained p' = true →
  maps !! cur = Some (retained (at_broker a)) →
  b_stats (at_broker a) = stats_due (retained (at_broker a)) (Some p') st →
  (∀ m x, map_in_use s m → sh_maps s !! m = Some x → maps !! m = Some x) →
  (∀ m m', map_of p' = Some m → m' = cur ∨ map_in_use s m' → m ≠ m') →
  call_matches (set_stats_to st (store_retained cur (set_maps maps (goto k p' s)))) (at_broker a) p' c →
  ∃ a', (a' = a ∨ atomic_step k a = Some a') ∧ implements (set_stats_to st (store_retained cur (set_maps maps (goto k p' s)))) a'.
Proof.
  intros Hr Hk Hc Hp Hp' Hm Hs Hmaps Hfresh Hok. exists (mkAtomic (at_broker a) (<[k := c]> (at_calls a))).
  split; [left; rewrite <-(same_calls _ _ _ Hc); by destruct a|].
  eapply implements_retained; [exact Hr|exact Hk|exact Hp|exact Hp'|reflexivity|exact Hm|apply Hr|done..].
Qed.

Lemma check_sim pub old : simulates (RCheck pub old).
Proof.
  start_step. destruct Hok as [[-> Hret] ->]. rewrite (re_map _ _ Hr) in Hstep. injection Hstep as <-.
  pose proof (held_stats s a k _ Hr Hk eq_refl) as Hst. cbn [stats_due] in Hst. rewrite <-Hst, <-(re_limits _ _ Hr).
  destruct (retain_refused _ _ _ _) eqn:E.
  - eexists. split; [right; unfold atomic_step; rewrite Hc; cbn [mbind option_bind]; by rewrite updateRetained_check, E|].
    apply (implements_retained s a k (RCheck pub (sh_retained s)) (RUnlock pub (Some ErrRetainedLimit)) (ADone (OutError ErrRetainedLimit))
      (sh_maps s) (sh_retained s)); try done; apply Hr.
  - apply (retained_same s a k (RCheck pub (sh_retained s)) (ACalled (CallPublish pub))
      (RCopy pub (sh_retained s) (new_bytes pub - old_bytes (retained (at_broker a)) pub)) (sh_maps s) (sh_retained s) (sh_stats s)); try done. apply Hr.
Qed.

(** The copy of a map is written while nobody else has it. *)
Lemma write_copy s a k p c p' m x :
  implements s a → sh_calls s !! k = Some p → at_calls a !! k = Some c → in_retained p = true → in_retained p' = true →
  settled p → settled p' → map_of p' = Some m → (∀ m', map_in_use s m' → m ≠ m') →
  (∀ s', sh_maps s' !! m = Some x → call_matches s' (at_broker a) p' c) →
  ∃ a', (a' = a ∨ atomic_step k a = Some a') ∧ implements (set_maps (<[m := x]> (sh_maps s)) (goto k p' s)) a'.
Proof.
  intros Hr Hk Hc Hp Hp' Hs Hs' Hm Hfr Hok.
  assert (Hold : ∀ m1 x1, map_in_use s m1 → sh_maps s !! m1 = Some x1 → <[m := x]> (sh_maps s) !! m1 = Some x1).
  { intros m1 x1 Hu Hx. rewrite lookup_insert_ne; [exact Hx|by apply Hfr]. }
  change (set_maps _ (goto k p' s)) with (set_stats_to (sh_stats s) (store_retained (sh_retained s) (set_maps (<[m := x]> (sh_maps s)) (goto k p' s)))).
  apply (retained_same s a k p c p' (<[m := x]> (sh_maps s)) (sh_retained s) (sh_stats s)); try done.
  - apply Hold; [by left|apply Hr].
  - rewrite (held_stats s a k p Hr Hk Hp). by rewrite !stats_settled.
  - intros m1 m' Hm1 Hu. assert (m1 = m) as -> by congruence. destruct Hu as [->|Hu]; apply Hfr; [by left|done].
  - apply Hok. cbn [sh_maps set_stats_to store_retained set_maps]. by rewrite lookup_insert_eq.
Qed.

Lemma copy_sim pub old delta : simulates (RCopy pub old delta).
Proof.
  start_step. destruct Hok as (Hcall & -> & Hacc). rewrite (re_map _ _ Hr) in Hstep. injection Hstep as <-.
  apply (write_copy s a k (RCopy pub (sh_retained s) delta) c); try done.
  intros m Hu <-. apply (is_fresh (dom (sh_maps s))), elem_of_dom. by eapply map_in_use_exists.
Qed.

Lemma edit_map_sim pub m delta : simulates (REdit pub m delta).
Proof.
  start_step. destruct Hok as (Hcall & Hm & Hacc). rewrite Hm in Hstep. injection Hstep as <-.
  apply (write_copy s a k (REdit pub m delta) c); try done. intros m' Hu. by eapply (re_new_map _ _ Hr).
Qed.

Lemma store_map_sim pub m delta : simulates (RStore pub m delta).
Proof.
  start_step. destruct Hok as ([-> Hret] & Hm & Href & ->). injection Hstep as <-.
  pose proof (held_stats s a k _ Hr Hk eq_refl) as Hst. cbn [stats_due] in Hst.
  eexists. split; [right; unfold atomic_step; rewrite Hc; cbn [mbind option_bind]; by rewrite updateRetained_check, Href|].
  apply (implements_retained s a k (RStore pub m (new_bytes pub - old_bytes (retained (at_broker a)) pub))
    (RMessages pub m (new_bytes pub - old_bytes (retained (at_broker a)) pub)) (AMatching pub) (sh_maps s) m (sh_stats s)); try done.
  - apply Hr.
  - cbn [b_stats stats_due retained]. by rewrite Hst.
Qed.

Lemma messages_sim pub m delta : simulates (RMessages pub m delta).
Proof.
  start_step. destruct Hok as [-> ->]. rewrite (re_map _ _ Hr) in Hstep. injection Hstep as <-.
  apply (retained_same s a k (RMessages pub (sh_retained s) delta) (AMatching pub) (RBytes pub delta) (sh_maps s) (sh_retained s));
    try done; [apply Hr|]. by rewrite (held_stats s a k _ Hr Hk eq_refl).
Qed.

Lemma bytes_sim pub delta : simulates (RBytes pub delta).
Proof.
  start_step. cbn [call_matches] in Hok. subst c. injection Hstep as <-.
  apply (retained_same s a k (RBytes pub delta) (AMatching pub) (RUnlock pub None) (sh_maps s) (sh_retained s));
    try done; [apply Hr|]. by rewrite (held_stats s a k _ Hr Hk eq_refl).
Qed.

(** ** Locking and unlocking, loading and reading *)

(** What the specification does not see, with the mutexes as before. *)
Lemma quiet_same s a k p c p' :
  implements s a → sh_calls s !! k = Some p → at_calls a !! k = Some c → call_matches s (at_broker a) p' c →
  settled p → settled p' → in_topics p' = in_topics p → in_retained p' = in_retained p → tree_of p' = None → map_of p' = None →
  match p' with PMatch _ _ | MRange _ _ => False | _ => True end →
  ∃ a', (a' = a ∨ atomic_step k a = Some a') ∧ implements (goto k p' s) a'.
Proof.
  intros Hr Hk Hc Hok Hs Hs' Ht1 Ht2 Ht Hm Hu. exists a. split; [by left|].
  apply (implements_quiet s a k p p' c (sh_topicsMu s) (sh_retainedMu s)); try done;
    [by apply same_calls|by apply (guards_stay _ _ _ _ p); [apply Hr|..]|by apply (guards_stay _ _ _ _ p); [apply Hr|..]|by left|by destruct p'].
Qed.

(** What the specification does at the same time: a load. *)
Lemma quiet_load s a k p p' c' :
  implements s a → sh_calls s !! k = Some p → atomic_step k a = Some (mkAtomic (at_broker a) (<[k := c']> (at_calls a))) →
  call_matches s (at_broker a) p' c' →
  settled p → settled p' → in_topics p' = in_topics p → in_retained p' = in_retained p → tree_of p' = None → map_of p' = None →
  match p' with PMatch _ q => q = sh_topics s | MRange _ m => m = sh_retained s | _ => True end →
  ∃ a', (a' = a ∨ atomic_step k a = Some a') ∧ implements (goto k p' s) a'.
Proof.
  intros Hr Hk Ha Hok Hs Hs' Ht1 Ht2 Ht Hm Hu. eexists. split; [right; exact Ha|].
  apply (implements_quiet s a k p p' c' (sh_topicsMu s) (sh_retainedMu s)); try done;
    [by apply (guards_stay _ _ _ _ p); [apply Hr|..]|by apply (guards_stay _ _ _ _ p); [apply Hr|..]|by left].
Qed.

Lemma lock_topics_sim u : simulates (TLock u).
Proof.
  start_step. pose proof (re_topicsMu _ _ Hr) as Hg. destruct (sh_topicsMu s) eqn:Emu; [discriminate Hstep|]. injection Hstep as <-.
  exists a. split; [by left|]. apply (implements_quiet s a k (TLock u) (TLoad u) c (Some k) (sh_retainedMu s)); try done;
    [by apply same_calls|by apply guards_lock|by apply (guards_stay _ _ _ _ (TLock u)); [apply Hr|..]|by left].
Qed.

Lemma unlock_topics_sim : simulates TUnlock.
Proof.
  start_step. injection Hstep as <-.
  exists a. split; [by left|]. apply (implements_quiet s a k TUnlock (Returned OutDone) c None (sh_retainedMu s)); try done;
    [by apply same_calls|by apply (guards_unlock (sh_topicsMu s) _ _ _ TUnlock); [apply Hr|..]|by apply (guards_stay _ _ _ _ TUnlock); [apply Hr|..]|by left].
Qed.

Lemma lock_retained s a k p p' c :
  implements s a → sh_calls s !! k = Some p → at_calls a !! k = Some c → call_matches s (at_broker a) p' c → sh_retainedMu s = None →
  settled p → settled p' → in_topics p' = in_topics p → in_retained p' = true → tree_of p' = None → map_of p' = None →
  match p' with PMatch _ _ | MRange _ _ => False | _ => True end →
  ∃ a', (a' = a ∨ atomic_step k a = Some a') ∧ implements (set_retainedMu (Some k) (goto k p' s)) a'.
Proof.
  intros Hr Hk Hc Hok Hmu Hs Hs' Ht1 Hi Ht Hm Hu. exists a. split; [by left|]. pose proof (re_retainedMu _ _ Hr) as Hg. rewrite Hmu in Hg.
  apply (implements_quiet s a k p p' c (sh_topicsMu s) (Some k)); try done;
    [by apply same_calls|by apply (guards_stay _ _ _ _ p); [apply Hr|..]|by apply guards_lock|by right; left|by destruct p'].
Qed.

Lemma unlock_retained s a k p p' c :
  implements s a → sh_calls s !! k = Some p → at_calls a !! k = Some c → call_matches s (at_broker a) p' c → in_retained p = true →
  settled p → settled p' → in_topics p' = in_topics p → in_retained p' = false → tree_of p' = None → map_of p' = None →
  match p' with PMatch _ _ | MRange _ _ => False | _ => True end →
  ∃ a', (a' = a ∨ atomic_step k a = Some a') ∧ implements (set_retainedMu None (goto k p' s)) a'.
Proof.
  intros Hr Hk Hc Hok Hi Hs Hs' Ht1 Hi' Ht Hm Hu. exists a. split; [by left|]. pose proof (re_retainedMu _ _ Hr) as Hg.
  assert (Hmu : sh_retainedMu s = Some k) by (apply Hg; by exists p).
  apply (implements_quiet s a k p p' c (sh_topicsMu s) None); try done;
    [by apply same_calls|by apply (guards_stay _ _ _ _ p); [apply Hr|..]|by apply (guards_unlock (sh_retainedMu s) _ _ _ p)|by right; right|by destruct p'].
Qed.

Lemma publish_sim pub q : simulates (PLoad pub) ∧ simulates (PMatch pub q).
Proof.
  split; start_step; apply (inj Some) in Hstep as <-.
  - cbn [call_matches] in Hok. subst c. eapply quiet_load; [exact Hr|exact Hk|unfold atomic_step; by rewrite Hc| |done..].
    eexists. split; [apply Hr|]. by destruct (topics (at_broker a)).
  - destruct Hok as (n & Hs & ->).
    rewrite (h_match_node (match_fuel (pub_Topic pub)) (sh_nodes s) (Some q) (Some n) (pub_Topic pub) 0 ∅ Hs).
    by eapply quiet_same.
Qed.

Lemma retained_matching_sim filter m : simulates (MLoad filter) ∧ simulates (MRange filter m).
Proof.
  split; start_step; apply (inj Some) in Hstep as <-.
  - cbn [call_matches] in Hok. subst c. eapply quiet_load; [exact Hr|exact Hk|unfold atomic_step; by rewrite Hc| |done..].
    eexists. split; [apply Hr|reflexivity].
  - destruct Hok as (x & -> & ->). by eapply quiet_same.
Qed.

Lemma snapshot_sim st : simulates SLock ∧ simulates SRead ∧ simulates (SUnlock st).
Proof.
  split; [|split]; start_step.
  - destruct (sh_retainedMu s) eqn:Emu; [discriminate Hstep|]. injection Hstep as <-. by eapply lock_retained.
  - injection Hstep as <-. cbn [call_matches] in Hok. subst c. pose proof (held_stats s a k _ Hr Hk eq_refl) as Hst.
    eapply quiet_load; [exact Hr|exact Hk|unfold atomic_step; by rewrite Hc| |done..]. cbn [call_matches]. unfold Broker_Snapshot. by rewrite Hst.
  - injection Hstep as <-. by eapply unlock_retained.
Qed.

Lemma shared_step_sim p : simulates p.
Proof.
  destruct p; try by first [apply clone_sim|apply edit_sim|apply store_sim|apply check_sim|apply copy_sim|apply edit_map_sim
    |apply store_map_sim|apply messages_sim|apply bytes_sim|apply lock_topics_sim|apply unlock_topics_sim].
  all: try by first [exact (proj1 (publish_sim _ 0%nat))|exact (proj2 (publish_sim _ _))
    |exact (proj1 (retained_matching_sim _ 0%nat))|exact (proj2 (retained_matching_sim _ _))
    |exact (proj1 (snapshot_sim (mkRetainedStats 0 0 0)))|exact (proj1 (proj2 (snapshot_sim (mkRetainedStats 0 0 0))))
    |exact (proj2 (proj2 (snapshot_sim _)))].
  all: start_step.
  - apply (inj Some) in Hstep as <-. by eapply quiet_same.
  - destruct (sh_retainedMu s) eqn:Emu; [discriminate Hstep|]. apply (inj Some) in Hstep as <-. by eapply lock_retained.
  - apply (inj Some) in Hstep as <-. by eapply quiet_same.
  - apply (inj Some) in Hstep as <-. cbn [call_matches] in Hok. subst c. destruct err; by eapply unlock_retained.
  - discriminate Hstep.
  - discriminate Hstep.
Qed.

(** ** Executions *)

Lemma implements_call s a k c :
  implements s a → sh_calls s !! k = None →
  implements (goto k (call_start c) s) (mkAtomic (at_broker a) (<[k := atomic_start c]> (at_calls a))).
Proof.
  intros Hr Hk. pose proof Hr as [Htree Hmap Hlim Hst Hcalls Hg1 Hg2 Hcopy Hnew].
  assert (Hp : ∀ pub q f m, call_start c ≠ PMatch pub q ∧ call_start c ≠ MRange f m)
    by (intros; destruct c as [|pub0| |]; cbn [call_start]; [done|by destruct (pub_Retain pub0)|done..]).
  assert (Hq : in_topics (call_start c) = false ∧ in_retained (call_start c) = false ∧ tree_of (call_start c) = None ∧ map_of (call_start c) = None)
    by (destruct c as [|pub0| |]; cbn [call_start]; [done|by destruct (pub_Retain pub0)|done..]).
  destruct Hq as (Ht & Hi & Hto & Hmo).
  split; cbn [at_broker at_calls sh_nodes sh_maps sh_topics sh_retained sh_limits sh_stats sh_calls sh_topicsMu sh_retainedMu goto set_calls];
    try assumption.
  - rewrite Hst. f_equal. destruct (sh_retainedMu s) as [k1|] eqn:Emu; [|done]. cbn [holder mbind option_bind].
    rewrite lookup_insert_ne; [done|]. intros <-. destruct (proj1 (Hg2 k) eq_refl) as (p & Hp' & _). congruence.
  - refine (calls_move s a (goto k (call_start c) s) (mkAtomic (at_broker a) (<[k := atomic_start c]> (at_calls a))) k (call_start c)
      (atomic_start c) Hr _ _ _ _); [reflexivity..| |by intros].
    destruct c as [|pub0| |]; cbn [call_start atomic_start]; [done| |done..]. destruct (pub_Retain pub0) eqn:E; [by split|done].
  - by apply guards_call.
  - by apply guards_call.
  - intros k1 p1 q q'. rewrite lookup_insert_Some. intros [[<- <-]|[Hne Hk1]] Hq Hu; [congruence|].
    eapply Hcopy; [exact Hk1|exact Hq|]. apply (in_use_tree s) with (k := k) (p' := call_start c) in Hu as [->|Hu]; [by left|done..|].
    intros pub q0. by apply (Hp pub q0 [] 0%nat).
  - intros k1 p1 q q'. rewrite lookup_insert_Some. intros [[<- <-]|[Hne Hk1]] Hq Hu; [congruence|].
    eapply Hnew; [exact Hk1|exact Hq|]. apply (in_use_map s) with (k := k) (p' := call_start c) in Hu as [->|Hu]; [by left|done..|].
    intros f m. by apply (Hp (mkPublish [] [] false false 0 0) 0%nat f m).
Qed.

Lemma implements_return s a k out :
  implements s a → sh_calls s !! k = Some (Returned out) →
  at_calls a !! k = Some (ADone out) ∧ implements (set_calls (delete k (sh_calls s)) s) (mkAtomic (at_broker a) (delete k (at_calls a))).
Proof.
  intros Hr Hk. pose proof Hr as [Htree Hmap Hlim Hst Hcalls Hg1 Hg2 Hcopy Hnew]. split.
  { specialize (Hcalls k). rewrite Hk in Hcalls. destruct (at_calls a !! k); [|done]. cbn [call_matches] in Hcalls. congruence. }
  split; cbn [at_broker at_calls sh_nodes sh_maps sh_topics sh_retained sh_limits sh_stats sh_calls sh_topicsMu sh_retainedMu set_calls];
    try assumption.
  - rewrite Hst. destruct (sh_retainedMu s) as [k1|] eqn:Emu; [|done]. cbn [holder mbind option_bind].
    rewrite lookup_delete_ne; [done|]. intros <-. destruct (proj1 (Hg2 k) eq_refl) as (p & Hp' & Hi).
    rewrite Hk in Hp'. injection Hp' as <-. discriminate Hi.
  - intros k1. rewrite !lookup_delete. case_decide; [done|]. apply Hcalls.
  - by eapply guards_return.
  - by eapply guards_return.
  - intros k1 p1 q q' [_ Hk1]%lookup_delete_Some Hq Hu. eapply Hcopy; [exact Hk1|exact Hq|].
    destruct Hu as [->|(k2 & pub & Hk2)]; [by left|right; exists k2, pub; cbn [sh_calls set_calls] in Hk2; by apply lookup_delete_Some in Hk2 as [_ Hk2]].
  - intros k1 p1 q q' [_ Hk1]%lookup_delete_Some Hq Hu. eapply Hnew; [exact Hk1|exact Hq|].
    destruct Hu as [->|(k2 & f & Hk2)]; [by left|right; exists k2, f; cbn [sh_calls set_calls] in Hk2; by apply lookup_delete_Some in Hk2 as [_ Hk2]].
Qed.

Lemma shared_exec_sim e s a s' tr :
  implements s a → shared_exec order e s = Some (s', tr) →
  ∃ aes a', run_visible atomic_exec aes a = Some (a', tr) ∧ implements s' a'.
Proof.
  intros Hr He. destruct e as [k c|k|k]; cbn [shared_exec] in He.
  - destruct (sh_calls s !! k) eqn:Hk; [discriminate He|]. injection He as <- <-.
    exists [EvCall k c], (mkAtomic (at_broker a) (<[k := atomic_start c]> (at_calls a))). split; [|by apply implements_call].
    cbn [run_visible atomic_exec]. pose proof (re_calls _ _ Hr k) as Hc. rewrite Hk in Hc. by destruct (at_calls a !! k).
  - destruct (shared_step order k s) as [s1|] eqn:Hs; [|discriminate He]. injection He as <- <-.
    assert (∃ p c, sh_calls s !! k = Some p ∧ at_calls a !! k = Some c ∧ call_matches s (at_broker a) p c) as (p & c & Hk & Hc & Hok).
    { pose proof (re_calls _ _ Hr k) as Hok. destruct (sh_calls s !! k) as [p|] eqn:Hk;
        [|unfold shared_step in Hs; rewrite Hk in Hs; discriminate Hs]. destruct (at_calls a !! k) as [c|]; [|done]. by exists p, c. }
    destruct (shared_step_sim p s a k c s1 Hr Hk Hc Hok Hs) as (a' & [->|Ha] & Hr'); [by exists [], a|].
    exists [EvStep k], a'. split; [|exact Hr']. cbn [run_visible atomic_exec mbind option_bind]. by rewrite Ha.
  - destruct (sh_calls s !! k) as [p|] eqn:Hk; [|discriminate He]. destruct p; try discriminate He. injection He as <- <-.
    destruct (implements_return s a k out Hr Hk) as [Hc Hr']. exists [EvReturn k], (mkAtomic (at_broker a) (delete k (at_calls a))).
    split; [|exact Hr']. cbn [run_visible atomic_exec]. by rewrite Hc.
Qed.

Lemma run_sim es s a s' tr :
  implements s a → run_visible (shared_exec order) es s = Some (s', tr) →
  ∃ aes a', run_visible atomic_exec aes a = Some (a', tr) ∧ implements s' a'.
Proof.
  revert s a tr. induction es as [|e es IH]; intros s a tr Hr Hrun; cbn [run_visible] in Hrun.
  { injection Hrun as <- <-. by exists [], a. }
  destruct (shared_exec order e s) as [[s1 tr1]|] eqn:He; [|discriminate Hrun]. cbn [mbind option_bind] in Hrun.
  destruct (run_visible _ es s1) as [[s2 tr2]|] eqn:Hes; [|discriminate Hrun]. injection Hrun as <- <-.
  destruct (shared_exec_sim e s a s1 tr1 Hr He) as (aes1 & a1 & H1 & Hr1). destruct (IH s1 a1 tr2 Hr1 Hes) as (aes2 & a2 & H2 & Hr2).
  exists (aes1 ++ aes2), a2. split; [|exact Hr2]. exact (run_visible_app _ _ _ _ _ _ _ _ H1 H2).
Qed.

(** ** Isolation *)

(** Nobody writes to a tree or a map in use. *)
Lemma exec_isolated e s a s' tr :
  implements s a → shared_exec order e s = Some (s', tr) →
  (∀ q, tree_in_use s q → agree (sh_nodes s) (sh_nodes s') q)
  ∧ (∀ m, map_in_use s m → sh_maps s' !! m = sh_maps s !! m).
Proof.
  intros Hr He. destruct e as [k c|k|k]; cbn [shared_exec] in He.
  - destruct (sh_calls s !! k); [discriminate He|]. by injection He as <- _.
  - destruct (shared_step order k s) as [s1|] eqn:Hs; [|discriminate He]. injection He as <- _.
    unfold shared_step in Hs. pose proof (re_calls _ _ Hr k) as Hok. destruct (sh_calls s !! k) as [p|] eqn:Hk; [|discriminate Hs].
    destruct (at_calls a !! k) as [c|]; [|done]. cbn [mbind option_bind] in Hs.
    destruct p; repeat case_match; try discriminate Hs; apply (inj Some) in Hs as <-; try (split; intros; done).
    + destruct Hok as [_ ->]. destruct (copy_tree _ _ _ (re_tree _ _ Hr)) as (q' & h & E & Hcl). simplify_eq.
      split; [|done]. intros q0 Hu. exact (proj1 (cloned_in_use s a _ _ _ Hr Hcl q0 Hu)).
    + destruct Hok as [_ Hs]. destruct (h_update_edits u _ _ _ Hs) as (h & E & He). simplify_eq.
      split; [|done]. intros q0 Hu. exact (proj1 (edited_in_use s a k _ newTree _ _ Hr Hk eq_refl He q0 Hu)).
    + split; [done|]. intros m Hu. destruct (map_in_use_exists s a m Hr Hu) as [x Hx].
      cbn [sh_maps set_maps goto set_calls]. rewrite lookup_insert_ne; [done|]. intros <-.
      apply (is_fresh (dom (sh_maps s))), elem_of_dom. by exists x.
    + split; [done|]. intros m Hu. cbn [sh_maps set_maps goto set_calls]. rewrite lookup_insert_ne; [done|].
      by apply (re_new_map _ _ Hr k _ newMap m Hk eq_refl).
  - destruct (sh_calls s !! k) as [p|]; [|discriminate He]. destruct p; try discriminate He. by injection He as <- _.
Qed.

(** ** Progress *)

(** Steps a call has still to make, its return apart_trees. *)
Definition steps_left (p : broker_phase) : nat :=
  match p with
  | RLock _ => 10 | RLoad _ => 9 | RCheck _ _ => 8 | RCopy _ _ _ => 7 | REdit _ _ _ => 6 | RStore _ _ _ => 5 | RMessages _ _ _ => 4
  | RBytes _ _ => 3 | RUnlock _ _ => 2 | PLoad _ => 1 | PMatch _ _ => 0
  | TLock _ => 5 | TLoad _ => 4 | TClone _ _ => 3 | TEdit _ _ => 2 | TStore _ _ => 1 | TUnlock => 0
  | MLoad _ => 1 | MRange _ _ => 0 | SLock => 2 | SRead => 1 | SUnlock _ => 0
  | Returned _ | Panicked => 0
  end + match p with Returned _ | Panicked => 0 | _ => 1 end.

Definition all_steps_left (c : gmap nat broker_phase) : Z := msum (λ p, Z.of_nat (steps_left p)) c.

Lemma all_steps_bound c : all_steps_left c <= 11 * msize c.
Proof.
  unfold all_steps_left, msize. induction c as [|k p c Hk IH] using map_ind; [done|].
  rewrite msum_insert_None by done. rewrite map_size_insert_None by done. assert (steps_left p <= 11)%nat by (by destruct p; cbn; lia). lia.
Qed.

Lemma step_moves s k s' :
  shared_step order k s = Some s' →
  ∃ p p', sh_calls s !! k = Some p ∧ sh_calls s' = <[k := p']> (sh_calls s) ∧ (steps_left p' < steps_left p)%nat.
Proof.
  intros Hs. unfold shared_step in Hs. destruct (sh_calls s !! k) as [p|] eqn:Hk; [|discriminate Hs]. exists p.
  cbn [mbind option_bind] in Hs. destruct p; repeat case_match; try discriminate Hs; apply (inj Some) in Hs as <-;
    (eexists; split; [reflexivity|split; [reflexivity|cbn; lia]]).
Qed.

Lemma steps_end ks s s' tr :
  run_visible (shared_exec order) (EvStep <$> ks) s = Some (s', tr) → Z.of_nat (length ks) <= all_steps_left (sh_calls s).
Proof.
  assert (Hnn : ∀ c, 0 <= all_steps_left c) by (intros c; apply msum_nonneg; intros; lia).
  revert s tr. induction ks as [|k ks IH]; intros s tr Hrun; [apply Hnn|]. cbn [fmap list_fmap run_visible shared_exec] in Hrun.
  destruct (shared_step order k s) as [s1|] eqn:Hs; [|discriminate Hrun]. cbn [mbind option_bind] in Hrun.
  destruct (run_visible _ _ s1) as [[s2 tr2]|] eqn:Hr; [|discriminate Hrun].
  destruct (step_moves s k s1 Hs) as (p & p' & Hk & Hc & Hlt). specialize (IH s1 tr2). injection Hrun as -> _. specialize (IH Hr).
  rewrite Hc in IH. unfold all_steps_left in IH |- *. rewrite (msum_insert_Some _ _ _ _ _ Hk) in IH. cbn [length]. lia.
Qed.

(** Who has to wait, waits for a call that can go on. *)
Lemma someone_moves s a k p :
  implements s a → sh_calls s !! k = Some p → (∀ out, p ≠ Returned out) → ∃ k', is_Some (shared_step order k' s).
Proof.
  intros Hr Hk Hp. pose proof (re_calls _ _ Hr k) as Hok. rewrite Hk in Hok. destruct (at_calls a !! k) as [c|]; [|done].
  assert (Hin : ∀ k1 p1, sh_calls s !! k1 = Some p1 → in_topics p1 = true ∨ in_retained p1 = true → is_Some (shared_step order k1 s)).
  { intros k1 p1 Hk1 Hi. unfold shared_step. rewrite Hk1. destruct p1, Hi as [Hi|Hi]; try discriminate Hi; eexists; reflexivity. }
  destruct (sh_topicsMu s) as [k1|] eqn:E1.
  { destruct (proj1 (re_topicsMu _ _ Hr k1) E1) as (p1 & Hk1 & Hi). exists k1. by apply (Hin k1 p1 Hk1); left. }
  destruct (sh_retainedMu s) as [k1|] eqn:E2.
  { destruct (proj1 (re_retainedMu _ _ Hr k1) E2) as (p1 & Hk1 & Hi). exists k1. by apply (Hin k1 p1 Hk1); right. }
  exists k. unfold shared_step. rewrite Hk. destruct p; cbn [mbind option_bind]; rewrite ?E1, ?E2; try (eexists; reflexivity).
  - by destruct (Hp out).
  - destruct Hok.
Qed.

Lemma shared_new_implements l b s :
  Broker_NewWithLimits l = Ok b → shared_new l = Ok s → implements s (mkAtomic b ∅).
Proof.
  unfold Broker_NewWithLimits, shared_new. destruct (RetainedLimits_Validate l); [done|]. cbn [h_new]. intros [= <-] [= <-].
  destruct (new_tree ∅) as (_ & Ht & _).
  split; cbn; try done; intros k; rewrite ?lookup_empty; try done; by split; [|intros (? & [=] & _)].
Qed.
End steps.
