(* ===== verification/SnapshotTheorems.v ===== *)
(** The theorems on the broker that goroutines share ([Snapshots]): it does what
    [Broker] does, copies are private, every call returns, and between a message to
    retain and a new subscription nothing is lost. *)

From S2P Require Import Prelude Topic Wire Filters Tree Broker TreeHeap Snapshots.

Local Open Scope Z_scope.

(** * A message to retain and a new subscription *)

Section gap.
Context (pub : PublishPacket) (filter : bytes) (qos : Z) (sub : Subscriber) (kp ks km : nat).
Hypothesis distinct : kp ≠ ks ∧ kp ≠ km ∧ ks ≠ km.
Hypothesis pub_retain : pub_Retain pub = true.
Hypothesis pub_payload : 0 < len (pub_Payload pub).

(** A call that does not take back the subscription or replace the message. *)
Definition harmless (c : broker_call) : Prop :=
  match c with
  | CallUpdate (UpSubscribe f _ _) => ValidateTopicFilter f = None
  | CallUpdate (UpUnsubscribe f id) => splitFilter f ≠ splitFilter filter ∨ id ≠ ID sub
  | CallUpdate (UpUnsubscribeAll id) => id ≠ ID sub
  | CallPublish p => p = pub ∨ pub_Retain p = false ∨ pub_Topic p ≠ pub_Topic pub
  | _ => True
  end.

(** [kp] publishes the message, [ks] subscribes and [km] asks for retained messages;
    the others do what they like as long as it is harmless. *)
Definition in_role (k : nat) (c : broker_call) : Prop :=
  harmless c ∧ (k = kp → c = CallPublish pub) ∧ (k = ks → c = CallUpdate (UpSubscribe filter qos sub)) ∧ (k = km → c = CallRetained filter).

(** Call [k] was answered with [out], or is about to be. *)
Definition answered (a : AtomicBroker) (tr : list visible) (k : nat) (out : broker_output) : Prop :=
  at_calls a !! k = Some (ADone out) ∨ Respond k out ∈ tr.

Definition is_kept (b : Broker) : Prop := retained b !! pub_Topic pub = Some (retained_copy pub).
Definition is_routed (b : Broker) : Prop := is_Some (find (root (topics b)) (splitFilter filter) (ID sub)).

Record gap_inv (subscribed : Prop) (a : AtomicBroker) (tr : list visible) : Prop := {
  gi_broker : broker_ok (at_broker a);
  gi_calls k c : at_calls a !! k = Some (ACalled c) → in_role k c ∧ ∀ p, c = CallPublish p → pub_Retain p = true;
  gi_matching k p : at_calls a !! k = Some (AMatching p) → (k = kp → p = pub) ∧ k ≠ ks ∧ k ≠ km;
  gi_kept : at_calls a !! kp = Some (AMatching pub) ∨ (∃ subs, answered a tr kp (OutSubs subs)) → is_kept (at_broker a);
  gi_routed : subscribed ∨ (∃ out, answered a tr ks out) → is_routed (at_broker a);
  gi_before : subscribed ∨ at_calls a !! km = None ∧ ∀ out, Respond km out ∉ tr;
  gi_gap subs msgs : answered a tr kp (OutSubs subs) → answered a tr km (OutMessages msgs) →
    ID sub ∈ sub_ClientID <$> subs ∨ retained_copy pub ∈ msgs }.

(** ** What the calls keep *)

Lemma harmless_ok u b : harmless (CallUpdate u) → broker_ok b → broker_ok (apply_update u b).
Proof.
  intros Hh Hb. destruct u; cbn [harmless apply_update] in *; [by apply Broker_Subscribe_ok|by apply Broker_Unsubscribe_ok|by apply Broker_UnsubscribeAll_ok].
Qed.

Lemma find_update u b p c :
  find (root (topics (apply_update u b))) p c =
  match u with
  | UpSubscribe f q s => if decide (p = splitFilter f ∧ c = ID s) then Some (mkSubscription (ID s) s q) else find (root (topics b)) p c
  | UpUnsubscribe f id => if decide (p = splitFilter f ∧ c = id) then None else find (root (topics b)) p c
  | UpUnsubscribeAll id => if decide (c = id) then None else find (root (topics b)) p c
  end.
Proof.
  destruct u; cbn [apply_update]; unfold Broker_Subscribe, Broker_Unsubscribe, Broker_UnsubscribeAll, set_topics, Clone;
    cbn [topics Tree.Subscribe Tree.Unsubscribe Tree.UnsubscribeAll root]; rewrite clone_id.
  - by rewrite find_subscribe.
  - by rewrite find_unsubscribe.
  - by rewrite find_unsubscribeAll.
Qed.

Lemma harmless_routed u b : harmless (CallUpdate u) → is_routed b → is_routed (apply_update u b).
Proof.
  unfold is_routed. rewrite find_update. intros Hh Hr. destruct u; cbn [harmless] in Hh; case_decide; naive_solver.
Qed.

Lemma subscribe_routed b : is_routed (apply_update (UpSubscribe filter qos sub) b).
Proof. unfold is_routed. rewrite find_update, decide_True by done. by eexists. Qed.

Lemma updateRetained_topics b p : topics (updateRetained b p).2 = topics b.
Proof. rewrite updateRetained_check. by destruct (retain_refused _ _ _ _). Qed.

Lemma edit_map_pub m : edit_map pub m !! pub_Topic pub = Some (retained_copy pub).
Proof. unfold edit_map. destruct (Z.eqb_spec (len (pub_Payload pub)) 0); [lia|]. by rewrite lookup_insert_eq. Qed.

Lemma harmless_kept b p : harmless (CallPublish p) → pub_Retain p = true → is_kept b → is_kept (updateRetained b p).2.
Proof.
  unfold is_kept. rewrite updateRetained_check. intros Hh Hp Hk. destruct (retain_refused _ _ _ _); [exact Hk|]. cbn [snd retained].
  destruct Hh as [->|[Hh|Hh]]; [apply edit_map_pub|congruence|]. unfold edit_map.
  destruct (_ =? _)%Z; [rewrite lookup_delete_ne by done|rewrite lookup_insert_ne by done]; exact Hk.
Qed.

Lemma accepted_kept b : (updateRetained b pub).1 = None → is_kept (updateRetained b pub).2.
Proof. unfold is_kept. rewrite updateRetained_check. destruct (retain_refused _ _ _ _); [done|]. intros _. apply edit_map_pub. Qed.

Lemma kept_found b : MatchFilter filter (pub_Topic pub) = true → is_kept b → retained_copy pub ∈ RetainedMatching b filter.
Proof.
  intros Hm Hk. unfold RetainedMatching. apply list_elem_of_fmap. exists (pub_Topic pub, retained_copy pub). split; [done|].
  apply list_elem_of_filter. split; [exact Hm|]. by apply elem_of_map_to_list.
Qed.

Lemma routed_found b :
  broker_ok b → ValidateTopicFilter filter = None → validateTopicName (pub_Topic pub) = None → MatchFilter filter (pub_Topic pub) = true →
  is_routed b → ID sub ∈ sub_ClientID <$> Match (topics b) (pub_Topic pub).
Proof.
  intros Hb Hf Ht Hm [s Hs]. destruct (Match_routes (topics b) (pub_Topic pub) (bo_filters _ Hb) Ht) as (_ & _ & Hall).
  destruct (Hall s) as (s' & Hin & Hid); [by exists filter, (ID sub)|]. apply list_elem_of_fmap. exists s'. split; [|exact Hin].
  rewrite Hid. destruct (bo_tree _ Hb) as [_ Hkeyed]. symmetry. by eapply Hkeyed.
Qed.

(** ** The steps of the specification *)

Lemma answered_insert a b tr k p k' out :
  answered (mkAtomic b (<[k := p]> (at_calls a))) tr k' out → (k' = k ∧ p = ADone out) ∨ answered a tr k' out.
Proof.
  intros [H|H]; [|by right; right]. cbn [at_calls] in H. apply lookup_insert_Some in H as [[<- ->]|[_ H]]; [by left|by right; left].
Qed.

Lemma gap_step subscribed a tr k p b' p' :
  gap_inv subscribed a tr → at_calls a !! k = Some p → broker_ok b' →
  (is_kept (at_broker a) → is_kept b') → (is_routed (at_broker a) → is_routed b') →
  (∀ c, p' ≠ ACalled c) → (∀ p, p' = AMatching p → (k = kp → p = pub) ∧ k ≠ ks ∧ k ≠ km) →
  (k = kp → p' = AMatching pub ∨ (∃ subs, p' = ADone (OutSubs subs)) → is_kept b') →
  (k = ks → is_routed b') →
  (∀ subs, k = kp → p' = ADone (OutSubs subs) → subscribed → ID sub ∈ sub_ClientID <$> subs) →
  (∀ msgs, k = km → p' = ADone (OutMessages msgs) → is_kept (at_broker a) → retained_copy pub ∈ msgs) →
  gap_inv subscribed (mkAtomic b' (<[k := p']> (at_calls a))) tr.
Proof.
  intros [Hok Hcalls Hmat Hkept Hrouted Hbefore Hgap] Hk Hok' Hkeep Hroute Hp1 Hp2 Hp3 Hp4 Hp5 Hp6.
  split; cbn [at_broker at_calls]; try done.
  - intros k1 c. rewrite lookup_insert_Some. intros [[<- Hc]|[_ Hk1]]; [by destruct (Hp1 c)|by apply Hcalls].
  - intros k1 p1. rewrite lookup_insert_Some. intros [[<- ->]|[_ Hk1]]; [by apply Hp2|by apply Hmat].
  - intros [Hm|(subs & Ha)].
    + apply lookup_insert_Some in Hm as [[-> ->]|[_ Hm]]; [by apply Hp3; auto|apply Hkeep, Hkept; by left].
    + apply answered_insert in Ha as [[-> ->]|Ha]; [apply Hp3; [done|right; by eexists]|apply Hkeep, Hkept; right; by eexists].
  - intros [Hs|(out & Ha)]; [apply Hroute, Hrouted; by left|].
    apply answered_insert in Ha as [[-> ->]|Ha]; [by apply Hp4|apply Hroute, Hrouted; right; by eexists].
  - destruct Hbefore as [Hs|[Hkm Hno]]; [by left|right]. split; [|exact Hno]. rewrite lookup_insert_ne; [exact Hkm|congruence].
  - intros subs msgs H1 H2. apply answered_insert in H1 as [[E1 P1]|H1]; apply answered_insert in H2 as [[E2 P2]|H2].
    + destruct distinct as (_ & Hd & _). congruence.
    + destruct Hbefore as [Hs|[Hkm Hno]]; [left; by apply Hp5|]. destruct H2 as [H2|H2]; [congruence|by destruct (Hno _ H2)].
    + right. apply Hp6; [done..|]. apply Hkept. right. by eexists.
    + by apply Hgap.
Qed.

(** What the last two conditions of the theorem say. *)
Hypothesis valid_filter : ValidateTopicFilter filter = None.
Hypothesis valid_topic : validateTopicName (pub_Topic pub) = None.
Hypothesis filter_matches : MatchFilter filter (pub_Topic pub) = true.

Lemma update_gap subscribed a tr k u :
  gap_inv subscribed a tr → at_calls a !! k = Some (ACalled (CallUpdate u)) →
  gap_inv subscribed (mkAtomic (apply_update u (at_broker a)) (<[k := ADone OutDone]> (at_calls a))) tr.
Proof.
  intros Hg Hk. pose proof (gi_calls _ _ _ Hg k _ Hk) as [(Hh & Hrp & Hrs & Hrm) _].
  eapply gap_step; [exact Hg|exact Hk|by apply harmless_ok; [|apply Hg]| |by apply harmless_routed|done|done|..].
  - unfold is_kept. destruct (apply_update_rest u (at_broker a)) as [-> _]. done.
  - intros ->. specialize (Hrp eq_refl). discriminate Hrp.
  - intros ->. specialize (Hrs eq_refl). injection Hrs as ->. apply subscribe_routed.
  - intros subs ->. specialize (Hrp eq_refl). discriminate Hrp.
  - intros msgs ->. specialize (Hrm eq_refl). discriminate Hrm.
Qed.

Lemma publish_gap subscribed a tr k p :
  gap_inv subscribed a tr → at_calls a !! k = Some (ACalled (CallPublish p)) →
  gap_inv subscribed (mkAtomic (updateRetained (at_broker a) p).2
    (<[k := match (updateRetained (at_broker a) p).1 with Some e => ADone (OutError e) | None => AMatching p end]> (at_calls a))) tr.
Proof.
  intros Hg Hk. pose proof (gi_calls _ _ _ Hg k _ Hk) as [(Hh & Hrp & Hrs & Hrm) Hret]. specialize (Hret p eq_refl).
  eapply gap_step; [exact Hg|exact Hk|apply updateRetained_ok, Hg|by apply harmless_kept| |..].
  - unfold is_routed. by rewrite updateRetained_topics.
  - intros c. by destruct (updateRetained _ p).1.
  - intros p1. destruct (updateRetained _ p).1; [done|]. intros [= <-]. split; [intros ->; specialize (Hrp eq_refl); congruence|].
    split; intros ->; [specialize (Hrs eq_refl); discriminate Hrs|specialize (Hrm eq_refl); discriminate Hrm].
  - intros ->. specialize (Hrp eq_refl). injection Hrp as ->. intros Hd. apply accepted_kept.
    destruct (updateRetained _ pub).1; [|done]. by destruct Hd as [Hd|(subs & Hd)].
  - intros ->. specialize (Hrs eq_refl). discriminate Hrs.
  - intros subs ->. by destruct (updateRetained _ p).1.
  - intros msgs ->. specialize (Hrm eq_refl). discriminate Hrm.
Qed.

Lemma match_gap subscribed a tr k p :
  gap_inv subscribed a tr → at_calls a !! k = Some (AMatching p) →
  gap_inv subscribed (mkAtomic (at_broker a) (<[k := ADone (OutSubs (Match (topics (at_broker a)) (pub_Topic p)))]> (at_calls a))) tr.
Proof.
  intros Hg Hk. pose proof (gi_matching _ _ _ Hg k _ Hk) as (Hrp & Hrs & Hrm).
  eapply gap_step; [exact Hg|exact Hk|apply Hg|done..| | | |].
  - intros -> _. apply (gi_kept _ _ _ Hg). left. by rewrite <-(Hrp eq_refl).
  - intros ->. by destruct Hrs.
  - intros subs -> [= <-] Hsub. rewrite (Hrp eq_refl). apply routed_found; [apply Hg|done..|]. apply (gi_routed _ _ _ Hg). by left.
  - intros msgs ->. by destruct Hrm.
Qed.

Lemma retained_gap subscribed a tr k f :
  gap_inv subscribed a tr → at_calls a !! k = Some (ACalled (CallRetained f)) →
  gap_inv subscribed (mkAtomic (at_broker a) (<[k := ADone (OutMessages (RetainedMatching (at_broker a) f))]> (at_calls a))) tr.
Proof.
  intros Hg Hk. pose proof (gi_calls _ _ _ Hg k _ Hk) as [(Hh & Hrp & Hrs & Hrm) _].
  eapply gap_step; [exact Hg|exact Hk|apply Hg|done..| | | |].
  - intros ->. specialize (Hrp eq_refl). discriminate Hrp.
  - intros ->. specialize (Hrs eq_refl). discriminate Hrs.
  - intros subs ->. specialize (Hrp eq_refl). discriminate Hrp.
  - intros msgs -> [= <-] Hkept. specialize (Hrm eq_refl). injection Hrm as ->. by apply kept_found.
Qed.

Lemma snapshot_gap subscribed a tr k :
  gap_inv subscribed a tr → at_calls a !! k = Some (ACalled CallSnapshot) →
  gap_inv subscribed (mkAtomic (at_broker a) (<[k := ADone (OutStats (Broker_Snapshot (at_broker a)))]> (at_calls a))) tr.
Proof.
  intros Hg Hk. pose proof (gi_calls _ _ _ Hg k _ Hk) as [(Hh & Hrp & Hrs & Hrm) _].
  eapply gap_step; [exact Hg|exact Hk|apply Hg|done..| | | |].
  - intros ->. specialize (Hrp eq_refl). discriminate Hrp.
  - intros ->. specialize (Hrs eq_refl). discriminate Hrs.
  - intros subs ->. specialize (Hrp eq_refl). discriminate Hrp.
  - intros msgs ->. specialize (Hrm eq_refl). discriminate Hrm.
Qed.

Lemma atomic_step_gap subscribed a tr k a' :
  gap_inv subscribed a tr → atomic_step k a = Some a' → gap_inv subscribed a' tr.
Proof.
  intros Hg Hs. unfold atomic_step in Hs. destruct (at_calls a !! k) as [p|] eqn:Hk; [|discriminate Hs]. cbn [mbind option_bind] in Hs.
  destruct p as [[u|p|f|]|p|out]; [..|discriminate Hs].
  - injection Hs as <-. by apply update_gap.
  - pose proof (publish_gap subscribed a tr k p Hg Hk) as H. destruct (updateRetained _ p) as [err b]. by injection Hs as <-.
  - injection Hs as <-. by apply retained_gap.
  - injection Hs as <-. by apply snapshot_gap.
  - injection Hs as <-. by apply match_gap.
Qed.

(** ** Calls begin and end *)

Lemma call_gap (subscribed : Prop) a tr k c :
  gap_inv subscribed a tr → at_calls a !! k = None → in_role k c → (subscribed ∨ k ≠ km) →
  gap_inv subscribed (mkAtomic (at_broker a) (<[k := atomic_start c]> (at_calls a))) (tr ++ [Invoke k c]).
Proof.
  intros Hg Hk (Hh & Hrp & Hrs & Hrm) Hkm.
  assert (Hans : ∀ k' out, answered (mkAtomic (at_broker a) (<[k := atomic_start c]> (at_calls a))) (tr ++ [Invoke k c]) k' out → answered a tr k' out).
  { intros k' out [H|H].
    - cbn [at_calls] in H. apply lookup_insert_Some in H as [[_ H]|[_ H]]; [|by left].
      destruct c as [|p| |]; cbn [atomic_start] in H; try discriminate H. destruct (pub_Retain p); discriminate H.
    - apply elem_of_app in H as [H|H]; [by right|]. apply list_elem_of_singleton in H. discriminate H. }
  destruct Hg as [Hok Hcalls Hmat Hkept Hrouted Hbefore Hgap]. split; cbn [at_broker at_calls]; try done.
  - intros k1 c1. rewrite lookup_insert_Some. intros [[<- Hc]|[_ Hk1]]; [|by apply Hcalls].
    assert (c1 = c ∧ ∀ p, c = CallPublish p → pub_Retain p = true) as [-> Hret]; [|by split].
    destruct c as [|p| |]; cbn [atomic_start] in Hc; [by injection Hc as <-| |by injection Hc as <-..].
    destruct (pub_Retain p) eqn:E; [|discriminate Hc]. injection Hc as <-. split; [done|]. by intros p' [= <-].
  - intros k1 p1. rewrite lookup_insert_Some. intros [[<- Hc]|[_ Hk1]]; [|by apply Hmat].
    destruct c as [|p| |]; cbn [atomic_start] in Hc; try discriminate Hc. destruct (pub_Retain p) eqn:E; [discriminate Hc|]. injection Hc as ->.
    split; [intros ->; specialize (Hrp eq_refl); congruence|].
    split; intros ->; [specialize (Hrs eq_refl); discriminate Hrs|specialize (Hrm eq_refl); discriminate Hrm].
  - intros [H|(subs & H)]; [|apply Hkept; right; exists subs; by apply Hans].
    apply lookup_insert_Some in H as [[-> H]|[_ H]]; [|apply Hkept; by left].
    rewrite (Hrp eq_refl) in H. cbn [atomic_start] in H. rewrite pub_retain in H. discriminate H.
  - intros [H|(out & H)]; apply Hrouted; [by left|right; exists out; by apply Hans].
  - destruct Hbefore as [Hs|[Hn Hno]]; [by left|]. destruct Hkm as [Hs|Hne]; [by left|right]. split; [by rewrite lookup_insert_ne|].
    intros out [H|H]%elem_of_app; [by eapply Hno|]. apply list_elem_of_singleton in H. discriminate H.
  - intros subs msgs H1%Hans H2%Hans. by apply Hgap.
Qed.

Lemma return_gap subscribed a tr k out :
  gap_inv subscribed a tr → at_calls a !! k = Some (ADone out) →
  gap_inv subscribed (mkAtomic (at_broker a) (delete k (at_calls a))) (tr ++ [Respond k out]).
Proof.
  intros [Hok Hcalls Hmat Hkept Hrouted Hbefore Hgap] Hk.
  assert (Hans : ∀ k' o, answered (mkAtomic (at_broker a) (delete k (at_calls a))) (tr ++ [Respond k out]) k' o → answered a tr k' o).
  { intros k' o [H|[H|H]%elem_of_app]; [|by right|].
    - cbn [at_calls] in H. apply lookup_delete_Some in H as [_ H]. by left.
    - apply list_elem_of_singleton in H. injection H as -> ->. by left. }
  split; cbn [at_broker at_calls]; try done.
  - intros k1 c1 [_ H]%lookup_delete_Some. by apply Hcalls.
  - intros k1 p1 [_ H]%lookup_delete_Some. by apply Hmat.
  - intros [[_ H]%lookup_delete_Some|(subs & H)]; apply Hkept; [by left|right; exists subs; by apply Hans].
  - intros [H|(o & H)]; apply Hrouted; [by left|right; exists o; by apply Hans].
  - destruct Hbefore as [Hs|[Hn Hno]]; [by left|right]. split; [rewrite lookup_delete; by case_decide|].
    intros o [H|H]%elem_of_app; [by eapply Hno|]. apply list_elem_of_singleton in H. injection H as <- _. congruence.
  - intros subs msgs H1%Hans H2%Hans. by apply Hgap.
Qed.

Lemma run_gap (subscribed : Prop) aes a tr a' tr' :
  gap_inv subscribed a tr → run_visible atomic_exec aes a = Some (a', tr') →
  (∀ k c, Invoke k c ∈ tr' → in_role k c ∧ (subscribed ∨ k ≠ km)) → gap_inv subscribed a' (tr ++ tr').
Proof.
  revert a tr tr'. induction aes as [|e aes IH]; intros a tr tr' Hg Hrun Hroles; cbn [run_visible] in Hrun.
  { injection Hrun as <- <-. by rewrite app_nil_r. }
  destruct (atomic_exec e a) as [[a1 tr1]|] eqn:He; [|discriminate Hrun]. cbn [mbind option_bind] in Hrun.
  destruct (run_visible _ aes a1) as [[a2 tr2]|] eqn:Hr; [|discriminate Hrun]. injection Hrun as <- <-.
  rewrite app_assoc. eapply IH; [|exact Hr|intros k c H; apply Hroles, elem_of_app; by right].
  destruct e as [k c|k|k]; cbn [atomic_exec] in He.
  - destruct (at_calls a !! k) eqn:Hk; [discriminate He|]. injection He as <- <-.
    destruct (Hroles k c) as [Hc Hkm]; [apply elem_of_app; left; by left|]. by apply call_gap.
  - destruct (atomic_step k a) as [a3|] eqn:Hs; [|discriminate He]. injection He as <- <-. rewrite app_nil_r. by eapply atomic_step_gap.
  - destruct (at_calls a !! k) as [[| |out]|] eqn:Hk; try discriminate He. injection He as <- <-. by apply return_gap.
Qed.
End gap.

(** * Theorems *)

Section theorems.
Context (order : gmap bytes nat → list (bytes * nat)) (order_perm : ∀ m, order m ≡ₚ map_to_list m).

(** C12: the broker is linearizable.  Take any interleaving of the statements of any
    calls of [Subscribe], [Unsubscribe], [UnsubscribeAll], [Publish],
    [RetainedMatching] and [Snapshot] on a new broker: what the callers see, all
    invocations and responses in their order, is also an execution in which every
    call happens at one moment and does what its operation on immutable values says
    ([Publish] of a message to retain: at two moments); the memory stands for the
    broker of that execution, and nothing panicked. *)
Theorem broker_linearizes l b s0 es s tr :
  Broker_NewWithLimits l = Ok b → shared_new l = Ok s0 → run_visible (shared_exec order) es s0 = Some (s, tr) →
  (∃ aes a, run_visible atomic_exec aes (mkAtomic b ∅) = Some (a, tr) ∧ implements s a)
  ∧ ∀ k, sh_calls s !! k ≠ Some Panicked.
Proof.
  intros Hb Hs Hrun. destruct (run_sim order order_perm es s0 _ s tr (shared_new_implements l b s0 Hb Hs) Hrun) as (aes & a & Ha & Hr).
  split; [by exists aes, a|]. intros k Hk. pose proof (re_calls _ _ Hr k) as Hok. rewrite Hk in Hok. by destruct (at_calls a !! k).
Qed.

(** C13: snapshots do not change.  In any execution, no step writes to a node of the
    current tree or of a tree that some [Publish] has loaded and not yet matched, nor
    to the current map of retained messages or one that is being read: writers only
    write to copies that nobody else can reach, so readers need no lock and it does
    not matter over how many steps a reader reads. *)
Theorem snapshots_do_not_change l s0 es s tr e s' tr' :
  shared_new l = Ok s0 → run_visible (shared_exec order) es s0 = Some (s, tr) → shared_exec order e s = Some (s', tr') →
  (∀ q r, tree_in_use s q → reach (sh_nodes s) q r → sh_nodes s' !! r = sh_nodes s !! r)
  ∧ ∀ m, map_in_use s m → sh_maps s' !! m = sh_maps s !! m.
Proof.
  intros Hs Hrun He. destruct (Broker_NewWithLimits l) as [b|err] eqn:Hb.
  2: { unfold Broker_NewWithLimits in Hb. unfold shared_new in Hs. destruct (RetainedLimits_Validate l); discriminate. }
  destruct (run_sim order order_perm es s0 _ s tr (shared_new_implements l b s0 Hb Hs) Hrun) as (aes & a & Ha & Hr).
  destruct (exec_isolated order order_perm e s a s' tr' Hr He) as [Hn Hm]. split; [|exact Hm].
  intros q r Hq Hreach. by apply (Hn q Hq).
Qed.

(** Every call returns.  The calls in progress make a bounded number of steps, at
    most eleven each, in any order; and as long as one has not returned some call can
    make a step, so that no order of the two mutexes deadlocks. *)
Theorem broker_calls_return l s0 es s tr :
  shared_new l = Ok s0 → run_visible (shared_exec order) es s0 = Some (s, tr) →
  (∀ ks s' tr', run_visible (shared_exec order) (EvStep <$> ks) s = Some (s', tr') → len ks <= 11 * msize (sh_calls s))
  ∧ ((∀ k, shared_step order k s = None) → ∀ k p, sh_calls s !! k = Some p → ∃ out, p = Returned out).
Proof.
  intros Hs Hrun. split.
  - intros ks s' tr' Hks%steps_end. unfold len. pose proof (all_steps_bound (sh_calls s)). lia.
  - intros Hstuck k p Hk. destruct (Broker_NewWithLimits l) as [b|err] eqn:Hb.
    2: { unfold Broker_NewWithLimits in Hb. unfold shared_new in Hs. destruct (RetainedLimits_Validate l); discriminate. }
    destruct (run_sim order order_perm es s0 _ s tr (shared_new_implements l b s0 Hb Hs) Hrun) as (aes & a & Ha & Hr).
    destruct p as [| | | | | | | | | | | | | | | | | | | | | |out|] eqn:E; try by exists out.
    all: destruct (someone_moves order s a k p Hr) as [k' [s' Hk']]; subst; [exact Hk|done|by rewrite Hstuck in Hk'].
Qed.

(** C31: a message to retain is not lost between a subscription and its publication.
    Let a call have subscribed a client to a filter before another call asks for the
    retained messages of the filter, as SUBSCRIBE does; let a call [kp] publish a message
    that matches, with RETAIN set, and be accepted.  However the calls interleave with each
    other and with calls that do not unsubscribe the client or replace the message,
    the client is among those [kp] delivers to or the message is among
    the retained messages that are found. *)
Theorem retained_message_not_missed pub filter qos sub kp ks km b s0 es1 s1 t1 es2 s2 t2 :
  kp ≠ ks ∧ kp ≠ km ∧ ks ≠ km → pub_Retain pub = true → 0 < len (pub_Payload pub) →
  ValidateTopicFilter filter = None → validateTopicName (pub_Topic pub) = None → MatchFilter filter (pub_Topic pub) = true →
  broker_ok b → implements s0 (mkAtomic b ∅) →
  run_visible (shared_exec order) es1 s0 = Some (s1, t1) → run_visible (shared_exec order) es2 s1 = Some (s2, t2) →
  (∀ k c, Invoke k c ∈ t1 ++ t2 → in_role pub filter qos sub kp ks km k c) →
  Respond ks OutDone ∈ t1 → (∀ c, Invoke km c ∉ t1) →
  ∀ subs msgs, Respond kp (OutSubs subs) ∈ t1 ++ t2 → Respond km (OutMessages msgs) ∈ t1 ++ t2 →
  ID sub ∈ sub_ClientID <$> subs ∨ retained_copy pub ∈ msgs.
Proof.
  intros Hd Hret Hpay Hf Ht Hm Hb H0 Hrun1 Hrun2 Hroles Hks Hkm subs msgs Hsubs Hmsgs.
  destruct (run_sim order order_perm es1 s0 _ s1 t1 H0 Hrun1) as (aes1 & a1 & Ha1 & H1).
  destruct (run_sim order order_perm es2 s1 _ s2 t2 H1 Hrun2) as (aes2 & a2 & Ha2 & _).
  assert (Hg0 : gap_inv pub filter qos sub kp ks km False (mkAtomic b ∅) []).
  { split; cbn [at_broker at_calls]; try done; try (intros; by rewrite lookup_empty in * ).
    - intros [H|(x & [H|H])]; [by rewrite lookup_empty in H| |by apply not_elem_of_nil in H]. cbn in H. by rewrite lookup_empty in H.
    - intros [H|(x & [H|H])]; [done| |by apply not_elem_of_nil in H]. cbn in H. by rewrite lookup_empty in H.
    - right. split; [apply lookup_empty|]. intros out H. by apply not_elem_of_nil in H.
    - intros x y [H|H]; [cbn in H; by rewrite lookup_empty in H|by apply not_elem_of_nil in H]. }
  assert (Hg1 : gap_inv pub filter qos sub kp ks km False a1 t1).
  { apply (run_gap pub filter qos sub kp ks km Hd Hret Hpay Hf Ht Hm False aes1 _ [] a1 t1 Hg0 Ha1).
    intros k c H. split; [apply Hroles, elem_of_app; by left|right; intros ->; by apply (Hkm c)]. }
  assert (Hg1' : gap_inv pub filter qos sub kp ks km True a1 t1).
  { destruct Hg1 as [Hok Hcalls Hmat Hkept Hrouted Hbefore Hgap]. split; try done; [|by left].
    intros _. apply Hrouted. right. exists OutDone. by right. }
  pose proof (run_gap pub filter qos sub kp ks km Hd Hret Hpay Hf Ht Hm True aes2 a1 t1 a2 t2 Hg1' Ha2) as Hg2.
  apply (gi_gap _ _ _ _ _ _ _ _ _ _ (Hg2 ltac:(intros k c H; split; [apply Hroles, elem_of_app; by right|by left]))); by right.
Qed.
End theorems.

(** * Witnesses *)

Definition demo_start : SharedBroker :=
  match shared_new DefaultRetainedLimits with
  | Ok s => s
  | Error _ => mkShared ∅ ∅ None 0%nat None 0%nat DefaultRetainedLimits (mkRetainedStats 0 0 0) ∅
  end.
Definition demo_broker : Broker := mkBroker NewTree ∅ DefaultRetainedLimits (mkRetainedStats 0 0 0).
Definition demo_filter : bytes := bs "a/+".
Definition demo_pub : PublishPacket := mkPublish (bs "a/b") (bs "42") true false 1 7.

(** Call 1 publishes and loads the tree before call 0 stores the new one. *)
Definition demo_before : list broker_event :=
  [EvCall 0 (CallUpdate (UpSubscribe demo_filter 1 alice)); EvCall 1 (CallPublish demo_pub)]
  ++ (EvStep <$> [0; 1; 1; 0; 1; 1; 0; 1; 0; 1; 1; 1; 1; 1; 0; 0])%nat ++ [EvReturn 0].
Definition demo_after : list broker_event :=
  [EvCall 2 (CallRetained demo_filter)] ++ (EvStep <$> [2; 1; 2])%nat ++ [EvReturn 1; EvReturn 2].

Definition demo_trace1 : list visible :=
  [Invoke 0 (CallUpdate (UpSubscribe demo_filter 1 alice)); Invoke 1 (CallPublish demo_pub); Respond 0 OutDone].
Definition demo_trace2 : list visible :=
  [Invoke 2 (CallRetained demo_filter); Respond 1 (OutSubs []); Respond 2 (OutMessages [retained_copy demo_pub])].

Definition demo_mid : SharedBroker :=
  match run_visible (shared_exec map_to_list) demo_before demo_start with Some (s, _) => s | None => demo_start end.
Definition demo_end : SharedBroker :=
  match run_visible (shared_exec map_to_list) demo_after demo_mid with Some (s, _) => s | None => demo_mid end.

Lemma run_computed {S E} (exec : E → S → option (S * list visible)) es s (d : S) tr :
  (snd <$> run_visible exec es s) = Some tr →
  run_visible exec es s = Some (match run_visible exec es s with Some (s', _) => s' | None => d end, tr).
Proof. destruct (run_visible exec es s) as [[s' tr']|]; [|done]. cbn. by intros [= ->]. Qed.

Lemma demo_run1 : run_visible (shared_exec map_to_list) demo_before demo_start = Some (demo_mid, demo_trace1).
Proof. apply run_computed. vm_compute. reflexivity. Qed.

Lemma demo_run2 : run_visible (shared_exec map_to_list) demo_after demo_mid = Some (demo_end, demo_trace2).
Proof. apply run_computed. vm_compute. reflexivity. Qed.

Lemma demo_new : shared_new DefaultRetainedLimits = Ok demo_start.
Proof. reflexivity. Qed.

Lemma broker_linearizes_witness :
  ∃ b, Broker_New = Some b
    ∧ (∃ aes a, run_visible atomic_exec aes (mkAtomic b ∅) = Some (a, demo_trace1 ++ demo_trace2) ∧ implements demo_end a)
    ∧ ∀ k, sh_calls demo_end !! k ≠ Some Panicked.
Proof.
  eexists. split; [reflexivity|].
  exact (broker_linearizes map_to_list (λ m, reflexivity _) DefaultRetainedLimits _ demo_start (demo_before ++ demo_after) demo_end
    (demo_trace1 ++ demo_trace2) eq_refl demo_new (run_visible_app _ _ _ _ _ _ _ _ demo_run1 demo_run2)).
Defined.

(** While call 1 holds the old tree, call 0 stores the new one. *)
Definition demo_race : list broker_event :=
  [EvCall 0 (CallUpdate (UpSubscribe demo_filter 1 alice)); EvCall 1 (CallPublish (mkPublish (bs "a/b") [] false false 0 0))]
  ++ (EvStep <$> [0; 0; 0; 1])%nat.
Definition demo_racing : SharedBroker :=
  match run_visible (shared_exec map_to_list) demo_race demo_start with Some (s, _) => s | None => demo_start end.
Definition demo_edited : SharedBroker :=
  match shared_exec map_to_list (EvStep 0) demo_racing with Some (s, _) => s | None => demo_start end.

Lemma demo_run_race : ∃ tr, run_visible (shared_exec map_to_list) demo_race demo_start = Some (demo_racing, tr).
Proof. eexists. apply run_computed. vm_compute. reflexivity. Qed.

Lemma snapshots_do_not_change_witness :
  tree_in_use demo_racing (sh_topics demo_racing)
  ∧ sh_nodes demo_edited ≠ sh_nodes demo_racing
  ∧ sh_nodes demo_edited !! sh_topics demo_racing = sh_nodes demo_racing !! sh_topics demo_racing.
Proof.
  assert (Hu : tree_in_use demo_racing (sh_topics demo_racing)) by (by left).
  split; [exact Hu|]. split.
  - intros H. apply (f_equal size) in H. vm_compute in H. discriminate H.
  - destruct demo_run_race as [tr Htr]. assert (He : shared_exec map_to_list (EvStep 0) demo_racing = Some (demo_edited, [])).
    { assert (H : (snd <$> shared_exec map_to_list (EvStep 0) demo_racing) = Some []) by (vm_compute; reflexivity). unfold demo_edited.
      destruct (shared_exec map_to_list (EvStep 0) demo_racing) as [[s tr']|]; [|discriminate H]. cbn in H. congruence. }
    apply (proj1 (snapshots_do_not_change map_to_list (λ m, reflexivity _) _ _ _ _ _ _ _ _ demo_new Htr He) _ _ Hu). constructor.
Defined.

Lemma broker_calls_return_witness :
  msize (sh_calls demo_racing) = 2 ∧ ∀ ks s' tr', run_visible (shared_exec map_to_list) (EvStep <$> ks) demo_racing = Some (s', tr') → len ks <= 22.
Proof.
  assert (Hm : msize (sh_calls demo_racing) = 2) by (vm_compute; reflexivity). split; [exact Hm|].
  destruct demo_run_race as [tr Htr]. intros ks s' tr' Hks.
  pose proof (proj1 (broker_calls_return map_to_list (λ m, reflexivity _) _ _ _ _ _ demo_new Htr) ks s' tr' Hks) as H. rewrite Hm in H. exact H.
Defined.

Lemma retained_message_not_missed_witness :
  ID alice ∈ sub_ClientID <$> ([] : list Subscription) ∨ retained_copy demo_pub ∈ [retained_copy demo_pub].
Proof.
  refine (retained_message_not_missed map_to_list (λ m, reflexivity _) demo_pub demo_filter 1 alice 1 0 2 demo_broker demo_start
    demo_before demo_mid demo_trace1 demo_after demo_end demo_trace2 _ _ _ _ _ _ _ _ demo_run1 demo_run2 _ _ _ _ _ _ _);
    try (vm_compute; reflexivity).
  - split_and!; discriminate.
  - by apply (Broker_NewWithLimits_ok DefaultRetainedLimits).
  - by apply (shared_new_implements DefaultRetainedLimits); [|exact demo_new].
  - intros k c H. unfold demo_trace1, demo_trace2 in H. cbn [app] in H.
    repeat (apply elem_of_cons in H as [H|H]; [try discriminate H; injection H as -> ->|]); [..|by apply not_elem_of_nil in H];
      (split; [try (vm_compute; reflexivity); by left|split_and!; by intros]).
  - right. right. left.
  - intros c H. unfold demo_trace1 in H. repeat (apply elem_of_cons in H as [H|H]; [discriminate H|]). by apply not_elem_of_nil in H.
  - right. right. right. right. left.
  - right. right. right. right. right. left.
Defined.
