(* ===== verification/Writers.v ===== *)
(** The encoders as the source has them (src/internal/protocol/encoder.go): they write
    to an [io.Writer] piece by piece and stop at its first error.  [Encoder] has the
    bytes they mean to write; here the two are related for every writer. *)

From S2P Require Import Prelude Topic Wire Encoder.

Local Open Scope Z_scope.
Local Open Scope orb_scope.

(** * Definitions *)

(** [io.Writer]: how many bytes were written, and the error. *)
Class IoWriter (W : Type) := io_Write : bytes → W → (Z * option error) * W.

(** The contract of the interface: the bytes that were written come after those of
    before, and without an error they are all. *)
Class IoWriterSpec (W : Type) `{!IoWriter W} (written : W → bytes) : Prop :=
  io_Write_spec p w n err w' : io_Write p w = ((n, err), w') →
    0 <= n <= len p ∧ written w' = written w ++ take (Z.to_nat n) p ∧ (err = None → n = len p).

(** A [bytes.Buffer]. *)
#[export] Instance buffer_writer : IoWriter bytes := λ p buf, ((len p, None), buf ++ p).

Section writers.
Context {W : Type} `{!IoWriter W}.

(** A function that writes and returns an error. *)
Definition writing : Type := W → option error * W.

Definition write_bytes (p : bytes) : writing := λ w, let '((_, err), w) := io_Write p w in (err, w).
Definition write_fail (err : error) : writing := λ w, (Some err, w).
Definition write_check (failed : bool) (err : error) (k : writing) : writing := if failed then write_fail err else k.
(** [if err := m; err != nil { return err }], then [k]. *)
Definition write_then (m k : writing) : writing := λ w, let '(err, w) := m w in match err with Some err => (Some err, w) | None => k w end.

(** [binary.Write] of a [uint16] is one [Write] of two bytes. *)
Definition write_be16 (z : Z) : writing := write_bytes (put_be16 z).

Fixpoint encodeRemainingLength_loop_to (fuel : nat) (length : Z) : writing :=
  match fuel with
  | O => λ w, (None, w)
  | S fuel =>
      let encodedByte := length mod 128 in
      let length := length / 128 in
      let encodedByte := if 0 <? length then Z.lor encodedByte 128 else encodedByte in
      write_then (write_bytes [u8 encodedByte]) (if length =? 0 then λ w, (None, w) else encodeRemainingLength_loop_to fuel length)
  end.

Definition encodeRemainingLength_to (length : Z) : writing :=
  write_check ((length <? 0) || (MaxRemainingLength <? length)) (New "invalid remaining length") (encodeRemainingLength_loop_to 4 length).

Definition EncodePublish_to (pkt : PublishPacket) : writing :=
  write_check (1 <? pub_QoS pkt) (New "unsupported QoS level") (
  write_check ((0 <? pub_QoS pkt) && (pub_PacketID pkt =? 0)) (New "invalid packet identifier") (
  write_check ((pub_QoS pkt =? 0) && pub_DUP pkt) (New "invalid DUP flag for QoS 0") (
  match validateTopicName (pub_Topic pkt) with
  | Some err => write_fail err
  | None =>
      let remainingLength := 2 + len (pub_Topic pkt) in
      let remainingLength := if 0 <? pub_QoS pkt then remainingLength + 2 else remainingLength in
      write_check (MaxRemainingLength - remainingLength <? len (pub_Payload pkt)) (New "invalid remaining length") (
      let remainingLength := remainingLength + len (pub_Payload pkt) in
      let flags := 48 in
      let flags := if pub_DUP pkt then Z.lor flags 8 else flags in
      let flags := Z.lor flags (u8 (Z.shiftl (Z.land (pub_QoS pkt) 3) 1)) in
      let flags := if pub_Retain pkt then Z.lor flags 1 else flags in
      write_then (write_bytes [flags]) (
      write_then (encodeRemainingLength_to remainingLength) (
      write_then (write_be16 (len (pub_Topic pkt))) (
      write_then (write_bytes (pub_Topic pkt)) (
      write_then (if 0 <? pub_QoS pkt then write_be16 (pub_PacketID pkt) else λ w, (None, w)) (
      write_bytes (pub_Payload pkt)))))))
  end))).

Definition encodeConnAck_to (pkt : ConnAckPacket) : writing :=
  write_then (write_bytes [32; 2]) (
  let flags := if ca_SessionPresent pkt then 1 else 0 in
  write_bytes [flags; u8 (ca_ReturnCode pkt)]).

Definition encodePingResp_to : writing := write_bytes [208; 0].

Definition encodePubAck_to (packetID : Z) : writing :=
  write_check (packetID =? 0) (New "invalid packet identifier") (
  write_then (write_bytes [64; 2]) (write_be16 packetID)).

Definition encodeUnsubAck_to (packetID : Z) : writing := write_then (write_bytes [176; 2]) (write_be16 packetID).

Definition encodeSubAck_to (pkt : SubAckPacket) : writing :=
  write_check (MaxRemainingLength - 2 <? len (sa_ReturnCodes pkt)) (New "invalid remaining length") (
  let remainingLength := 2 + len (sa_ReturnCodes pkt) in
  write_then (write_bytes [144]) (
  write_then (encodeRemainingLength_to remainingLength) (
  write_then (write_be16 (sa_PacketID pkt)) (
  write_bytes (sa_ReturnCodes pkt))))).

Definition Encode_to (p : Packet) : writing :=
  match p with
  | PConnAck pkt => encodeConnAck_to pkt
  | PPingResp => encodePingResp_to
  | PPubAck packetID => encodePubAck_to packetID
  | PSubAck pkt => encodeSubAck_to pkt
  | PUnsubAck packetID => encodeUnsubAck_to packetID
  | _ => write_fail ErrUnsupportedPacket
  end.

(** * Writing an encoding *)

(** [m] writes the encoding [r] of a packet: when the packet is refused nothing is
    written.  Otherwise a prefix of the encoding is, all of it unless an error is
    returned, and that is one a call of [Write] returned. *)
Definition writes (written : W → bytes) (m : writing) (r : result bytes) : Prop :=
  ∀ w, let '(err, w') := m w in
  match r with
  | Error e => err = Some e ∧ w' = w
  | Ok buf =>
      ∃ out, written w' = written w ++ out ∧ out `prefix_of` buf
      ∧ match err with
        | None => out = buf
        | Some e => ∃ p w1 n w2, io_Write p w1 = ((n, Some e), w2)
        end
  end.

Context (written : W → bytes) `{!IoWriterSpec W written}.

Lemma writes_bytes p : writes written (write_bytes p) (Ok p).
Proof.
  intros w. unfold write_bytes. destruct (io_Write p w) as [[n err] w'] eqn:Hw.
  destruct (io_Write_spec p w n err w' Hw) as (Hn & Hout & Hall). exists (take (Z.to_nat n) p). split; [exact Hout|].
  split; [apply prefix_take|]. destruct err as [e|]; [by exists p, w, n, w'|]. rewrite (Hall eq_refl). unfold len.
  apply take_ge. lia.
Qed.

Lemma writes_nothing : writes written (λ w, (None, w)) (Ok []).
Proof. intros w. exists []. by rewrite app_nil_r. Qed.

Lemma writes_fail err : writes written (write_fail err) (Error err).
Proof. by intros w. Qed.

Lemma writes_check (failed : bool) err k r :
  (failed = false → writes written k r) → writes written (write_check failed err k) (if failed then Error err else r).
Proof. intros Hk. unfold write_check. destruct failed; [apply writes_fail|by apply Hk]. Qed.

Lemma writes_then m k b1 b2 :
  writes written m (Ok b1) → writes written k (Ok b2) → writes written (write_then m k) (Ok (b1 ++ b2)).
Proof.
  intros Hm Hk w. unfold write_then. specialize (Hm w). destruct (m w) as [err w1]. destruct Hm as (o1 & H1 & Hp1 & He1).
  destruct err as [e|].
  - exists o1. split; [exact H1|]. split; [by apply prefix_app_r|exact He1].
  - subst o1. specialize (Hk w1). destruct (k w1) as [err w2]. destruct Hk as (o2 & H2 & Hp2 & He2).
    exists (b1 ++ o2). split; [by rewrite H2, H1, app_assoc|]. split; [by apply prefix_app|].
    destruct err; [exact He2|by rewrite He2].
Qed.

Lemma writes_remaining_loop fuel n : writes written (encodeRemainingLength_loop_to fuel n) (Ok (encodeRemainingLength_loop fuel n)).
Proof.
  revert n. induction fuel as [|fuel IH]; intros n; [apply writes_nothing|]. cbn [encodeRemainingLength_loop_to encodeRemainingLength_loop].
  apply (writes_then _ _ [_]); [apply writes_bytes|]. destruct (_ =? 0); [apply writes_nothing|apply IH].
Qed.

Lemma writes_remaining n : writes written (encodeRemainingLength_to n) (encodeRemainingLength n).
Proof. apply writes_check. intros _. apply writes_remaining_loop. Qed.

Lemma remaining_ok n : 0 <= n <= MaxRemainingLength → ∃ l, encodeRemainingLength n = Ok l.
Proof.
  intros Hn. unfold encodeRemainingLength. destruct (Z.ltb_spec n 0), (Z.ltb_spec MaxRemainingLength n); try lia. by eexists.
Qed.

(** The length of a packet that passed the checks can be written. *)
Lemma writes_length n m k b r :
  0 <= n <= MaxRemainingLength → writes written m (Ok b) → (∀ l, writes written k (Ok (r l))) →
  writes written (write_then m (write_then (encodeRemainingLength_to n) k))
    (match encodeRemainingLength n with Ok l => Ok (b ++ l ++ r l) | Error e => Error e end).
Proof.
  intros Hn Hm Hk. destruct (remaining_ok n Hn) as [l Hl]. pose proof (writes_remaining n) as Hr. rewrite Hl in Hr |- *.
  apply writes_then; [exact Hm|]. by apply writes_then.
Qed.

Lemma writes_publish pkt : writes written (EncodePublish_to pkt) (EncodePublish pkt).
Proof.
  unfold EncodePublish_to, EncodePublish. do 3 (apply writes_check; intros _).
  destruct (validateTopicName _); [apply writes_fail|]. cbv zeta. apply writes_check. intros Hlen%Z.ltb_ge.
  eapply (writes_length _ _ _ _ (λ l, put_be16 (len (pub_Topic pkt)) ++ pub_Topic pkt
    ++ (if 0 <? pub_QoS pkt then put_be16 (pub_PacketID pkt) else []) ++ pub_Payload pkt)); [|apply writes_bytes|].
  - unfold len in *. destruct (_ <? _); lia.
  - intros l. repeat (apply writes_then; [first [apply writes_bytes|destruct (0 <? _); [apply writes_bytes|apply writes_nothing]]|]).
    apply writes_bytes.
Qed.

Lemma writes_suback pkt : writes written (encodeSubAck_to pkt) (encodeSubAck pkt).
Proof.
  apply writes_check. intros Hlen%Z.ltb_ge. cbv zeta.
  eapply (writes_length _ _ _ _ (λ l, put_be16 (sa_PacketID pkt) ++ sa_ReturnCodes pkt)); [|apply writes_bytes|].
  - unfold len in *. lia.
  - intros l. apply writes_then; apply writes_bytes.
Qed.

Lemma writes_packet p : writes written (Encode_to p) (Encode p).
Proof.
  destruct p; cbn [Encode_to Encode]; try apply writes_fail.
  - apply writes_then; apply writes_bytes.
  - apply writes_check. intros _. apply writes_then; apply writes_bytes.
  - apply writes_suback.
  - apply writes_then; apply writes_bytes.
  - apply writes_bytes.
Qed.
End writers.

(** * Theorems *)

#[export] Instance buffer_spec : IoWriterSpec bytes (λ buf, buf).
Proof.
  intros p w n err w' [= <- <- <-]. unfold len. split; [lia|]. rewrite take_ge by lia. by split.
Qed.

Lemma buffer_exact (m : writing) r buf :
  writes (λ buf, buf) m r → m buf = match r with Ok enc => (None, buf ++ enc) | Error err => (Some err, buf) end.
Proof.
  intros H. specialize (H buf). destruct (m buf) as [err buf'], r as [enc|e].
  - destruct H as (out & -> & _ & He). destruct err as [e|]; [|by subst]. destruct He as (p & w1 & n & w2 & Hw). discriminate Hw.
  - by destruct H as [-> ->].
Qed.

(** C37: the encoders on any [io.Writer].  A packet that cannot be encoded leaves the
    writer untouched, with the error of the encoder.  Otherwise what reaches the writer is a
    prefix of the packet's encoding: all of it when no error is returned, and an error
    that is returned is the one of a call of [Write].  A [bytes.Buffer], which every caller passes, gets the whole encoding. *)
Theorem encoders_on_writers :
  (∀ (W : Type) `{!IoWriter W} (written : W → bytes) `{!IoWriterSpec W written},
     (∀ p, writes written (Encode_to p) (Encode p)) ∧ ∀ pkt, writes written (EncodePublish_to pkt) (EncodePublish pkt))
  ∧ (∀ p buf, Encode_to p buf = match Encode p with Ok enc => (None, buf ++ enc) | Error err => (Some err, buf) end)
  ∧ ∀ pkt buf, EncodePublish_to pkt buf = match EncodePublish pkt with Ok enc => (None, buf ++ enc) | Error err => (Some err, buf) end.
Proof.
  split; [|split].
  - intros W HW written Hspec. split; [exact (@writes_packet W HW written Hspec)|exact (@writes_publish W HW written Hspec)].
  - intros p buf. apply buffer_exact, writes_packet. apply _.
  - intros pkt buf. apply buffer_exact, writes_publish. apply _.
Qed.

(** * Witnesses *)

(** A writer with room for so many bytes. *)
Record bounded_writer := mkBounded {
  bw_out : bytes;
  bw_room : nat }.

#[export] Instance bounded_IoWriter : IoWriter bounded_writer := λ p w,
  if decide (length p <= bw_room w)%nat then ((len p, None), mkBounded (bw_out w ++ p) (bw_room w - length p))
  else ((Z.of_nat (bw_room w), Some (New "no space left")), mkBounded (bw_out w ++ take (bw_room w) p) 0).

#[export] Instance bounded_spec : IoWriterSpec bounded_writer bw_out.
Proof.
  intros p w n err w' Hw. unfold io_Write, bounded_IoWriter in Hw. destruct (decide _) as [Hle|Hle]; injection Hw as <- <- <-; cbn [bw_out].
  - unfold len. split; [lia|]. rewrite take_ge by lia. by split.
  - unfold len. split; [lia|]. by rewrite Nat2Z.id.
Defined.

Lemma encoders_on_writers_witness :
  let pkt := PSubAck (mkSubAck 7 [1; 0]) in
  writes bw_out (Encode_to pkt) (Encode pkt)
  ∧ Encode_to pkt (mkBounded [] 3) = (Some (New "no space left"), mkBounded [144; 4; 0] 0)
  ∧ Encode_to pkt [] = (None, [144; 4; 0; 7; 1; 0]).
Proof.
  intros pkt. split; [exact (proj1 (proj1 encoders_on_writers bounded_writer _ bw_out _) pkt)|].
  split; [vm_compute; reflexivity|]. rewrite (proj1 (proj2 encoders_on_writers) pkt []). vm_compute. reflexivity.
Defined.
