(* ===== verification/Address.v ===== *)
(** The functions of Go's standard library that the validation of addresses uses:
    [net.SplitHostPort], [strconv.Atoi], [net.ParseIP] and [IP.IsLoopback]. *)

From S2P Require Import Prelude.

Local Open Scope Z_scope.
Local Open Scope orb_scope.

(** * Splitting *)

(** [strings.IndexByte]: the part before the first [c] and the part after it. *)
Fixpoint cut_first (c : Z) (s : bytes) : option (bytes * bytes) :=
  match s with
  | [] => None
  | b :: s => if b =? c then Some ([], s) else '(before, after) ← cut_first c s; Some (b :: before, after)
  end.

(** The same at the last [c]. *)
Definition cut_last (c : Z) (s : bytes) : option (bytes * bytes) :=
  '(after, before) ← cut_first c (reverse s); Some (reverse before, reverse after).

Definition starts_with (c : Z) (s : bytes) : bool := match s with b :: _ => b =? c | [] => false end.

Definition contains_byte (c : Z) (s : bytes) : bool := existsb (λ b, b =? c) s.

(** [net.SplitHostPort]; 58 is ':', 91 '[' and 93 ']'.  Its errors are not looked at. *)
Definition SplitHostPort (hostport : bytes) : result (bytes * bytes) :=
  match cut_last 58 hostport with
  | None => Error (New "missing port in address")
  | Some (before, port) =>
      if starts_with 91 hostport then
        match cut_first 93 hostport with
        | None => Error (New "missing ']' in address")
        | Some (opening, rest) =>
            (* the first ']' has to be the byte before the last ':' *)
            if negb (bool_decide (before = opening ++ [93])) then
              Error (New "missing port or too many colons in address")
            else if contains_byte 91 (drop 1 hostport) then Error (New "unexpected '[' in address")
            else if contains_byte 93 rest then Error (New "unexpected ']' in address")
            else Ok (drop 1 opening, port)
        end
      else if contains_byte 58 before then Error (New "too many colons in address")
      else if contains_byte 91 hostport then Error (New "unexpected '[' in address")
      else if contains_byte 93 hostport then Error (New "unexpected ']' in address")
      else Ok (before, port)
  end.

(** * Numbers *)

Definition is_digit (c : Z) : bool := (48 <=? c) && (c <=? 57).

Definition digits_value (s : bytes) : Z := foldl (λ n c, n * 10 + (c - 48)) 0 s.

(** [strconv.Atoi] with a 64-bit [int]: an optional sign and one digit at least. *)
Definition Atoi (s : bytes) : result Z :=
  let negative := starts_with 45 s in
  let digits := if negative || starts_with 43 s then drop 1 s else s in
  if bool_decide (digits = []) || negb (forallb is_digit digits) then Error (New "invalid syntax")
  else
    let n := if negative then - digits_value digits else digits_value digits in
    if (n <? - 2 ^ 63) || (2 ^ 63 - 1 <? n) then Error (New "value out of range") else Ok n.

(** * IP addresses *)

(** [parseIPv4Fields]: [seen] are the octets before, [val] and [digLen] the value and
    the length of the current one.  An octet has no leading zero and is at most 255. *)
Fixpoint parseIPv4_loop (s : bytes) (seen : list Z) (val digLen : Z) : option (list Z) :=
  match s with
  | [] => if (len seen =? 3) && (0 <? digLen) then Some (seen ++ [val]) else None
  | c :: s =>
      if is_digit c then
        if (digLen =? 1) && (val =? 0) then None
        else
          let val := val * 10 + (c - 48) in
          if 255 <? val then None else parseIPv4_loop s seen val (digLen + 1)
      else if c =? 46 then
        if (digLen =? 0) || (len seen =? 3) then None else parseIPv4_loop s (seen ++ [val]) 0 0
      else None
  end.

Definition parseIPv4Fields (s : bytes) : option (list Z) := parseIPv4_loop s [] 0 0.

Definition hex_value (c : Z) : option Z :=
  if is_digit c then Some (c - 48)
  else if (97 <=? c) && (c <=? 102) then Some (c - 87)
  else if (65 <=? c) && (c <=? 70) then Some (c - 55)
  else None.

(** The longest run of hexadecimal digits, its value and what follows; [None] for a
    run of more than four. *)
Fixpoint hex_group (s : bytes) (n acc : Z) : option (Z * Z * bytes) :=
  match s with
  | c :: s' =>
      match hex_value c with
      | Some v => if 3 <? n then None else hex_group s' (n + 1) (acc * 16 + v)
      | None => Some (n, acc, s)
      end
  | [] => Some (n, acc, [])
  end.

(** The loop of [parseIPv6]: [ip] are the bytes so far and [ellipsis] their number at
    the "::"; the result has them and what is left of the string.  A group takes
    two bytes, so eight rounds are enough. *)
Fixpoint parseIPv6_loop (fuel : nat) (s : bytes) (ip : list Z) (ellipsis : option nat)
    : option (list Z * option nat * bytes) :=
  match fuel with
  | O => Some (ip, ellipsis, s)
  | S fuel =>
      '(n, acc, rest) ← hex_group s 0 0;
      if n =? 0 then None
      else
        let ip' := ip ++ [acc / 256; acc mod 256] in
        if starts_with 46 rest then
          if bool_decide (ellipsis = None) && negb (len ip =? 12) then None
          else if 16 <? len ip + 4 then None
          else (fields ← parseIPv4Fields s; Some (ip ++ fields, ellipsis, []))
        else
          match rest with
          | [] => Some (ip', ellipsis, [])
          | [_] => None
          | c :: (d :: rest') as next =>
              if negb (c =? 58) then None
              else if d =? 58 then
                if bool_decide (ellipsis ≠ None) then None
                else if bool_decide (rest' = []) then Some (ip', Some (length ip'), [])
                else parseIPv6_loop fuel rest' ip' (Some (length ip'))
              else parseIPv6_loop fuel next ip' ellipsis
          end
  end.

(** [parseIPv6] of a string without a zone: a "::" stands for one group of zeros at
    least, and without one all groups are there. *)
Definition parseIPv6 (s : bytes) : option (list Z) :=
  '(ip, ellipsis, rest) ←
    (if bool_decide (take 2 s = [58; 58]) then
       if bool_decide (drop 2 s = []) then Some ([], Some 0%nat, [])
       else parseIPv6_loop 8 (drop 2 s) [] (Some 0%nat)
     else parseIPv6_loop 8 s [] None);
  if negb (bool_decide (rest = [])) then None
  else if len ip <? 16 then
    k ← ellipsis;
    Some (take k ip ++ replicate (16 - length ip) 0 ++ drop k ip)
  else match ellipsis with Some _ => None | None => Some ip end.

(** [net.ParseIP]: the sixteen bytes of an address, an IPv4 one mapped into IPv6; no
    address with a zone ('%') is accepted. *)
Definition ParseIP (s : bytes) : option (list Z) :=
  if contains_byte 37 s then None
  else
    match list_find (λ c, c = 46 ∨ c = 58) s with
    | Some (_, c) =>
        if c =? 46 then (ip4 ← parseIPv4Fields s; Some (replicate 10 0 ++ [255; 255] ++ ip4)) else parseIPv6 s
    | None => None
    end.

(** [IP.IsLoopback] of sixteen bytes: 127.0.0.0/8 and ::1. *)
Definition IsLoopback (ip : list Z) : bool :=
  if bool_decide (take 12 ip = replicate 10 0 ++ [255; 255]) then bool_decide (ip !! 12%nat = Some 127)
  else bool_decide (ip = replicate 15 0 ++ [1]).

(** * Paths *)

(** [filepath.IsAbs] on Unix. *)
Definition IsAbs (path : bytes) : bool := starts_with 47 path.

(** The elements of a path between its slashes. *)
Fixpoint elements (s : bytes) : list bytes :=
  match s with
  | [] => [[]]
  | c :: s =>
      if c =? 47 then [] :: elements s
      else match elements s with e :: es => (c :: e) :: es | [] => [[c]] end
  end.

(** One element of a path after the elements [out], last first. *)
Definition clean_element (rooted : bool) (out : list bytes) (e : bytes) : list bytes :=
  if bool_decide (e = []) || bool_decide (e = [46]) then out
  else if bool_decide (e = [46; 46]) then
    match out with
    | last :: out' => if bool_decide (last = [46; 46]) then e :: out else out'
    | [] => if rooted then [] else [e]
    end
  else e :: out.

Fixpoint join_elements (es : list bytes) : bytes :=
  match es with
  | [] => []
  | [e] => e
  | e :: es => e ++ 47 :: join_elements es
  end.

(** [filepath.Clean] on Unix. *)
Definition Clean (path : bytes) : bytes :=
  let rooted := IsAbs path in
  let out := reverse (foldl (clean_element rooted) [] (elements path)) in
  if rooted then 47 :: join_elements out
  else if bool_decide (out = []) then [46] else join_elements out.

(** [filepath.Dir] on Unix. *)
Definition Dir (path : bytes) : bytes :=
  Clean (match cut_last 47 path with Some (before, _) => before ++ [47] | None => [] end).

(** [filepath.Join] of two elements, the first not empty. *)
Definition Join (dir name : bytes) : bytes :=
  Clean (if bool_decide (name = []) then dir else dir ++ 47 :: name).
