(* ===== verification/Config.v ===== *)
(** The configuration of the broker (src/internal/config/): loading, validation and
    the preparation of its security.

    The YAML library is a parameter: [yaml_Unmarshal] gives the first document of a
    file as a tree, [yaml_Decode] sets the fields of a value from it, and
    [yaml_Next] is the error of decoding a second document.  [read_file] is opening
    and reading a file. *)

From S2P Require Import Prelude Topic Wire Decoder Session Broker Auth Client Server Address.

Local Open Scope Z_scope.
Local Open Scope orb_scope.

(** * Data *)

Record TLS := mkTLS {
  CertFile : bytes;
  KeyFile : bytes }.

Record Security := mkSecurity {
  Mode : bytes;
  CredentialsFile : bytes;
  sec_TLS : option TLS }.

(** [config.Server]; times in nanoseconds. *)
Record ServerConfig := mkServerConfig {
  Address : bytes;
  HandshakeTimeout : Z;
  MaxPacketSizeBytes : Z;
  cfg_MaxConnections : Z;
  cfg_MaxHandshakes : Z;
  WriteTimeout : Z }.

Record Observability := mkObservability {
  SummaryInterval : Z;
  SaturationLogInterval : Z }.

Record Config := mkConfig {
  cfg_Security : Security;
  cfg_Server : ServerConfig;
  Sessions : Limits;
  cfg_Retained : RetainedLimits;
  cfg_Observability : Observability }.

Definition Defaults : Config :=
  let limits := DefaultConnectionLimits in
  mkConfig (mkSecurity [] [] None)
    (mkServerConfig (bs "127.0.0.1:1883") 10000000000 (Z.shiftl 1 20) (MaxConnections limits) (MaxHandshakes limits)
       30000000000)
    DefaultLimits DefaultRetainedLimits (mkObservability 30000000000 10000000000).

(** * Validation *)

(** [Security.validate]; the error of [SplitHostPort] is dropped, the host is empty
    then. *)
Definition Security_validate (s : Security) (address : bytes) : option error :=
  if bool_decide (Mode s = bs "development") then
    let host := match SplitHostPort address with Ok (host, _) => host | Error _ => [] end in
    let loopback := match ParseIP host with Some ip => IsLoopback ip | None => false end in
    if negb loopback then Some (New "development mode requires a literal loopback address")
    else if negb (bool_decide (CredentialsFile s = [])) || negb (bool_decide (sec_TLS s = None))
    then Some (New "development mode cannot contain security credentials or tls settings")
    else None
  else if bool_decide (Mode s = bs "secure") then
    let missing :=
      bool_decide (CredentialsFile s = [])
      || match sec_TLS s with
         | None => true
         | Some t => bool_decide (CertFile t = []) || bool_decide (KeyFile t = [])
         end in
    if missing then Some (New "secure mode requires credentials and a tls certificate and key") else None
  else Some (New "security mode must be explicitly secure or development").

(** The first of a list of checks that fails. *)
Fixpoint first_error (checks : list (option error)) : option error :=
  match checks with
  | [] => None
  | Some err :: _ => Some err
  | None :: checks => first_error checks
  end.

Definition check (failed : bool) (msg : string) : option error := if failed then Some (New msg) else None.

Definition Config_Validate (c : Config) : option error :=
  let s := cfg_Server c in
  let o := cfg_Observability c in
  first_error
    [ConnectionLimits_Validate (mkConnectionLimits (cfg_MaxConnections s) (cfg_MaxHandshakes s));
     check (WriteTimeout s <=? 0) "write timeout must be positive";
     RetainedLimits_Validate (cfg_Retained c);
     match SplitHostPort (Address s) with
     | Error _ => Some (New "invalid server address")
     | Ok (_, port) =>
         match Atoi port with
         | Error _ => Some (New "invalid server port")
         | Ok number => check ((number <? 0) || (65535 <? number)) "invalid server port"
         end
     end;
     check (HandshakeTimeout s <=? 0) "handshake timeout must be positive";
     check ((MaxPacketSizeBytes s <=? 0) || (MaxPacketSize <? MaxPacketSizeBytes s)) "invalid maximum packet size";
     Limits_Validate (Sessions c);
     check ((SummaryInterval o <=? 0) || (SaturationLogInterval o <=? 0)) "observation intervals must be positive";
     Security_validate (cfg_Security c) (Address s)].

(** * YAML *)

(** The parts of a [yaml.Node] that the code reads. *)
Inductive NodeKind := DocumentNode | SequenceNode | MappingNode | ScalarNode | AliasNode | NoKind.

#[export] Instance NodeKind_eq_dec : EqDecision NodeKind.
Proof. solve_decision. Defined.

Inductive Node := mkNode (kind : NodeKind) (tag : bytes) (content : list Node).

Definition Kind (n : Node) : NodeKind := let 'mkNode k _ _ := n in k.
Definition Tag (n : Node) : bytes := let 'mkNode _ t _ := n in t.
Definition Content (n : Node) : list Node := let 'mkNode _ _ c := n in c.

Fixpoint validateNodes (node : Node) : option error :=
  match node with
  | mkNode kind tag content =>
      if bool_decide (tag = bs "!!null") || bool_decide (kind = AliasNode)
      then Some (New "configuration cannot contain nulls or aliases")
      else (fix loop (content : list Node) : option error :=
              match content with
              | [] => None
              | child :: content =>
                  match validateNodes child with
                  | Some err => Some err
                  | None => loop content
                  end
              end) content
  end.

Section yaml.
Context (yaml_Unmarshal : bytes → result Node) (yaml_Next : bytes → option error).
Context (read_file : bytes → result bytes).

(** [io.ReadAll] of a [LimitReader] of 65537 bytes. *)
Definition read_limited (path : bytes) : result bytes :=
  let! data := read_file path in Ok (take (Z.to_nat 65537) data).

Definition loadYAML {T} (yaml_Decode : bytes → T → result T) (path : bytes) (target : T) : result T :=
  let! data := read_limited path in
  if 65536 <? len data then Error (New "configuration exceeds size limit")
  else
    match yaml_Unmarshal data with
    | Error _ => Error (New "invalid configuration yaml")
    | Ok document =>
        match Content document with
        | [root] =>
            if negb (bool_decide (Kind root = MappingNode)) then Error (New "configuration must be a mapping")
            else
              match validateNodes document with
              | Some err => Error err
              | None =>
                  match yaml_Decode data target with
                  | Error _ => Error (New "invalid configuration fields")
                  | Ok target =>
                      if bool_decide (yaml_Next data = Some EOF) then Ok target
                      else Error (New "configuration must contain one document")
                  end
              end
        | _ => Error (New "configuration must be a mapping")
        end
    end.

(** ** Loading *)

Definition resolve (path value : bytes) : bytes :=
  if bool_decide (value = []) || IsAbs value then value else Join (Dir path) value.

Definition Load (decode_config : bytes → Config → result Config) (path : bytes) : result Config :=
  let! cfg := loadYAML decode_config path Defaults in
  match Config_Validate cfg with
  | Some err => Error err
  | None =>
      let sec := cfg_Security cfg in
      let sec := mkSecurity (Mode sec) (resolve path (CredentialsFile sec))
        (match sec_TLS sec with
         | Some t => Some (mkTLS (resolve path (CertFile t)) (resolve path (KeyFile t)))
         | None => None
         end) in
      Ok (mkConfig sec (cfg_Server cfg) (Sessions cfg) (cfg_Retained cfg) (cfg_Observability cfg))
  end.

(** [loadCredentials]; the document of the source is its list of users. *)
Definition loadCredentials (procs : Z) (decode_users : bytes → list User → result (list User)) (path : bytes)
    : result Local :=
  let! users := loadYAML decode_users path [] in NewLocal procs users.

(** [Prepare]: the policy and the TLS configuration; [key_pair] is what loading the
    certificate and its key gives. *)
Definition Prepare (procs : Z) (decode_users : bytes → list User → result (list User))
    (key_pair : TLS → result bytes) (s : Security) : result (option Local * option TLSConfig) :=
  if bool_decide (Mode s = bs "development") then Ok (None, None)
  else
    match sec_TLS s with
    | Some t =>
        if negb (bool_decide (Mode s = bs "secure")) || bool_decide (CredentialsFile s = [])
        then Error (New "invalid security configuration")
        else
          let! policy := loadCredentials procs decode_users (CredentialsFile s) in
          match key_pair t with
          | Error _ => Error (New "load tls certificate and key failed")
          | Ok certificate => Ok (Some policy, Some (mkTLSConfig [certificate] VersionTLS12))
          end
    | None => Error (New "invalid security configuration")
    end.
End yaml.
