(* ===== verification/Main.v ===== *)
(** The commands (src/cmd/) and the periodic reports (src/internal/observation/). *)

From S2P Require Import Prelude Topic Wire Encoder Decoder Tree Broker Session Delivery Auth Client.
From S2P Require Import Server Handlers Lifecycle Options Address Config.

Local Open Scope Z_scope.
Local Open Scope orb_scope.

(** * The broker (cmd/orbmq) *)

(** The options that [run] gives to [server.New]. *)
Definition run_options (c : Config) (policy : option Local) (tls : option TLSConfig) : list ServerOption :=
  let s := cfg_Server c in
  [WithSecurity policy tls;
   WithHandshakeTimeout (HandshakeTimeout s);
   WithWriteTimeout (WriteTimeout s);
   WithConnectionLimits (mkConnectionLimits (cfg_MaxConnections s) (cfg_MaxHandshakes s));
   WithMaxPacketSize (MaxPacketSizeBytes s)].

(** [run] up to the start of the server: the configuration and the server it is about
    to start, before [Start] makes its checks. *)
Definition run_setup (load : result Config) (prepare : Security → result (option Local * option TLSConfig))
    : result (Config * System) :=
  let! cfg := load in
  let! prepared := prepare (cfg_Security cfg) in
  let '(policy, tls) := prepared in
  let! sessions := NewWithLimits (Sessions cfg) in
  let! b := Broker_NewWithLimits (cfg_Retained cfg) in
  Ok (cfg, mkSystem (Server_New (Address (cfg_Server cfg)) b sessions (run_options cfg policy tls)) ∅).

(** * The password command (cmd/orbmq-password) *)

(** The longest binary field of MQTT. *)
Definition password_limit : Z := 65535.

(** [io.ReadAll] of an [io.LimitReader]: what comes after the limit is not read, nor is
    the error there. *)
Definition ReadAll_limited (n : Z) (input : Reader) : result bytes :=
  if n <=? len (rd_data input) then Ok (take (Z.to_nat n) (rd_data input))
  else match rd_err input with EOF => Ok (rd_data input) | err => Error err end.

(** [run] of cmd/orbmq-password: what it prints for its input.  The limit of the reader
    is one more than the longest password. *)
Definition run_password (pbkdf2_Key : bytes → bytes → Z → Z → result bytes) (salt : bytes) (input : Reader) : result bytes :=
  match ReadAll_limited (password_limit + 1) input with
  | Error _ => Error (New "read password failed")
  | Ok password =>
      if password_limit <? len password then Error (New "password exceeds mqtt binary field limit")
      else
        let! hash := HashPassword pbkdf2_Key salt password in
        Ok (hash ++ [10])
  end.

(** * Observation *)

(** The counters that [Run] watches, by the reason of its log lines. *)
Inductive reason :=
| session_limit | global_limit | authentication | authorization | connections_refused | handshakes_refused
| sessions_refused | subscriptions_refused | filters_refused | retained_refused.

#[export] Instance reason_eq_dec : EqDecision reason.
Proof. solve_decision. Defined.

(** What the sources say at a tick. *)
Record Sources := mkSources {
  src_sessions : Snapshot;
  src_server : ServerStats;
  src_broker : RetainedStats }.

Definition total (s : Sources) (r : reason) : Z :=
  match r with
  | session_limit => SessionLimitDrops (src_sessions s)
  | global_limit => GlobalLimitDrops (src_sessions s)
  | authentication => AuthenticationRejections (src_server s)
  | authorization => AuthorizationRejections (src_server s)
  | connections_refused => ConnectionRejections (src_server s)
  | handshakes_refused => HandshakeRejections (src_server s)
  | sessions_refused => SessionRejections (src_sessions s)
  | subscriptions_refused => SubscriptionRejections (src_sessions s)
  | filters_refused => FilterRejections (src_sessions s)
  | retained_refused => RetainedRejections (src_broker s)
  end.

(** The totals of the last tick: [lastSession], [lastGlobal] and [lastResources], all
    zero at first. *)
Definition last_totals : Type := reason → Z.

Definition set_last (last : last_totals) (r : reason) (n : Z) : last_totals :=
  λ r', if bool_decide (r' = r) then n else last r'.

(** One comparison of a tick: a log line, with how much was added, if the total changed. *)
Definition report (s : Sources) (st : last_totals * list (reason * Z)) (r : reason) : last_totals * list (reason * Z) :=
  let '(last, lines) := st in
  if total s r =? last r then st
  else (set_last last r (total s r), lines ++ [(r, u64 (total s r - last r))]).

(** A tick of [saturation]; [order] is the order in which Go ranges over the map of
    the resources. *)
Definition saturation_tick (order : list reason) (s : Sources) (last : last_totals) : last_totals * list (reason * Z) :=
  foldl (report s) (last, []) ([session_limit; global_limit] ++ order).

Definition resources : list reason :=
  [authentication; authorization; connections_refused; handshakes_refused; sessions_refused;
   subscriptions_refused; filters_refused; retained_refused].

(** [Run] over the ticks of [saturation]: all lines it logs. *)
Fixpoint observe (ticks : list (list reason * Sources)) (last : last_totals) : last_totals * list (reason * Z) :=
  match ticks with
  | [] => (last, [])
  | (order, s) :: ticks =>
      let '(last, lines) := saturation_tick order s last in
      let '(last, more) := observe ticks last in
      (last, lines ++ more)
  end.

(** The lines of the log: the three of a summary and the reports. *)
Inductive log_line :=
| log_sessions (pending_messages pending_bytes inflight_messages oldest_pending_age session_limit_drops global_limit_drops : Z)
| log_security (authentication_rejections authorization_rejections : Z)
| log_resources (connections handshakes sessions subscriptions retained_messages retained_bytes expired_sessions : Z)
| log_rejected (r : reason) (n : Z).

(** A tick of [summary]. *)
Definition summary_tick (s : Sources) : list log_line :=
  let stats := src_sessions s in
  let connections := src_server s in
  let retained := src_broker s in
  [log_sessions (PendingMessages stats) (PendingBytes stats) (InflightMessages stats) (OldestPendingAge stats)
     (SessionLimitDrops stats) (GlobalLimitDrops stats);
   log_security (AuthenticationRejections connections) (AuthorizationRejections connections);
   log_resources (Connections connections) (Handshakes connections) (SessionCount stats) (SubscriptionCount stats)
     (RetainedMessages retained) (RetainedBytes retained) (ExpiredSessions stats)].

(** What the [select] of [Run] takes, until the context is done. *)
Inductive tick :=
| at_summary (s : Sources)
| at_saturation (order : list reason) (s : Sources).

(** [Run]: everything it logs. *)
Fixpoint Run_loop (ticks : list tick) (last : last_totals) : list log_line :=
  match ticks with
  | [] => []
  | at_summary s :: ticks => summary_tick s ++ Run_loop ticks last
  | at_saturation order s :: ticks =>
      let '(last, lines) := saturation_tick order s last in
      ((λ line, log_rejected line.1 line.2) <$> lines) ++ Run_loop ticks last
  end.

Definition Run (ticks : list tick) : list log_line := Run_loop ticks (λ _, 0).
