(* ===== verification/MainProofs.v ===== *)
(** Theorems on the configuration, the start of the broker, where it listens, and its
    reports. *)

From S2P Require Import Prelude Topic Wire Encoder Decoder Tree Broker Session Delivery Auth AuthProofs Client.
From S2P Require Import Server Handlers Lifecycle Options ServerInv Ownership SystemProofs ServerTheorems HandlerProofs Frames SecurityProofs.
From S2P Require Import WriterWaits Shutdown Start Address Config Main.

Local Open Scope Z_scope.
Local Open Scope orb_scope.

(** * Addresses *)

(** 127.0.0.0/8, as IPv4 mapped into IPv6, and ::1. *)
Definition loopback_address (ip : list Z) : Prop :=
  (∃ a b c, ip = replicate 10 0 ++ [255; 255; 127; a; b; c]) ∨ ip = replicate 15 0 ++ [1].

Lemma len_nat {A} (l : list A) n : len l = Z.of_nat n → length l = n.
Proof. unfold len. lia. Qed.

Lemma parseIPv4_loop_length s seen val digLen l : parseIPv4_loop s seen val digLen = Some l → length l = 4%nat.
Proof.
  revert seen val digLen. induction s as [|c s IH]; intros seen val digLen; simpl.
  - destruct (Z.eqb_spec (len seen) 3) as [E|]; simpl; [|discriminate]. destruct (0 <? digLen); [|discriminate].
    intros [= <-]. rewrite length_app. apply (len_nat seen 3) in E. rewrite E. done.
  - repeat case_match; try discriminate; eauto.
Qed.

Lemma parseIPv6_loop_length fuel s ip ellipsis ip' ellipsis' rest :
  parseIPv6_loop fuel s ip ellipsis = Some (ip', ellipsis', rest) →
  (length ip + 2 * fuel = 16)%nat → (∀ k, ellipsis = Some k → k <= length ip)%nat →
  (length ip' <= 16)%nat ∧ (∀ k, ellipsis' = Some k → k <= length ip')%nat.
Proof.
  revert s ip ellipsis. induction fuel as [|fuel IH]; intros s ip ellipsis H Hlen Hell; simpl in H.
  { injection H as <- <- <-. split; [lia|done]. }
  destruct (hex_group s 0 0) as [[[n acc] tail]|]; simpl in H; [|discriminate].
  destruct (n =? 0); [discriminate|]. set (ip2 := ip ++ [acc / 256; acc mod 256]) in *.
  assert (Hlen2 : length ip2 = (length ip + 2)%nat) by (unfold ip2; rewrite length_app; done).
  assert (Hell2 : ∀ k, ellipsis = Some k → (k <= length ip2)%nat) by (intros k Hk; specialize (Hell k Hk); lia).
  destruct (starts_with 46 tail).
  { destruct (_ && _); [discriminate|]. destruct (Z.ltb_spec 16 (len ip + 4)) as [|Hroom]; [discriminate|].
    destruct (parseIPv4Fields s) as [fields|] eqn:Hf; simpl in H; [|discriminate]. injection H as <- <- <-.
    apply parseIPv4_loop_length in Hf. rewrite length_app, Hf. unfold len in Hroom. split; [lia|].
    intros k Hk. specialize (Hell k Hk). lia. }
  destruct tail as [|c [|d tail]]; [injection H as <- <- <-; split; [lia|done]|discriminate|].
  destruct (negb _); [discriminate|]. destruct (d =? 58); [|by eapply IH; [exact H|lia|]].
  destruct (bool_decide (ellipsis ≠ None)); [discriminate|].
  assert (Hhere : ∀ k, Some (length ip2) = Some k → (k <= length ip2)%nat) by (intros k E; injection E as <-; lia).
  destruct (bool_decide (tail = [])); [injection H as <- <- <-; split; [lia|exact Hhere]|by eapply IH; [exact H|lia|]].
Qed.

Lemma parseIPv6_length s ip : parseIPv6 s = Some ip → length ip = 16%nat.
Proof.
  unfold parseIPv6. set (parsed := if bool_decide (take 2 s = _) then _ else _).
  assert (Hp : ∀ ip' e rest, parsed = Some (ip', e, rest) →
    (length ip' <= 16)%nat ∧ (∀ k, e = Some k → k <= length ip')%nat).
  { intros ip' e rest H. unfold parsed in H. destruct (bool_decide (take 2 s = _)); [destruct (bool_decide (drop 2 s = _))|].
    - injection H as <- <- <-. split; [simpl; lia|]. intros k E. by injection E as <-.
    - eapply parseIPv6_loop_length; [exact H|done|]. intros k E. by injection E as <-.
    - eapply parseIPv6_loop_length; [exact H|done|discriminate]. }
  destruct parsed as [[[ip' e] rest]|]; simpl; [|discriminate].
  destruct (Hp ip' e rest eq_refl) as [Hlen He]. destruct (negb _); [discriminate|].
  destruct (Z.ltb_spec (len ip') 16) as [Hlt|Hge].
  - destruct e as [k|]; simpl; [|discriminate]. intros [= <-]. specialize (He k eq_refl).
    rewrite !length_app, length_replicate, length_take, length_drop. unfold len in Hlt. lia.
  - destruct e; [discriminate|]. intros [= <-]. unfold len in Hge. lia.
Qed.

(** An address has sixteen bytes. *)
Lemma ParseIP_length s ip : ParseIP s = Some ip → length ip = 16%nat.
Proof.
  unfold ParseIP. destruct (contains_byte 37 s); [discriminate|].
  destruct (list_find _ s) as [[i c]|]; [|discriminate]. destruct (c =? 46); [|apply parseIPv6_length].
  destruct (parseIPv4Fields s) as [l|] eqn:Hl; simpl; [|discriminate]. intros [= <-].
  apply parseIPv4_loop_length in Hl. simpl. by rewrite Hl.
Qed.

Lemma IsLoopback_address ip : length ip = 16%nat → IsLoopback ip = true → loopback_address ip.
Proof.
  intros Hlen. unfold IsLoopback, loopback_address. case_bool_decide as H12.
  - intros H%bool_decide_eq_true_1. left. pose proof (take_drop 12 ip) as E. rewrite H12 in E.
    destruct (drop 12 ip) as [|a [|b [|c [|d [|]]]]]; subst ip; try discriminate Hlen.
    simpl in H. injection H as ->. by exists b, c, d.
  - intros H%bool_decide_eq_true_1. by right.
Qed.

(** * Configuration *)

Lemma first_error_None checks : first_error checks = None ↔ Forall (λ c, c = None) checks.
Proof.
  induction checks as [|[err|] checks IH]; simpl; [by split|..].
  - split; [discriminate|]. by intros [? _]%Forall_cons.
  - rewrite IH, Forall_cons. naive_solver.
Qed.

Lemma check_None failed msg : check failed msg = None ↔ failed = false.
Proof. by destruct failed. Qed.

(** What validation guarantees. *)
Record valid_config (c : Config) : Prop := {
  vc_connections :
    ConnectionLimits_Validate (mkConnectionLimits (cfg_MaxConnections (cfg_Server c)) (cfg_MaxHandshakes (cfg_Server c))) = None;
  vc_write : 0 < WriteTimeout (cfg_Server c);
  vc_retained : RetainedLimits_Validate (cfg_Retained c) = None;
  vc_port : ∃ host port n, SplitHostPort (Address (cfg_Server c)) = Ok (host, port) ∧ Atoi port = Ok n ∧ 0 <= n <= 65535;
  vc_handshake : 0 < HandshakeTimeout (cfg_Server c);
  vc_packets : 0 < MaxPacketSizeBytes (cfg_Server c) <= MaxPacketSize;
  vc_sessions : Limits_Validate (Sessions c) = None;
  vc_intervals : 0 < SummaryInterval (cfg_Observability c) ∧ 0 < SaturationLogInterval (cfg_Observability c);
  vc_security : Security_validate (cfg_Security c) (Address (cfg_Server c)) = None }.

Lemma Config_Validate_valid c : Config_Validate c = None → valid_config c.
Proof.
  unfold Config_Validate. rewrite first_error_None, !Forall_cons, !check_None.
  intros (H1 & H2 & H3 & H4 & H5 & H6 & H7 & H8 & H9 & _). bool_to_prop. split; try done; try lia.
  destruct (SplitHostPort _) as [[host port]|]; [|discriminate H4].
  destruct (Atoi port) as [n|] eqn:Hn; [|discriminate H4]. apply check_None in H4. bool_to_prop.
  exists host, port, n. split; [done|]. split; [done|lia].
Qed.

(** Which security a configuration has. *)
Lemma Security_validate_modes s address :
  Security_validate s address = None →
  (Mode s = bs "development" ∧ CredentialsFile s = [] ∧ sec_TLS s = None
     ∧ ∃ host port ip, SplitHostPort address = Ok (host, port) ∧ ParseIP host = Some ip ∧ loopback_address ip)
  ∨ (Mode s = bs "secure" ∧ CredentialsFile s ≠ []
     ∧ ∃ t, sec_TLS s = Some t ∧ CertFile t ≠ [] ∧ KeyFile t ≠ []).
Proof.
  unfold Security_validate. case_bool_decide as Hdev; [|case_bool_decide as Hsec; [|discriminate]].
  - destruct (SplitHostPort address) as [[host port]|]; [|discriminate].
    destruct (ParseIP host) as [ip|] eqn:Hip; [|discriminate].
    destruct (IsLoopback ip) eqn:Hloop; simpl; [|discriminate]. do 2 (case_bool_decide; simpl; [|discriminate]).
    intros _. left. split_and!; try done. exists host, port, ip. split; [done|]. split; [done|].
    apply IsLoopback_address; [by apply (ParseIP_length host)|done].
  - destruct (sec_TLS s) as [t|]; [|by rewrite orb_true_r]. do 3 (case_bool_decide; simpl; [discriminate|]).
    intros _. right. split_and!; try done. by exists t.
Qed.

(** ** YAML *)

(** [n] is [root] or lies below it. *)
Inductive below (root : Node) : Node → Prop :=
| below_root : below root root
| below_child n child : below root n → child ∈ Content n → below root child.

Definition plain (n : Node) : Prop := Tag n ≠ bs "!!null" ∧ Kind n ≠ AliasNode.

Fixpoint yaml_size (n : Node) : nat :=
  match n with mkNode _ _ content => S (list_sum (yaml_size <$> content)) end.

Lemma yaml_size_child child content : child ∈ content → (yaml_size child <= list_sum (yaml_size <$> content))%nat.
Proof.
  induction 1 as [child content|child n content _ IH]; unfold list_sum in *; cbn [fmap list_fmap foldr] in *; lia.
Qed.

Lemma below_below root n m : below root n → below n m → below root m.
Proof. intros Hn. induction 1 as [|m child _ IH Hc]; [done|by eapply below_child]. Qed.

Lemma below_inv root n : below root n → n = root ∨ ∃ child, child ∈ Content root ∧ below child n.
Proof.
  induction 1 as [|n child _ IH Hc]; [by left|right]. destruct IH as [->|(c & Hin & Hb)].
  - exists child. split; [done|constructor].
  - exists c. split; [done|by eapply below_child].
Qed.

(** The loop of [validateNodes] over the children. *)
Lemma validateNodes_unfold kind tag content :
  validateNodes (mkNode kind tag content) = None ↔
  plain (mkNode kind tag content) ∧ Forall (λ n, validateNodes n = None) content.
Proof.
  unfold plain. simpl. do 2 (case_bool_decide; simpl; [naive_solver|]).
  assert (Hl : ∀ content, (fix loop (content : list Node) : option error :=
    match content with
    | [] => None
    | child :: content => match validateNodes child with Some err => Some err | None => loop content end
    end) content = None ↔ Forall (λ n, validateNodes n = None) content).
  { induction content0 as [|child l IH]; [by split|]. rewrite Forall_cons, <- IH.
    destruct (validateNodes child); naive_solver. }
  rewrite Hl. naive_solver.
Qed.

Lemma validateNodes_plain root : validateNodes root = None ↔ ∀ n, below root n → plain n.
Proof.
  induction root as [root IH] using (induction_ltof1 _ yaml_size). unfold ltof in IH.
  destruct root as [kind tag content]. rewrite validateNodes_unfold, Forall_forall.
  assert (Hsmall : ∀ child, child ∈ content → (yaml_size child < yaml_size (mkNode kind tag content))%nat)
    by (intros child Hin%yaml_size_child; simpl; lia).
  split.
  - intros [Hp Hall] n [->|(child & Hin & Hb)]%below_inv; [done|].
    by apply (proj1 (IH child (Hsmall child Hin)) (Hall child Hin)).
  - intros Hall. split; [apply Hall; constructor|]. intros child Hin. apply IH; [by apply Hsmall|].
    intros n Hn. apply Hall. eapply below_below; [|exact Hn]. eapply below_child; [constructor|exact Hin].
Qed.

Section loading.
Context (yaml_Unmarshal : bytes → result Node) (yaml_Next : bytes → option error).
Context (read_file : bytes → result bytes).

Local Abbreviation load_yaml := (loadYAML yaml_Unmarshal yaml_Next read_file).

(** YAML is loaded strictly: a file is accepted exactly when it has at most 65536
    bytes and is one document whose root is a mapping, with no null and no alias
    anywhere in it, whose fields are known, and no second document follows; the value
    is then what the decoder makes of it. *)
Theorem loadYAML_strict {T} (decode : bytes → T → result T) path target v :
  load_yaml decode path target = Ok v ↔
  ∃ data document root, read_file path = Ok data ∧ len data <= 65536
    ∧ yaml_Unmarshal data = Ok document ∧ Content document = [root] ∧ Kind root = MappingNode
    ∧ (∀ n, below document n → Tag n ≠ bs "!!null" ∧ Kind n ≠ AliasNode)
    ∧ decode data target = Ok v ∧ yaml_Next data = Some EOF.
Proof.
  unfold loadYAML, read_limited. split.
  - destruct (read_file path) as [data|]; [|discriminate]. simpl.
    destruct (Z.ltb_spec 65536 (len (take (Z.to_nat 65537) data))) as [|Hlen]; [discriminate|].
    assert (Hshort : len data <= 65536) by (unfold len in *; rewrite length_take in Hlen; lia).
    rewrite take_ge by (unfold len in Hshort; lia).
    destruct (yaml_Unmarshal data) as [document|] eqn:Hu; [|discriminate].
    destruct (Content document) as [|root []] eqn:Hc; try discriminate.
    case_bool_decide as Hk; [|discriminate]. simpl. destruct (validateNodes document) eqn:Hv; [discriminate|].
    destruct (decode data target) as [v'|] eqn:Hd; [|discriminate]. case_bool_decide as Hn; [|discriminate].
    intros [= <-]. exists data, document, root. split_and!; try done. by apply validateNodes_plain.
  - intros (data & document & root & -> & Hlen & Hu & Hc & Hk & Hplain & Hd & Hn). simpl.
    rewrite take_ge by (unfold len in Hlen; lia). destruct (Z.ltb_spec 65536 (len data)); [lia|].
    rewrite Hu, Hc, bool_decide_true by done. simpl. rewrite (proj2 (validateNodes_plain document) Hplain).
    by rewrite Hd, bool_decide_true.
Qed.

Lemma Load_inv decode path cfg :
  Load yaml_Unmarshal yaml_Next read_file decode path = Ok cfg →
  ∃ cfg0, load_yaml decode path Defaults = Ok cfg0 ∧ valid_config cfg0
    ∧ cfg_Server cfg = cfg_Server cfg0 ∧ Sessions cfg = Sessions cfg0 ∧ cfg_Retained cfg = cfg_Retained cfg0
    ∧ Mode (cfg_Security cfg) = Mode (cfg_Security cfg0).
Proof.
  unfold Load. destruct (load_yaml _ _ _) as [cfg0|]; [|discriminate]. simpl.
  destruct (Config_Validate cfg0) eqn:Hv; [discriminate|]. intros [= <-]. exists cfg0.
  split; [done|]. split; [by apply Config_Validate_valid|]. by split_and!.
Qed.

(** What [Prepare] gives in each mode. *)
Lemma Prepare_inv procs decode_users key_pair s policy tls :
  Prepare yaml_Unmarshal yaml_Next read_file procs decode_users key_pair s = Ok (policy, tls) →
  (Mode s = bs "development" ∧ policy = None ∧ tls = None)
  ∨ (Mode s = bs "secure"
     ∧ (∃ t certificate, sec_TLS s = Some t ∧ key_pair t = Ok certificate ∧ tls = Some (mkTLSConfig [certificate] VersionTLS12))
     ∧ ∃ users l, load_yaml decode_users (CredentialsFile s) [] = Ok users ∧ NewLocal procs users = Ok l ∧ policy = Some l).
Proof.
  unfold Prepare, loadCredentials. case_bool_decide as Hdev; [intros [= <- <-]; by left|].
  destruct (sec_TLS s) as [t|]; [|discriminate]. case_bool_decide as Hsec; [|discriminate]. simpl.
  case_bool_decide; [discriminate|]. destruct (load_yaml _ _ _) as [users|] eqn:Hu; [|discriminate]. simpl.
  destruct (NewLocal procs users) as [l|] eqn:Hl; [|discriminate]. simpl. destruct (key_pair t) as [certificate|] eqn:Hk; [|discriminate].
  intros [= <- <-]. right. split; [done|]. split; [by exists t, certificate|]. by exists users, l.
Qed.

Context (decode_config : bytes → Config → result Config) (path : bytes).
Context (procs : Z) (decode_users : bytes → list User → result (list User)) (key_pair : TLS → result bytes).

Local Abbreviation load := (Load yaml_Unmarshal yaml_Next read_file decode_config path).
Local Abbreviation prepare := (Prepare yaml_Unmarshal yaml_Next read_file procs decode_users key_pair).

(** The server that [run] starts. *)
Lemma run_setup_inv cfg sys :
  run_setup load prepare = Ok (cfg, sys) →
  load = Ok cfg ∧ ∃ policy tls sessions b, prepare (cfg_Security cfg) = Ok (policy, tls)
    ∧ NewWithLimits (Sessions cfg) = Ok sessions ∧ Broker_NewWithLimits (cfg_Retained cfg) = Ok b
    ∧ sys = mkSystem (Server_New (Address (cfg_Server cfg)) b sessions (run_options cfg policy tls)) ∅.
Proof.
  unfold run_setup. destruct load as [cfg'|]; [|discriminate]. simpl.
  destruct (prepare (cfg_Security cfg')) as [[policy tls]|] eqn:Hp; [|discriminate]. simpl.
  destruct (NewWithLimits _) as [sessions|] eqn:Hs; [|discriminate]. simpl.
  destruct (Broker_NewWithLimits _) as [b|] eqn:Hb; [|discriminate]. simpl. intros [= <- <-].
  split; [done|]. by exists policy, tls, sessions, b.
Qed.

(** C29: a configuration that was accepted can be run: once [Load] accepts a file and
    [Prepare] its security, nothing else refuses to start: the store and the broker
    are created and every check of [Start] passes, so that the theorems on the states
    the server can reach apply to it. *)
Theorem accepted_config_starts kdf cfg policy tls :
  load = Ok cfg → prepare (cfg_Security cfg) = Ok (policy, tls) →
  ∃ sys, run_setup load prepare = Ok (cfg, sys) ∧ Start_checks (sys_server sys) = None ∧ sys_reachable kdf 0 sys.
Proof.
  intros Hload Hprep. unfold run_setup. rewrite Hload. simpl. rewrite Hprep. simpl.
  destruct (Load_inv _ _ _ Hload) as (cfg0 & _ & Hv & Es & El & Er & _). rewrite El, Er.
  assert (Hs : NewWithLimits (Sessions cfg0) = Ok (mkStore ∅ ∅ (Sessions cfg0) zero_snapshot))
    by (unfold NewWithLimits; by rewrite (vc_sessions _ Hv)).
  destruct (Broker_NewWithLimits (cfg_Retained cfg0)) as [b|] eqn:Hb;
    [|unfold Broker_NewWithLimits in Hb; rewrite (vc_retained _ Hv) in Hb; discriminate Hb].
  rewrite Hs. simpl. eexists. split; [reflexivity|].
  assert (Hstart : Start_checks (Server_New (Address (cfg_Server cfg)) b (mkStore ∅ ∅ (Sessions cfg0) zero_snapshot) (run_options cfg policy tls)) = None).
  { pose proof (vc_connections _ Hv) as Hcl. pose proof (vc_write _ Hv). pose proof (vc_packets _ Hv). pose proof (vc_handshake _ Hv).
    unfold Start_checks, run_options. rewrite Es.
    destruct (Prepare_inv _ _ _ _ _ _ Hprep) as [(_ & -> & ->)|(_ & (t & crt & _ & _ & ->) & users & l & _ & _ & ->)]; simpl; rewrite Hcl;
    destruct (Z.leb_spec (WriteTimeout (cfg_Server cfg0)) 0), (Z.leb_spec (MaxPacketSizeBytes (cfg_Server cfg0)) 0),
      (Z.ltb_spec MaxPacketSize (MaxPacketSizeBytes (cfg_Server cfg0))), (Z.leb_spec (HandshakeTimeout (cfg_Server cfg0)) 0);
      try lia; done. }
  split; [exact Hstart|]. eapply started_reachable; [exact Hs|exact Hb| |exact Hstart].
  repeat constructor. intros l ->. destruct (Prepare_inv _ _ _ _ _ _ Hprep) as [(_ & [=] & _)|(_ & _ & users & l' & _ & Hl & [= <-])]. eauto.
Qed.

(** The users of the policy while [Start] runs. *)
Lemma start_users kdf es st st' :
  start_run kdf es st = Some st' → l_users <$> srv_auth (sys_server (st_sys st')) = l_users <$> srv_auth (sys_server (st_sys st)).
Proof.
  revert st. induction es as [|e es IH]; intros st Hrun; cbn [start_run] in Hrun; [by injection Hrun as <-|].
  destruct (start_enabled kdf e st); [|discriminate Hrun]. apply bind_Some in Hrun as (st1 & Hex & Hrun). rewrite (IH st1 Hrun).
  destruct e as [err| |[conn r|temp]| | | |e|]; cbn [start_exec] in Hex; try (by injection Hex as <-).
  - cbn [accept_round] in Hex. destruct (start _ _ _ _) as [o g]. injection Hex as <-. by destruct (decide (o = Stopped)).
  - cbn [accept_round] in Hex. destruct (ctx_err st); [by injection Hex as <-|]. destruct temp; by injection Hex as <-.
  - apply bind_Some in Hex as (sys & Hsys & Hex). injection Hex as <-. exact (exec_users kdf e _ _ Hsys).
  - apply bind_Some in Hex as (m & _ & Hex). by injection Hex as <-.
Qed.

(** C19: without authentication the broker listens to the machine itself only.  While
    the server that [run] starts listens, it is on TCP and on the configured address; if
    it has no policy then, the listener has no TLS and that is a literal loopback
    address, in 127.0.0.0/8 or ::1; otherwise the listener has TLS 1.2 or higher with
    the configured certificate, and the users of the policy are those in the file of
    credentials. *)
Theorem unauthenticated_is_loopback kdf listenFn cfg sys st0 es st ln :
  run_setup load prepare = Ok (cfg, sys) → Start_begin (sys_server sys) listenFn = Ok st0 →
  start_run kdf es st0 = Some st → listening st = Some ln →
  ln_network ln = bs "tcp" ∧ ln_address ln = Address (cfg_Server cfg)
  ∧ match srv_auth (sys_server (st_sys st)) with
    | None => ln_tls ln = None
        ∧ ∃ host port ip, SplitHostPort (ln_address ln) = Ok (host, port) ∧ ParseIP host = Some ip
            ∧ ((∃ a b c, ip = replicate 10 0 ++ [255; 255; 127; a; b; c]) ∨ ip = replicate 15 0 ++ [1])
    | Some l => (∃ t certificate, sec_TLS (cfg_Security cfg) = Some t ∧ key_pair t = Ok certificate
          ∧ ln_tls ln = Some (mkTLSConfig [certificate] VersionTLS12))
        ∧ ∃ users l0, load_yaml decode_users (CredentialsFile (cfg_Security cfg)) [] = Ok users ∧ NewLocal procs users = Ok l0
            ∧ l_users l = l_users l0
    end.
Proof.
  intros (Hload & policy & tls & sessions & b & Hprep & _ & _ & ->)%run_setup_inv [_ Hst0]%begin_inv Hrun Hln.
  destruct (Load_inv _ _ _ Hload) as (cfg0 & _ & Hv & Es & _ & _ & Em).
  pose proof (start_users kdf es st0 st Hrun) as Hu. destruct (listening_run kdf es st0 st Hrun) as [E|E]; [|congruence].
  rewrite Hln, Hst0 in E. injection E as ->. rewrite Hst0 in Hu. clear Hst0 Hrun Hln.
  destruct (Prepare_inv _ _ _ _ _ _ Hprep) as [(Hdev & -> & ->)|(_ & (t & crt & Ht & Hk & ->) & users & l & Hus & Hl & ->)];
    simpl in *; (split; [done|]); (split; [done|]); destruct (srv_auth (sys_server (st_sys st))) as [l'|]; try discriminate Hu.
  - split; [done|]. rewrite Es. rewrite Em in Hdev.
    destruct (Security_validate_modes _ _ (vc_security _ Hv)) as [(_ & _ & _ & Hloop)|(Hsec & _)]; [exact Hloop|].
    rewrite Hdev in Hsec. discriminate Hsec.
  - injection Hu as Hu. split; [by exists t, crt|]. by exists users, l.
Qed.
End loading.

(** A file that only selects the development mode. *)
Definition example_unmarshal (data : bytes) : result Node :=
  Ok (mkNode DocumentNode [] [mkNode MappingNode (bs "!!map") []]).

Definition example_decode (data : bytes) (c : Config) : result Config :=
  Ok (mkConfig (mkSecurity (bs "development") [] None) (cfg_Server c) (Sessions c) (cfg_Retained c) (cfg_Observability c)).

Definition example_prepare : Security → result (option Local * option TLSConfig) :=
  Prepare example_unmarshal (λ _, Some EOF) (λ _, Ok []) 4 (λ _ users, Ok users) (λ _, Error EOF).

Definition example_load : result Config :=
  Load example_unmarshal (λ _, Some EOF) (λ _, Ok []) example_decode (bs "config.yaml").

Lemma accepted_config_starts_witness :
  ∃ cfg sys, run_setup example_load example_prepare
    = Ok (cfg, sys) ∧ Start_checks (sys_server sys) = None.
Proof.
  destruct example_load as [cfg|] eqn:Hload; [|vm_compute in Hload; discriminate Hload].
  assert (Hmode : match example_load with
    | Ok cfg => bool_decide (Mode (cfg_Security cfg) = bs "development") | Error _ => false end = true)
    by (vm_compute; reflexivity).
  rewrite Hload in Hmode.
  assert (Hprep : example_prepare (cfg_Security cfg) = Ok (None, None)) by (unfold example_prepare, Prepare; by rewrite Hmode).
  destruct (accepted_config_starts example_unmarshal (λ _, Some EOF) (λ _, Ok []) example_decode (bs "config.yaml")
    4 (λ _ users, Ok users) (λ _, Error EOF) no_kdf cfg None None Hload Hprep) as (sys & Hrun & Hstart & _).
  exists cfg, sys. split; [rewrite <- Hload; exact Hrun|exact Hstart].
Defined.

(** Before and after a connection is accepted. *)
Lemma unauthenticated_is_loopback_witness :
  ∃ cfg sys st0 st ln host port ip, run_setup example_load example_prepare = Ok (cfg, sys)
    ∧ Start_begin (sys_server sys) (λ _ _, None) = Ok st0
    ∧ start_run no_kdf [SAccept (Accepted 0 (mkReader [] EOF))] st0 = Some st ∧ listening st = Some ln
    ∧ ln_address ln = Address (cfg_Server cfg)
    ∧ SplitHostPort (ln_address ln) = Ok (host, port) ∧ ParseIP host = Some ip.
Proof.
  assert (Hnone : match run_setup example_load example_prepare with
    | Ok (_, sys) => match Start_begin (sys_server sys) (λ _ _, None) with
        | Ok st0 => match start_run no_kdf [SAccept (Accepted 0 (mkReader [] EOF))] st0 with
            | Some st => bool_decide (srv_auth (sys_server (st_sys st)) = None) && bool_decide (is_Some (listening st))
            | None => false end
        | Error _ => false end
    | Error _ => false end = true) by (vm_compute; reflexivity).
  destruct (run_setup example_load example_prepare) as [[cfg sys]|] eqn:Hrun; [|discriminate Hnone].
  destruct (Start_begin (sys_server sys) (λ _ _, None)) as [st0|] eqn:Hbegin; [|discriminate Hnone].
  destruct (start_run no_kdf [SAccept (Accepted 0 (mkReader [] EOF))] st0) as [st|] eqn:Hst; [|discriminate Hnone].
  apply andb_true_iff in Hnone as [Hnone Hln]. apply bool_decide_eq_true_1 in Hnone. apply bool_decide_eq_true_1 in Hln as [ln Hln].
  pose proof (unauthenticated_is_loopback example_unmarshal (λ _, Some EOF) (λ _, Ok []) example_decode (bs "config.yaml")
    4 (λ _ users, Ok users) (λ _, Error EOF) no_kdf (λ _ _, None) cfg sys st0 _ st ln Hrun Hbegin Hst Hln) as (_ & Ha & Hx).
  rewrite Hnone in Hx. destruct Hx as (_ & host & port & ip & Hs & Hp & _).
  exists cfg, sys, st0, st, ln, host, port, ip. split_and!; [reflexivity|exact Hbegin|exact Hst|exact Hln|exact Ha|exact Hs|exact Hp].
Defined.

(** * Observation *)

(** How much was logged for a reason. *)
Definition logged (r : reason) (lines : list (reason * Z)) : Z :=
  foldr (λ line n, (if bool_decide (line.1 = r) then line.2 else 0) + n) 0 lines.

Lemma logged_app r l1 l2 : logged r (l1 ++ l2) = logged r l1 + logged r l2.
Proof. induction l1 as [|line l1 IH]; simpl; [done|]. rewrite IH. lia. Qed.

(** Counters are [uint64]. *)
Definition counters_ok (s : Sources) : Prop := ∀ r, 0 <= total s r < 2 ^ 64.

(** What was logged since the totals [before] leads to the totals [last]. *)
Definition accounted (before last : last_totals) (lines : list (reason * Z)) : Prop :=
  (∀ r, last r = u64 (before r + logged r lines)) ∧ Forall (λ line, 0 < line.2 < 2 ^ 64) lines.

Lemma u64_small z : 0 <= z < 2 ^ 64 → u64 z = z.
Proof. apply Z.mod_small. Qed.

Lemma u64_diff a b : 0 <= a < 2 ^ 64 → 0 <= b < 2 ^ 64 → u64 (a + u64 (b - a)) = b.
Proof. intros Ha Hb. unfold u64. rewrite Zplus_mod_idemp_r. rewrite Z.mod_small; lia. Qed.

Lemma u64_step x y z : u64 (x + (y + z)) = u64 (u64 (x + y) + z).
Proof. unfold u64. rewrite Zplus_mod_idemp_l. f_equal. lia. Qed.

Lemma report_accounted s before st r :
  counters_ok s → (∀ r, 0 <= before r < 2 ^ 64) → accounted before st.1 st.2 →
  accounted before (report s st r).1 (report s st r).2
  ∧ ∀ r', (report s st r).1 r' = if bool_decide (r' = r) then total s r else st.1 r'.
Proof.
  intros Hs Hb [Hacc Hpos]. destruct st as [last lines]. simpl in *.
  assert (Hlast : ∀ r, 0 <= last r < 2 ^ 64) by (intros r'; rewrite Hacc; apply Z.mod_pos_bound; lia).
  destruct (Z.eqb_spec (total s r) (last r)) as [E|E]; simpl.
  - split; [done|]. intros r'. case_bool_decide; [by subst|done].
  - split; [|done]. split.
    + intros r'. rewrite logged_app. simpl. unfold set_last. rewrite u64_step, <- Hacc.
      destruct (decide (r' = r)) as [->|Hne].
      * rewrite !bool_decide_true by done. rewrite Z.add_0_r, u64_diff; [done|apply Hlast|apply Hs].
      * rewrite !bool_decide_false by congruence. rewrite u64_small; [lia|]. specialize (Hlast r'). lia.
    + apply Forall_app. split; [done|]. constructor; [|done]. simpl. pose proof (Hs r). pose proof (Hlast r).
      unfold u64. change 18446744073709551616 with (2 ^ 64). assert ((total s r - last r) mod 2 ^ 64 ≠ 0); [|pose proof (Z.mod_pos_bound (total s r - last r) (2 ^ 64) ltac:(lia)); lia].
      intros [k Hk]%Z.mod_divide; [|lia]. nia.
Qed.

Lemma reports_accounted s before rs st :
  counters_ok s → (∀ r, 0 <= before r < 2 ^ 64) → accounted before st.1 st.2 →
  accounted before (foldl (report s) st rs).1 (foldl (report s) st rs).2
  ∧ ∀ r, r ∈ rs ∨ st.1 r = total s r → (foldl (report s) st rs).1 r = total s r.
Proof.
  intros Hs Hb. revert st. induction rs as [|r rs IH]; intros st Hacc; cbn [foldl].
  { split; [done|]. by intros r [?%elem_of_nil|?]. }
  destruct (report_accounted s before st r Hs Hb Hacc) as [Hacc1 Hlast1]. destruct (IH _ Hacc1) as [Hacc2 Hlast2].
  split; [done|]. intros r' Hr'. apply Hlast2. rewrite Hlast1. case_bool_decide as E; [right; by subst|].
  destruct Hr' as [[?|?]%elem_of_cons|?]; [done|by left|by right].
Qed.

Lemma accounted_trans before middle last l1 l2 :
  accounted before middle l1 → accounted middle last l2 → accounted before last (l1 ++ l2).
Proof.
  intros [H1 P1] [H2 P2]. split; [|by apply Forall_app]. intros r. by rewrite H2, H1, logged_app, u64_step.
Qed.

Lemma accounted_range before last lines r : accounted before last lines → 0 <= last r < 2 ^ 64.
Proof. intros [H _]. rewrite H. apply Z.mod_pos_bound. lia. Qed.

(** Every reason is watched. *)
Lemma watched order r : order ≡ₚ resources → r ∈ [session_limit; global_limit] ++ order.
Proof. intros ->. unfold resources. destruct r; set_solver. Qed.

Definition tick_ok (tick : list reason * Sources) : Prop := tick.1 ≡ₚ resources ∧ counters_ok tick.2.

Lemma observe_accounted ticks before :
  Forall tick_ok ticks → (∀ r, 0 <= before r < 2 ^ 64) →
  accounted before (observe ticks before).1 (observe ticks before).2
  ∧ ∀ r, (observe ticks before).1 r = match list.last ticks with Some t => total t.2 r | None => before r end.
Proof.
  intros Hall. revert before. induction Hall as [|[order s] ticks [Ho Hs] Hall IH]; intros before Hb.
  { split; [|done]. split; [|done]. intros r. simpl. by rewrite Z.add_0_r, u64_small. }
  destruct (reports_accounted s before ([session_limit; global_limit] ++ order) (before, []) Hs Hb) as [Hacc Htot].
  { split; [|done]. intros r. simpl. by rewrite Z.add_0_r, u64_small. }
  cbn [observe]. unfold saturation_tick. destruct (foldl _ _ _) as [middle lines]. simpl in Hacc, Htot.
  destruct (IH middle) as [Hacc2 Htot2]; [intros r; by eapply accounted_range|].
  destruct (observe ticks middle) as [end_ more]. simpl in *. split; [by eapply accounted_trans|].
  intros r. rewrite Htot2, last_cons. destruct (list.last ticks); [done|]. apply Htot. left. by apply watched.
Qed.

(** The reports of rejections add up: whatever the ticks see, in whatever order Go
    ranges over the resources, what was logged for a reason adds up to the counter at
    the last tick (modulo 2^64, the width of the counters), each line logs something,
    and nothing is logged twice. *)
Theorem reports_add_up ticks :
  Forall (λ tick, tick.1 ≡ₚ resources ∧ ∀ r, 0 <= total tick.2 r < 2 ^ 64) ticks →
  let '(_, lines) := observe ticks (λ _, 0) in
  Forall (λ line, 0 < line.2 < 2 ^ 64) lines
  ∧ ∀ r, u64 (logged r lines) = match list.last ticks with Some tick => total tick.2 r | None => 0 end.
Proof.
  intros Hall. destruct (observe_accounted ticks (λ _, 0) Hall) as [[Hacc Hpos] Htot]; [done|].
  destruct (observe ticks _) as [end_ lines]. simpl in *. split; [done|]. intros r. by rewrite <- Htot, Hacc.
Qed.

(** Two ticks, between which three connections failed to authenticate. *)
Lemma reports_add_up_witness :
  let source n := mkSources zero_snapshot (mkServerStats n 0 0 0 0 0) (mkRetainedStats 0 0 0) in
  let lines := (observe [(resources, source 2); (reverse resources, source 5)] (λ _, 0)).2 in
  lines = [(authentication, 2); (authentication, 3)] ∧ u64 (logged authentication lines) = 5.
Proof.
  intros source lines. split; [vm_compute; reflexivity|]. unfold lines.
  assert (Hs : ∀ n, 0 <= n < 2 ^ 64 → ∀ r, 0 <= total (source n) r < 2 ^ 64) by (intros n Hn []; simpl; lia).
  pose proof (reports_add_up [(resources, source 2); (reverse resources, source 5)]) as Hx.
  destruct (observe _ _) as [end_ lines']. destruct Hx as [_ Hx]; [|exact (Hx authentication)].
  constructor; [split; [reflexivity|apply Hs; lia]|]. constructor; [split; [|apply Hs; lia]|constructor].
  apply reverse_Permutation.
Defined.

(** The ticks of one kind, and the lines of one kind. *)
Definition saturations (ticks : list tick) : list (list reason * Sources) :=
  omap (λ t, match t with at_saturation order s => Some (order, s) | at_summary _ => None end) ticks.

Definition summaries (ticks : list tick) : list Sources :=
  omap (λ t, match t with at_saturation _ _ => None | at_summary s => Some s end) ticks.

Definition rejections (lines : list log_line) : list (reason * Z) :=
  omap (λ line, match line with log_rejected r n => Some (r, n) | _ => None end) lines.

Definition is_rejection (line : log_line) : bool := match line with log_rejected _ _ => true | _ => false end.

Lemma rejections_logged lines : rejections ((λ line, log_rejected line.1 line.2) <$> lines) = lines.
Proof. unfold rejections. induction lines as [|[r n] lines IH]; simpl; [done|]. by f_equal. Qed.

Lemma rejected_not_summary lines : filter (λ line, negb (is_rejection line)) ((λ line, log_rejected line.1 line.2) <$> lines) = [].
Proof. induction lines as [|line lines IH]; simpl; [done|exact IH]. Qed.

(** [Run] reports what [observe] does, and its summaries apart from that. *)
Lemma Run_loop_lines ticks before :
  rejections (Run_loop ticks before) = (observe (saturations ticks) before).2
  ∧ filter (λ line, negb (is_rejection line)) (Run_loop ticks before) = concat (summary_tick <$> summaries ticks).
Proof.
  revert before. induction ticks as [|[s|order s] ticks IH]; intros before; [done| |].
  - destruct (IH before) as [IH1 IH2]. split; [exact IH1|]. cbn [Run_loop]. rewrite filter_app, IH2. done.
  - cbn [Run_loop saturations omap list_omap observe]. destruct (saturation_tick order s before) as [middle lines].
    destruct (IH middle) as [IH1 IH2]. unfold rejections in IH1 |- *. rewrite omap_app, IH1, filter_app, IH2.
    rewrite rejected_not_summary. split; [|done]. unfold saturations.
    destruct (observe _ middle) as [end_ more]. simpl. f_equal. apply rejections_logged.
Qed.

(** The log adds up.  Whatever the ticks of [Run] see and however they
    interleave, in whatever order Go ranges over the resources: the summaries are the
    current numbers at their ticks, in order, and the reports of rejections in between
    log each rejection once: what was logged for a reason adds up to the counter at the
    last tick (modulo 2^64, the width of the counters), and no line reports nothing. *)
Theorem Run_adds_up ticks :
  Forall (λ t, match t with at_saturation order s => order ≡ₚ resources ∧ ∀ r, 0 <= total s r < 2 ^ 64 | _ => True end) ticks →
  filter (λ line, negb (is_rejection line)) (Run ticks) = concat (summary_tick <$> summaries ticks)
  ∧ Forall (λ line, 0 < line.2 < 2 ^ 64) (rejections (Run ticks))
  ∧ ∀ r, u64 (logged r (rejections (Run ticks))) = match list.last (saturations ticks) with Some t => total t.2 r | None => 0 end.
Proof.
  intros Hall. destruct (Run_loop_lines ticks (λ _, 0)) as [Hrej Hsum]. fold (Run ticks) in Hrej, Hsum.
  assert (Hsat : Forall tick_ok (saturations ticks)).
  { clear Hrej Hsum. induction Hall as [|[s|order s] ticks Ht Hall IH]; [constructor|exact IH|by constructor]. }
  destruct (observe_accounted (saturations ticks) (λ _, 0) Hsat) as [[Hacc Hpos] Htot]; [done|].
  rewrite <- Hrej in Hacc, Hpos. split_and!; [exact Hsum|exact Hpos|]. intros r. by rewrite <- Htot, Hacc.
Qed.

(** A summary between two reports. *)
Lemma Run_adds_up_witness :
  let source n := mkSources zero_snapshot (mkServerStats n 0 0 0 0 0) (mkRetainedStats 0 0 0) in
  let ticks := [at_saturation resources (source 2); at_summary (source 4); at_saturation (reverse resources) (source 5)] in
  rejections (Run ticks) = [(authentication, 2); (authentication, 3)] ∧ u64 (logged authentication (rejections (Run ticks))) = 5.
Proof.
  intros source ticks. split; [vm_compute; reflexivity|].
  assert (Hs : ∀ n, 0 <= n < 2 ^ 64 → ∀ r, 0 <= total (source n) r < 2 ^ 64) by (intros n Hn []; simpl; lia).
  destruct (Run_adds_up ticks) as (_ & _ & Hx); [|exact (Hx authentication)].
  constructor; [split; [reflexivity|apply Hs; lia]|]. constructor; [done|]. constructor; [split; [|apply Hs; lia]|constructor].
  apply reverse_Permutation.
Defined.

(** * The password command *)

(** Reading one byte more than the limit shows whether there are more. *)
Lemma ReadAll_limited_inv n input password :
  0 <= n → ReadAll_limited (n + 1) input = Ok password → len password <= n → rd_err input = EOF ∧ password = rd_data input.
Proof.
  intros Hn. unfold ReadAll_limited. destruct (Z.leb_spec (n + 1) (len (rd_data input))) as [Hle|Hlt].
  - intros [= <-] Hp. unfold len in *. rewrite length_take in Hp. lia.
  - destruct (rd_err input); try discriminate. by intros [= <-].
Qed.

(** What [run] prints is the hash of the whole input. *)
Lemma run_password_line kdf salt input line :
  run_password kdf salt input = Ok line →
  rd_err input = EOF ∧ len (rd_data input) <= password_limit ∧ ∃ hash, HashPassword kdf salt (rd_data input) = Ok hash ∧ line = hash ++ [10].
Proof.
  unfold run_password. destruct (ReadAll_limited _ input) as [password|err] eqn:Hr; [|discriminate].
  destruct (Z.ltb_spec password_limit (len password)) as [|Hle]; [discriminate|].
  destruct (ReadAll_limited_inv password_limit input password ltac:(done) Hr Hle) as [He ->].
  destruct (HashPassword kdf salt (rd_data input)) as [hash|] eqn:Hh; [|discriminate]. intros [= <-]. split; [done|]. split; [done|].
  by exists hash.
Qed.

(** A whole password is hashed. *)
Lemma run_password_whole kdf salt data :
  len data <= password_limit →
  run_password kdf salt (mkReader data EOF) = (let! hash := HashPassword kdf salt data in Ok (hash ++ [10])).
Proof.
  intros Hle. unfold run_password, ReadAll_limited. cbn [rd_data rd_err].
  destruct (Z.leb_spec (password_limit + 1) (len data)); [lia|]. destruct (Z.ltb_spec password_limit (len data)); [lia|done].
Qed.
