(* ===== verification/Commands.v ===== *)
(** The commands as processes (src/cmd/): the password command with its input, output
    and exit code, and the broker command around [Start], with the goroutine of the
    reports, the deferred function that waits for it, signals and the exit code. *)

From S2P Require Import Prelude Topic Wire Filters Encoder Decoder Codec CodecProofs Tree Broker.
From S2P Require Import Session SessionQueue SessionStore SessionProofs Delivery Auth AuthProofs Client.
From S2P Require Import Server Handlers Lifecycle Options ServerInv Ownership SystemProofs ServerTheorems HandlerProofs Frames WriterWaits Shutdown Start.
From S2P Require Import Writers Address Config Main MainProofs.

Local Open Scope Z_scope.
Local Open Scope orb_scope.

(** * The password command *)

(** [run]; [fmt.Fprintln] writes the line in one call. *)
Definition run_password_to {W} `{!IoWriter W} (pbkdf2_Key : bytes → bytes → Z → Z → result bytes) (salt : bytes) (input : Reader)
    (output : W) : option error * W :=
  match run_password pbkdf2_Key salt input with
  | Error err => (Some err, output)
  | Ok line => write_bytes line output
  end.

(** How a process ends: its exit code and the errors it printed. *)
Record process_end := mkEnd {
  exit_code : Z;
  printed_errors : list error }.

(** [main] of cmd/orbmq-password; [nargs] is [len(os.Args)]. *)
Definition password_main {W} `{!IoWriter W} (pbkdf2_Key : bytes → bytes → Z → Z → result bytes) (salt : bytes) (nargs : Z) (stdin : Reader)
    (stdout : W) : process_end * W :=
  if negb (nargs =? 1) then (mkEnd 1 [New "password must be supplied through stdin"], stdout)
  else
    let '(err, stdout) := run_password_to pbkdf2_Key salt stdin stdout in
    match err with
    | Some err => (mkEnd 1 [err], stdout)
    | None => (mkEnd 0 [], stdout)
    end.

(** * The broker command *)

(** The call of [srv.Start]: it refused to start, or it is under way.  [ctx] is the error
    of the context of the command. *)
Inductive server_run :=
| RunRefused (sys : System) (ctx : option error) (err : error)
| RunServing (st : Starting).

Definition run_ctx (r : server_run) : option error := match r with RunRefused _ ctx _ => ctx | RunServing st => ctx_err st end.

(** What [Start] returned. *)
Definition run_result (r : server_run) : option (option error) :=
  match r with
  | RunRefused _ _ err => Some (Some err)
  | RunServing st => match main st with Exited err => Some err | _ => None end
  end.

(** [run]: in [srv.Start], in the deferred function at [<-done], or returned. *)
Inductive command_phase :=
| InStart
| AwaitReports (err : option error)
| RunReturned (err : option error).

#[export] Instance command_phase_eq_dec : EqDecision command_phase.
Proof. solve_decision. Defined.

(** [cm_cancelled]: [observeCtx] is done; [cm_reporting]: [done] is open. *)
Record Command := mkCommand {
  cm_server : server_run;
  cm_cancelled : bool;
  cm_reporting : bool;
  cm_last : last_totals;
  cm_log : list log_line;
  cm_phase : command_phase }.

(** [run] up to its call of [Start]. *)
Definition command_begin (setup : result (Config * System)) (listenFn : bytes → bytes → option error) : result Command :=
  let! begun := setup in
  let '(_, sys) := begun in
  let server := match Start_begin (sys_server sys) listenFn with
                | Ok st => RunServing st
                | Error err => RunRefused sys None err
                end in
  Ok (mkCommand server false true (λ _, 0) [] InStart).

(** [CmSignal]: a signal for a command that is not serving; one that is has [SCancel].
    [CmServer]: an event of [Start].  [CmPropagate]: [observeCtx], derived from the
    context of the command, is done too.  [CmTick]: the [select] of [Run] takes a
    tick; [CmReportsEnd]: it takes the end of the context.  [CmReturn]: [Start]
    returned and the deferred function cancels, or it waited long enough. *)
Inductive command_event :=
| CmSignal (err : error)
| CmServer (e : start_event)
| CmPropagate
| CmTick (t : tick)
| CmReportsEnd
| CmReturn.

Section command.
Context (kdf : bytes → bytes → Z → Z → result bytes).

Definition command_exec (e : command_event) (c : Command) : option Command :=
  match e with
  | CmSignal err =>
      match cm_server c with
      | RunRefused sys None e => Some (mkCommand (RunRefused sys (Some err) e) (cm_cancelled c) (cm_reporting c) (cm_last c) (cm_log c) (cm_phase c))
      | _ => None
      end
  | CmServer e =>
      match cm_server c with
      | RunServing st =>
          if start_enabled kdf e st
          then st ← start_exec kdf e st; Some (mkCommand (RunServing st) (cm_cancelled c) (cm_reporting c) (cm_last c) (cm_log c) (cm_phase c))
          else None
      | RunRefused _ _ _ => None
      end
  | CmPropagate =>
      match run_ctx (cm_server c) with
      | Some _ => Some (mkCommand (cm_server c) true (cm_reporting c) (cm_last c) (cm_log c) (cm_phase c))
      | None => None
      end
  | CmTick t =>
      if cm_reporting c
      then Some (match t with
                 | at_summary s => mkCommand (cm_server c) (cm_cancelled c) true (cm_last c) (cm_log c ++ summary_tick s) (cm_phase c)
                 | at_saturation order s =>
                     let '(last, lines) := saturation_tick order s (cm_last c) in
                     mkCommand (cm_server c) (cm_cancelled c) true last
                       (cm_log c ++ ((λ line, log_rejected line.1 line.2) <$> lines)) (cm_phase c)
                 end)
      else None
  | CmReportsEnd =>
      if cm_cancelled c && cm_reporting c
      then Some (mkCommand (cm_server c) true false (cm_last c) (cm_log c) (cm_phase c)) else None
  | CmReturn =>
      match cm_phase c, run_result (cm_server c) with
      | InStart, Some err => Some (mkCommand (cm_server c) true (cm_reporting c) (cm_last c) (cm_log c) (AwaitReports err))
      | AwaitReports err, _ =>
          if cm_reporting c then None
          else Some (mkCommand (cm_server c) (cm_cancelled c) false (cm_last c) (cm_log c) (RunReturned err))
      | _, _ => None
      end
  end.

Fixpoint command_run (es : list command_event) (c : Command) : option Command :=
  match es with
  | [] => Some c
  | e :: es => c ← command_exec e c; command_run es c
  end.
End command.

(** [main] of cmd/orbmq: [log.Fatalf] exits with 1. *)
Definition broker_main (err : option error) : process_end :=
  match err with
  | Some err => mkEnd 1 [err]
  | None => mkEnd 0 []
  end.

(** * Proofs *)

(** What the events of a run are for [Start] and for [Run]. *)
Definition start_events (es : list command_event) : list start_event :=
  omap (λ e, match e with CmServer e => Some e | _ => None end) es.
Definition ticks_of (es : list command_event) : list tick := omap (λ e, match e with CmTick t => Some t | _ => None end) es.

Lemma start_events_le es : (length (start_events es) <= length es)%nat.
Proof. induction es as [|[] es IH]; cbn [start_events omap list_omap length] in *; unfold start_events in *; lia. Qed.

Section proofs.
Context (kdf : bytes → bytes → Z → Z → result bytes).

Lemma start_run_app es1 es2 st st1 :
  start_run kdf es1 st = Some st1 → start_run kdf (es1 ++ es2) st = start_run kdf es2 st1.
Proof.
  revert st. induction es1 as [|e es1 IH]; intros st H; cbn [start_run app] in *; [by injection H as ->|].
  destruct (start_enabled kdf e st); [|discriminate H]. apply bind_Some in H as (st' & -> & H). cbn [mbind option_bind]. by apply IH.
Qed.

Lemma exited_stays e st st' err :
  start_enabled kdf e st = true → start_exec kdf e st = Some st' → main st = Exited err → main st' = Exited err.
Proof.
  intros Hen Hex Hm. destruct e; cbn [start_enabled start_exec] in *; try (injection Hex as <-; exact Hm).
  - apply andb_true_iff in Hen as [Hacc%bool_decide_eq_true_1 _]. congruence.
  - apply bind_Some in Hex as (sys & _ & Hex). by injection Hex as <-.
  - rewrite Hm in Hen. discriminate Hen.
Qed.

(** The totals [Run] remembers after some ticks, and its next lines. *)
Definition last_after (ticks : list tick) (last : last_totals) : last_totals :=
  foldl (λ last t, match t with at_summary _ => last | at_saturation order s => (saturation_tick order s last).1 end) last ticks.

Lemma Run_loop_app ticks1 ticks2 last :
  Run_loop (ticks1 ++ ticks2) last = Run_loop ticks1 last ++ Run_loop ticks2 (last_after ticks1 last).
Proof.
  revert last. induction ticks1 as [|[s|order s] ticks1 IH]; intros last; cbn [app Run_loop]; [done|..].
  - by rewrite IH, app_assoc.
  - change (last_after (at_saturation order s :: ticks1) last) with (last_after ticks1 (saturation_tick order s last).1).
    destruct (saturation_tick order s last) as [last' lines]. by rewrite IH, app_assoc.
Qed.

(** What holds of a command that made the steps [es]. *)
Record command_ok (r0 : server_run) (es : list command_event) (c : Command) : Prop := {
  co_server : match r0, cm_server c with
              | RunServing st0, RunServing st => start_run kdf (start_events es) st0 = Some st
              | RunRefused sys0 _ err0, RunRefused sys _ err => sys = sys0 ∧ err = err0
              | _, _ => False
              end;
  co_phase : match cm_phase c with
             | InStart => True
             | AwaitReports err => run_result (cm_server c) = Some err ∧ cm_cancelled c = true
             | RunReturned err => run_result (cm_server c) = Some err ∧ cm_reporting c = false
             end;
  co_reports : cm_reporting c = false → cm_cancelled c = true;
  co_cancelled : cm_cancelled c = true → run_ctx (cm_server c) ≠ None ∨ cm_phase c ≠ InStart;
  co_last : cm_last c = last_after (ticks_of es) (λ _, 0);
  co_log : cm_log c = Run (ticks_of es) }.

Lemma start_events_snoc es e : start_events (es ++ [e]) = start_events es ++ match e with CmServer e => [e] | _ => [] end.
Proof. unfold start_events. rewrite omap_app. by destruct e. Qed.

Lemma ticks_of_snoc es e : ticks_of (es ++ [e]) = ticks_of es ++ match e with CmTick t => [t] | _ => [] end.
Proof. unfold ticks_of. rewrite omap_app. by destruct e. Qed.

Lemma ctx_stays e st st' : start_exec kdf e st = Some st' → ctx_err st ≠ None → ctx_err st' ≠ None.
Proof.
  intros Hex Hc. destruct e; cbn [start_exec] in Hex; try (injection Hex as <-; exact Hc).
  - by injection Hex as <-.
  - destruct (accept_round _ _ _) as [res sys]. injection Hex as <-. by destruct res.
  - apply bind_Some in Hex as (sys & _ & Hex). by injection Hex as <-.
  - apply bind_Some in Hex as (m & _ & Hex). by injection Hex as <-.
Qed.

Ltac command_cases :=
  split; rewrite ?start_events_snoc, ?ticks_of_snoc, ?app_nil_r; cbn [cm_server cm_cancelled cm_reporting cm_last cm_log cm_phase]; try done.

Lemma server_step r0 es e c c' : command_ok r0 es c → command_exec kdf (CmServer e) c = Some c' → command_ok r0 (es ++ [CmServer e]) c'.
Proof.
  intros [Hsrv Hph Hrep Hcan Hlast Hlog] Hex. cbn [command_exec] in Hex. destruct (cm_server c) as [sys ctx err'|st]; [discriminate Hex|].
  destruct (start_enabled kdf e st) eqn:Hen; [|discriminate Hex]. apply bind_Some in Hex as (st' & Hst & Hex). injection Hex as <-.
  command_cases.
  - destruct r0 as [|st0]; [done|]. rewrite (start_run_app _ _ _ _ Hsrv). cbn [start_run]. by rewrite Hen, Hst.
  - assert (Hres : ∀ err, run_result (RunServing st) = Some err → run_result (RunServing st') = Some err).
    { intros err. cbn [run_result]. destruct (main st) eqn:Hm; try done. intros [= <-]. by rewrite (exited_stays e st st' err0 Hen Hst Hm). }
    destruct (cm_phase c); [done|..]; destruct Hph as [H1 H2]; (split; [by apply Hres|exact H2]).
  - intros H. destruct (Hcan H) as [Hc|Hc]; [left|by right]. by apply (ctx_stays e st st').
Qed.

Lemma tick_step r0 es t c c' : command_ok r0 es c → command_exec kdf (CmTick t) c = Some c' → command_ok r0 (es ++ [CmTick t]) c'.
Proof.
  intros [Hsrv Hph Hrep Hcan Hlast Hlog] Hex. cbn [command_exec] in Hex. destruct (cm_reporting c); [|discriminate Hex].
  assert (Hnew : Run (ticks_of es ++ [t]) = cm_log c ++ Run_loop [t] (cm_last c)) by (unfold Run; rewrite Run_loop_app, Hlast, Hlog; done).
  assert (Hl : last_after (ticks_of es ++ [t]) (λ _, 0) = last_after [t] (cm_last c)) by (unfold last_after; rewrite foldl_app, Hlast; done).
  destruct t as [s|order s]; cbn [Run_loop] in Hnew; cbn [last_after foldl] in Hl;
    [|destruct (saturation_tick order s (cm_last c)) as [last' lines]]; injection Hex as <-; command_cases.
  - by rewrite Hnew, app_nil_r.
Qed.

Lemma return_step r0 es c c' : command_ok r0 es c → command_exec kdf CmReturn c = Some c' → command_ok r0 (es ++ [CmReturn]) c'.
Proof.
  intros [Hsrv Hph Hrep Hcan Hlast Hlog] Hex. cbn [command_exec] in Hex. destruct (cm_phase c) as [|err|err].
  - destruct (run_result (cm_server c)) as [err|] eqn:Hr; [|discriminate Hex]. injection Hex as <-. command_cases. by right.
  - destruct (cm_reporting c) eqn:Hre; [by destruct (run_result (cm_server c))|].
    assert (Some c' = Some (mkCommand (cm_server c) (cm_cancelled c) false (cm_last c) (cm_log c) (RunReturned err))) as [= ->]
      by (rewrite <-Hex; by destruct (run_result (cm_server c))).
    command_cases; [by destruct Hph|by right].
  - destruct (run_result (cm_server c)); discriminate Hex.
Qed.

Lemma command_step r0 es e c c' : command_ok r0 es c → command_exec kdf e c = Some c' → command_ok r0 (es ++ [e]) c'.
Proof.
  intros Hok Hex. destruct e as [err|e| |t| |]; [|by eapply server_step| |by eapply tick_step| |by eapply return_step];
    destruct Hok as [Hsrv Hph Hrep Hcan Hlast Hlog]; cbn [command_exec] in Hex.
  - destruct (cm_server c) as [sys [ctx|] err'|st]; try discriminate Hex. injection Hex as <-. command_cases. intros _. by left.
  - destruct (run_ctx (cm_server c)) eqn:Hctx; [|discriminate Hex]. injection Hex as <-. command_cases.
    + destruct (cm_phase c); [done|..|done]. by destruct Hph.
    + intros _. left. by rewrite Hctx.
  - destruct (cm_cancelled c && cm_reporting c)%bool eqn:Hb; [|discriminate Hex]. apply andb_true_iff in Hb as [Hc Hre]. injection Hex as <-.
    command_cases.
    + destruct (cm_phase c); [done|by destruct Hph|by destruct Hph].
    + intros _. by apply Hcan.
Qed.

Lemma command_run_ok r0 es1 es2 c c' :
  command_ok r0 es1 c → command_run kdf es2 c = Some c' → command_ok r0 (es1 ++ es2) c'.
Proof.
  revert es1 c. induction es2 as [|e es2 IH]; intros es1 c Hok Hrun; cbn [command_run] in Hrun.
  - injection Hrun as <-. by rewrite app_nil_r.
  - apply bind_Some in Hrun as (c1 & Hex & Hrun). replace (es1 ++ e :: es2) with ((es1 ++ [e]) ++ es2) by (by rewrite <-app_assoc).
    eapply IH; [|exact Hrun]. by eapply command_step.
Qed.

Lemma command_begin_ok setup listenFn c :
  command_begin setup listenFn = Ok c → command_ok (cm_server c) [] c.
Proof.
  unfold command_begin. destruct setup as [[cfg sys]|]; [|discriminate]. cbn. intros [= <-].
  split; try done. cbn. by destruct (Start_begin _ _).
Qed.

(** ** The command can come to its end *)

Lemma command_run_app es1 es2 c c1 : command_run kdf es1 c = Some c1 → command_run kdf (es1 ++ es2) c = command_run kdf es2 c1.
Proof.
  revert c. induction es1 as [|e es1 IH]; intros c H; cbn [command_run app] in *; [by injection H as ->|].
  apply bind_Some in H as (c' & -> & H). cbn [mbind option_bind]. by apply IH.
Qed.

Lemma run_server es st st' can rep last log ph :
  start_run kdf es st = Some st' →
  command_run kdf (CmServer <$> es) (mkCommand (RunServing st) can rep last log ph) = Some (mkCommand (RunServing st') can rep last log ph).
Proof.
  revert st. induction es as [|e es IH]; intros st H; cbn [start_run fmap list_fmap command_run command_exec cm_server cm_cancelled cm_reporting cm_last cm_log cm_phase] in *;
    [by injection H as ->|].
  destruct (start_enabled kdf e st); [|discriminate H]. apply bind_Some in H as (st1 & -> & H). cbn [mbind option_bind]. by apply IH.
Qed.

(** Once [Start] has returned three steps are left at most. *)
Lemma run_returns r0 es c err :
  command_ok r0 es c → run_result (cm_server c) = Some err →
  ∃ es' c' err', command_run kdf es' c = Some c' ∧ cm_phase c' = RunReturned err'.
Proof.
  intros [Hsrv Hph Hrep Hcan Hlast Hlog] Hr. destruct c as [srv can rep last log ph]. cbn [cm_server cm_cancelled cm_reporting cm_last cm_log cm_phase] in *.
  assert (Hwait : ∀ can err, (rep = true → can = true) → ∃ es' c' err',
    command_run kdf es' (mkCommand srv can rep last log (AwaitReports err)) = Some c' ∧ cm_phase c' = RunReturned err').
  { intros can' err' Hc. destruct rep.
    - rewrite (Hc eq_refl). exists [CmReportsEnd; CmReturn]. eexists _, _. split; reflexivity.
    - exists [CmReturn]. eexists _, _. split; reflexivity. }
  destruct ph as [|err'|err'].
  - destruct (Hwait true err ltac:(done)) as (es' & c' & err' & Hrun & Hph'). exists (CmReturn :: es'), c', err'. split; [|exact Hph'].
    cbn [command_run command_exec cm_phase cm_server cm_cancelled cm_reporting cm_last cm_log andb mbind option_bind]. rewrite Hr. exact Hrun.
  - apply Hwait. by destruct Hph.
  - exists [], (mkCommand srv can rep last log (RunReturned err')), err'. split; reflexivity.
Qed.
End proofs.

Definition command_system (c : Command) : System := match cm_server c with RunRefused sys _ _ => sys | RunServing st => st_sys st end.

(** [Start] refused, the context is done, or the loop of [Start] has ended. *)
Definition ending (c : Command) : Prop :=
  match cm_server c with RunRefused _ _ _ => True | RunServing st => ctx_err st ≠ None ∨ main st ≠ Accepting end.

(** * Theorems *)

(** C36: the broker command waits for all it began.  For a server that an accepted
    configuration starts, any result of the listener and any interleaving of [Start]
    with all its goroutines, of the reports and of signals: what is logged are the
    lines of [Run]; when [run] returns, the goroutine of the reports has ended, no
    handler, connection, writer of a client or registered client is left, no session is
    connected and nothing listens; the exit code is 0 only if a signal came; and once
    [Start] refused, a signal came or the listener failed, [run] can still return, so
    that no wait is for ever. *)
Theorem broker_command_ends kdf cfg s listenFn c0 es c :
  sys_reachable kdf 0 (mkSystem s ∅) → command_begin (Ok (cfg, mkSystem s ∅)) listenFn = Ok c0 → command_run kdf es c0 = Some c →
  len es + 22 * msize (sys_handlers (command_system c)) < 2 ^ 64 →
  cm_log c = Run (ticks_of es)
  ∧ (∀ err, cm_phase c = RunReturned err →
       cm_reporting c = false ∧ sys_handlers (command_system c) = ∅
       ∧ (∀ cli cl, srv_conns (sys_server (command_system c)) !! cli = Some cl → c_writeDone cl = true)
       ∧ connections (srv_connections (sys_server (command_system c))) = ∅
       ∧ srv_clients (sys_server (command_system c)) = ∅
       ∧ (∀ id p ss, st_data (srv_sessions (sys_server (command_system c))) !! id = Some p →
            states (srv_sessions (sys_server (command_system c))) !! p = Some ss → connected ss = false)
       ∧ (∀ st, cm_server c = RunServing st → listening st = None ∧ expiry_running st = false)
       ∧ (exit_code (broker_main err) = 0 → run_ctx (cm_server c) ≠ None))
  ∧ (ending c → ∃ es' c' err, command_run kdf es' c = Some c' ∧ cm_phase c' = RunReturned err).
Proof.
  intros Hreach Hbegin Hrun Hlt. pose proof (command_run_ok kdf _ [] es c0 c (command_begin_ok kdf _ _ _ Hbegin) Hrun) as Hok. cbn [app] in Hok.
  assert (0 <= msize (sys_handlers (command_system c))) by (unfold msize; lia). pose proof (start_events_le es) as Hle.
  assert (Hserve : ∀ st, cm_server c = RunServing st → starting_ok kdf (length (start_events es)) st).
  { intros st Hst. pose proof (co_server _ _ _ _ Hok) as Hsrv. rewrite Hst in Hsrv. destruct (cm_server c0) as [|st0] eqn:H0; [done|].
    unfold command_begin in Hbegin. cbn in Hbegin. injection Hbegin as <-. cbn [cm_server] in H0.
    destruct (Start_begin s listenFn) as [st1|] eqn:Hb; [|discriminate H0]. injection H0 as <-.
    exact (start_run_ok kdf (start_events es) 0 st1 st (begin_ok kdf s listenFn st1 Hreach Hb) ltac:(unfold len in *; lia) Hsrv). }
  split; [apply Hok|]. split.
  - intros err Hph. pose proof (co_phase _ _ _ _ Hok) as Hp. rewrite Hph in Hp. destruct Hp as [Hres Hrep]. split; [exact Hrep|].
    unfold command_system. pose proof (co_server _ _ _ _ Hok) as Hsrv. destruct (cm_server c) as [sys ctx err'|st].
    + unfold command_begin in Hbegin. cbn in Hbegin. injection Hbegin as <-. cbn [cm_server] in Hsrv.
      destruct (Start_begin s listenFn); [done|]. destruct Hsrv as [-> _].
      destruct (nothing_left kdf 0 0 (mkSystem s ∅) (reachable_sys_ok kdf 0 _ Hreach ltac:(done)) Hreach eq_refl) as [Hc Hw Hcl Hs].
      split_and!; try done. by injection Hres as <-.
    + cbn [run_result] in Hres. destruct (main st) as [| | | |err'] eqn:Hm; try discriminate Hres. injection Hres as ->.
      destruct (exited_ended kdf _ st err (Hserve st eq_refl) ltac:(unfold len in *; lia) Hm)
        as (Hli & Hrd & Hex & He & [Hc Hw Hcl Hs] & Hnil).
      split_and!; try done.
      * by intros st' [= <-].
      * intros Hcode. apply Hnil. by destruct err.
  - intros Hend. unfold ending, command_system in *. destruct (cm_server c) as [sys ctx err'|st] eqn:Hsrv.
    { eapply run_returns; [exact Hok|by rewrite Hsrv]. }
    destruct (start_can_end kdf _ st (Hserve st eq_refl) ltac:(unfold len in *; lia) Hend) as (es1 & st1 & err & Hrun1 & Hexit).
    destruct c as [srv can rep last log ph]. cbn [cm_server] in Hsrv. subst srv.
    pose proof (run_server kdf es1 st st1 can rep last log ph Hrun1) as Hrun2.
    pose proof (command_run_ok kdf _ es _ _ _ Hok Hrun2) as Hok2.
    destruct (run_returns kdf _ _ _ err Hok2) as (es3 & c3 & err3 & Hrun3 & Hph3); [cbn; by rewrite Hexit|].
    exists ((CmServer <$> es1) ++ es3), c3, err3. split; [|exact Hph3]. by rewrite (command_run_app kdf _ _ _ _ Hrun2).
Qed.

(** Why the password command does not come to print a hash. *)
Definition no_hash (kdf : bytes → bytes → Z → Z → result bytes) (salt : bytes) (nargs : Z) (stdin : Reader) : Prop :=
  nargs ≠ 1 ∨ rd_err stdin ≠ EOF ∨ 65535 < len (rd_data stdin) ∨ ∃ err, HashPassword kdf salt (rd_data stdin) = Error err.

Lemma run_password_refuses kdf salt stdin err : run_password kdf salt stdin = Error err → no_hash kdf salt 1 stdin.
Proof.
  intros Hrun. destruct stdin as [data e]. unfold no_hash. cbn [rd_data rd_err].
  destruct (decide (e = EOF)) as [->|Hne]; [|by right; left]. destruct (Z.ltb_spec password_limit (len data)) as [Hlt|Hle]; [by right; right; left|].
  rewrite (run_password_whole kdf salt data Hle) in Hrun. right. right. right.
  destruct (HashPassword kdf salt data) as [hash|err']; [discriminate Hrun|by exists err'].
Qed.

Lemma password_main_cases kdf salt {W} `{!IoWriter W} nargs stdin (stdout : W) :
  let '(ended, stdout') := password_main kdf salt nargs stdin stdout in
  (∃ err, ended = mkEnd 1 [err] ∧ no_hash kdf salt nargs stdin ∧ stdout' = stdout)
  ∨ (¬ no_hash kdf salt nargs stdin ∧ ∃ hash, HashPassword kdf salt (rd_data stdin) = Ok hash
     ∧ match write_bytes (hash ++ [10]) stdout with
       | (None, w) => ended = mkEnd 0 [] ∧ stdout' = w
       | (Some err, w) => ended = mkEnd 1 [err] ∧ stdout' = w
       end).
Proof.
  unfold password_main. destruct (Z.eqb_spec nargs 1) as [->|Hn]; cbn [negb]; [|left; eexists; split_and!; [done|by left|done]].
  unfold run_password_to. destruct (run_password kdf salt stdin) as [line|err] eqn:Hrun.
  - destruct (run_password_line kdf salt stdin line Hrun) as (He & Hle & hash & Hh & ->).
    destruct (write_bytes (hash ++ [10]) stdout) as [err stdout'] eqn:Hw.
    assert (Hno : ¬ no_hash kdf salt 1 stdin).
    { intros [H|[H|[H|(e & H)]]]; [done|done| |congruence]. change 65535 with password_limit in H. lia. }
    destruct err as [err|]; right; (split; [exact Hno|]; exists hash; split; [exact Hh|]; rewrite Hw; by split).
  - left. exists err. split_and!; [done|by eapply run_password_refuses|done].
Qed.

(** C38: the password command.  It prints a hash of its standard input exactly when it
    has no arguments, the input ends without an error and within the longest password, and the
    hash could be made: the hash then verifies exactly the passwords that PBKDF2 maps to
    the same key.  The exit code is 0 when that line was written and 1, with an error
    printed, when writing failed; then a prefix of it is in the output.  In all
    other cases the exit code is 1 with an error printed, and nothing is written. *)
Theorem password_main_exact kdf salt {W} `{!IoWriter W} (written : W → bytes) `{!IoWriterSpec W written} nargs stdin stdout :
  (∀ p s n l k, kdf p s n l = Ok k → len k = l ∧ Forall is_byte k) → Forall is_byte salt → len salt = 16 →
  let '(ended, stdout') := password_main kdf salt nargs stdin stdout in
  (∃ err, ended = mkEnd 1 [err] ∧ no_hash kdf salt nargs stdin ∧ stdout' = stdout)
  ∨ (¬ no_hash kdf salt nargs stdin ∧ ∃ hash out,
     (∀ password, VerifyPassword kdf hash password = None ↔
        kdf password salt passwordIterations 32 = kdf (rd_data stdin) salt passwordIterations 32)
     ∧ written stdout' = written stdout ++ out
     ∧ ((ended = mkEnd 0 [] ∧ out = hash ++ [10]) ∨ (∃ err, ended = mkEnd 1 [err] ∧ out `prefix_of` hash ++ [10]))).
Proof.
  intros Hkdf Hs Hl. pose proof (password_main_cases kdf salt nargs stdin stdout) as Hc.
  destruct (password_main kdf salt nargs stdin stdout) as [ended stdout']. destruct Hc as [Hc|(Hno & hash & Hh & Hc)]; [by left|right].
  split; [exact Hno|]. pose proof (writes_bytes written (hash ++ [10]) stdout) as Hw.
  pose proof (HashPassword_verifies kdf salt (rd_data stdin) hash Hkdf Hs Hl Hh) as Hv.
  destruct (write_bytes (hash ++ [10]) stdout) as [[err|] w]; destruct Hc as [-> ->], Hw as (out & Ho & Hp & He); exists hash, out.
  - split; [exact Hv|]. split; [exact Ho|]. right. by exists err.
  - split; [exact Hv|]. split; [exact Ho|]. by left.
Qed.

(** * Witnesses *)

Lemma password_main_exact_witness :
  let kdf := λ p s n l, if 0 <=? l then example_kdf p s n l else Error EOF in
  ∃ hash, password_main kdf (replicate 16 5) 1 (mkReader (bs "secret") EOF) [] = (mkEnd 0 [], hash ++ [10])
    ∧ VerifyPassword kdf hash (bs "secret") = None.
Proof.
  intros kdf.
  assert (Hkdf : ∀ p s n l k, kdf p s n l = Ok k → len k = l ∧ Forall is_byte k).
  { intros p s n l k. unfold kdf. destruct (Z.leb_spec 0 l) as [Hl|Hl]; [|discriminate]. apply example_kdf_ok, Hl. }
  assert (Hcode : exit_code (password_main kdf (replicate 16 5) 1 (mkReader (bs "secret") EOF) []).1 = 0) by (vm_compute; reflexivity).
  pose proof (password_main_exact kdf (replicate 16 5) (λ buf, buf) 1 (mkReader (bs "secret") EOF) [] Hkdf
    ltac:(repeat constructor; lia) eq_refl) as Hx.
  destruct (password_main kdf (replicate 16 5) 1 (mkReader (bs "secret") EOF) []) as [ended out]. cbn [fst] in Hcode.
  destruct Hx as [(err & -> & _)|(_ & hash & out' & Hv & Ho & Hx)]; [discriminate Hcode|].
  destruct Hx as [[-> ->]|(err & -> & _)]; [|discriminate Hcode].
  exists hash. split; [by rewrite Ho|]. apply Hv. reflexivity.
Defined.

(** The broker command with an accepted configuration: a tick, a signal, the end. *)
Definition example_sources : Sources := mkSources zero_snapshot (mkServerStats 0 0 0 0 0 0) (mkRetainedStats 0 0 0).
Definition example_command : list command_event :=
  [CmTick (at_summary example_sources); CmServer (SCancel EOF); CmServer (SAccept (AcceptError false)); CmPropagate; CmServer SCloseListener; CmServer SCloseAll;
   CmServer SReturn; CmServer SReturn; CmServer SReturn; CmReportsEnd; CmReturn; CmReturn].

Definition example_server : Server :=
  Server_New (bs "127.0.0.1:1883") (mkBroker NewTree ∅ DefaultRetainedLimits (mkRetainedStats 0 0 0)) (mkStore ∅ ∅ DefaultLimits zero_snapshot) [].
Definition example_begun : result Command := command_begin (Ok (Defaults, mkSystem example_server ∅)) (λ _ _, None).

Lemma broker_command_ends_witness :
  ∃ c0 c, example_begun = Ok c0 ∧ command_run no_kdf example_command c0 = Some c ∧ cm_phase c = RunReturned None
    ∧ cm_log c = summary_tick example_sources ∧ sys_handlers (command_system c) = ∅ ∧ run_ctx (cm_server c) ≠ None.
Proof.
  destruct example_begun as [c0|] eqn:Hb; [|discriminate Hb].
  assert (Hx : match example_begun with
    | Ok c0 => match command_run no_kdf example_command c0 with
               | Some c => bool_decide (cm_phase c = RunReturned None) && (msize (sys_handlers (command_system c)) =? 0)
               | None => false end
    | Error _ => false end = true) by (vm_compute; reflexivity).
  rewrite Hb in Hx. destruct (command_run no_kdf example_command c0) as [c|] eqn:Hrun; [|discriminate Hx].
  apply andb_true_iff in Hx as [Hph Hsize]. apply bool_decide_eq_true_1 in Hph. apply Z.eqb_eq in Hsize.
  assert (Hreach : sys_reachable no_kdf 0 (mkSystem example_server ∅)).
  { apply (started_reachable no_kdf DefaultLimits DefaultRetainedLimits); [reflexivity|reflexivity|constructor|vm_compute; reflexivity]. }
  destruct (broker_command_ends no_kdf Defaults example_server (λ _ _, None) c0 example_command c Hreach Hb Hrun) as (Hlog & Hend & _); [rewrite Hsize; reflexivity|].
  destruct (Hend None Hph) as (_ & Hh & _ & _ & _ & _ & _ & Hctx).
  exists c0, c. split_and!; [reflexivity|exact Hrun|exact Hph|rewrite Hlog; reflexivity|exact Hh|by apply Hctx].
Defined.
